(** * xenofde-backend: the ingestion and reconciliation engine

    A shallow embedding of the TypeScript sources

      - [services/shopify.service.ts]   (the remote collection client),
      - [services/ingestion.service.ts] (mapper, reconciler, orchestrator),
      - [scheduler/sync.scheduler.ts]   (the scheduled cycle),
      - [routes/webhook.routes.ts]      (event intake),

    together with the part of the SQL migration that the code relies on
    (primary keys and the unique index on (tenantId, shopifyId)).

    Asynchronous functions are written in a free monad [Proc] whose only
    effect is [Await op k]: every [await] of the source on an HTTP request or
    on a Prisma call is one node.  A sequential interpreter [run] executes one
    such function against a remote [World] and a [Store]; an event loop
    ([EventLoop]) interleaves several of them, which is what
    [Promise.all] in [ingestAll] needs.

    What is abstracted:
      - a JavaScript number is kept as an exact decimal ([number]); the
        rounding to binary64 is not modelled, only NaN, the infinities, zero
        and the decimal value;
      - [new Date(s)] keeps the string it was built from;
      - generated row ids (TEXT primary keys made by the Prisma client) are
        natural numbers drawn from a counter, so they are fresh and, like the
        generated strings, never falsy;
      - store operations do not fail for reasons of infrastructure, and
        foreign keys are not checked (every write of the code refers to a row
        it has just read or written);
      - a store operation takes effect atomically when its [await]
        completes;
      - the pagination loops have no bound in the source; here they take a
        page budget [fuel], and a loop that has used it up is [Spin], which
        never settles;
      - [JSON.parse] is a parameter of the webhook route. *)

From Stdlib Require Import List String Ascii Bool Arith ZArith NArith Lia.
From Stdlib Require Import DecimalString.
Import ListNotations.

Local Open Scope string_scope.
Local Open Scope list_scope.

Set Implicit Arguments.

(* ===================================================================== *)
(** * JavaScript values *)
(* ===================================================================== *)

Module JS.

(** A JavaScript [number]: NaN, an infinity, or (-1)^neg * mant * 10^exp. *)
Inductive number : Type :=
| NaN
| Infinity (neg : bool)
| Finite (neg : bool) (mant : N) (exp : Z).

Definition zero : number := Finite false 0 0.

Definition isNaN (n : number) : bool :=
  match n with NaN => true | _ => false end.

(** Truthiness of a number: NaN, +0 and -0 are falsy. *)
Definition truthyNum (n : number) : bool :=
  match n with
  | NaN => false
  | Infinity _ => true
  | Finite _ m _ => negb (m =? 0)%N
  end.

(** Truthiness of a string: only the empty string is falsy. *)
Definition truthy (s : string) : bool :=
  match s with EmptyString => false | String _ _ => true end.

(** [x || d] on numbers. *)
Definition numOr (x d : number) : number := if truthyNum x then x else d.

(** [x || null] where [x] is an optional string. *)
Definition orNull (x : option string) : option string :=
  match x with
  | Some s => if truthy s then Some s else None
  | None => None
  end.

(** [x || d] where [x] is an optional string. *)
Definition strOr (x : option string) (d : string) : string :=
  match orNull x with Some s => s | None => d end.

(** [x || d] where [x] is an integer. *)
Definition zOr (x d : Z) : Z := if (x =? 0)%Z then d else x.

(** [x || d] where [x] is an optional integer. *)
Definition intOr (x : option Z) (d : Z) : Z :=
  match x with
  | Some z => zOr z d
  | None => d
  end.

(** [n.toString()] for an integral number. *)
Definition toStringZ (z : Z) : string := NilZero.string_of_int (Z.to_int z).

(** ** [parseFloat]

    ECMAScript's [parseFloat]: leading white space is skipped, then the
    longest prefix that is a [StrDecimalLiteral] is read; when there is
    none the result is NaN.  Two limits: of the white space only the
    ASCII characters are skipped, and the value read is kept as the
    decimal it is written as, neither rounded to a double nor turned into
    an infinity when it is too large for one. *)

Definition isWhite (c : ascii) : bool :=
  let n := nat_of_ascii c in
  Nat.eqb n 32 || (Nat.leb 9 n && Nat.leb n 13).

Definition isDigit (c : ascii) : bool :=
  let n := nat_of_ascii c in Nat.leb 48 n && Nat.leb n 57.

Definition digitVal (c : ascii) : N := N.of_nat (nat_of_ascii c - 48).

Fixpoint skipWhite (s : string) : string :=
  match s with
  | String c r => if isWhite c then skipWhite r else s
  | EmptyString => s
  end.

(** Reads a run of digits: the accumulated value, how many were read, and
    the rest of the string. *)
Fixpoint digits (s : string) (acc : N) (n : nat) : N * nat * string :=
  match s with
  | String c r =>
      if isDigit c then digits r (acc * 10 + digitVal c)%N (S n) else (acc, n, s)
  | EmptyString => (acc, n, s)
  end.

Definition sign (s : string) : bool * string :=
  match s with
  | String "-" r => (true, r)
  | String "+" r => (false, r)
  | _ => (false, s)
  end.

Definition exponent (s : string) : Z :=
  match s with
  | String c r =>
      if (Ascii.eqb c "e" || Ascii.eqb c "E")%char then
        let '(eneg, r1) := sign r in
        let '(ev, ne, _) := digits r1 0%N 0 in
        if (ne =? 0)%nat then 0%Z
        else if eneg then (- Z.of_N ev)%Z else Z.of_N ev
      else 0%Z
  | EmptyString => 0%Z
  end.

Definition parseFloat (input : string) : number :=
  let '(neg, s1) := sign (skipWhite input) in
  if String.prefix "Infinity" s1 then Infinity neg
  else
    let '(ip, ni, s2) := digits s1 0%N 0 in
    let '(m, nf, s3) :=
      match s2 with
      | String "." r => digits r ip 0
      | _ => (ip, 0, s2)
      end in
    if (ni + nf =? 0)%nat then NaN
    else Finite neg m (exponent s3 - Z.of_nat nf).

(** [new Date(s)]: the model keeps the argument. *)
Inductive Date : Type := mkDate (iso : string).

(** [s ? new Date(s) : null]. *)
Definition dateOrNull (s : string) : option Date :=
  if truthy s then Some (mkDate s) else None.

(** [s ? parseFloat(s) : null] where [s] is an optional string. *)
Definition parseOrNull (x : option string) : option number :=
  match orNull x with Some s => Some (parseFloat s) | None => None end.

End JS.

(* ===================================================================== *)
(** * Remote records ([shopify.service.ts], the exported interfaces) *)
(* ===================================================================== *)

Module ShopifyCustomer.
Record t : Type := mk {
  id : string;
  email : option string;
  first_name : option string;
  last_name : option string;
  phone : option string;
  total_spent : string;
  orders_count : Z;
  created_at : string;
  updated_at : string
}.
End ShopifyCustomer.

Module ShopifyVariant.
Record t : Type := mk {
  price : string;
  compare_at_price : option string;
  inventory_quantity : option Z
}.
End ShopifyVariant.

Module ShopifyProduct.
Record t : Type := mk {
  id : string;
  title : string;
  handle : option string;
  vendor : option string;
  product_type : option string;
  status : option string;
  variants : list ShopifyVariant.t;
  created_at : string;
  updated_at : string
}.
End ShopifyProduct.

Module ShopifyLineItem.
Record t : Type := mk {
  id : string;
  product_id : option string;
  title : string;
  quantity : Z;
  price : string;
  total_discount : option string;
  sku : option string;
  variant_title : option string
}.
End ShopifyLineItem.

Module ShopifyCustomerRef.
Record t : Type := mk { id : string }.
End ShopifyCustomerRef.

Module ShopifyOrder.
Record t : Type := mk {
  id : string;
  order_number : option Z;
  email : option string;
  financial_status : option string;
  fulfillment_status : option string;
  total_price : string;
  subtotal_price : option string;
  total_tax : option string;
  total_discounts : option string;
  currency : option string;
  customer : option ShopifyCustomerRef.t;
  line_items : list ShopifyLineItem.t;
  created_at : string;
  updated_at : string
}.
End ShopifyOrder.

(* ===================================================================== *)
(** * Stored rows (the Prisma models, as the migration declares them) *)
(* ===================================================================== *)

Definition Id : Type := nat.
Definition TenantId : Type := string.
Definition Error : Type := string.

Module Tenant.
Record t : Type := mk {
  id : TenantId;
  shopDomain : string;
  accessToken : string;
  name : string;
  email : string
}.
End Tenant.

(** The [data] object of [ingestCustomers]. *)
Module Customer.
Record t : Type := mk {
  shopifyId : string;
  email : option string;
  firstName : option string;
  lastName : option string;
  phone : option string;
  totalSpent : JS.number;
  ordersCount : Z;
  shopifyCreatedAt : option JS.Date;
  shopifyUpdatedAt : option JS.Date
}.
End Customer.

(** The [data] object of [ingestProducts]. *)
Module Product.
Record t : Type := mk {
  shopifyId : string;
  title : string;
  handle : option string;
  vendor : option string;
  productType : option string;
  status : option string;
  price : option JS.number;
  compareAtPrice : option JS.number;
  inventoryQuantity : Z;
  shopifyCreatedAt : option JS.Date;
  shopifyUpdatedAt : option JS.Date
}.
End Product.

(** The [orderData] object of [ingestOrders]. *)
Module Order.
Record t : Type := mk {
  shopifyId : string;
  orderNumber : option string;
  email : option string;
  financialStatus : option string;
  fulfillmentStatus : option string;
  totalPrice : JS.number;
  subtotalPrice : option JS.number;
  totalTax : option JS.number;
  totalDiscounts : option JS.number;
  currency : string;
  customerId : option Id;
  shopifyCreatedAt : option JS.Date;
  shopifyUpdatedAt : option JS.Date
}.
End Order.

(** The [data] object of [prisma.orderItem.create]. *)
Module OrderItem.
Record t : Type := mk {
  orderId : Id;
  productId : option Id;
  shopifyProductId : option string;
  title : string;
  quantity : Z;
  price : JS.number;
  totalDiscount : option JS.number;
  sku : option string;
  variantTitle : option string
}.
End OrderItem.

(** A row of [customers], [products] or [orders]: the generated primary key,
    the tenant the row belongs to, and the mapped fields. *)
Record Row (D : Type) : Type := mkRow {
  id : Id;
  tenantId : TenantId;
  data : D
}.

(** A row of [order_items]. *)
Record ItemRow : Type := mkItemRow {
  itemId : Id;
  item : OrderItem.t
}.

Record Store : Type := mkStore {
  tenants : list Tenant.t;
  customers : list (Row Customer.t);
  products : list (Row Product.t);
  orders : list (Row Order.t);
  orderItems : list ItemRow;
  nextId : Id
}.

Definition emptyStore : Store := mkStore [] [] [] [] [] 0.

(** ** Table operations (what the Prisma client does on one table) *)

Section Table.
Variable D : Type.
Variable key : D -> string.

Definition hasKey (t : TenantId) (sid : string) (r : Row D) : bool :=
  String.eqb (tenantId r) t && String.eqb (key (data r)) sid.

(** [findUnique({ where: { tenantId_shopifyId: { tenantId, shopifyId } } })] *)
Definition findUnique (t : TenantId) (sid : string) (tbl : list (Row D))
  : option (Row D) :=
  find (hasKey t sid) tbl.

Definition findById (i : Id) (tbl : list (Row D)) : option (Row D) :=
  find (fun r => Nat.eqb (id r) i) tbl.

(** [update({ where: { id }, data })]: every mapped field is overwritten,
    the primary key and the tenant are kept. *)
Definition setData (i : Id) (d : D) (tbl : list (Row D)) : list (Row D) :=
  map (fun r => if Nat.eqb (id r) i then mkRow (id r) (tenantId r) d else r) tbl.

Definition countKey (t : TenantId) (sid : string) (tbl : list (Row D)) : nat :=
  List.length (filter (hasKey t sid) tbl).
End Table.

Definition itemsOf (oid : Id) (items : list ItemRow) : list ItemRow :=
  filter (fun r => Nat.eqb (OrderItem.orderId (item r)) oid) items.

Definition itemsNotOf (oid : Id) (items : list ItemRow) : list ItemRow :=
  filter (fun r => negb (Nat.eqb (OrderItem.orderId (item r)) oid)) items.

(* ===================================================================== *)
(** * The remote source and the awaited operations *)
(* ===================================================================== *)

(** The query parameters of a request: [limit], [status] and [page_info],
    each one present or not. *)
Record Params : Type := mkParams {
  limit : option Z;
  status : option string;
  page_info : option string
}.

(** A request without query parameters. *)
Definition noParams : Params := mkParams None None None.

(** The part of a JSON response body that the client reads. *)
Module ResponseData.
Record t : Type := mk {
  customers : option (list ShopifyCustomer.t);
  products : option (list ShopifyProduct.t);
  orders : option (list ShopifyOrder.t);
  customer : option ShopifyCustomer.t;
  product : option ShopifyProduct.t;
  order : option ShopifyOrder.t
}.
Definition empty : t := mk None None None None None None.
End ResponseData.

(** An axios response: [response.data] and [response.headers.link]. *)
Record Response : Type := mkResponse {
  rdata : ResponseData.t;
  link : option string
}.

(** The remote source: what a GET of [path] with [params], sent to
    [shopDomain] with [accessToken], is answered with.  [inl e] is a rejected
    request (transport failure, or a status outside 2xx). *)
Record World : Type := mkWorld {
  http : string -> string -> string -> Params -> Error + Response
}.

Inductive Op : Type :=
| HttpGet (shopDomain accessToken path : string) (params : Params)
| TenantFindMany
| TenantFindUnique (shopDomain : string)
| CustomerFindUnique (t : TenantId) (shopifyId : string)
| CustomerCreate (t : TenantId) (d : Customer.t)
| CustomerUpdate (i : Id) (d : Customer.t)
| ProductFindUnique (t : TenantId) (shopifyId : string)
| ProductCreate (t : TenantId) (d : Product.t)
| ProductUpdate (i : Id) (d : Product.t)
| OrderFindUnique (t : TenantId) (shopifyId : string)
| OrderCreate (t : TenantId) (d : Order.t)
| OrderUpdate (i : Id) (d : Order.t)
| OrderItemDeleteMany (orderId : Id)
| OrderItemCreate (d : OrderItem.t).

(** What the awaited promise resolves to. *)
Definition Resp (op : Op) : Type :=
  match op with
  | HttpGet _ _ _ _ => Response
  | TenantFindMany => list Tenant.t
  | TenantFindUnique _ => option Tenant.t
  | CustomerFindUnique _ _ => option (Row Customer.t)
  | CustomerCreate _ _ | CustomerUpdate _ _ => Row Customer.t
  | ProductFindUnique _ _ => option (Row Product.t)
  | ProductCreate _ _ | ProductUpdate _ _ => Row Product.t
  | OrderFindUnique _ _ => option (Row Order.t)
  | OrderCreate _ _ | OrderUpdate _ _ => Row Order.t
  | OrderItemDeleteMany _ => nat
  | OrderItemCreate _ => ItemRow
  end.

Definition uniqueViolation : Error :=
  "Unique constraint failed on the fields: (`tenantId`,`shopifyId`)".
Definition recordNotFound : Error := "Record to update not found.".

Definition setCustomers (s : Store) (v : list (Row Customer.t)) (n : Id) : Store :=
  mkStore (tenants s) v (products s) (orders s) (orderItems s) n.
Definition setProducts (s : Store) (v : list (Row Product.t)) (n : Id) : Store :=
  mkStore (tenants s) (customers s) v (orders s) (orderItems s) n.
Definition setOrders (s : Store) (v : list (Row Order.t)) (n : Id) : Store :=
  mkStore (tenants s) (customers s) (products s) v (orderItems s) n.
Definition setOrderItems (s : Store) (v : list ItemRow) (n : Id) : Store :=
  mkStore (tenants s) (customers s) (products s) (orders s) v n.

Section Writes.
Variable D : Type.
Variable key : D -> string.

(** [create({ data: { ...data, tenantId } })]: refused by the unique index
    when the natural key is taken, otherwise a row with a fresh id. *)
Definition createRow (t : TenantId) (d : D) (tbl : list (Row D)) (next : Id)
  : Error + Row D * list (Row D) :=
  match findUnique key t (key d) tbl with
  | Some _ => inl uniqueViolation
  | None => let r := mkRow next t d in inr (r, tbl ++ [r])
  end.

(** [update({ where: { id }, data })]. *)
Definition updateRow (i : Id) (d : D) (tbl : list (Row D))
  : Error + Row D * list (Row D) :=
  match findById i tbl with
  | Some r => inr (mkRow (id r) (tenantId r) d, setData i d tbl)
  | None => inl recordNotFound
  end.
End Writes.

(** The effect of one awaited operation on the store, and its answer. *)
Definition perform (w : World) (op : Op) (s : Store) : (Error + Resp op) * Store :=
  match op as o return (Error + Resp o) * Store with
  | HttpGet shop token path params => (http w shop token path params, s)
  | TenantFindMany => (inr (tenants s), s)
  | TenantFindUnique shop =>
      (inr (find (fun t => String.eqb (Tenant.shopDomain t) shop) (tenants s)), s)
  | CustomerFindUnique t sid => (inr (findUnique Customer.shopifyId t sid (customers s)), s)
  | CustomerCreate t d =>
      match createRow Customer.shopifyId t d (customers s) (nextId s) with
      | inl e => (inl e, s)
      | inr (r, tbl) => (inr r, setCustomers s tbl (S (nextId s)))
      end
  | CustomerUpdate i d =>
      match updateRow i d (customers s) with
      | inl e => (inl e, s)
      | inr (r, tbl) => (inr r, setCustomers s tbl (nextId s))
      end
  | ProductFindUnique t sid => (inr (findUnique Product.shopifyId t sid (products s)), s)
  | ProductCreate t d =>
      match createRow Product.shopifyId t d (products s) (nextId s) with
      | inl e => (inl e, s)
      | inr (r, tbl) => (inr r, setProducts s tbl (S (nextId s)))
      end
  | ProductUpdate i d =>
      match updateRow i d (products s) with
      | inl e => (inl e, s)
      | inr (r, tbl) => (inr r, setProducts s tbl (nextId s))
      end
  | OrderFindUnique t sid => (inr (findUnique Order.shopifyId t sid (orders s)), s)
  | OrderCreate t d =>
      match createRow Order.shopifyId t d (orders s) (nextId s) with
      | inl e => (inl e, s)
      | inr (r, tbl) => (inr r, setOrders s tbl (S (nextId s)))
      end
  | OrderUpdate i d =>
      match updateRow i d (orders s) with
      | inl e => (inl e, s)
      | inr (r, tbl) => (inr r, setOrders s tbl (nextId s))
      end
  | OrderItemDeleteMany oid =>
      (inr (List.length (itemsOf oid (orderItems s))),
       setOrderItems s (itemsNotOf oid (orderItems s)) (nextId s))
  | OrderItemCreate d =>
      let r := mkItemRow (nextId s) d in
      (inr r, setOrderItems s (orderItems s ++ [r]) (S (nextId s)))
  end.

(* ===================================================================== *)
(** * Asynchronous functions *)
(* ===================================================================== *)

(** An [async] function body: it returns, throws, or awaits an operation and
    goes on with what the promise settled to ([inl e]: it rejected with [e]).
    [Spin] stands for a loop that has used up the page budget of the model
    (see [paginate]) and is still running. *)
Inductive Proc (A : Type) : Type :=
| Ret (a : A)
| Throw (e : Error)
| Spin
| Await (op : Op) (k : Error + Resp op -> Proc A).

Arguments Ret {A} a.
Arguments Throw {A} e.
Arguments Spin {A}.
Arguments Await {A} op k.

Fixpoint bind {A B : Type} (m : Proc A) (f : A -> Proc B) : Proc B :=
  match m with
  | Ret a => f a
  | Throw e => Throw e
  | Spin => Spin
  | Await op k => Await op (fun r => bind (k r) f)
  end.

(** [try { m } catch (error) { h error }] *)
Fixpoint tryCatch {A : Type} (m : Proc A) (h : Error -> Proc A) : Proc A :=
  match m with
  | Ret a => Ret a
  | Throw e => h e
  | Spin => Spin
  | Await op k => Await op (fun r => tryCatch (k r) h)
  end.

(** [await op]: a rejected promise is thrown at the [await]. *)
Definition call (op : Op) : Proc (Resp op) :=
  Await op (fun r => match r with inl e => Throw e | inr v => Ret v end).

Declare Scope proc_scope.
Delimit Scope proc_scope with proc.
Notation "x <- m ;; k" := (bind m (fun x => k))
  (at level 61, m at next level, right associativity) : proc_scope.
Local Open Scope proc_scope.

Inductive Outcome (A : Type) : Type :=
| Returned (a : A)
| Thrown (e : Error)
| Unfinished.

Arguments Returned {A} a.
Arguments Thrown {A} e.
Arguments Unfinished {A}.

(** Runs one asynchronous function on its own, to its end: the outcome, the
    store it leaves, and the operations it awaited, in order. *)
Fixpoint run {A : Type} (w : World) (p : Proc A) (s : Store)
  : Outcome A * Store * list Op :=
  match p with
  | Ret a => (Returned a, s, [])
  | Throw e => (Thrown e, s, [])
  | Spin => (Unfinished, s, [])
  | Await op k =>
      let '(r, s1) := perform w op s in
      let '(o, s2, tr) := run w (k r) s1 in
      (o, s2, op :: tr)
  end.

(* ===================================================================== *)
(** * [ShopifyService]: the remote collection client *)
(* ===================================================================== *)

(** The two fields of the class; the axios client built from them sends
    every request to [shopDomain] with [accessToken] in its headers. *)
Record ShopifyService : Type := mkShopifyService {
  shopDomain : string;
  accessToken : string
}.

Definition clientGet (this : ShopifyService) (path : string) (params : Params)
  : Proc Response :=
  call (HttpGet (shopDomain this) (accessToken this) path params).

(** ** The pagination link

    [linkHeader.match(/<[^>]*page_info=([^&>]+)[^>]*>; rel="next"/)]: the
    leftmost [<] from which the pattern matches; between it and the next [>]
    the first greedy star settles on the last [page_info=] that is followed
    by a character other than [&], and the group is the longest run without
    [&] after it. *)
Module Link.

Fixpoint takeUntil (stop : ascii) (s : string) : string :=
  match s with
  | String c r => if Ascii.eqb c stop then EmptyString else String c (takeUntil stop r)
  | EmptyString => EmptyString
  end.

(** Splits at the first [stop]: what is before it and what is after it. *)
Fixpoint splitAt (stop : ascii) (s : string) : option (string * string) :=
  match s with
  | String c r =>
      if Ascii.eqb c stop then Some (EmptyString, r)
      else match splitAt stop r with
           | Some (a, b) => Some (String c a, b)
           | None => None
           end
  | EmptyString => None
  end.

Fixpoint drop (n : nat) (s : string) : string :=
  match n, s with
  | S n', String _ r => drop n' r
  | _, _ => s
  end.

(** [page_info=([^&>]+)] read at the head of [seg] ([seg] holds no [>]). *)
Definition captureHere (seg : string) : option string :=
  if String.prefix "page_info=" seg then
    let cap := takeUntil "&" (drop 10 seg) in
    if JS.truthy cap then Some cap else None
  else None.

Fixpoint lastPageInfo (seg : string) : option string :=
  match seg with
  | EmptyString => None
  | String _ r =>
      match lastPageInfo r with
      | Some cap => Some cap
      | None => captureHere seg
      end
  end.

Definition dquote : string := String (ascii_of_nat 34) EmptyString.

(** The text that has to follow the closing [>]: ; rel= and the word next
    between double quotes. *)
Definition relNext : string := "; rel=" ++ dquote ++ "next" ++ dquote.

(** The pattern tried right after a [<]. *)
Definition matchAfterOpen (s : string) : option string :=
  match splitAt ">" s with
  | Some (seg, after) =>
      if String.prefix relNext after then lastPageInfo seg else None
  | None => None
  end.

(** [nextMatch ? nextMatch[1] : null] *)
Fixpoint nextMatch (linkHeader : string) : option string :=
  match linkHeader with
  | EmptyString => None
  | String c r =>
      if Ascii.eqb c "<" then
        match matchAfterOpen r with
        | Some cap => Some cap
        | None => nextMatch r
        end
      else nextMatch r
  end.

End Link.

(** [pageInfo] after a response: the group of the match when there is a link
    header and it matches, [null] otherwise. *)
Definition nextPageInfo (response : Response) : option string :=
  match JS.orNull (link response) with
  | Some linkHeader => Link.nextMatch linkHeader
  | None => None
  end.

(** The [do { ... } while (pageInfo)] loop that [getCustomers], [getProducts]
    and [getOrders] each contain, the same up to the path, the [status]
    parameter and the key read from the body.  [fuel] bounds the number of
    pages of the model; the source has no bound. *)
Fixpoint paginate {X : Type} (fuel : nat) (this : ShopifyService) (path : string)
    (limit : Z) (status : option string)
    (key : ResponseData.t -> option (list X))
    (pageInfo : option string) (all : list X) : Proc (list X) :=
  match fuel with
  | O => Spin
  | S fuel' =>
      response <- clientGet this path (mkParams (Some limit) status (JS.orNull pageInfo)) ;;
      let page := match key (rdata response) with Some l => l | None => [] end in
      let all' := all ++ page in
      match JS.orNull (nextPageInfo response) with
      | Some next => paginate fuel' this path limit status key (Some next) all'
      | None => Ret all'
      end
  end.

Definition getCustomers (fuel : nat) (this : ShopifyService) (limit : Z)
  : Proc (list ShopifyCustomer.t) :=
  paginate fuel this "/customers.json" limit None ResponseData.customers None [].

Definition getProducts (fuel : nat) (this : ShopifyService) (limit : Z)
  : Proc (list ShopifyProduct.t) :=
  paginate fuel this "/products.json" limit None ResponseData.products None [].

Definition getOrders (fuel : nat) (this : ShopifyService) (limit : Z) (status : string)
  : Proc (list ShopifyOrder.t) :=
  paginate fuel this "/orders.json" limit (Some status) ResponseData.orders None [].

(** [try { const response = await this.client.get(path); return key || null }
     catch (error) { return null }] *)
Definition getOne {X : Type} (this : ShopifyService) (path : string)
    (key : ResponseData.t -> option X) : Proc (option X) :=
  tryCatch
    (response <- clientGet this path noParams ;;
     Ret (key (rdata response)))
    (fun _ => Ret None).

Definition getCustomer (this : ShopifyService) (customerId : string)
  : Proc (option ShopifyCustomer.t) :=
  getOne this ("/customers/" ++ customerId ++ ".json") ResponseData.customer.

Definition getProduct (this : ShopifyService) (productId : string)
  : Proc (option ShopifyProduct.t) :=
  getOne this ("/products/" ++ productId ++ ".json") ResponseData.product.

Definition getOrder (this : ShopifyService) (orderId : string)
  : Proc (option ShopifyOrder.t) :=
  getOne this ("/orders/" ++ orderId ++ ".json") ResponseData.order.

(* ===================================================================== *)
(** * [IngestionService]: mapper, reconciler, orchestrator *)
(* ===================================================================== *)

Record IngestionService : Type := mkIngestionService {
  shopifyService : ShopifyService;
  serviceTenantId : TenantId
}.

(** [new IngestionService(tenantId, shopDomain, accessToken)] *)
Definition newIngestionService (tenantId shopDomain accessToken : string)
  : IngestionService :=
  mkIngestionService (mkShopifyService shopDomain accessToken) tenantId.

Record Counts : Type := mkCounts {
  created : nat;
  updated : nat
}.

(** ** The mapped objects *)

Definition customerData (c : ShopifyCustomer.t) : Customer.t :=
  Customer.mk
    (ShopifyCustomer.id c)
    (JS.orNull (ShopifyCustomer.email c))
    (JS.orNull (ShopifyCustomer.first_name c))
    (JS.orNull (ShopifyCustomer.last_name c))
    (JS.orNull (ShopifyCustomer.phone c))
    (JS.numOr (JS.parseFloat (ShopifyCustomer.total_spent c)) JS.zero)
    (JS.zOr (ShopifyCustomer.orders_count c) 0)
    (JS.dateOrNull (ShopifyCustomer.created_at c))
    (JS.dateOrNull (ShopifyCustomer.updated_at c)).

Definition productData (p : ShopifyProduct.t) : Product.t :=
  let firstVariant := hd_error (ShopifyProduct.variants p) in
  let price :=
    match firstVariant with
    | Some v => Some (JS.parseFloat (ShopifyVariant.price v))
    | None => None
    end in
  let compareAtPrice :=
    match firstVariant with
    | Some v => JS.parseOrNull (ShopifyVariant.compare_at_price v)
    | None => None
    end in
  let inventoryQuantity :=
    match firstVariant with
    | Some v => JS.intOr (ShopifyVariant.inventory_quantity v) 0
    | None => 0%Z
    end in
  Product.mk
    (ShopifyProduct.id p)
    (ShopifyProduct.title p)
    (JS.orNull (ShopifyProduct.handle p))
    (JS.orNull (ShopifyProduct.vendor p))
    (JS.orNull (ShopifyProduct.product_type p))
    (JS.orNull (ShopifyProduct.status p))
    price
    compareAtPrice
    inventoryQuantity
    (JS.dateOrNull (ShopifyProduct.created_at p))
    (JS.dateOrNull (ShopifyProduct.updated_at p)).

Definition orderData (o : ShopifyOrder.t) (customerId : option Id) : Order.t :=
  Order.mk
    (ShopifyOrder.id o)
    (JS.orNull (option_map JS.toStringZ (ShopifyOrder.order_number o)))
    (JS.orNull (ShopifyOrder.email o))
    (JS.orNull (ShopifyOrder.financial_status o))
    (JS.orNull (ShopifyOrder.fulfillment_status o))
    (JS.numOr (JS.parseFloat (ShopifyOrder.total_price o)) JS.zero)
    (JS.parseOrNull (ShopifyOrder.subtotal_price o))
    (JS.parseOrNull (ShopifyOrder.total_tax o))
    (JS.parseOrNull (ShopifyOrder.total_discounts o))
    (JS.strOr (ShopifyOrder.currency o) "USD")
    customerId
    (JS.dateOrNull (ShopifyOrder.created_at o))
    (JS.dateOrNull (ShopifyOrder.updated_at o)).

Definition orderItemData (orderId : Id) (productId : option Id)
    (li : ShopifyLineItem.t) : OrderItem.t :=
  OrderItem.mk
    orderId
    productId
    (JS.orNull (ShopifyLineItem.product_id li))
    (ShopifyLineItem.title li)
    (ShopifyLineItem.quantity li)
    (JS.numOr (JS.parseFloat (ShopifyLineItem.price li)) JS.zero)
    (JS.parseOrNull (ShopifyLineItem.total_discount li))
    (JS.orNull (ShopifyLineItem.sku li))
    (JS.orNull (ShopifyLineItem.variant_title li)).

(** ** The reconciliation loops *)

(** [for (const shopifyCustomer of shopifyCustomers) { ... }] with the two
    counters of [ingestCustomers]. *)
Fixpoint ingestCustomersLoop (tenantId : TenantId) (l : list ShopifyCustomer.t)
    (created updated : nat) : Proc Counts :=
  match l with
  | [] => Ret (mkCounts created updated)
  | shopifyCustomer :: rest =>
      existing <- call (CustomerFindUnique tenantId (ShopifyCustomer.id shopifyCustomer)) ;;
      let data := customerData shopifyCustomer in
      match existing with
      | Some e =>
          _ <- call (CustomerUpdate (id e) data) ;;
          ingestCustomersLoop tenantId rest created (S updated)
      | None =>
          _ <- call (CustomerCreate tenantId data) ;;
          ingestCustomersLoop tenantId rest (S created) updated
      end
  end.

Definition ingestCustomers (fuel : nat) (this : IngestionService) : Proc Counts :=
  shopifyCustomers <- getCustomers fuel (shopifyService this) 250 ;;
  ingestCustomersLoop (serviceTenantId this) shopifyCustomers 0 0.

Fixpoint ingestProductsLoop (tenantId : TenantId) (l : list ShopifyProduct.t)
    (created updated : nat) : Proc Counts :=
  match l with
  | [] => Ret (mkCounts created updated)
  | shopifyProduct :: rest =>
      existing <- call (ProductFindUnique tenantId (ShopifyProduct.id shopifyProduct)) ;;
      let data := productData shopifyProduct in
      match existing with
      | Some e =>
          _ <- call (ProductUpdate (id e) data) ;;
          ingestProductsLoop tenantId rest created (S updated)
      | None =>
          _ <- call (ProductCreate tenantId data) ;;
          ingestProductsLoop tenantId rest (S created) updated
      end
  end.

Definition ingestProducts (fuel : nat) (this : IngestionService) : Proc Counts :=
  shopifyProducts <- getProducts fuel (shopifyService this) 250 ;;
  ingestProductsLoop (serviceTenantId this) shopifyProducts 0 0.

(** [customerId] of an order: looked up when the order carries a customer
    with a truthy id, [null] otherwise. *)
Definition resolveCustomer (tenantId : TenantId) (o : ShopifyOrder.t)
  : Proc (option Id) :=
  match ShopifyOrder.customer o with
  | Some c =>
      if JS.truthy (ShopifyCustomerRef.id c) then
        customer <- call (CustomerFindUnique tenantId (ShopifyCustomerRef.id c)) ;;
        Ret (option_map (@id _) customer)
      else Ret None
  | None => Ret None
  end.

(** [productId] of a line item. *)
Definition resolveProduct (tenantId : TenantId) (li : ShopifyLineItem.t)
  : Proc (option Id) :=
  match JS.orNull (ShopifyLineItem.product_id li) with
  | Some pid =>
      product <- call (ProductFindUnique tenantId pid) ;;
      Ret (option_map (@id _) product)
  | None => Ret None
  end.

(** [for (const item of shopifyOrder.line_items) { ... }] *)
Fixpoint ingestLineItems (tenantId : TenantId) (orderId : Id)
    (items : list ShopifyLineItem.t) : Proc unit :=
  match items with
  | [] => Ret tt
  | li :: rest =>
      productId <- resolveProduct tenantId li ;;
      _ <- call (OrderItemCreate (orderItemData orderId productId li)) ;;
      ingestLineItems tenantId orderId rest
  end.

(** [if (shopifyOrder.line_items && shopifyOrder.line_items.length > 0)
      { deleteMany; for ... create }] *)
Definition replaceItems (tenantId : TenantId) (orderId : Id)
    (items : list ShopifyLineItem.t) : Proc unit :=
  match items with
  | [] => Ret tt
  | _ :: _ =>
      _ <- call (OrderItemDeleteMany orderId) ;;
      ingestLineItems tenantId orderId items
  end.

Fixpoint ingestOrdersLoop (tenantId : TenantId) (l : list ShopifyOrder.t)
    (created updated : nat) : Proc Counts :=
  match l with
  | [] => Ret (mkCounts created updated)
  | shopifyOrder :: rest =>
      existing <- call (OrderFindUnique tenantId (ShopifyOrder.id shopifyOrder)) ;;
      customerId <- resolveCustomer tenantId shopifyOrder ;;
      let orderData := orderData shopifyOrder customerId in
      match existing with
      | Some e =>
          order <- call (OrderUpdate (id e) orderData) ;;
          _ <- replaceItems tenantId (id order) (ShopifyOrder.line_items shopifyOrder) ;;
          ingestOrdersLoop tenantId rest created (S updated)
      | None =>
          order <- call (OrderCreate tenantId orderData) ;;
          _ <- replaceItems tenantId (id order) (ShopifyOrder.line_items shopifyOrder) ;;
          ingestOrdersLoop tenantId rest (S created) updated
      end
  end.

Definition ingestOrders (fuel : nat) (this : IngestionService) : Proc Counts :=
  shopifyOrders <- getOrders fuel (shopifyService this) 250 "any" ;;
  ingestOrdersLoop (serviceTenantId this) shopifyOrders 0 0.

(* ===================================================================== *)
(** * [crypto]: HMAC-SHA256 with a base64 digest *)
(* ===================================================================== *)

(** Node's [crypto.createHmac('sha256', key).update(body, 'utf8')
    .digest('base64')], written out (FIPS 180-4, RFC 2104, RFC 4648) so that
    signatures can be computed.  A string is the sequence of its bytes. *)
Module Crypto.
Local Open Scope N_scope.

Definition w32 : N := 4294967296.
Definition add32 (a b : N) : N := (a + b) mod w32.
Definition rotr (n x : N) : N :=
  N.lor (N.shiftr x n) (N.shiftl x (32 - n) mod w32).
Definition not32 (x : N) : N := N.lxor x (w32 - 1).

Definition Ch (x y z : N) : N := N.lxor (N.land x y) (N.land (not32 x) z).
Definition Maj (x y z : N) : N :=
  N.lxor (N.lxor (N.land x y) (N.land x z)) (N.land y z).
Definition bigSigma0 (x : N) : N := N.lxor (N.lxor (rotr 2 x) (rotr 13 x)) (rotr 22 x).
Definition bigSigma1 (x : N) : N := N.lxor (N.lxor (rotr 6 x) (rotr 11 x)) (rotr 25 x).
Definition sigma0 (x : N) : N := N.lxor (N.lxor (rotr 7 x) (rotr 18 x)) (N.shiftr x 3).
Definition sigma1 (x : N) : N := N.lxor (N.lxor (rotr 17 x) (rotr 19 x)) (N.shiftr x 10).

(** The round constants and the initial hash value are the first 32 bits
    of the fractional parts of the cube roots, and of the square roots, of
    the first primes (FIPS 180-4, 4.2.2 and 5.3.3). *)
Definition primes : list N :=
  [2; 3; 5; 7; 11; 13; 17; 19; 23; 29; 31; 37; 41; 43; 47; 53; 59; 61; 67; 71;
   73; 79; 83; 89; 97; 101; 103; 107; 109; 113; 127; 131; 137; 139; 149; 151;
   157; 163; 167; 173; 179; 181; 191; 193; 197; 199; 211; 223; 227; 229; 233;
   239; 241; 251; 257; 263; 269; 271; 277; 281; 283; 293; 307; 311].

(** The integer cube root, one bit after the other from [bit] down. *)
Fixpoint cubeRoot (bit : nat) (n x : N) : N :=
  let y := N.lor x (N.shiftl 1 (N.of_nat bit)) in
  let x1 := if y * y * y <=? n then y else x in
  match bit with
  | O => x1
  | S bit' => cubeRoot bit' n x1
  end.

Definition K : list N :=
  map (fun p => cubeRoot 35 (N.shiftl p 96) 0 mod w32) primes.

Definition H0 : list N :=
  map (fun p => N.sqrt (N.shiftl p 64) mod w32) (firstn 8 primes).

Definition bytesOf (s : string) : list N := map N_of_ascii (list_ascii_of_string s).

(** Big-endian bytes of [x], [n] of them. *)
Fixpoint bigEndian (n : nat) (x : N) : list N :=
  match n with
  | O => []
  | S n' => (N.shiftr x (8 * N.of_nat n') mod 256) :: bigEndian n' x
  end.

Definition pad (msg : list N) : list N :=
  let len := N.of_nat (List.length msg) in
  let zeros := N.to_nat ((55 + 64 - len mod 64) mod 64) in
  msg ++ [128] ++ repeat 0 zeros ++ bigEndian 8 (8 * len).

Fixpoint words (fuel : nat) (bs : list N) : list N :=
  match fuel, bs with
  | S f, a :: b :: c :: d :: rest =>
      (((a * 256 + b) * 256 + c) * 256 + d) :: words f rest
  | _, _ => []
  end.

(** The message schedule, most recent word first. *)
Fixpoint extend (n : nat) (rw : list N) : list N :=
  match n with
  | O => rw
  | S n' =>
      let w := add32 (add32 (sigma1 (nth 1 rw 0)) (nth 6 rw 0))
                     (add32 (sigma0 (nth 14 rw 0)) (nth 15 rw 0)) in
      extend n' (w :: rw)
  end.

Definition round (st : list N) (kw : N * N) : list N :=
  match st with
  | [a; b; c; d; e; f; g; h] =>
      let t1 := add32 (add32 (add32 h (bigSigma1 e)) (add32 (Ch e f g) (fst kw))) (snd kw) in
      let t2 := add32 (bigSigma0 a) (Maj a b c) in
      [add32 t1 t2; a; b; c; add32 d t1; e; f; g]
  | _ => st
  end.

Definition compress (h : list N) (block : list N) : list N :=
  let w := rev (extend 48 (rev block)) in
  map (fun p => add32 (fst p) (snd p)) (combine h (fold_left round (combine K w) h)).

Fixpoint blocks (fuel : nat) (ws : list N) (h : list N) : list N :=
  match fuel with
  | O => h
  | S f =>
      match ws with
      | [] => h
      | _ => blocks f (skipn 16 ws) (compress h (firstn 16 ws))
      end
  end.

Definition sha256 (msg : list N) : list N :=
  let bs := pad msg in
  let ws := words (List.length bs) bs in
  flat_map (bigEndian 4) (blocks (List.length ws) ws H0).

Definition hmacSha256 (key msg : list N) : list N :=
  let k0 := if 64 <? N.of_nat (List.length key) then sha256 key else key in
  let k := k0 ++ repeat 0 (64 - List.length k0) in
  sha256 (map (N.lxor 0x5c) k ++ sha256 (map (N.lxor 0x36) k ++ msg)).

Definition alphabet : string :=
  "ABCDEFGHIJKLMNOPQRSTUVWXYZabcdefghijklmnopqrstuvwxyz0123456789+/".

Definition sextet (n : N) : string :=
  match String.get (N.to_nat (n mod 64)) alphabet with
  | Some c => String c EmptyString
  | None => EmptyString
  end.

Fixpoint base64 (fuel : nat) (bs : list N) : string :=
  match fuel with
  | O => EmptyString
  | S f =>
      match bs with
      | [] => EmptyString
      | [a] =>
          let n := a * 65536 in
          sextet (N.shiftr n 18) ++ sextet (N.shiftr n 12) ++ "=="
      | [a; b] =>
          let n := a * 65536 + b * 256 in
          sextet (N.shiftr n 18) ++ sextet (N.shiftr n 12) ++ sextet (N.shiftr n 6) ++ "="
      | a :: b :: c :: rest =>
          let n := a * 65536 + b * 256 + c in
          sextet (N.shiftr n 18) ++ sextet (N.shiftr n 12) ++ sextet (N.shiftr n 6)
            ++ sextet n ++ base64 f rest
      end
  end%string.

(** [crypto.createHmac('sha256', secret).update(body, 'utf8').digest('base64')] *)
Definition hmacSha256Base64 (secret body : string) : string :=
  let mac := hmacSha256 (bytesOf secret) (bytesOf body) in
  base64 (List.length mac) mac.
End Crypto.

(* ===================================================================== *)
(** * The event loop and [ingestAll] *)
(* ===================================================================== *)

Inductive Entity : Type := Customers | Products | Orders.

(** Which ingestion of which tenant a task is. *)
Record Label : Type := mkLabel {
  owner : TenantId;
  entity : Entity
}.

Inductive Event : Type :=
| Started (l : Label)
| Awaited (l : Label) (op : Op)
| Settled (l : Label) (fulfilled : bool).

(** A promise of an ingestion: what is left of its body. *)
Record Task : Type := mkTask {
  label : Label;
  code : Proc Counts
}.

(** The store, the ingestions nobody awaits any more (their [Promise.all]
    has rejected) and the history. *)
Record EventLoop : Type := mkEventLoop {
  store : Store;
  strays : list Task;
  events : list Event
}.

Definition freshLoop (s : Store) : EventLoop := mkEventLoop s [] [].

Definition pending (t : Task) : bool :=
  match code t with
  | Await _ _ | Spin => true
  | Ret _ | Throw _ => false
  end.

Definition settleEvent (t : Task) : list Event :=
  match code t with
  | Ret _ => [Settled (label t) true]
  | Throw _ => [Settled (label t) false]
  | Await _ _ | Spin => []
  end.

(** The operation a task is suspended on completes, and the task runs to its
    next [await]. *)
Definition stepTask (w : World) (t : Task) (s : Store) : Task * Store * list Event :=
  match code t with
  | Await op k =>
      let '(r, s1) := perform w op s in
      let t1 := mkTask (label t) (k r) in
      (t1, s1, Awaited (label t) op :: settleEvent t1)
  | _ => (t, s, [])
  end.

(** The same for the [j]-th stray; a stray that settles leaves the loop. *)
Fixpoint stepStray (w : World) (j : nat) (ts : list Task) (s : Store)
  : list Task * Store * list Event :=
  match ts with
  | [] => ([], s, [])
  | t :: rest =>
      match j with
      | O =>
          let '(t1, s1, ev) := stepTask w t s in
          ((if pending t1 then [t1] else []) ++ rest, s1, ev)
      | S j' =>
          let '(rest1, s1, ev) := stepStray w j' rest s in
          (t :: rest1, s1, ev)
      end
  end.

(** A task run to its end without interruption; a task that has settled
    already is left as it is. *)
Definition runTask (w : World) (t : Task) (s : Store) : Task * Store * list Event :=
  if pending t then
    let '(oc, s1, tr) := run w (code t) s in
    let t1 := mkTask (label t)
                match oc with
                | Returned r => Ret r
                | Thrown e => Throw e
                | Unfinished => Spin
                end in
    (t1, s1, map (Awaited (label t)) tr ++ settleEvent t1)
  else (t, s, []).

(** The object [{ customers, products, orders }] that [ingestAll] returns. *)
Module IngestAll.
Record t : Type := mk {
  customers : Counts;
  products : Counts;
  orders : Counts
}.
End IngestAll.

(** [Promise.all([c, p, o])]: rejected as soon as one of the three has
    thrown, fulfilled when the three have returned. *)
Definition resolution (c p o : Task) : option (Outcome IngestAll.t) :=
  match code c, code p, code o with
  | Throw e, _, _ => Some (Thrown e)
  | _, Throw e, _ => Some (Thrown e)
  | _, _, Throw e => Some (Thrown e)
  | Ret rc, Ret rp, Ret ro => Some (Returned (IngestAll.mk rc rp ro))
  | _, _, _ => None
  end.

(** The awaiting function goes on; what is still pending stays in the loop. *)
Definition abandon (c p o : Task) (el : EventLoop) : EventLoop :=
  mkEventLoop (store el) (strays el ++ filter pending [c; p; o]) (events el).

Definition record (el : EventLoop) (s : Store) (ev : list Event) : EventLoop :=
  mkEventLoop s (strays el) (events el ++ ev).

(** When the schedule says no more, the three run one after the other. *)
Definition drain (w : World) (c p o : Task) (el : EventLoop)
  : Outcome IngestAll.t * EventLoop :=
  let '(c1, s1, e1) := runTask w c (store el) in
  let el1 := record el s1 e1 in
  match resolution c1 p o with
  | Some r => (r, abandon c1 p o el1)
  | None =>
      let '(p1, s2, e2) := runTask w p s1 in
      let el2 := record el1 s2 e2 in
      match resolution c1 p1 o with
      | Some r => (r, abandon c1 p1 o el2)
      | None =>
          let '(o1, s3, e3) := runTask w o s2 in
          let el3 := record el2 s3 e3 in
          match resolution c1 p1 o1 with
          | Some r => (r, abandon c1 p1 o1 el3)
          | None => (Unfinished, abandon c1 p1 o1 el3)
          end
      end
  end.

(** [await Promise.all([c, p, o])].  [sched] says which pending operation
    completes next: 0, 1, 2 for the three tasks, 3 + j for the j-th stray
    (taken modulo the number of tasks). *)
Fixpoint awaitAll (w : World) (sched : list nat) (c p o : Task) (el : EventLoop)
  : Outcome IngestAll.t * EventLoop * list nat :=
  match resolution c p o with
  | Some r => (r, abandon c p o el, sched)
  | None =>
      match sched with
      | [] => (drain w c p o el, [])
      | i :: sched' =>
          match i mod (3 + List.length (strays el)) with
          | 0 =>
              let '(c1, s1, ev) := stepTask w c (store el) in
              awaitAll w sched' c1 p o (record el s1 ev)
          | 1 =>
              let '(p1, s1, ev) := stepTask w p (store el) in
              awaitAll w sched' c p1 o (record el s1 ev)
          | 2 =>
              let '(o1, s1, ev) := stepTask w o (store el) in
              awaitAll w sched' c p o1 (record el s1 ev)
          | S (S (S j)) =>
              let '(ts, s1, ev) := stepStray w j (strays el) (store el) in
              awaitAll w sched' c p o (mkEventLoop s1 ts (events el ++ ev))
          end
      end
  end.

(** [ingestAll]: the three calls inside the array literal start the three
    ingestions, in this order, each up to its first [await]; then the array
    is awaited. *)
Definition ingestAll (fuel : nat) (this : IngestionService) (w : World)
    (sched : list nat) (el : EventLoop)
  : Outcome IngestAll.t * EventLoop * list nat :=
  let c := mkTask (mkLabel (serviceTenantId this) Customers) (ingestCustomers fuel this) in
  let p := mkTask (mkLabel (serviceTenantId this) Products) (ingestProducts fuel this) in
  let o := mkTask (mkLabel (serviceTenantId this) Orders) (ingestOrders fuel this) in
  awaitAll w sched c p o
    (record el (store el) [Started (label c); Started (label p); Started (label o)]).

(* ===================================================================== *)
(** * [scheduleDataSync]: the scheduled cycle *)
(* ===================================================================== *)

(** What the cycle writes to the console. *)
Inductive LogLine : Type :=
| LogSyncing (shopDomain : string)
| LogCompleted (shopDomain : string) (result : IngestAll.t)
| LogFailed (shopDomain : string) (message : Error)
| LogCycleCompleted
| LogCycleError (e : Error).

(** [for (const tenant of tenants) { try { ... } catch (error) { ... } }];
    the last component tells whether the loop came to its end. *)
Fixpoint syncTenants (fuel : nat) (w : World) (ts : list Tenant.t)
    (sched : list nat) (el : EventLoop)
  : list LogLine * EventLoop * list nat * bool :=
  match ts with
  | [] => ([], el, sched, true)
  | tenant :: rest =>
      let ingestionService :=
        newIngestionService (Tenant.id tenant) (Tenant.shopDomain tenant)
                            (Tenant.accessToken tenant) in
      let '(oc, el1, sched1) := ingestAll fuel ingestionService w sched el in
      match oc with
      | Returned result =>
          let '(log, el2, sched2, fin) := syncTenants fuel w rest sched1 el1 in
          (LogSyncing (Tenant.shopDomain tenant)
             :: LogCompleted (Tenant.shopDomain tenant) result :: log, el2, sched2, fin)
      | Thrown e =>
          let '(log, el2, sched2, fin) := syncTenants fuel w rest sched1 el1 in
          (LogSyncing (Tenant.shopDomain tenant)
             :: LogFailed (Tenant.shopDomain tenant) e :: log, el2, sched2, fin)
      | Unfinished => ([LogSyncing (Tenant.shopDomain tenant)], el1, sched1, false)
      end
  end.

(** The callback given to [cron.schedule]. *)
Definition scheduledSync (fuel : nat) (w : World) (sched : list nat) (el : EventLoop)
  : list LogLine * EventLoop * list nat * bool :=
  match perform w TenantFindMany (store el) with
  | (inl e, s1) => ([LogCycleError e], record el s1 [], sched, true)
  | (inr tenants, s1) =>
      let '(log, el1, sched1, fin) := syncTenants fuel w tenants sched (record el s1 []) in
      (log ++ (if fin then [LogCycleCompleted] else []), el1, sched1, fin)
  end.

(* ===================================================================== *)
(** * [webhook.routes.ts]: event intake *)
(* ===================================================================== *)

Definition verifyShopifyWebhook (body signature secret : string) : bool :=
  String.eqb (Crypto.hmacSha256Base64 secret body) signature.

(** What the handlers read of the parsed body: [data.id.toString()], when
    that can be evaluated. *)
Record Payload : Type := mkPayload {
  payloadId : option string
}.

Definition typeError : Error := "Cannot read properties of undefined (reading 'toString')".

Definition handleOrderWebhook (fuel : nat) (tenantId shopDomain accessToken : string)
    (orderData : Payload) : Proc unit :=
  tryCatch
    (let ingestionService := newIngestionService tenantId shopDomain accessToken in
     let shopifyService := shopifyService ingestionService in
     orderId <- match payloadId orderData with
                | Some i => Ret i
                | None => Throw typeError
                end ;;
     shopifyOrder <- getOrder shopifyService orderId ;;
     match shopifyOrder with
     | Some _ => _ <- ingestOrders fuel ingestionService ;; Ret tt
     | None => Ret tt
     end)
    (fun _ => Ret tt).

Definition handleCustomerWebhook (fuel : nat) (tenantId shopDomain accessToken : string)
    (customerData : Payload) : Proc unit :=
  tryCatch
    (let ingestionService := newIngestionService tenantId shopDomain accessToken in
     _ <- ingestCustomers fuel ingestionService ;; Ret tt)
    (fun _ => Ret tt).

Definition handleProductWebhook (fuel : nat) (tenantId shopDomain accessToken : string)
    (productData : Payload) : Proc unit :=
  tryCatch
    (let ingestionService := newIngestionService tenantId shopDomain accessToken in
     _ <- ingestProducts fuel ingestionService ;; Ret tt)
    (fun _ => Ret tt).

Definition oneOf (topic : string) (l : list string) : bool :=
  existsb (String.eqb topic) l.


(* ===================================================================== *)
(** * Vocabulary of the statements *)
(* ===================================================================== *)

(** ** Projections of a run *)

Definition outcomeOf {A : Type} (r : Outcome A * Store * list Op) : Outcome A :=
  fst (fst r).
Definition storeOf {A : Type} (r : Outcome A * Store * list Op) : Store :=
  snd (fst r).
Definition traceOf {A : Type} (r : Outcome A * Store * list Op) : list Op :=
  snd r.

(** ** Pagination *)

(** The records of one page: [response.data.key || []]. *)
Definition pageOf {X : Type} (key : ResponseData.t -> option (list X))
    (r : Response) : list X :=
  match key (rdata r) with Some l => l | None => [] end.

(** The request for the page at [cursor]. *)
Definition pageRequest (this : ShopifyService) (path : string) (limit : Z)
    (status : option string) (cursor : option string) : Op :=
  HttpGet (shopDomain this) (accessToken this) path
          (mkParams (Some limit) status (JS.orNull cursor)).

Definition answer (w : World) (this : ShopifyService) (path : string) (limit : Z)
    (status : option string) (cursor : option string) : Error + Response :=
  http w (shopDomain this) (accessToken this) path
       (mkParams (Some limit) status (JS.orNull cursor)).

(** [Pages w this path limit status cursor rs]: from [cursor] on the remote
    serves the pages [rs], each one linking to the next, the last one
    carrying no next cursor. *)
Inductive Pages (w : World) (this : ShopifyService) (path : string) (limit : Z)
    (status : option string) : option string -> list Response -> Prop :=
| pages_last cursor r :
    answer w this path limit status cursor = inr r ->
    JS.orNull (nextPageInfo r) = None ->
    Pages w this path limit status cursor [r]
| pages_more cursor r next rs :
    answer w this path limit status cursor = inr r ->
    JS.orNull (nextPageInfo r) = Some next ->
    Pages w this path limit status (Some next) rs ->
    Pages w this path limit status cursor (r :: rs).

(** [Broken w this path limit status cursor rs e]: from [cursor] on the
    remote serves the pages [rs] and then rejects the next request with
    [e]. *)
Inductive Broken (w : World) (this : ShopifyService) (path : string) (limit : Z)
    (status : option string) : option string -> list Response -> Error -> Prop :=
| broken_here cursor e :
    answer w this path limit status cursor = inl e ->
    Broken w this path limit status cursor [] e
| broken_later cursor r next rs e :
    answer w this path limit status cursor = inr r ->
    JS.orNull (nextPageInfo r) = Some next ->
    Broken w this path limit status (Some next) rs e ->
    Broken w this path limit status cursor (r :: rs) e.

(** The requests that fetch the pages [rs] starting at [cursor], and the
    cursor the last of them links to. *)
Fixpoint pageRequests (this : ShopifyService) (path : string) (limit : Z)
    (status : option string) (cursor : option string) (rs : list Response)
  : list Op :=
  match rs with
  | [] => []
  | r :: rest =>
      pageRequest this path limit status cursor
        :: pageRequests this path limit status (nextPageInfo r) rest
  end.

Fixpoint cursorAfter (cursor : option string) (rs : list Response) : option string :=
  match rs with
  | [] => cursor
  | r :: rest => cursorAfter (nextPageInfo r) rest
  end.

(** The page budget [fuel] is enough for the collection at [path]: its
    pages end, or break, within [fuel] requests. *)
Definition Bounded (w : World) (this : ShopifyService) (path : string) (limit : Z)
    (status : option string) (fuel : nat) : Prop :=
  (exists rs, Pages w this path limit status None rs /\ List.length rs <= fuel)
  \/ (exists rs e, Broken w this path limit status None rs e /\ List.length rs < fuel).

(** A request for the first page of the collection at [path]. *)
Definition isFirstPage (path : string) (op : Op) : bool :=
  match op with
  | HttpGet _ _ p params =>
      String.eqb p path && match page_info params with None => true | Some _ => false end
  | _ => false
  end.

(** How many times a history starts fetching the collection at [path]. *)
Definition resyncs (path : string) (tr : list Op) : nat :=
  List.length (filter (isFirstPage path) tr).

Definition isHttp (op : Op) : bool :=
  match op with HttpGet _ _ _ _ => true | _ => false end.

(** A history without any request to the remote. *)
Definition noHttp (tr : list Op) : bool := forallb (fun op => negb (isHttp op)) tr.

(** ** Single-record lookups *)

Definition onePath (resource rid : string) : string :=
  "/" ++ resource ++ "/" ++ rid ++ ".json".

Definition oneRequest (this : ShopifyService) (resource rid : string) : Op :=
  HttpGet (shopDomain this) (accessToken this) (onePath resource rid) noParams.

(** What the remote holds for one record: nothing when the request is
    rejected and nothing when the answer lacks the record. *)
Definition lookupAnswer {X : Type} (w : World) (this : ShopifyService)
    (resource rid : string) (key : ResponseData.t -> option X) : option X :=
  match http w (shopDomain this) (accessToken this) (onePath resource rid) noParams with
  | inl _ => None
  | inr r => key (rdata r)
  end.

(** ** Concrete instances used by the examples *)

Module Sample.

Definition dq : string := Link.dquote.

Definition shop : string := "acme.myshopify.com".
Definition token : string := "shpat_9f2c".
Definition client : ShopifyService := mkShopifyService shop token.
Definition service : IngestionService := newIngestionService "tenant-1" shop token.

(** A client whose credential the remote no longer accepts. *)
Definition revokedClient : ShopifyService := mkShopifyService "gone.myshopify.com" "shpat_old".

Definition alice : ShopifyCustomer.t :=
  ShopifyCustomer.mk "C1" (Some "alice@example.com") (Some "Alice") None None
                     "120.50" 3 "2024-01-05T10:00:00Z" "2024-02-01T08:30:00Z".
Definition bob : ShopifyCustomer.t :=
  ShopifyCustomer.mk "C2" None (Some "Bob") None None
                     "n/a" 0 "2024-01-07T10:00:00Z" "".

Definition mug : ShopifyProduct.t :=
  ShopifyProduct.mk "P1" "Mug" (Some "mug") None None (Some "active")
                    [ShopifyVariant.mk "9.90" None (Some 12%Z)]
                    "2024-01-01T00:00:00Z" "2024-01-01T00:00:00Z".

Definition mugLine : ShopifyLineItem.t :=
  ShopifyLineItem.mk "L1" (Some "P1") "Mug" 2 "9.90" None None None.
Definition capLine : ShopifyLineItem.t :=
  ShopifyLineItem.mk "L2" None "Cap" 1 "15.00" None (Some "CAP-1") None.

Definition order1 : ShopifyOrder.t :=
  ShopifyOrder.mk "O1" (Some 1001%Z) (Some "alice@example.com") (Some "paid") None
                  "34.80" None None None None
                  (Some (ShopifyCustomerRef.mk "C1")) [mugLine; capLine]
                  "2024-02-01T08:00:00Z" "2024-02-01T08:00:00Z".

Definition nextLink (cursor : string) : string :=
  "<https://acme.myshopify.com/admin/api/2024-01/customers.json?limit=250&page_info="
    ++ cursor ++ ">; rel=" ++ dq ++ "next" ++ dq.

(** Alice after she changed her e-mail address. *)
Definition aliceMoved : ShopifyCustomer.t :=
  ShopifyCustomer.mk "C1" (Some "alice@newmail.example") (Some "Alice") None None
                     "120.50" 3 "2024-01-05T10:00:00Z" "2024-03-01T09:00:00Z".

(** The order O1 after its line items were removed. *)
Definition order1Emptied : ShopifyOrder.t :=
  ShopifyOrder.mk "O1" (Some 1001%Z) (Some "alice@example.com") (Some "paid") None
                  "0.00" None None None None
                  (Some (ShopifyCustomerRef.mk "C1")) []
                  "2024-02-01T08:00:00Z" "2024-02-03T08:00:00Z".

Definition customersPage1With (c : ShopifyCustomer.t) : Response :=
  mkResponse (ResponseData.mk (Some [c]) None None None None None)
             (Some (nextLink "eyJsYXN0X2lkIjoxfQ")).
Definition customersPage1 : Response := customersPage1With alice.
Definition customersPage2 : Response :=
  mkResponse (ResponseData.mk (Some [bob]) None None None None None) None.
Definition productsPage : Response :=
  mkResponse (ResponseData.mk None (Some [mug]) None None None None) None.
Definition ordersPageWith (o : ShopifyOrder.t) : Response :=
  mkResponse (ResponseData.mk None None (Some [o]) None None None) None.
Definition ordersPage : Response := ordersPageWith order1.
Definition orderRecord : Response :=
  mkResponse (ResponseData.mk None None None None None (Some order1)) None.

(** The remote: two pages of customers (the first holds [c]), one of
    products, one of orders (holding [o]), the order O1 on its own; a
    request for any other path is rejected with 404, and a request with a
    credential other than [token] with 401. *)
Definition worldWith (c : ShopifyCustomer.t) (o : ShopifyOrder.t) : World :=
  mkWorld (fun shopDomain accessToken path params =>
    if negb (String.eqb accessToken token) then inl "Request failed with status code 401"
    else if String.eqb path "/customers.json" then
      match page_info params with
      | None => inr (customersPage1With c)
      | Some _ => inr customersPage2
      end
    else if String.eqb path "/products.json" then inr productsPage
    else if String.eqb path "/orders.json" then inr (ordersPageWith o)
    else if String.eqb path "/orders/O1.json" then inr orderRecord
    else inl "Request failed with status code 404").

Definition world : World := worldWith alice order1.

(** Later states of the remote. *)
Definition worldMoved : World := worldWith aliceMoved order1.
Definition worldEmptied : World := worldWith alice order1Emptied.

End Sample.

(** ** Reconciliation, read as functions on the store

    The loops of [IngestionService] are proved below to compute these
    functions; the statements about stores are then made on [run] and proved
    through them. *)

Section Upsert.
Variable D : Type.
Variable key : D -> string.

(** Reconciling one record: the table afterwards, the id of its row, and
    whether the row was created. *)
Definition upsert (t : TenantId) (d : D) (tbl : list (Row D)) (next : Id)
  : list (Row D) * Id * bool :=
  match findUnique key t (key d) tbl with
  | Some e => (setData (id e) d tbl, id e, false)
  | None => (tbl ++ [mkRow next t d], next, true)
  end.

Definition rowKey (r : Row D) : TenantId * string := (tenantId r, key (data r)).

(** Primary keys are distinct and were drawn from the counter; natural keys
    are distinct (the unique index). *)
Definition wfTable (tbl : list (Row D)) (next : Id) : Prop :=
  NoDup (map (@id D) tbl)
  /\ NoDup (map rowKey tbl)
  /\ Forall (fun r => id r < next) tbl.
End Upsert.

Definition bump (created : bool) (next : Id) : Id := if created then S next else next.

Definition customerStep (t : TenantId) (c : ShopifyCustomer.t) (s : Store) : Store * bool :=
  let '(tbl, _, cr) :=
    upsert Customer.shopifyId t (customerData c) (customers s) (nextId s) in
  (setCustomers s tbl (bump cr (nextId s)), cr).

Definition productStep (t : TenantId) (p : ShopifyProduct.t) (s : Store) : Store * bool :=
  let '(tbl, _, cr) :=
    upsert Product.shopifyId t (productData p) (products s) (nextId s) in
  (setProducts s tbl (bump cr (nextId s)), cr).

(** The customer reference an order is stored with. *)
Definition customerIdOf (t : TenantId) (o : ShopifyOrder.t)
    (custs : list (Row Customer.t)) : option Id :=
  match ShopifyOrder.customer o with
  | Some c =>
      if JS.truthy (ShopifyCustomerRef.id c)
      then option_map (@id _) (findUnique Customer.shopifyId t (ShopifyCustomerRef.id c) custs)
      else None
  | None => None
  end.

(** The product reference a line item is stored with. *)
Definition productIdOf (t : TenantId) (li : ShopifyLineItem.t)
    (prods : list (Row Product.t)) : option Id :=
  match JS.orNull (ShopifyLineItem.product_id li) with
  | Some pid => option_map (@id _) (findUnique Product.shopifyId t pid prods)
  | None => None
  end.

(** The mapped line items of an order, as they are stored for the order row
    [oid]. *)
Definition mappedItems (t : TenantId) (prods : list (Row Product.t)) (oid : Id)
    (lis : list ShopifyLineItem.t) : list OrderItem.t :=
  map (fun li => orderItemData oid (productIdOf t li prods) li) lis.

Fixpoint number (next : Id) (ds : list OrderItem.t) : list ItemRow :=
  match ds with
  | [] => []
  | d :: rest => mkItemRow next d :: number (S next) rest
  end.

Definition replaceItemsIn (t : TenantId) (prods : list (Row Product.t)) (oid : Id)
    (lis : list ShopifyLineItem.t) (items : list ItemRow) (next : Id)
  : list ItemRow * Id :=
  match lis with
  | [] => (items, next)
  | _ :: _ =>
      (itemsNotOf oid items ++ number next (mappedItems t prods oid lis),
       next + List.length lis)
  end.

Definition orderStep (t : TenantId) (o : ShopifyOrder.t) (s : Store) : Store * bool :=
  let d := orderData o (customerIdOf t o (customers s)) in
  let '(tbl, oid, cr) := upsert Order.shopifyId t d (orders s) (nextId s) in
  let '(items, next) :=
    replaceItemsIn t (products s) oid (ShopifyOrder.line_items o) (orderItems s)
                   (bump cr (nextId s)) in
  (mkStore (tenants s) (customers s) (products s) tbl items next, cr).

Fixpoint reconcileAll {X : Type} (step : X -> Store -> Store * bool) (l : list X)
    (s : Store) (c u : nat) : Store * Counts :=
  match l with
  | [] => (s, mkCounts c u)
  | x :: rest =>
      let '(s1, cr) := step x s in
      if cr then reconcileAll step rest s1 (S c) u
      else reconcileAll step rest s1 c (S u)
  end.

(** The stored fields of the items of the order row [oid]. *)
Definition storedItems (oid : Id) (s : Store) : list OrderItem.t :=
  map item (itemsOf oid (orderItems s)).

Definition wfStore (s : Store) : Prop :=
  wfTable Customer.shopifyId (customers s) (nextId s)
  /\ wfTable Product.shopifyId (products s) (nextId s)
  /\ wfTable Order.shopifyId (orders s) (nextId s)
  /\ Forall (fun r => OrderItem.orderId (item r) < nextId s) (orderItems s).

(** The stored items of the order row [rid] after the order [o] has been
    reconciled, [before] being what was stored. *)
Definition itemsAfter (t : TenantId) (o : ShopifyOrder.t) (rid : Id) (s : Store)
    (before : list OrderItem.t) : list OrderItem.t :=
  match ShopifyOrder.line_items o with
  | [] => before
  | _ :: _ => mappedItems t (products s) rid (ShopifyOrder.line_items o)
  end.

(** ** Remote collections *)

(** The collection at [path] is [l]: its pages end within [fuel] requests
    and hold the records [l], in this order. *)
Definition Collection {X : Type} (w : World) (this : ShopifyService) (path : string)
    (status : option string) (key : ResponseData.t -> option (list X))
    (fuel : nat) (l : list X) : Prop :=
  exists rs,
    Pages w this path 250 status None rs
    /\ List.length rs <= fuel
    /\ l = List.concat (map (pageOf key) rs).

Definition CustomersAre (w : World) (this : IngestionService) (fuel : nat)
    (l : list ShopifyCustomer.t) : Prop :=
  Collection w (shopifyService this) "/customers.json" None ResponseData.customers fuel l.

Definition ProductsAre (w : World) (this : IngestionService) (fuel : nat)
    (l : list ShopifyProduct.t) : Prop :=
  Collection w (shopifyService this) "/products.json" None ResponseData.products fuel l.

Definition OrdersAre (w : World) (this : IngestionService) (fuel : nat)
    (l : list ShopifyOrder.t) : Prop :=
  Collection w (shopifyService this) "/orders.json" (Some "any") ResponseData.orders fuel l.

(** ** More concrete instances *)

Module OddPrice.

(** A product whose first variant carries a price that is no number. *)
Definition oddMug : ShopifyProduct.t :=
  ShopifyProduct.mk "P7" "Odd mug" None None None None
                    [ShopifyVariant.mk "abc" None None]
                    "2024-01-01T00:00:00Z" "2024-01-01T00:00:00Z".

(** A remote whose product collection is that one product. *)
Definition oddWorld : World :=
  mkWorld (fun shopDomain accessToken path params =>
    if String.eqb path "/products.json"
    then inr (mkResponse (ResponseData.mk None (Some [oddMug]) None None None None) None)
    else inr (mkResponse ResponseData.empty None)).

End OddPrice.

(** A later state of the store and of the remote.  The store is what the
    order ingestion of [Sample.world] leaves in an empty store: the order
    O1 with its two items, no customer and no product.  The remote has since
    dropped the second line of O1 and taken a second order. *)
Module Later.

Definition store : Store :=
  storeOf (run Sample.world (ingestOrders 4 Sample.service) emptyStore).

Definition order1 : ShopifyOrder.t :=
  ShopifyOrder.mk "O1" (Some 1001%Z) (Some "alice@example.com") (Some "paid") None
                  "19.80" None None None None
                  (Some (ShopifyCustomerRef.mk "C1")) [Sample.mugLine]
                  "2024-02-01T08:00:00Z" "2024-02-04T08:00:00Z".

Definition order2 : ShopifyOrder.t :=
  ShopifyOrder.mk "O2" (Some 1002%Z) None (Some "pending") None
                  "15.00" None None None None
                  (Some (ShopifyCustomerRef.mk "C2")) [Sample.capLine]
                  "2024-02-04T09:00:00Z" "2024-02-04T09:00:00Z".

Definition ordersPage : Response :=
  mkResponse (ResponseData.mk None None (Some [order1; order2]) None None None) None.

(** [Sample.world] with the new page of orders. *)
Definition world : World :=
  mkWorld (fun shopDomain accessToken path params =>
    if String.eqb accessToken Sample.token && String.eqb path "/orders.json"
    then inr ordersPage
    else http Sample.world shopDomain accessToken path params).

End Later.

(** ** Event intake *)

(** The tenant registered for a shop domain. *)
Definition tenantOf (s : Store) (shop : string) : option Tenant.t :=
  find (fun t => String.eqb (Tenant.shopDomain t) shop) (tenants s).

Module Hook.

Definition tenant : Tenant.t :=
  Tenant.mk "tenant-1" Sample.shop Sample.token "Acme" "owner@acme.example".

(** A store that knows the tenant and nothing else. *)
Definition store : Store := mkStore [tenant] [] [] [] [] 0.

(** The bodies of two notifications: one for the order O1, which the
    remote has, one for O9, which it has not. *)
Definition bodyO1 : string :=
  "{" ++ Sample.dq ++ "id" ++ Sample.dq ++ ":" ++ Sample.dq ++ "O1" ++ Sample.dq ++ "}".
Definition bodyO9 : string :=
  "{" ++ Sample.dq ++ "id" ++ Sample.dq ++ ":" ++ Sample.dq ++ "O9" ++ Sample.dq ++ "}".

(** [JSON.parse] and the reading of [id], on these two bodies. *)
Definition parse (body : string) : Error + Payload :=
  if String.eqb body bodyO1 then inr (mkPayload (Some "O1"))
  else if String.eqb body bodyO9 then inr (mkPayload (Some "O9"))
  else inl "Unexpected token in JSON".

End Hook.

(** ** Histories of the event loop *)

Definition isSettled (t : TenantId) (e : Entity) (ev : Event) : bool :=
  match ev with
  | Settled (mkLabel t' e') _ =>
      String.eqb t' t
      && match e, e' with
         | Customers, Customers | Products, Products | Orders, Orders => true
         | _, _ => false
         end
  | _ => false
  end.

Definition isStarted (t : TenantId) (e : Entity) (ev : Event) : bool :=
  match ev with
  | Started (mkLabel t' e') =>
      String.eqb t' t
      && match e, e' with
         | Customers, Customers | Products, Products | Orders, Orders => true
         | _, _ => false
         end
  | _ => false
  end.

(** In the history [evs] the order ingestion of the tenant [t] is started
    only after its customer and its product ingestion have settled
    ([c], [p]: whether they have, so far). *)
Fixpoint ordersHeldBack (t : TenantId) (evs : list Event) (c p : bool) : bool :=
  match evs with
  | [] => true
  | ev :: rest =>
      if isStarted t Orders ev then c && p
      else ordersHeldBack t rest (c || isSettled t Customers ev)
                          (p || isSettled t Products ev)
  end.

(** The history of one [ingestAll] on a loop with no history. *)
Definition historyOf (fuel : nat) (this : IngestionService) (w : World)
    (sched : list nat) (s : Store) : list Event :=
  events (snd (fst (ingestAll fuel this w sched (freshLoop s)))).

(** What a task that settles with [oc] leaves in the history. *)
Definition settledMark {A : Type} (l : Label) (oc : Outcome A) : list Event :=
  match oc with
  | Returned _ => [Settled l true]
  | Thrown _ => [Settled l false]
  | Unfinished => []
  end.

(** The history of the function body [p] when it runs alone from the store
    [s] under the label [l]: what it awaits, in order, and how it settles. *)
Definition soloHistory {A : Type} (w : World) (l : Label) (p : Proc A) (s : Store)
  : list Event :=
  map (Awaited l) (traceOf (run w p s)) ++ settledMark l (outcomeOf (run w p s)).

(** ** The scheduled cycle *)

(** A function body that never uses up the page budget, whatever the store
    answers. *)
Fixpoint spinFree {A : Type} (w : World) (p : Proc A) : Prop :=
  match p with
  | Ret _ | Throw _ => True
  | Spin => False
  | Await op k => forall s, spinFree w (k (fst (perform w op s)))
  end.

(** The page budget is enough for the three collections of a tenant. *)
Definition TenantBounded (w : World) (fuel : nat) (tenant : Tenant.t) : Prop :=
  let client := mkShopifyService (Tenant.shopDomain tenant) (Tenant.accessToken tenant) in
  Bounded w client "/customers.json" 250 None fuel
  /\ Bounded w client "/products.json" 250 None fuel
  /\ Bounded w client "/orders.json" 250 (Some "any") fuel.

(** [Reported evs ts log]: the console has, for every tenant of [ts] and in
    their order, the line that announces its sync followed by the line of
    its result, and the history [evs] of the event loop bears the line out:
    a tenant reported completed has its three ingestions settled by a
    return, a tenant reported failed has one of them settled by a throw. *)
Inductive Reported (evs : list Event) : list Tenant.t -> list LogLine -> Prop :=
| reported_nil : Reported evs [] []
| reported_completed tenant ts result log :
    (forall e, In (Settled (mkLabel (Tenant.id tenant) e) true) evs) ->
    Reported evs ts log ->
    Reported evs (tenant :: ts)
             (LogSyncing (Tenant.shopDomain tenant)
                :: LogCompleted (Tenant.shopDomain tenant) result :: log)
| reported_failed tenant ts e log :
    (exists entity, In (Settled (mkLabel (Tenant.id tenant) entity) false) evs) ->
    Reported evs ts log ->
    Reported evs (tenant :: ts)
             (LogSyncing (Tenant.shopDomain tenant)
                :: LogFailed (Tenant.shopDomain tenant) e :: log).

(** The starts of ingestions in a history, and the three starts that the
    [ingestAll] of a tenant adds to it. *)
Definition isStart (ev : Event) : bool :=
  match ev with Started _ => true | _ => false end.

Definition startsOf (t : TenantId) : list Event :=
  [Started (mkLabel t Customers); Started (mkLabel t Products); Started (mkLabel t Orders)].

Module Cycle.

(** A tenant whose credential has been revoked, and one in good
    standing. *)
Definition revoked : Tenant.t :=
  Tenant.mk "tenant-0" "gone.myshopify.com" "shpat_old" "Gone" "owner@gone.example".

Definition store : Store := mkStore [revoked; Hook.tenant] [] [] [] [] 0.

End Cycle.

(* ===================================================================== *)
(** * More vocabulary: what an ingestion does to the store as a whole *)
(* ===================================================================== *)

(** The run of [p] from [s] first talks to the remote and then to the
    store, never the other way round; when it does not return, it has not
    come to the store at all. *)
Definition FetchThenWrite {A : Type} (w : World) (s : Store) (p : Proc A) : Prop :=
  let r := run w p s in
  exists fetch writes,
    traceOf r = fetch ++ writes
    /\ forallb isHttp fetch = true
    /\ noHttp writes = true
    /\ match outcomeOf r with
       | Returned _ => True
       | Thrown _ | Unfinished => writes = [] /\ storeOf r = s
       end.

(** The rows of a table that belong to tenants other than [t], in the order
    of the table. *)
Definition ofOthers {D : Type} (t : TenantId) (tbl : list (Row D)) : list (Row D) :=
  filter (fun r => negb (String.eqb (tenantId r) t)) tbl.

(** What the counters of an ingestion say about a table that had [before]
    rows and has [after] rows, [n] records having been fetched. *)
Definition Tally (cnt : Counts) (n before after : nat) : Prop :=
  created cnt + updated cnt = n /\ after = before + created cnt.

(** What identifies a row for good: its primary key and its natural key. *)
Definition identities {D : Type} (key : D -> string) (tbl : list (Row D))
  : list (Id * (TenantId * string)) :=
  map (fun r => (id r, rowKey key r)) tbl.

(** [b] is [a] with something added at its end. *)
Definition Extends {T : Type} (a b : list T) : Prop := exists new, b = a ++ new.

Module Shared.

(** A store that two tenants share.  The second tenant has a customer and
    an order whose remote ids are those of Alice and of the order O1 of
    the first tenant, and an item stored for that order. *)
Definition theirCustomer : Row Customer.t :=
  mkRow 0 "tenant-2"
        (Customer.mk "C1" (Some "carol@example.com") (Some "Carol") None None
                     (JS.Finite false 75 0) 1 None None).

Definition theirOrder : Row Order.t :=
  mkRow 1 "tenant-2"
        (Order.mk "O1" (Some "77") None (Some "paid") None (JS.Finite false 75 0)
                  None None None "EUR" (Some 0) None None).

Definition theirItem : OrderItem.t :=
  OrderItem.mk 1 None None "Teapot" 1 (JS.Finite false 75 0) None None None.

Definition store : Store :=
  mkStore [Hook.tenant] [theirCustomer] [] [theirOrder] [mkItemRow 2 theirItem] 3.

End Shared.

Module Stale.

(** A customer of the first tenant whom the remote no longer has. *)
Definition gone : Row Customer.t :=
  mkRow 0 "tenant-1"
        (Customer.mk "C9" (Some "zoe@example.com") (Some "Zoe") None None
                     (JS.Finite false 12 0) 1 None None).

Definition store : Store := mkStore [Hook.tenant] [gone] [] [] [] 1.

End Stale.

(** ** Link headers *)

Fixpoint hasChar (c : ascii) (s : string) : bool :=
  match s with
  | EmptyString => false
  | String a r => Ascii.eqb a c || hasChar c r
  end.

(** [<url>; rel="rel"], one link of a link header. *)
Definition linkTo (url rel : string) : string :=
  ("<" ++ url ++ ">; rel=" ++ Link.dquote ++ rel ++ Link.dquote)%string.

(** [NextLink h c]: the header [h] holds a link marked next whose address
    has [c] right after [page_info=], up to the next [&] or to the end of
    the address. *)
Definition NextLink (h c : string) : Prop :=
  exists pre before after post : string,
    h = (pre ++ "<" ++ before ++ "page_info=" ++ c ++ after ++ ">"
           ++ Link.relNext ++ post)%string
    /\ hasChar ">" before = false
    /\ hasChar ">" after = false
    /\ (after = "" \/ exists r : string, after = ("&" ++ r)%string).

(** [c] can be the group of the pattern: one character or more, none of
    them [&] or [>]. *)
Definition isCursor (c : string) : Prop :=
  c <> "" /\ hasChar "&" c = false /\ hasChar ">" c = false.

(** An address that can stand between [<] and [>]. *)
Definition isAddress (u : string) : Prop :=
  hasChar "<" u = false /\ hasChar ">" u = false.

(** What may follow the cursor in the address: nothing, or further
    parameters none of which is a [page_info] with a value. *)
Definition otherParams (rest : string) : Prop :=
  rest = ""
  \/ exists r : string, rest = ("&" ++ r)%string /\ Link.lastPageInfo r = None.

(** The address of a page: [base], then the cursor, then the rest. *)
Definition pageAddress (base c rest : string) : string :=
  (base ++ "page_info=" ++ c ++ rest)%string.

(* ===================================================================== *)
(** * The HTTP interface: [server.ts], [auth.middleware.ts] and the routes *)
(* ===================================================================== *)

(** What follows embeds the rest of the sources:

      - [server.ts]                      (the origin check),
      - [middleware/auth.middleware.ts]  (the two middlewares),
      - [routes/ingestion.routes.ts]     (the sync routes and the event route),
      - [services/ingestion.service.ts]  ([recordEvent]),
      - [routes/tenant.routes.ts]        (registration, login, the tenant),

    over the store of above extended with the tables [users] and [events].
    The third-party functions these sources call are parameters
    ([Library]): [jsonwebtoken], [bcryptjs], the e-mail check of
    [validator], [JSON.stringify]; so are, further down, the checks that
    [express-validator] makes on the fields of a body.  Request bodies are
    JSON values. *)

(** ** JSON values *)

#[warnings="-register-all"]
Inductive Json : Type :=
| JNull
| JBool (b : bool)
| JNum (n : JS.number)
| JStr (s : string)
| JArr (items : list Json)
| JObj (fields : list (string * Json)).

Module Js.

(** Truthiness of a value that may be [undefined]. *)
Definition truthy (v : option Json) : bool :=
  match v with
  | None | Some JNull => false
  | Some (JBool b) => b
  | Some (JNum n) => JS.truthyNum n
  | Some (JStr s) => JS.truthy s
  | Some (JArr _) | Some (JObj _) => true
  end.

(** [s.split(sep)] for a separator of one character. *)
Fixpoint split (sep : ascii) (s : string) : list string :=
  match s with
  | EmptyString => [EmptyString]
  | String c r =>
      if Ascii.eqb c sep then EmptyString :: split sep r
      else match split sep r with
           | first :: rest => String c first :: rest
           | [] => [String c EmptyString]
           end
  end.

(** [object[name]] for an object read from JSON text: of two members with
    the same name the later one counts. *)
Fixpoint get (name : string) (fields : list (string * Json)) : option Json :=
  match fields with
  | [] => None
  | (k, v) :: rest =>
      match get name rest with
      | Some later => Some later
      | None => if String.eqb k name then Some v else None
      end
  end.

(** [value[name]], nothing when [value] is no object. *)
Definition member (name : string) (value : Json) : option Json :=
  match value with
  | JObj fields => get name fields
  | _ => None
  end.

Definition ofNat (n : nat) : Json := JNum (JS.Finite false (N.of_nat n) 0).

End Js.

(** ** The environment and the libraries *)

Module Env.
(** The variables of [process.env] that the sources read. *)
Record t : Type := mk {
  FRONTEND_URL : option string;
  NODE_ENV : option string;
  JWT_SECRET : option string
}.
End Env.

Module Jwt.
(** The payload of a token, as far as the sources write and read it. *)
Record Payload : Type := mk {
  userId : option string;
  tenantId : option string;
  email : option string
}.
End Jwt.

(** The functions of [jsonwebtoken], [bcryptjs] and [express-validator]
    that the routes call, left open.  They are taken at one moment and with
    one salt: the time of issue that [jwt.sign] writes into a token and the
    salt that [bcrypt.hash] draws are not modelled, so that equal arguments
    give equal results. *)
Record Library : Type := mkLibrary {
  (** [jwt.sign(payload, secret, { expiresIn: '7d' })] *)
  jwtSign : Jwt.Payload -> string -> string;
  (** [jwt.verify(token, secret, callback)]: the error or the payload *)
  jwtVerify : string -> string -> Error + Jwt.Payload;
  (** [bcrypt.hash(password, 10)] *)
  bcryptHash : string -> nat -> string;
  (** [bcrypt.compare(password, hash)] *)
  bcryptCompare : string -> string -> bool;
  (** [isEmail] of [validator], on a text *)
  isEmail : string -> bool;
  JSON_stringify : Json -> string
}.

(** ** [server.ts]: the origin check *)

(** [[FRONTEND_URL, 'http://localhost:3000', '...railway.app'].filter(Boolean)] *)
Definition allowedOrigins (env : Env.t) : list string :=
  flat_map (fun o => match JS.orNull o with Some s => [s] | None => [] end)
           [Env.FRONTEND_URL env;
            Some "http://localhost:3000";
            Some "https://xenofde-frontend-production.up.railway.app"].

(** The [origin] function of [corsOptions]: what it hands to its callback,
    [inr allow] for [callback(null, allow)] and [inl e] for
    [callback(new Error(e))]. *)
Definition corsOrigin (env : Env.t) (origin : option string) : Error + bool :=
  match JS.orNull origin with
  | None => inr true
  | Some origin =>
      if Nat.eqb (List.length (allowedOrigins env)) 0
         || existsb (String.eqb origin) (allowedOrigins env)
      then inr true
      else
        match Env.NODE_ENV env with
        | Some mode => if String.eqb mode "production" then inr true
                       else inl "Not allowed by CORS"
        | None => inl "Not allowed by CORS"
        end
  end.

(** ** Requests and replies *)

Module Request.
Record t : Type := mk {
  authorization : option string;
  body : list (string * Json)
}.
End Request.

(** A request that has passed [authenticateToken]. *)
Module AuthRequest.
Record t : Type := mk {
  request : Request.t;
  userId : option string;
  tenantId : option string
}.
End AuthRequest.

(** [res.status(code).json(body)]; [res.json(body)] is [reply 200 body]. *)
Record Reply : Type := reply {
  statusCode : nat;
  json : Json
}.

Definition errorReply (code : nat) (message : string) : Reply :=
  reply code (JObj [("error", JStr message)]).

Definition failureReply (message : string) (details : Error) : Reply :=
  reply 500 (JObj [("error", JStr message); ("details", JStr details)]).

(** ** [auth.middleware.ts] *)

(** [authHeader && authHeader.split(' ')[1]], when it is truthy. *)
Definition bearerToken (authHeader : option string) : option string :=
  match JS.orNull authHeader with
  | None => None
  | Some h => JS.orNull (nth_error (Js.split " " h) 1)
  end.

(** A middleware replies, or calls [next()] with the request. *)
Definition authenticateToken (lib : Library) (env : Env.t) (req : Request.t)
  : Reply + AuthRequest.t :=
  match bearerToken (Request.authorization req) with
  | None => inl (errorReply 401 "Access token required")
  | Some token =>
      let jwtSecret := JS.strOr (Env.JWT_SECRET env) "your-secret-key-change-in-production" in
      match jwtVerify lib token jwtSecret with
      | inl _ => inl (errorReply 403 "Invalid or expired token")
      | inr decoded =>
          inr (AuthRequest.mk req (Jwt.userId decoded) (Jwt.tenantId decoded))
      end
  end.

Definition requireTenant (req : AuthRequest.t) : Reply + AuthRequest.t :=
  match JS.orNull (AuthRequest.tenantId req) with
  | None => inl (errorReply 403 "Tenant access required")
  | Some _ => inr req
  end.

(** ** The store, extended *)

Module User.
Record t : Type := mk {
  id : string;
  email : string;
  password : string;
  name : option string;
  tenantId : option TenantId
}.
End User.

(** A row of [events]. *)
Module EventRecord.
Record t : Type := mk {
  id : string;
  tenantId : TenantId;
  eventType : string;
  customerId : option string;
  orderId : option string;
  metadata : option string
}.
End EventRecord.

(** The [data] object of [prisma.event.create] as [recordEvent] builds it:
    [eventType] as it came from the request body, [customerId || null],
    [orderId || null], and the metadata turned into a string. *)
Module EventInput.
Record t : Type := mk {
  tenantId : TenantId;
  eventType : Json;
  customerId : option Json;
  orderId : option Json;
  metadata : option string
}.
End EventInput.

Record Database : Type := mkDatabase {
  core : Store;
  users : list User.t;
  eventRows : list EventRecord.t;
  serial : nat
}.

(** The TEXT primary keys of tenants, users and events, which the client
    generates: here the decimal of a counter. *)
Definition newId (n : nat) : string := "id-" ++ JS.toStringZ (Z.of_nat n).

Definition setCore (db : Database) (s : Store) : Database :=
  mkDatabase s (users db) (eventRows db) (serial db).

Definition addTenant (s : Store) (t : Tenant.t) : Store :=
  mkStore (tenants s ++ [t]) (customers s) (products s) (orders s) (orderItems s) (nextId s).

Definition tenantById (db : Database) (i : TenantId) : option Tenant.t :=
  find (fun t => String.eqb (Tenant.id t) i) (tenants (core db)).

Definition tenantByDomain (db : Database) (shop : string) : option Tenant.t :=
  find (fun t => String.eqb (Tenant.shopDomain t) shop) (tenants (core db)).

Definition userByEmail (db : Database) (email : string) : option User.t :=
  find (fun u => String.eqb (User.email u) email) (users db).

(** ** The awaited operations of the routes *)

Inductive ApiOp : Type :=
| Core (op : Op)
| TenantFindById (id : TenantId)
| TenantCreate (shopDomain accessToken name email : string)
| UserFindUnique (email : string) (includeTenant : bool)
| UserCreate (email password name : string) (tenantId : TenantId)
| EventCreate (d : EventInput.t)
| BcryptHash (password : string) (rounds : nat)
| BcryptCompare (password hash : string).

Definition ApiResp (op : ApiOp) : Type :=
  match op with
  | Core op => Resp op
  | TenantFindById _ => option Tenant.t
  | TenantCreate _ _ _ _ => Tenant.t
  | UserFindUnique _ _ => option (User.t * option Tenant.t)
  | UserCreate _ _ _ _ => User.t
  | EventCreate _ => EventRecord.t
  | BcryptHash _ _ => string
  | BcryptCompare _ _ => bool
  end.

Record ApiWorld : Type := mkApiWorld {
  remote : World;
  library : Library
}.

Definition shopDomainTaken : Error :=
  "Unique constraint failed on the fields: (`shopDomain`)".
Definition emailTaken : Error := "Unique constraint failed on the fields: (`email`)".
Definition foreignKeyFailed : Error := "Foreign key constraint violated".
Definition invalidArgument : Error := "Invalid value provided".

(** A value that the client accepts for a column of type [String?]. *)
Definition optionalString (v : option Json) : option (option string) :=
  match v with
  | None | Some JNull => Some None
  | Some (JStr s) => Some (Some s)
  | Some _ => None
  end.

(** [prisma.event.create({ data })]: the client checks the types of the
    fields, the database the foreign key to the tenant. *)
Definition createEvent (d : EventInput.t) (db : Database)
  : Error + EventRecord.t * Database :=
  match EventInput.eventType d, optionalString (EventInput.customerId d),
        optionalString (EventInput.orderId d) with
  | JStr eventType, Some customerId, Some orderId =>
      match tenantById db (EventInput.tenantId d) with
      | None => inl foreignKeyFailed
      | Some _ =>
          let r := EventRecord.mk (newId (serial db)) (EventInput.tenantId d) eventType
                                  customerId orderId (EventInput.metadata d) in
          inr (r, mkDatabase (core db) (users db) (eventRows db ++ [r]) (S (serial db)))
      end
  | _, _, _ => inl invalidArgument
  end.

Definition performApi (aw : ApiWorld) (op : ApiOp) (db : Database)
  : (Error + ApiResp op) * Database :=
  match op as o return (Error + ApiResp o) * Database with
  | Core op =>
      let '(r, s) := perform (remote aw) op (core db) in (r, setCore db s)
  | TenantFindById i => (inr (tenantById db i), db)
  | TenantCreate shopDomain accessToken name email =>
      match tenantByDomain db shopDomain with
      | Some _ => (inl shopDomainTaken, db)
      | None =>
          let t := Tenant.mk (newId (serial db)) shopDomain accessToken name email in
          (inr t, mkDatabase (addTenant (core db) t) (users db) (eventRows db) (S (serial db)))
      end
  | UserFindUnique email includeTenant =>
      (inr (option_map
              (fun u => (u, match User.tenantId u with
                            | Some i => if includeTenant then tenantById db i else None
                            | None => None
                            end))
              (userByEmail db email)), db)
  | UserCreate email password name tenantId =>
      match userByEmail db email, tenantById db tenantId with
      | Some _, _ => (inl emailTaken, db)
      | None, None => (inl foreignKeyFailed, db)
      | None, Some _ =>
          let u := User.mk (newId (serial db)) email password (Some name) (Some tenantId) in
          (inr u, mkDatabase (core db) (users db ++ [u]) (eventRows db) (S (serial db)))
      end
  | EventCreate d =>
      match createEvent d db with
      | inl e => (inl e, db)
      | inr (r, db1) => (inr r, db1)
      end
  | BcryptHash password rounds => (inr (bcryptHash (library aw) password rounds), db)
  | BcryptCompare password hash => (inr (bcryptCompare (library aw) password hash), db)
  end.

(** ** Route handlers *)

(** The body of an [async] route handler, as [Proc] is for the services. *)
Inductive Handler (A : Type) : Type :=
| Done (a : A)
| Fail (e : Error)
| Hang
| Wait (op : ApiOp) (k : Error + ApiResp op -> Handler A).

Arguments Done {A} a.
Arguments Fail {A} e.
Arguments Hang {A}.
Arguments Wait {A} op k.

Fixpoint andThen {A B : Type} (m : Handler A) (f : A -> Handler B) : Handler B :=
  match m with
  | Done a => f a
  | Fail e => Fail e
  | Hang => Hang
  | Wait op k => Wait op (fun r => andThen (k r) f)
  end.

(** [try { m } catch (error) { h error }] *)
Fixpoint catch {A : Type} (m : Handler A) (h : Error -> Handler A) : Handler A :=
  match m with
  | Done a => Done a
  | Fail e => h e
  | Hang => Hang
  | Wait op k => Wait op (fun r => catch (k r) h)
  end.

Definition await (op : ApiOp) : Handler (ApiResp op) :=
  Wait op (fun r => match r with inl e => Fail e | inr v => Done v end).

(** [await] of a method of the services. *)
Fixpoint lift {A : Type} (p : Proc A) : Handler A :=
  match p with
  | Ret a => Done a
  | Throw e => Fail e
  | Spin => Hang
  | Await op k => Wait (Core op) (fun r => lift (k r))
  end.

Declare Scope handler_scope.
Delimit Scope handler_scope with handler.
Notation "x <~ m ;; k" := (andThen m (fun x => k))
  (at level 61, m at next level, right associativity) : handler_scope.

Fixpoint serve {A : Type} (aw : ApiWorld) (h : Handler A) (db : Database)
  : Outcome A * Database * list ApiOp :=
  match h with
  | Done a => (Returned a, db, [])
  | Fail e => (Thrown e, db, [])
  | Hang => (Unfinished, db, [])
  | Wait op k =>
      let '(r, db1) := performApi aw op db in
      let '(o, db2, tr) := serve aw (k r) db1 in
      (o, db2, op :: tr)
  end.

(** ** [ingestion.routes.ts] *)

Section IngestionRoutes.
Local Open Scope handler_scope.

Variable lib : Library.
Variable env : Env.t.
Variable fuel : nat.

(** [router.use(authenticateToken); router.use(requireTenant);] before
    the routes. *)
Definition behindAuth (handler : AuthRequest.t -> Handler Reply) (req : Request.t)
  : Handler Reply :=
  match authenticateToken lib env req with
  | inl r => Done r
  | inr req1 =>
      match requireTenant req1 with
      | inl r => Done r
      | inr req2 => handler req2
      end
  end.

Definition countsJson (c : Counts) : Json :=
  JObj [("created", Js.ofNat (created c)); ("updated", Js.ofNat (updated c))].

(** The handlers of [/sync/customers], [/sync/products] and
    [/sync/orders], the same up to the ingestion they await and their two
    messages. *)
Definition syncHandler (ingest : IngestionService -> Proc Counts)
    (completed failed : string) (req : AuthRequest.t) : Handler Reply :=
  catch
    (match JS.orNull (AuthRequest.tenantId req) with
     | None => Done (errorReply 403 "Tenant access required")
     | Some tenantId =>
         tenant <~ await (TenantFindById tenantId) ;;
         match tenant with
         | None => Done (errorReply 404 "Tenant not found")
         | Some tenant =>
             let ingestionService :=
               newIngestionService (Tenant.id tenant) (Tenant.shopDomain tenant)
                                   (Tenant.accessToken tenant) in
             result <~ lift (ingest ingestionService) ;;
             Done (reply 200 (JObj [("message", JStr completed);
                                    ("result", countsJson result)]))
         end
     end)
    (fun error => Done (failureReply failed error)).

Definition syncCustomers : AuthRequest.t -> Handler Reply :=
  syncHandler (ingestCustomers fuel) "Customers ingestion completed"
              "Failed to ingest customers".

Definition syncProducts : AuthRequest.t -> Handler Reply :=
  syncHandler (ingestProducts fuel) "Products ingestion completed"
              "Failed to ingest products".

Definition syncOrders : AuthRequest.t -> Handler Reply :=
  syncHandler (ingestOrders fuel) "Orders ingestion completed"
              "Failed to ingest orders".

(** [IngestionService.recordEvent] *)
Definition recordEvent (this : IngestionService) (eventType : Json)
    (customerId orderId metadata : option Json) : Handler unit :=
  let orNull (v : option Json) := if Js.truthy v then v else None in
  _ <~ await (EventCreate
                (EventInput.mk (serviceTenantId this) eventType
                   (orNull customerId) (orNull orderId)
                   (match orNull metadata with
                    | Some m => Some (JSON_stringify lib m)
                    | None => None
                    end))) ;;
  Done tt.

(** The handler of [/events]. *)
Definition postEvent (req : AuthRequest.t) : Handler Reply :=
  catch
    (match JS.orNull (AuthRequest.tenantId req) with
     | None => Done (errorReply 403 "Tenant access required")
     | Some tenantId =>
         let body := Request.body (AuthRequest.request req) in
         let eventType := Js.get "eventType" body in
         let customerId := Js.get "customerId" body in
         let orderId := Js.get "orderId" body in
         let metadata := Js.get "metadata" body in
         match eventType with
         | Some eventType' =>
             if Js.truthy eventType then
               let ingestionService := newIngestionService tenantId "" "" in
               _ <~ recordEvent ingestionService eventType' customerId orderId metadata ;;
               Done (reply 200 (JObj [("message", JStr "Event recorded successfully")]))
             else Done (errorReply 400 "Event type is required")
         | None => Done (errorReply 400 "Event type is required")
         end
     end)
    (fun error => Done (failureReply "Failed to record event" error)).
End IngestionRoutes.

(* ===================================================================== *)
(** * [webhook.routes.ts]: the route, in and out of the application *)
(* ===================================================================== *)

(** ** The body of a request *)

(** What the handler of a route finds in [req.body].  The webhook route
    mounts [express.raw({ type: 'application/json' })] before its handler,
    which reads the body into a [Buffer] when no parser has read it before.
    In the application a parser has: [server.ts] mounts [express.json()]
    before the routers, so a JSON body reaches the route as the value it
    parses to, and [express.raw] passes it on as it is.  [Undefined] is a
    request on which no parser has set [req.body]. *)
Inductive Body : Type :=
| Buffer (bytes : string)
| Parsed (value : Json)
| Undefined.

(** What Node and the JavaScript engine do for the route, left open:
      - [JSON.parse], followed by the reading of [data.id] by the handlers;
      - [buffer.toString()], the UTF-8 decoding of the bytes, in which what
        is ill-formed becomes U+FFFD; a string is kept here as its UTF-8
        encoding, which is what [hmac.update(body, 'utf8')] hashes;
      - [Number.prototype.toString]. *)
Record Runtime : Type := mkRuntime {
  JSON_parse : string -> Error + Payload;
  Buffer_toString : string -> string;
  Number_toString : JS.number -> string
}.

Definition notPrimitive : Error := "Cannot convert object to primitive value".
Definition notAFunction : Error := "req.body.toString is not a function".
Definition nullBody : Error := "Cannot read properties of null (reading 'toString')".

(** [String(v)] for a value [v] read from JSON text.  An array gives its
    elements joined by commas, [null] counting as the empty string.  An
    object gives "[object Object]", unless it has a member [toString] of its
    own: that member is no function, [valueOf] gives the object back, and
    the conversion throws. *)
Fixpoint stringOf (num : JS.number -> string) (v : Json) : Error + string :=
  match v with
  | JNull => inr "null"
  | JBool b => inr (if b then "true" else "false")
  | JNum n => inr (num n)
  | JStr s => inr s
  | JArr items =>
      (fix join (l : list Json) : Error + string :=
         match l with
         | [] => inr ""
         | x :: rest =>
             match match x with JNull => inr "" | _ => stringOf num x end, rest with
             | inl e, _ => inl e
             | inr a, [] => inr a
             | inr a, _ :: _ =>
                 match join rest with
                 | inl e => inl e
                 | inr b => inr (a ++ "," ++ b)%string
                 end
             end
         end) items
  | JObj fields =>
      match Js.get "toString" fields with
      | Some _ => inl notPrimitive
      | None => inr "[object Object]"
      end
  end.

(** [req.body.toString()]. *)
Definition bodyToString (rt : Runtime) (b : Body) : Error + string :=
  match b with
  | Buffer bytes => inr (Buffer_toString rt bytes)
  | Parsed JNull => inl nullBody
  | Parsed (JObj fields) =>
      match Js.get "toString" fields with
      | Some _ => inl notAFunction
      | None => inr "[object Object]"
      end
  | Parsed v => stringOf (Number_toString rt) v
  | Undefined => inl typeError
  end.

(** ** The route *)

(** The three headers the route reads, and the body. *)
Record WebhookRequest : Type := mkWebhookRequest {
  hmacHeader : option string;
  shopDomainHeader : option string;
  topicHeader : option string;
  body : Body
}.

(** [router.post('/shopify', ...)]: the status of the response. *)
Definition shopifyWebhook (rt : Runtime) (fuel : nat) (req : WebhookRequest) : Proc nat :=
  tryCatch
    (match JS.orNull (hmacHeader req), JS.orNull (shopDomainHeader req),
           JS.orNull (topicHeader req) with
     | Some signature, Some shopDomain, Some topic =>
         tenant <- call (TenantFindUnique shopDomain) ;;
         match tenant with
         | None => Ret 404
         | Some tenant =>
             match bodyToString rt (body req) with
             | inl e => Throw e
             | inr bodyString =>
                 let isValid :=
                   verifyShopifyWebhook bodyString signature (Tenant.accessToken tenant) in
                 if negb isValid then Ret 401
                 else
                   match JSON_parse rt bodyString with
                   | inl e => Throw e
                   | inr data =>
                       let handle
                             (h : nat -> string -> string -> string -> Payload -> Proc unit) :=
                         h fuel (Tenant.id tenant) (Tenant.shopDomain tenant)
                           (Tenant.accessToken tenant) data in
                       _ <- (if oneOf topic ["orders/create"; "orders/updated"]
                             then handle handleOrderWebhook
                             else if oneOf topic ["customers/create"; "customers/update"]
                             then handle handleCustomerWebhook
                             else if oneOf topic ["products/create"; "products/update"]
                             then handle handleProductWebhook
                             else if oneOf topic ["orders/paid"]
                             then handle handleOrderWebhook
                             else Ret tt) ;;
                       Ret 200
                   end
             end
         end
     | _, _, _ => Ret 400
     end)
    (fun _ => Ret 500).

(** ** Vocabulary for the route *)

(** The webhook request carries the three headers, non-empty. *)
Definition Headers (req : WebhookRequest) (signature shop topic : string) : Prop :=
  JS.orNull (hmacHeader req) = Some signature
  /\ JS.orNull (shopDomainHeader req) = Some shop
  /\ JS.orNull (topicHeader req) = Some topic.

(** The request [req] with another topic. *)
Definition withTopic (req : WebhookRequest) (topic : string) : WebhookRequest :=
  mkWebhookRequest (hmacHeader req) (shopDomainHeader req) (Some topic) (body req).

(** The reply to a notification that has been let in, after the run [r] of
    what it triggered: 200 whether that returned or threw. *)
Definition acknowledged {A : Type} (shop : string) (r : Outcome A * Store * list Op)
  : Outcome nat * Store * list Op :=
  (match outcomeOf r with
   | Returned _ | Thrown _ => Returned 200
   | Unfinished => Unfinished
   end, storeOf r, TenantFindUnique shop :: traceOf r).

(** The topics the route knows. *)
Definition customerTopics : list string := ["customers/create"; "customers/update"].
Definition productTopics : list string := ["products/create"; "products/update"].
Definition orderTopics : list string := ["orders/create"; "orders/updated"; "orders/paid"].

(** A request that the route lets in: its three headers are there, the
    shop is the one of [tenant], [req.body.toString()] gives [text], the
    signature is the HMAC of [text] under the credential of [tenant], and
    [text] parses to [data]. *)
Definition LetIn (rt : Runtime) (s : Store) (req : WebhookRequest)
    (shop topic : string) (tenant : Tenant.t) (text : string) (data : Payload) : Prop :=
  Headers req (Crypto.hmacSha256Base64 (Tenant.accessToken tenant) text) shop topic
  /\ tenantOf s shop = Some tenant
  /\ bodyToString rt (body req) = inr text
  /\ JSON_parse rt text = inr data.

(** [toString()] of an object that has no member of that name. *)
Definition objectText : string := "[object Object]".

(** ** Notifications of the examples *)

Module Notice.

(** A stand-in for the engine, right on what the examples hold: their
    bodies are ASCII, which the decoding leaves as it is, and their
    numbers are integers. *)
Definition decimal (n : JS.number) : string :=
  match n with
  | JS.Finite neg m 0 => JS.toStringZ (if neg then - Z.of_N m else Z.of_N m)
  | _ => "NaN"
  end.

Definition runtime : Runtime := mkRuntime Hook.parse (fun bytes => bytes) decimal.

(** What [JSON.parse] makes of [Hook.bodyO1]. *)
Definition valueO1 : Json := JObj [("id", JStr "O1")].

(** A notification that the order O1 has changed, from the shop of the
    sample tenant, with the signature that Shopify computes: the HMAC of
    the bytes of the body under the credential of the tenant.  [body] is
    what the handler finds in [req.body]. *)
Definition orderUpdated (body : Body) : WebhookRequest :=
  mkWebhookRequest (Some (Crypto.hmacSha256Base64 Sample.token Hook.bodyO1))
                   (Some Sample.shop) (Some "orders/updated") body.

(** The same for the order O9, which the remote has not. *)
Definition orderUpdatedO9 (body : Body) : WebhookRequest :=
  mkWebhookRequest (Some (Crypto.hmacSha256Base64 Sample.token Hook.bodyO9))
                   (Some Sample.shop) (Some "orders/updated") body.

(** As it reaches the route in the application, and as it reaches the
    route mounted on its own. *)
Definition inApplication : WebhookRequest := orderUpdated (Parsed valueO1).
Definition onItsOwn : WebhookRequest := orderUpdated (Buffer Hook.bodyO1).

(** A request without its topic header. *)
Definition noTopic : WebhookRequest :=
  mkWebhookRequest (Some "c2ln") (Some Sample.shop) None (Parsed valueO1).

End Notice.

Module Gone.

(** The shop whose credential has been revoked. *)
Definition text : string :=
  ("{" ++ Sample.dq ++ "id" ++ Sample.dq ++ ":" ++ Sample.dq ++ "C7" ++ Sample.dq ++ "}")%string.

Definition parse (b : string) : Error + Payload :=
  if String.eqb b text then inr (mkPayload (Some "C7")) else inl "Unexpected token in JSON".

Definition runtime : Runtime := mkRuntime parse (fun bytes => bytes) Notice.decimal.

(** A request that the application lets in: its body is a JSON array
    that holds one string, which [toString()] gives back, and its
    signature is the HMAC of that string. *)
Definition notification : WebhookRequest :=
  mkWebhookRequest (Some (Crypto.hmacSha256Base64 "shpat_old" text))
                   (Some "gone.myshopify.com") (Some "customers/create")
                   (Parsed (JArr [JStr text])).

End Gone.

(** ** [tenant.routes.ts] *)

(** The checks of [express-validator] that the two routes chain on fields of
    the body.  A field is the JSON value that the body has under its name,
    or nothing.  Each check gives the number of errors that it adds for a
    field, none when the field passes; it can add more than one when the
    field is an array, whose elements it looks at one by one.  What a check
    makes of a value that is not a string, and how [isLength] counts the
    characters of one that is, is the library's. *)
Module Chain.
Record t : Type := mk {
  (** [body(field).notEmpty()] *)
  notEmpty : option Json -> nat;
  (** [body(field).isEmail()] *)
  isEmail : option Json -> nat;
  (** [body(field).isLength({ min })] *)
  isLength : nat -> option Json -> nat
}.
End Chain.

(** One chain with [withMessage(message)]: its errors, of which the message
    is kept. *)
Definition check (failures : nat) (message : string) : list string :=
  repeat message failures.

(** [{ errors: errors.array() }]; of each error the message is kept. *)
Definition validationReply (errors : list string) : Reply :=
  reply 400 (JObj [("errors", JArr (map (fun m => JObj [("msg", JStr m)]) errors))]).

Definition tenantJson (t : Tenant.t) : Json :=
  JObj [("id", JStr (Tenant.id t)); ("shopDomain", JStr (Tenant.shopDomain t));
        ("name", JStr (Tenant.name t))].

Definition userJson (u : User.t) : Json :=
  JObj [("id", JStr (User.id u)); ("email", JStr (User.email u));
        ("name", match User.name u with Some n => JStr n | None => JNull end)].

(** The text of a value that is a string. *)
Definition asString (v : option Json) : option string :=
  match v with
  | Some (JStr s) => Some s
  | _ => None
  end.

(** What [bcryptjs] throws when it is given something else than strings;
    the types that the message goes on with are left out. *)
Definition illegalArguments : Error := "Illegal arguments".

(** A value of the body handed to a callee that takes a string: the callee
    throws [e], before it does anything, when the value is something else. *)
Definition stringArgument (e : Error) (v : option Json) : Handler string :=
  match asString v with
  | Some s => Done s
  | None => Fail e
  end.

(** The calls of the two routes on values of the body.  The columns that
    the arguments go to are of type [String], and so are the arguments of
    [bcryptjs]. *)
Section Calls.
Local Open Scope handler_scope.

(** [prisma.tenant.findUnique({ where: { shopDomain } })] *)
Definition tenantFindUnique (shopDomain : option Json) : Handler (option Tenant.t) :=
  shopDomain <~ stringArgument invalidArgument shopDomain ;;
  await (Core (TenantFindUnique shopDomain)).

(** [prisma.user.findUnique({ where: { email } })], with
    [include: { tenant: true }] or without. *)
Definition userFindUnique (email : option Json) (includeTenant : bool)
  : Handler (option (User.t * option Tenant.t)) :=
  email <~ stringArgument invalidArgument email ;;
  await (UserFindUnique email includeTenant).

(** [bcrypt.hash(password, rounds)] *)
Definition bcrypt_hash (password : option Json) (rounds : nat) : Handler string :=
  password <~ stringArgument illegalArguments password ;;
  await (BcryptHash password rounds).

(** [bcrypt.compare(password, hash)] *)
Definition bcrypt_compare (password : option Json) (hash : string) : Handler bool :=
  password <~ stringArgument illegalArguments password ;;
  await (BcryptCompare password hash).

(** [prisma.tenant.create({ data: { shopDomain, accessToken, name, email } })] *)
Definition tenantCreate (shopDomain accessToken name email : option Json)
  : Handler Tenant.t :=
  shopDomain <~ stringArgument invalidArgument shopDomain ;;
  accessToken <~ stringArgument invalidArgument accessToken ;;
  name <~ stringArgument invalidArgument name ;;
  email <~ stringArgument invalidArgument email ;;
  await (TenantCreate shopDomain accessToken name email).

(** [prisma.user.create({ data: { email, password, name, tenantId } })],
    which the route reaches with the [email] and the [name] that
    [tenant.create] has taken. *)
Definition userCreate (email : option Json) (password : string) (name : option Json)
    (tenantId : TenantId) : Handler User.t :=
  email <~ stringArgument invalidArgument email ;;
  name <~ stringArgument invalidArgument name ;;
  await (UserCreate email password name tenantId).
End Calls.

Section TenantRoutes.
Local Open Scope handler_scope.

Variable lib : Library.
Variable env : Env.t.
Variable chain : Chain.t.

Definition registerErrors (body : list (string * Json)) : list string :=
  check (Chain.notEmpty chain (Js.get "shopDomain" body)) "Shop domain is required"
  ++ check (Chain.notEmpty chain (Js.get "accessToken" body)) "Access token is required"
  ++ check (Chain.notEmpty chain (Js.get "name" body)) "Name is required"
  ++ check (Chain.isEmail chain (Js.get "email" body)) "Valid email is required"
  ++ check (Chain.isLength chain 6 (Js.get "password" body))
           "Password must be at least 6 characters".

(** The handler of [POST /register]; [body] holds the members of
    [req.body], the object that [express.json()] has parsed. *)
Definition register (body : list (string * Json)) : Handler Reply :=
  catch
    (match registerErrors body with
     | (_ :: _) as errors => Done (validationReply errors)
     | [] =>
         let shopDomain := Js.get "shopDomain" body in
         let accessToken := Js.get "accessToken" body in
         let name := Js.get "name" body in
         let email := Js.get "email" body in
         let password := Js.get "password" body in
         existingTenant <~ tenantFindUnique shopDomain ;;
         match existingTenant with
         | Some _ => Done (errorReply 400 "Tenant with this shop domain already exists")
         | None =>
             existingUser <~ userFindUnique email false ;;
             match existingUser with
             | Some _ => Done (errorReply 400 "User with this email already exists")
             | None =>
                 hashedPassword <~ bcrypt_hash password 10 ;;
                 tenant <~ tenantCreate shopDomain accessToken name email ;;
                 user <~ userCreate email hashedPassword name (Tenant.id tenant) ;;
                 let jwtSecret := JS.strOr (Env.JWT_SECRET env) "secret-key" in
                 let token :=
                   jwtSign lib (Jwt.mk (Some (User.id user)) (Some (Tenant.id tenant))
                                       (Some (User.email user))) jwtSecret in
                 Done (reply 201
                         (JObj [("message", JStr "Tenant registered successfully");
                                ("tenant", tenantJson tenant);
                                ("user", userJson user);
                                ("token", JStr token)]))
             end
         end
     end)
    (fun error => Done (failureReply "Failed to register tenant" error)).

Definition loginErrors (body : list (string * Json)) : list string :=
  check (Chain.isEmail chain (Js.get "email" body)) "Valid email is required"
  ++ check (Chain.notEmpty chain (Js.get "password" body)) "Password is required".

(** The handler of [POST /login]. *)
Definition login (body : list (string * Json)) : Handler Reply :=
  catch
    (match loginErrors body with
     | (_ :: _) as errors => Done (validationReply errors)
     | [] =>
         let email := Js.get "email" body in
         let password := Js.get "password" body in
         found <~ userFindUnique email true ;;
         match found with
         | None => Done (errorReply 401 "Invalid email or password")
         | Some (user, tenant) =>
             isValidPassword <~ bcrypt_compare password (User.password user) ;;
             if negb isValidPassword
             then Done (errorReply 401 "Invalid email or password")
             else
               let jwtSecret := JS.strOr (Env.JWT_SECRET env) "secret-key" in
               let token :=
                 jwtSign lib (Jwt.mk (Some (User.id user)) (User.tenantId user)
                                     (Some (User.email user))) jwtSecret in
               Done (reply 200
                       (JObj [("message", JStr "Login successful");
                              ("user", userJson user);
                              ("tenant", match tenant with
                                         | Some t => tenantJson t
                                         | None => JNull
                                         end);
                              ("token", JStr token)]))
         end
     end)
    (fun error => Done (failureReply "Failed to login" error)).

(** The handler of [GET /me], behind [authenticateToken] alone; the
    time of creation, which the model does not keep, is left out of the
    reply. *)
Definition me (req : AuthRequest.t) : Handler Reply :=
  catch
    (match JS.orNull (AuthRequest.tenantId req) with
     | None => Done (errorReply 403 "Tenant access required")
     | Some tenantId =>
         tenant <~ await (TenantFindById tenantId) ;;
         match tenant with
         | None => Done (errorReply 404 "Tenant not found")
         | Some t =>
             Done (reply 200
                     (JObj [("id", JStr (Tenant.id t));
                            ("shopDomain", JStr (Tenant.shopDomain t));
                            ("name", JStr (Tenant.name t));
                            ("email", JStr (Tenant.email t))]))
         end
     end)
    (fun error => Done (failureReply "Failed to get tenant info" error)).

Definition getMe (req : Request.t) : Handler Reply :=
  match authenticateToken lib env req with
  | inl r => Done r
  | inr req1 => me req1
  end.
End TenantRoutes.

(** ** Vocabulary for the HTTP interface *)

Definition replyOf {A : Type} (r : Outcome A * Database * list ApiOp) : Outcome A :=
  fst (fst r).
Definition dbOf {A : Type} (r : Outcome A * Database * list ApiOp) : Database :=
  snd (fst r).
Definition awaitedBy {A : Type} (r : Outcome A * Database * list ApiOp) : list ApiOp :=
  snd r.

(** [h] is made of words separated by single blanks, [word] being the
    second of them. *)
Definition SecondWord (h word : string) : Prop :=
  exists first rest : string,
    h = (first ++ " " ++ word ++ rest)%string
    /\ hasChar " " first = false
    /\ hasChar " " word = false
    /\ (rest = "" \/ exists r : string, rest = (" " ++ r)%string).

(** The secret that [authenticateToken] checks tokens against. *)
Definition checkingSecret (env : Env.t) : string :=
  JS.strOr (Env.JWT_SECRET env) "your-secret-key-change-in-production".

(** The request [req] does not get past the two middlewares. *)
Definition Unauthenticated (lib : Library) (env : Env.t) (req : Request.t) : Prop :=
  match bearerToken (Request.authorization req) with
  | None => True
  | Some token =>
      match jwtVerify lib token (checkingSecret env) with
      | inl _ => True
      | inr decoded => JS.orNull (Jwt.tenantId decoded) = None
      end
  end.

(** A request whose token verifies and names the tenant [tenantId]. *)
Definition AuthenticatedAs (lib : Library) (env : Env.t) (req : Request.t)
    (decoded : Jwt.Payload) (tenantId : string) : Prop :=
  exists token,
    bearerToken (Request.authorization req) = Some token
    /\ jwtVerify lib token (checkingSecret env) = inr decoded
    /\ JS.orNull (Jwt.tenantId decoded) = Some tenantId.

Definition isRemote (op : ApiOp) : bool :=
  match op with Core (HttpGet _ _ _ _) => true | _ => false end.

(** What the replies of a sync route say, [r] being the run of the route for
    a request that names the tenant [tid], and [ingest] the ingestion it
    awaits. *)
Definition SyncReplies (aw : ApiWorld) (ingest : IngestionService -> Proc Counts)
    (db : Database) (tid : string) (r : Outcome Reply * Database * list ApiOp) : Prop :=
  (replyOf r = Unfinished
   \/ exists rp, replyOf r = Returned rp
                 /\ (statusCode rp = 200 \/ statusCode rp = 404 \/ statusCode rp = 500))
  /\ (forall rp, replyOf r = Returned rp -> statusCode rp <> 200 -> dbOf r = db)
  /\ (forall rp, replyOf r = Returned rp -> statusCode rp = 404 ->
        tenantById db tid = None /\ awaitedBy r = [TenantFindById tid])
  /\ (forall rp, replyOf r = Returned rp -> statusCode rp = 200 ->
        exists tenant result,
          tenantById db tid = Some tenant
          /\ (let this := newIngestionService (Tenant.id tenant) (Tenant.shopDomain tenant)
                                              (Tenant.accessToken tenant) in
              outcomeOf (run (remote aw) (ingest this) (core db)) = Returned result
              /\ core (dbOf r) = storeOf (run (remote aw) (ingest this) (core db)))
          /\ Js.member "result" (json rp) = Some (countsJson result))
  /\ users (dbOf r) = users db
  /\ eventRows (dbOf r) = eventRows db.

(** [value || null] for a column of type [String?]: the text of a string
    that is not empty, nothing for whatever else is falsy. *)
Definition textOf (v : option Json) : option string :=
  match v with
  | Some (JStr s) => JS.orNull (Some s)
  | _ => None
  end.

(** The row that [/events] stores for the tenant [tid] and the body
    [body], when its event type is the string [eventType]. *)
Definition eventRowOf (lib : Library) (db : Database) (tid eventType : string)
    (body : list (string * Json)) : EventRecord.t :=
  EventRecord.mk (newId (serial db)) tid eventType
                 (textOf (Js.get "customerId" body))
                 (textOf (Js.get "orderId" body))
                 (if Js.truthy (Js.get "metadata" body)
                  then option_map (JSON_stringify lib) (Js.get "metadata" body)
                  else None).

(** A stand-in for the libraries in the examples.  Its tokens are the
    secret and the three fields of the payload with colons between them,
    its hashes the password behind a marker: nothing is protected. *)
Module Standin.

Definition text (f : option string) : string :=
  match f with Some s => s | None => EmptyString end.

Definition sign (p : Jwt.Payload) (secret : string) : string :=
  (secret ++ ":" ++ text (Jwt.userId p) ++ ":" ++ text (Jwt.tenantId p)
     ++ ":" ++ text (Jwt.email p))%string.

Definition verify (token secret : string) : Error + Jwt.Payload :=
  match Js.split ":" token with
  | [k; u; t; e] =>
      if String.eqb k secret
      then inr (Jwt.mk (JS.orNull (Some u)) (JS.orNull (Some t)) (JS.orNull (Some e)))
      else inl "invalid signature"
  | _ => inl "jwt malformed"
  end.

Definition hash (password : string) (rounds : nat) : string :=
  ("$2a$" ++ password)%string.

Definition library : Library :=
  mkLibrary sign verify hash
            (fun password h => String.eqb h (hash password 10))
            (hasChar "@")
            (fun _ => "{}").

(** The text that the checks look at, for the values of the examples:
    a string as it is, an object as [toString()] gives it, a number and a
    boolean as they print, and what else there is as the empty text. *)
Definition shown (v : option Json) : string :=
  match v with
  | Some (JStr s) => s
  | Some (JObj _) => objectText
  | Some (JNum n) => Notice.decimal n
  | Some (JBool b) => if b then "true" else "false"
  | _ => EmptyString
  end.

(** The characters of a text in UTF-8: the bytes that do not continue a
    character. *)
Definition continues (c : ascii) : bool :=
  Nat.leb 128 (nat_of_ascii c) && Nat.ltb (nat_of_ascii c) 192.

Fixpoint characters (s : string) : nat :=
  match s with
  | EmptyString => 0
  | String c rest => (if continues c then 0 else 1) + characters rest
  end.

Definition errors (ok : bool) : nat := if ok then 0 else 1.

Definition chain : Chain.t :=
  Chain.mk (fun v => errors (negb (String.eqb (shown v) EmptyString)))
           (fun v => errors (isEmail library (shown v)))
           (fun min v => errors (Nat.leb min (characters (shown v)))).

Definition app : ApiWorld := mkApiWorld Sample.world library.

(** No JWT_SECRET in the environment. *)
Definition bare : Env.t := Env.mk None None None.

(** The store of [Hook], with no users and no events. *)
Definition db : Database := mkDatabase Hook.store [] [] 0.

(** A request whose token names the tenant of [Hook]. *)
Definition asTenant1 (body : list (string * Json)) : AuthRequest.t :=
  AuthRequest.mk (Request.mk None body) (Some "user-1") (Some "tenant-1").

End Standin.

(** A value that can go into a column of type [String?] after [|| null]:
    something falsy, or a string. *)
Definition storable (v : option Json) : Prop :=
  Js.truthy v = false \/ exists s, v = Some (JStr s).

(** ** Vocabulary for the tenant routes *)

(** The secret that the tenant routes sign tokens with. *)
Definition signingSecret (env : Env.t) : string :=
  JS.strOr (Env.JWT_SECRET env) "secret-key".

(** The text of a field of the body, when the field is a string. *)
Definition fieldText (name : string) (body : list (string * Json)) : string :=
  match asString (Js.get name body) with
  | Some s => s
  | None => EmptyString
  end.

(** The five fields of a registration are strings. *)
Definition AllText (body : list (string * Json)) : Prop :=
  forall field,
    In field ["shopDomain"; "accessToken"; "name"; "email"; "password"] ->
    exists s, Js.get field body = Some (JStr s).

(** The tenant and the user that a registration adds. *)
Definition newTenant (db : Database) (body : list (string * Json)) : Tenant.t :=
  Tenant.mk (newId (serial db))
            (fieldText "shopDomain" body)
            (fieldText "accessToken" body)
            (fieldText "name" body)
            (fieldText "email" body).

Definition newUser (lib : Library) (db : Database) (body : list (string * Json)) : User.t :=
  User.mk (newId (S (serial db)))
          (fieldText "email" body)
          (bcryptHash lib (fieldText "password" body) 10)
          (Some (fieldText "name" body))
          (Some (newId (serial db))).

(** The database after the registration of [body]. *)
Definition registered (lib : Library) (db : Database) (body : list (string * Json))
  : Database :=
  mkDatabase (addTenant (core db) (newTenant db body))
             (users db ++ [newUser lib db body])
             (eventRows db)
             (S (S (serial db))).

(** The token for a user. *)
Definition tokenFor (lib : Library) (env : Env.t) (u : User.t) : string :=
  jwtSign lib (Jwt.mk (Some (User.id u)) (User.tenantId u) (Some (User.email u)))
          (signingSecret env).

(** The body of a registration can be registered in [db]: it passes the
    checks, its five fields are strings, and neither its shop domain nor its
    e-mail address is taken. *)
Definition Registrable (chain : Chain.t) (db : Database) (body : list (string * Json))
  : Prop :=
  registerErrors chain body = []
  /\ AllText body
  /\ tenantByDomain db (fieldText "shopDomain" body) = None
  /\ userByEmail db (fieldText "email" body) = None.

Module Acme.

(** The registration of a shop. *)
Definition registration : list (string * Json) :=
  [("shopDomain", JStr "acme.myshopify.com"); ("accessToken", JStr "shpat_9f2c");
   ("name", JStr "Acme"); ("email", JStr "owner@acme.example");
   ("password", JStr "s3cret!")].

(** A password of five characters, the second and the last of which
    carry an accent and take two bytes each in UTF-8: 195 164 and
    195 169. *)
Definition accented : string :=
  String "p" (String (ascii_of_nat 195) (String (ascii_of_nat 164)
    (String "s" (String "s" (String (ascii_of_nat 195)
      (String (ascii_of_nat 169) EmptyString)))))).

(** The same with another password. *)
Definition withPassword (password : Json) : list (string * Json) :=
  registration ++ [("password", password)].

(** The login of its owner. *)
Definition entry : list (string * Json) :=
  [("email", JStr "owner@acme.example"); ("password", JStr "s3cret!")].

Definition empty : Database := mkDatabase emptyStore [] [] 0.

End Acme.

(* ===================================================================== *)
(** * The JavaScript layer on examples *)
(* ===================================================================== *)

Example parseFloat_plain : JS.parseFloat "19.99" = JS.Finite false 1999 (-2).
Proof. reflexivity. Qed.

Example parseFloat_prefix : JS.parseFloat "  -1.5e3USD" = JS.Finite true 15 2.
Proof. reflexivity. Qed.

Example parseFloat_junk :
  JS.parseFloat "abc" = JS.NaN /\ JS.parseFloat "" = JS.NaN /\ JS.parseFloat "." = JS.NaN.
Proof. repeat split. Qed.

Example orderData_sample :
  orderData Sample.order1 (Some 7)
  = Order.mk "O1" (Some "1001") (Some "alice@example.com") (Some "paid") None
             (JS.Finite false 3480 (-2)) None None None "USD" (Some 7)
             (Some (JS.mkDate "2024-02-01T08:00:00Z"))
             (Some (JS.mkDate "2024-02-01T08:00:00Z")).
Proof. reflexivity. Qed.

(** Bob's total spent does not parse, and he has no update time. *)
Example customerData_sample :
  customerData Sample.bob
  = Customer.mk "C2" None (Some "Bob") None None JS.zero 0
                (Some (JS.mkDate "2024-01-07T10:00:00Z")) None.
Proof. reflexivity. Qed.

Example nextMatch_first_page :
  Link.nextMatch (Sample.nextLink "eyJsYXN0X2lkIjoxfQ") = Some "eyJsYXN0X2lkIjoxfQ".
Proof. reflexivity. Qed.

(** A header with a previous and a next link: the cursor of the next one. *)
Example nextMatch_previous_and_next :
  Link.nextMatch
    ("<https://acme.myshopify.com/a.json?page_info=before&limit=250>; rel="
       ++ Sample.dq ++ "previous" ++ Sample.dq
       ++ ", <https://acme.myshopify.com/a.json?page_info=after&limit=250>; rel="
       ++ Sample.dq ++ "next" ++ Sample.dq)
  = Some "after".
Proof. reflexivity. Qed.

Example nextMatch_last_page :
  Link.nextMatch
    ("<https://acme.myshopify.com/a.json?page_info=before>; rel="
       ++ Sample.dq ++ "previous" ++ Sample.dq)
  = None.
Proof. reflexivity. Qed.

(* ===================================================================== *)
(** * Facts about [Proc] and [run] *)
(* ===================================================================== *)

Lemma run_bind {A B : Type} (w : World) (m : Proc A) (f : A -> Proc B) :
  forall s,
    run w (bind m f) s =
    match run w m s with
    | (Returned a, s1, tr1) =>
        let '(o, s2, tr2) := run w (f a) s1 in (o, s2, tr1 ++ tr2)
    | (Thrown e, s1, tr1) => (Thrown e, s1, tr1)
    | (Unfinished, s1, tr1) => (Unfinished, s1, tr1)
    end.
Proof.
  induction m as [a | e | | op k IH]; intro s; simpl.
  - destruct (run w (f a) s) as [[o s2] tr2]; reflexivity.
  - reflexivity.
  - reflexivity.
  - destruct (perform w op s) as [r s1].
    rewrite IH.
    destruct (run w (k r) s1) as [[[a | e |] s2] tr1]; try reflexivity.
    destruct (run w (f a) s2) as [[o s3] tr2]; reflexivity.
Qed.

Lemma run_tryCatch {A : Type} (w : World) (m : Proc A) (h : Error -> Proc A) :
  forall s,
    run w (tryCatch m h) s =
    match run w m s with
    | (Thrown e, s1, tr1) =>
        let '(o, s2, tr2) := run w (h e) s1 in (o, s2, tr1 ++ tr2)
    | r => r
    end.
Proof.
  induction m as [a | e | | op k IH]; intro s; simpl.
  - reflexivity.
  - destruct (run w (h e) s) as [[o s2] tr2]; reflexivity.
  - reflexivity.
  - destruct (perform w op s) as [r s1].
    rewrite IH.
    destruct (run w (k r) s1) as [[[a | e |] s2] tr1]; try reflexivity.
    destruct (run w (h e) s2) as [[o s3] tr2]; reflexivity.
Qed.

Lemma run_call (w : World) (op : Op) (s : Store) :
  run w (call op) s =
  match perform w op s with
  | (inl e, s1) => (Thrown e, s1, [op])
  | (inr v, s1) => (Returned v, s1, [op])
  end.
Proof.
  unfold call; simpl.
  destruct (perform w op s) as [[e | v] s1]; reflexivity.
Qed.

Lemma run_clientGet (w : World) (this : ShopifyService) path params s :
  run w (clientGet this path params) s =
  match http w (shopDomain this) (accessToken this) path params with
  | inl e => (Thrown e, s, [HttpGet (shopDomain this) (accessToken this) path params])
  | inr r => (Returned r, s, [HttpGet (shopDomain this) (accessToken this) path params])
  end.
Proof.
  unfold clientGet, call; simpl.
  destruct (http w _ _ _ _); reflexivity.
Qed.

(* ===================================================================== *)
(** * The remote collection client *)
(* ===================================================================== *)

Lemma resyncs_cons path op tr :
  resyncs path (op :: tr) = (if isFirstPage path op then 1 else 0) + resyncs path tr.
Proof. unfold resyncs; simpl. destruct (isFirstPage path op); reflexivity. Qed.

Lemma resyncs_app path tr1 tr2 :
  resyncs path (tr1 ++ tr2) = resyncs path tr1 + resyncs path tr2.
Proof. unfold resyncs. rewrite filter_app, length_app. reflexivity. Qed.

Lemma resyncs_no_http path tr :
  forallb (fun op => negb (isHttp op)) tr = true -> resyncs path tr = 0.
Proof.
  induction tr as [| op tr IH]; intro H; [reflexivity |].
  simpl in H. apply andb_true_iff in H as [H1 H2].
  rewrite resyncs_cons, IH by assumption.
  destruct op; simpl in *; try reflexivity; discriminate.
Qed.

Section Paginate.
Variable w : World.
Variable this : ShopifyService.
Variable path : string.
Variable limit : Z.
Variable status : option string.
Variable X : Type.
Variable key : ResponseData.t -> option (list X).

Lemma run_paginate_step fuel cursor all s :
  run w (paginate (S fuel) this path limit status key cursor all) s =
  match answer w this path limit status cursor with
  | inl e => (Thrown e, s, [pageRequest this path limit status cursor])
  | inr r =>
      match JS.orNull (nextPageInfo r) with
      | Some next =>
          let '(o, s1, tr) :=
            run w (paginate fuel this path limit status key (Some next)
                            (all ++ pageOf key r)) s in
          (o, s1, pageRequest this path limit status cursor :: tr)
      | None => (Returned (all ++ pageOf key r), s,
                 [pageRequest this path limit status cursor])
      end
  end.
Proof.
  cbn [paginate]. rewrite run_bind, run_clientGet.
  unfold answer, pageRequest.
  destruct (http w _ _ _ _) as [e | r]; [reflexivity |].
  unfold pageOf.
  destruct (JS.orNull (nextPageInfo r)) as [next |]; [| reflexivity].
  destruct (run w _ s) as [[o s1] tr]; reflexivity.
Qed.

(** The store is never touched by a fetch. *)
Lemma paginate_store fuel :
  forall cursor all s,
    storeOf (run w (paginate fuel this path limit status key cursor all) s) = s.
Proof.
  induction fuel as [| fuel IH]; intros cursor all s; [reflexivity |].
  rewrite run_paginate_step.
  destruct (answer w this path limit status cursor) as [e | r]; [reflexivity |].
  destruct (JS.orNull (nextPageInfo r)) as [next |]; [| reflexivity].
  specialize (IH (Some next) (all ++ pageOf key r) s).
  destruct (run w _ s) as [[o s1] tr]; exact IH.
Qed.

(** Cursors are followed until none remains, and the pages are put
    together in the order they were fetched. *)
Lemma paginate_pages cursor rs :
  Pages w this path limit status cursor rs ->
  forall fuel all s,
    List.length rs <= fuel ->
    run w (paginate fuel this path limit status key cursor all) s =
    (Returned (all ++ List.concat (map (pageOf key) rs)), s,
     pageRequests this path limit status cursor rs).
Proof.
  induction 1 as [cursor r Hr Hn | cursor r next rs Hr Hn _ IH];
    intros fuel all s Hlen; simpl in Hlen.
  - destruct fuel as [| fuel]; [lia |].
    rewrite run_paginate_step, Hr, Hn; simpl.
    rewrite app_nil_r; reflexivity.
  - destruct fuel as [| fuel]; [lia |].
    rewrite run_paginate_step, Hr, Hn.
    rewrite IH by lia. simpl.
    rewrite <- app_assoc.
    assert (Hc : nextPageInfo r = Some next).
    { unfold JS.orNull in Hn. destruct (nextPageInfo r) as [c |]; [| discriminate].
      destruct (JS.truthy c); congruence. }
    rewrite Hc. reflexivity.
Qed.

(** A rejected request is thrown on, after having been sent once. *)
Lemma paginate_broken cursor rs e :
  Broken w this path limit status cursor rs e ->
  forall fuel all s,
    List.length rs < fuel ->
    run w (paginate fuel this path limit status key cursor all) s =
    (Thrown e, s,
     pageRequests this path limit status cursor rs
       ++ [pageRequest this path limit status (cursorAfter cursor rs)]).
Proof.
  induction 1 as [cursor e Hr | cursor r next rs e Hr Hn _ IH];
    intros fuel all s Hlen; simpl in Hlen.
  - destruct fuel as [| fuel]; [lia |].
    rewrite run_paginate_step, Hr; reflexivity.
  - destruct fuel as [| fuel]; [lia |].
    rewrite run_paginate_step, Hr, Hn.
    rewrite IH by lia. simpl.
    assert (Hc : nextPageInfo r = Some next).
    { unfold JS.orNull in Hn. destruct (nextPageInfo r) as [c |]; [| discriminate].
      destruct (JS.truthy c); congruence. }
    rewrite Hc. reflexivity.
Qed.

(** Only the request at the starting cursor can be a request for the first
    page. *)
Lemma paginate_resyncs fuel :
  forall cursor all s,
    resyncs path (traceOf (run w (paginate fuel this path limit status key cursor all) s))
    = match fuel, JS.orNull cursor with
      | S _, None => 1
      | _, _ => 0
      end.
Proof.
  induction fuel as [| fuel IH]; intros cursor all s; [reflexivity |].
  rewrite run_paginate_step.
  assert (Hfirst : isFirstPage path (pageRequest this path limit status cursor)
                   = match JS.orNull cursor with None => true | Some _ => false end).
  { unfold pageRequest, isFirstPage; simpl. rewrite String.eqb_refl. reflexivity. }
  destruct (answer w this path limit status cursor) as [e | r].
  - unfold traceOf; cbn [snd]. rewrite resyncs_cons, Hfirst.
    destruct (JS.orNull cursor); reflexivity.
  - destruct (JS.orNull (nextPageInfo r)) as [next |] eqn:Hn.
    + specialize (IH (Some next) (all ++ pageOf key r) s).
      destruct (run w _ s) as [[o s1] tr].
      unfold traceOf in *; cbn [snd] in *. rewrite resyncs_cons, Hfirst, IH.
      assert (Ht : JS.orNull (Some next) = Some next).
      { unfold JS.orNull in *. destruct (nextPageInfo r) as [c |]; [| discriminate].
        destruct (JS.truthy c) eqn:Hc; [| discriminate].
        injection Hn as <-. rewrite Hc. reflexivity. }
      rewrite Ht.
      destruct (JS.orNull cursor); destruct fuel; reflexivity.
    + unfold traceOf; cbn [snd]. rewrite resyncs_cons, Hfirst.
      destruct (JS.orNull cursor); reflexivity.
Qed.

Lemma paginate_all_http fuel :
  forall cursor all s,
    forallb isHttp (traceOf (run w (paginate fuel this path limit status key cursor all) s))
    = true.
Proof.
  induction fuel as [| fuel IH]; intros cursor all s; [reflexivity |].
  rewrite run_paginate_step.
  destruct (answer w this path limit status cursor) as [e | r]; [reflexivity |].
  destruct (JS.orNull (nextPageInfo r)) as [next |]; [| reflexivity].
  specialize (IH (Some next) (all ++ pageOf key r) s).
  destruct (run w _ s) as [[o s1] tr]; exact IH.
Qed.
End Paginate.

(** C9.  Each collection fetch sends its page requests one after the other,
    takes the next cursor from the link header of every answer and follows
    it until an answer carries none, and returns the pages put together in
    the order they came; a request is never sent twice, so when the remote
    rejects one the rejection is thrown to the caller and nothing is
    returned. *)
Theorem collection_fetch_follows_cursors :
  forall (w : World) (this : ShopifyService) (fuel : nat) (limit : Z)
         (status : string) (s : Store),
    (forall rs,
        Pages w this "/customers.json" limit None None rs ->
        List.length rs <= fuel ->
        run w (getCustomers fuel this limit) s =
        (Returned (List.concat (map (pageOf ResponseData.customers) rs)), s,
         pageRequests this "/customers.json" limit None None rs))
    /\ (forall rs e,
        Broken w this "/customers.json" limit None None rs e ->
        List.length rs < fuel ->
        run w (getCustomers fuel this limit) s =
        (Thrown e, s,
         pageRequests this "/customers.json" limit None None rs
           ++ [pageRequest this "/customers.json" limit None (cursorAfter None rs)]))
    /\ (forall rs,
        Pages w this "/products.json" limit None None rs ->
        List.length rs <= fuel ->
        run w (getProducts fuel this limit) s =
        (Returned (List.concat (map (pageOf ResponseData.products) rs)), s,
         pageRequests this "/products.json" limit None None rs))
    /\ (forall rs e,
        Broken w this "/products.json" limit None None rs e ->
        List.length rs < fuel ->
        run w (getProducts fuel this limit) s =
        (Thrown e, s,
         pageRequests this "/products.json" limit None None rs
           ++ [pageRequest this "/products.json" limit None (cursorAfter None rs)]))
    /\ (forall rs,
        Pages w this "/orders.json" limit (Some status) None rs ->
        List.length rs <= fuel ->
        run w (getOrders fuel this limit status) s =
        (Returned (List.concat (map (pageOf ResponseData.orders) rs)), s,
         pageRequests this "/orders.json" limit (Some status) None rs))
    /\ (forall rs e,
        Broken w this "/orders.json" limit (Some status) None rs e ->
        List.length rs < fuel ->
        run w (getOrders fuel this limit status) s =
        (Thrown e, s,
         pageRequests this "/orders.json" limit (Some status) None rs
           ++ [pageRequest this "/orders.json" limit (Some status) (cursorAfter None rs)])).
Proof.
  intros w this fuel limit status s.
  unfold getCustomers, getProducts, getOrders.
  repeat split; intros.
  - exact (paginate_pages ResponseData.customers H [] s H0).
  - exact (paginate_broken ResponseData.customers H [] s H0).
  - exact (paginate_pages ResponseData.products H [] s H0).
  - exact (paginate_broken ResponseData.products H [] s H0).
  - exact (paginate_pages ResponseData.orders H [] s H0).
  - exact (paginate_broken ResponseData.orders H [] s H0).
Qed.

Lemma sample_customer_pages :
  Pages Sample.world Sample.client "/customers.json" 250 None None
        [Sample.customersPage1; Sample.customersPage2].
Proof.
  eapply pages_more; [reflexivity | reflexivity |].
  apply pages_last; reflexivity.
Qed.

Lemma sample_revoked_products :
  Broken Sample.world Sample.revokedClient "/products.json" 250 None None []
         "Request failed with status code 401".
Proof. apply broken_here; reflexivity. Qed.

(** Two pages of customers are fetched with two requests, the second one
    carrying the cursor of the first answer; with a revoked credential the
    product fetch throws after one request. *)
Lemma collection_fetch_follows_cursors_witness :
  run Sample.world (getCustomers 4 Sample.client 250) emptyStore =
    (Returned [Sample.alice; Sample.bob], emptyStore,
     [HttpGet Sample.shop Sample.token "/customers.json" (mkParams (Some 250%Z) None None);
      HttpGet Sample.shop Sample.token "/customers.json"
              (mkParams (Some 250%Z) None (Some "eyJsYXN0X2lkIjoxfQ"))])
  /\ run Sample.world (getProducts 4 Sample.revokedClient 250) emptyStore =
    (Thrown "Request failed with status code 401", emptyStore,
     [HttpGet "gone.myshopify.com" "shpat_old" "/products.json" (mkParams (Some 250%Z) None None)]).
Proof.
  destruct (collection_fetch_follows_cursors Sample.world Sample.client 4 250 "any" emptyStore)
    as [Hc _].
  destruct (collection_fetch_follows_cursors Sample.world Sample.revokedClient 4 250 "any"
              emptyStore) as [_ [_ [_ [Hp _]]]].
  split.
  - rewrite (Hc _ sample_customer_pages); [reflexivity | simpl; lia].
  - rewrite (Hp _ _ sample_revoked_products); [reflexivity | simpl; lia].
Defined.

(* ===================================================================== *)
(** * Single-record lookups and the order webhook *)
(* ===================================================================== *)

Lemma run_getOne {X : Type} (w : World) (this : ShopifyService) (resource rid : string)
    (key : ResponseData.t -> option X) (s : Store) :
  run w (getOne this (onePath resource rid) key) s =
  (Returned (lookupAnswer w this resource rid key), s, [oneRequest this resource rid]).
Proof.
  unfold getOne. rewrite run_tryCatch, run_bind, run_clientGet.
  unfold lookupAnswer, oneRequest.
  destruct (http w _ _ _ _) as [e | r]; reflexivity.
Qed.

Lemma getCustomer_path this rid :
  getCustomer this rid = getOne this (onePath "customers" rid) ResponseData.customer.
Proof. reflexivity. Qed.

Lemma getProduct_path this rid :
  getProduct this rid = getOne this (onePath "products" rid) ResponseData.product.
Proof. reflexivity. Qed.

Lemma getOrder_path this rid :
  getOrder this rid = getOne this (onePath "orders" rid) ResponseData.order.
Proof. reflexivity. Qed.

(* ===================================================================== *)
(** * Tables *)
(* ===================================================================== *)

Lemma NoDup_map_eq {A B : Type} (f : A -> B) (l : list A) (a b : A) :
  NoDup (map f l) -> In a l -> In b l -> f a = f b -> a = b.
Proof.
  induction l as [| x l IH]; simpl; intros Hnd Ha Hb Hf; [contradiction |].
  inversion Hnd as [| y ys Hnotin Hnd']; subst.
  destruct Ha as [-> | Ha], Hb as [-> | Hb]; auto.
  - exfalso. apply Hnotin. rewrite Hf. apply in_map; assumption.
  - exfalso. apply Hnotin. rewrite <- Hf. apply in_map; assumption.
Qed.

Lemma NoDup_snoc {A : Type} (l : list A) (a : A) :
  NoDup l -> ~ In a l -> NoDup (l ++ [a]).
Proof.
  induction l as [| x l IH]; simpl; intros Hnd Hn.
  - constructor; [intros [] | constructor].
  - inversion Hnd; subst. constructor.
    + intro Hin. apply in_app_or in Hin as [Hin | [<- | []]]; [contradiction |].
      apply Hn; left; reflexivity.
    + apply IH; [assumption | intro; apply Hn; right; assumption].
Qed.

Section TableFacts.
Variable D : Type.
Variable key : D -> string.

Local Abbreviation keys := (map (rowKey key)).
Local Abbreviation ids := (map (@id D)).

Lemma hasKey_iff t sid (r : Row D) :
  hasKey key t sid r = true <-> rowKey key r = (t, sid).
Proof.
  unfold hasKey, rowKey. rewrite andb_true_iff, !String.eqb_eq.
  split; [intros [-> ->]; reflexivity | intro H; inversion H; auto].
Qed.

Lemma findUnique_some t sid tbl (r : Row D) :
  findUnique key t sid tbl = Some r -> In r tbl /\ rowKey key r = (t, sid).
Proof.
  unfold findUnique. intro H. apply find_some in H as [Hin Hk].
  split; [assumption | apply hasKey_iff; assumption].
Qed.

Lemma findUnique_none t sid (tbl : list (Row D)) :
  findUnique key t sid tbl = None <-> ~ In (t, sid) (keys tbl).
Proof.
  unfold findUnique. split.
  - intros H Hin. apply in_map_iff in Hin as [r [Hk Hr]].
    apply (find_none _ _ H) in Hr. apply hasKey_iff in Hk. congruence.
  - intro Hn. destruct (find (hasKey key t sid) tbl) as [r |] eqn:Hf; [| reflexivity].
    exfalso. apply Hn. apply find_some in Hf as [Hin Hk].
    apply hasKey_iff in Hk. rewrite <- Hk. apply in_map; assumption.
Qed.

Lemma findUnique_present t sid (tbl : list (Row D)) :
  In (t, sid) (keys tbl) -> exists r, findUnique key t sid tbl = Some r.
Proof.
  intro Hin. destruct (findUnique key t sid tbl) as [r |] eqn:Hf; [eauto |].
  apply findUnique_none in Hf. contradiction.
Qed.

(** With the unique index a row is found by its natural key. *)
Lemma findUnique_the t sid tbl (r : Row D) :
  NoDup (keys tbl) -> In r tbl -> rowKey key r = (t, sid) ->
  findUnique key t sid tbl = Some r.
Proof.
  intros Hnd Hin Hk.
  destruct (findUnique key t sid tbl) as [r' |] eqn:Hf.
  - apply findUnique_some in Hf as [Hin' Hk'].
    f_equal. apply (NoDup_map_eq (rowKey key) tbl); congruence.
  - apply findUnique_none in Hf. exfalso. apply Hf.
    rewrite <- Hk. apply in_map; assumption.
Qed.

Lemma findById_in tbl (e : Row D) :
  In e tbl -> exists r, findById (id e) tbl = Some r /\ id r = id e.
Proof.
  unfold findById. intro Hin.
  destruct (find (fun r => Nat.eqb (id r) (id e)) tbl) as [r |] eqn:Hf.
  - exists r. split; [reflexivity |].
    apply find_some in Hf as [_ Hr]. apply Nat.eqb_eq; assumption.
  - apply (find_none _ _ Hf) in Hin. rewrite Nat.eqb_refl in Hin. discriminate.
Qed.

Lemma updateRow_found t sid tbl (e : Row D) d :
  findUnique key t sid tbl = Some e ->
  exists r, updateRow (id e) d tbl = inr (r, setData (id e) d tbl) /\ id r = id e.
Proof.
  intro Hf. apply findUnique_some in Hf as [Hin _].
  destruct (findById_in tbl e Hin) as [r [Hr Hid]].
  unfold updateRow. rewrite Hr. eexists; split; [reflexivity | assumption].
Qed.

Lemma createRow_fresh t d (tbl : list (Row D)) next :
  findUnique key t (key d) tbl = None ->
  createRow key t d tbl next = inr (mkRow next t d, tbl ++ [mkRow next t d]).
Proof. intro Hf. unfold createRow. rewrite Hf. reflexivity. Qed.

(** ** [setData] on a table with distinct primary keys *)

Lemma ids_setData i d (tbl : list (Row D)) : ids (setData i d tbl) = ids tbl.
Proof.
  unfold setData. rewrite map_map. apply map_ext.
  intro r. destruct (Nat.eqb (id r) i); reflexivity.
Qed.

Lemma setData_other i d (tbl : list (Row D)) :
  ~ In i (ids tbl) -> setData i d tbl = tbl.
Proof.
  induction tbl as [| r tbl IH]; simpl; intro Hn; [reflexivity |].
  destruct (Nat.eqb (id r) i) eqn:Hi.
  - apply Nat.eqb_eq in Hi. exfalso. apply Hn. left; assumption.
  - rewrite IH; [reflexivity | intro H; apply Hn; right; assumption].
Qed.

(** The one row with the primary key [id e] is replaced, in place. *)
Lemma setData_split (tbl : list (Row D)) (e : Row D) d :
  NoDup (ids tbl) -> In e tbl ->
  exists pre post,
    tbl = pre ++ e :: post
    /\ setData (id e) d tbl = pre ++ mkRow (id e) (tenantId e) d :: post.
Proof.
  intros Hnd Hin.
  apply in_split in Hin as [pre [post ->]].
  exists pre, post. split; [reflexivity |].
  rewrite map_app in Hnd; simpl in Hnd.
  assert (Hpre : ~ In (id e) (ids pre)).
  { intro H. apply NoDup_remove_2 in Hnd. apply Hnd. apply in_or_app; left; assumption. }
  assert (Hpost : ~ In (id e) (ids post)).
  { intro H. apply NoDup_remove_2 in Hnd. apply Hnd. apply in_or_app; right; assumption. }
  unfold setData. rewrite map_app; simpl. rewrite Nat.eqb_refl.
  fold (setData (id e) d pre). fold (setData (id e) d post).
  rewrite !setData_other by assumption. reflexivity.
Qed.

(** ** One reconciliation *)

Lemma wfTable_mono (tbl : list (Row D)) n m :
  wfTable key tbl n -> n <= m -> wfTable key tbl m.
Proof.
  intros (H1 & H2 & H3) Hle. repeat split; try assumption.
  eapply Forall_impl; [| exact H3]. simpl; intros; lia.
Qed.

Lemma wfTable_nil n : wfTable key [] n.
Proof. repeat split; constructor. Qed.

(** What [upsert] does to a well-formed table. *)
Lemma upsert_spec t d (tbl : list (Row D)) next :
  wfTable key tbl next ->
  exists rid cr tbl',
    upsert key t d tbl next = (tbl', rid, cr)
    /\ wfTable key tbl' (bump cr next)
    /\ keys tbl' = keys tbl ++ (if cr then [(t, key d)] else [])
    /\ findUnique key t (key d) tbl' = Some (mkRow rid t d)
    /\ (cr = true <-> findUnique key t (key d) tbl = None)
    /\ (cr = true -> rid = next)
    /\ (forall e, findUnique key t (key d) tbl = Some e -> rid = id e)
    /\ (forall t' sid', (t', sid') <> (t, key d) ->
          findUnique key t' sid' tbl' = findUnique key t' sid' tbl)
    /\ (forall r, In r tbl -> rowKey key r <> (t, key d) -> id r <> rid)
    /\ rid < bump cr next.
Proof.
  intros (Hids & Hkeys & Hlt).
  unfold upsert.
  destruct (findUnique key t (key d) tbl) as [e |] eqn:Hf.
  - (* update *)
    exists (id e), false, (setData (id e) d tbl).
    pose proof (findUnique_some _ _ _ Hf) as [Hin Hk].
    destruct (setData_split tbl e d Hids Hin) as (pre & post & Htbl & Hset).
    assert (Ht : tenantId e = t) by (unfold rowKey in Hk; congruence).
    assert (Hkeys' : keys (setData (id e) d tbl) = keys tbl).
    { rewrite Hset, Htbl, !map_app. cbn [map]. do 2 f_equal.
      unfold rowKey in *; cbn in *. congruence. }
    assert (Hwf' : wfTable key (setData (id e) d tbl) next).
    { repeat split.
      - rewrite ids_setData; assumption.
      - rewrite Hkeys'; assumption.
      - rewrite Hset. rewrite Htbl in Hlt.
        apply Forall_app in Hlt as [Hl1 Hl2].
        apply Forall_app; split; [assumption |].
        inversion Hl2; subst. constructor; assumption. }
    split; [reflexivity |].
    split; [exact Hwf' |].
    split; [rewrite Hkeys', app_nil_r; reflexivity |].
    split.
    { apply findUnique_the.
      - rewrite Hkeys'; assumption.
      - rewrite Hset, <- Ht. apply in_or_app; right; left; reflexivity.
      - reflexivity. }
    split; [split; discriminate |].
    split; [discriminate |].
    split; [intros e' He'; congruence |].
    split; [| split].
    { intros t' sid' Hne.
      destruct (findUnique key t' sid' tbl) as [r |] eqn:Hr.
      + pose proof (findUnique_some _ _ _ Hr) as [Hrin Hrk].
        apply findUnique_the; [rewrite Hkeys'; assumption | | assumption].
        rewrite Hset. rewrite Htbl in Hrin.
        apply in_app_or in Hrin as [Hrin | [Hre | Hrin]].
        * apply in_or_app; left; assumption.
        * subst r. exfalso. apply Hne. congruence.
        * apply in_or_app; right; right; assumption.
      + apply findUnique_none. rewrite Hkeys'. apply findUnique_none; assumption. }
    { intros r Hr Hrk Hid. apply Hrk.
      rewrite (NoDup_map_eq (@id D) tbl r e Hids Hr Hin Hid). assumption. }
    { cbn [bump]. rewrite Forall_forall in Hlt. apply Hlt; assumption. }
  - (* create *)
    exists next, true, (tbl ++ [mkRow next t d]).
    pose proof (proj1 (findUnique_none _ _ _) Hf) as Hnk.
    assert (Hkeys' : keys (tbl ++ [mkRow next t d]) = keys tbl ++ [(t, key d)]).
    { rewrite map_app; reflexivity. }
    assert (Hwf' : wfTable key (tbl ++ [mkRow next t d]) (S next)).
    { repeat split.
      - rewrite map_app; simpl.
        apply NoDup_snoc; [assumption |].
        intro Hin. apply in_map_iff in Hin as [r [Hr Hrin]].
        rewrite Forall_forall in Hlt. apply Hlt in Hrin. lia.
      - rewrite Hkeys'. apply NoDup_snoc; assumption.
      - apply Forall_app; split.
        + eapply Forall_impl; [| exact Hlt]. simpl; intros; lia.
        + constructor; [simpl; lia | constructor]. }
    split; [reflexivity |].
    split; [exact Hwf' |].
    split; [exact Hkeys' |].
    split.
    { apply findUnique_the; [rewrite Hkeys' | | reflexivity].
      - destruct Hwf' as (_ & Hk & _). rewrite <- Hkeys'. assumption.
      - apply in_or_app; right; left; reflexivity. }
    split; [split; reflexivity |].
    split; [reflexivity |].
    split; [discriminate |].
    split; [| split].
    { intros t' sid' Hne.
      destruct Hwf' as (_ & Hk' & _).
      destruct (findUnique key t' sid' tbl) as [r |] eqn:Hr.
      + pose proof (findUnique_some _ _ _ Hr) as [Hrin Hrk].
        apply findUnique_the; [assumption | | assumption].
        apply in_or_app; left; assumption.
      + apply findUnique_none. rewrite Hkeys'.
        apply findUnique_none in Hr.
        intro Hin. apply in_app_or in Hin as [Hin | [Hin | []]]; [contradiction |].
        apply Hne. congruence. }
    { intros r Hr _. rewrite Forall_forall in Hlt. apply Hlt in Hr. lia. }
    { cbn [bump]. lia. }
Qed.
End TableFacts.

(* ===================================================================== *)
(** * The loops compute the reconciliation functions *)
(* ===================================================================== *)

Lemma run_ingestCustomersLoop w t l :
  forall s c u,
  exists tr,
    run w (ingestCustomersLoop t l c u) s =
    (Returned (snd (reconcileAll (customerStep t) l s c u)),
     fst (reconcileAll (customerStep t) l s c u), tr)
    /\ noHttp tr = true.
Proof.
  induction l as [| x l IH]; intros s c u.
  - exists []. split; reflexivity.
  - cbn [ingestCustomersLoop reconcileAll].
    rewrite run_bind, run_call. cbn [perform].
    unfold customerStep, upsert.
    change (Customer.shopifyId (customerData x)) with (ShopifyCustomer.id x).
    destruct (findUnique Customer.shopifyId t (ShopifyCustomer.id x) (customers s))
      as [e |] eqn:Hf.
    + rewrite run_bind, run_call. cbn [perform].
      destruct (updateRow_found _ _ _ _ (customerData x) Hf) as [r [Hu Hid]].
      rewrite Hu.
      destruct (IH (setCustomers s (setData (id e) (customerData x) (customers s)) (nextId s))
                   c (S u)) as [tr [Hrun Hno]].
      rewrite Hrun. cbn [bump].
      eexists. split; [reflexivity |]. exact Hno.
    + rewrite run_bind, run_call. cbn [perform].
      rewrite createRow_fresh by exact Hf.
      destruct (IH (setCustomers s (customers s ++ [mkRow (nextId s) t (customerData x)])
                                 (S (nextId s))) (S c) u) as [tr [Hrun Hno]].
      rewrite Hrun. cbn [bump].
      eexists. split; [reflexivity |]. exact Hno.
Qed.

Lemma run_ingestProductsLoop w t l :
  forall s c u,
  exists tr,
    run w (ingestProductsLoop t l c u) s =
    (Returned (snd (reconcileAll (productStep t) l s c u)),
     fst (reconcileAll (productStep t) l s c u), tr)
    /\ noHttp tr = true.
Proof.
  induction l as [| x l IH]; intros s c u.
  - exists []. split; reflexivity.
  - cbn [ingestProductsLoop reconcileAll].
    rewrite run_bind, run_call. cbn [perform].
    unfold productStep, upsert.
    change (Product.shopifyId (productData x)) with (ShopifyProduct.id x).
    destruct (findUnique Product.shopifyId t (ShopifyProduct.id x) (products s))
      as [e |] eqn:Hf.
    + rewrite run_bind, run_call. cbn [perform].
      destruct (updateRow_found _ _ _ _ (productData x) Hf) as [r [Hu Hid]].
      rewrite Hu.
      destruct (IH (setProducts s (setData (id e) (productData x) (products s)) (nextId s))
                   c (S u)) as [tr [Hrun Hno]].
      rewrite Hrun. cbn [bump].
      eexists. split; [reflexivity |]. exact Hno.
    + rewrite run_bind, run_call. cbn [perform].
      rewrite createRow_fresh by exact Hf.
      destruct (IH (setProducts s (products s ++ [mkRow (nextId s) t (productData x)])
                                (S (nextId s))) (S c) u) as [tr [Hrun Hno]].
      rewrite Hrun. cbn [bump].
      eexists. split; [reflexivity |]. exact Hno.
Qed.

Lemma run_resolveCustomer w t o s :
  exists tr,
    run w (resolveCustomer t o) s = (Returned (customerIdOf t o (customers s)), s, tr)
    /\ noHttp tr = true.
Proof.
  unfold resolveCustomer, customerIdOf.
  destruct (ShopifyOrder.customer o) as [c |]; [| exists []; split; reflexivity].
  destruct (JS.truthy (ShopifyCustomerRef.id c)); [| exists []; split; reflexivity].
  rewrite run_bind, run_call. cbn [perform].
  eexists. split; reflexivity.
Qed.

Lemma run_resolveProduct w t li s :
  exists tr,
    run w (resolveProduct t li) s = (Returned (productIdOf t li (products s)), s, tr)
    /\ noHttp tr = true.
Proof.
  unfold resolveProduct, productIdOf.
  destruct (JS.orNull (ShopifyLineItem.product_id li)) as [pid |];
    [| exists []; split; reflexivity].
  rewrite run_bind, run_call. cbn [perform].
  eexists. split; reflexivity.
Qed.

Lemma noHttp_app tr1 tr2 :
  noHttp tr1 = true -> noHttp tr2 = true -> noHttp (tr1 ++ tr2) = true.
Proof. unfold noHttp. rewrite forallb_app. intros -> ->; reflexivity. Qed.

Lemma run_ingestLineItems w t oid lis :
  forall s,
  exists tr,
    run w (ingestLineItems t oid lis) s =
    (Returned tt,
     setOrderItems s (orderItems s ++ number (nextId s) (mappedItems t (products s) oid lis))
                   (nextId s + List.length lis), tr)
    /\ noHttp tr = true.
Proof.
  induction lis as [| li lis IH]; intro s.
  - exists []. split; [| reflexivity].
    cbn. rewrite app_nil_r, Nat.add_0_r. destruct s; reflexivity.
  - cbn [ingestLineItems].
    rewrite run_bind.
    destruct (run_resolveProduct w t li s) as [tr1 [H1 Hn1]]. rewrite H1.
    rewrite run_bind, run_call. cbn [perform].
    match goal with
    | |- context [run w (ingestLineItems t oid lis) ?s1] =>
        destruct (IH s1) as [tr2 [H2 Hn2]]; rewrite H2
    end.
    eexists. split.
    + cbn. rewrite <- app_assoc. cbn.
      replace (S (nextId s + List.length lis)) with (nextId s + S (List.length lis)) by lia.
      reflexivity.
    + apply noHttp_app; [assumption |]. cbn. exact Hn2.
Qed.

Lemma run_replaceItems w t oid lis s :
  exists tr,
    run w (replaceItems t oid lis) s =
    (Returned tt,
     setOrderItems s
       (fst (replaceItemsIn t (products s) oid lis (orderItems s) (nextId s)))
       (snd (replaceItemsIn t (products s) oid lis (orderItems s) (nextId s))), tr)
    /\ noHttp tr = true.
Proof.
  destruct lis as [| li lis].
  - exists []. split; [| reflexivity]. cbn. destruct s; reflexivity.
  - unfold replaceItems, replaceItemsIn.
    rewrite run_bind, run_call. cbn [perform].
    match goal with
    | |- context [run w (ingestLineItems t oid ?l) ?s1] =>
        destruct (run_ingestLineItems w t oid l s1) as [tr2 [H2 Hn2]]; rewrite H2
    end.
    eexists. split; [reflexivity |]. cbn. exact Hn2.
Qed.

Lemma run_ingestOrdersLoop w t l :
  forall s c u,
  exists tr,
    run w (ingestOrdersLoop t l c u) s =
    (Returned (snd (reconcileAll (orderStep t) l s c u)),
     fst (reconcileAll (orderStep t) l s c u), tr)
    /\ noHttp tr = true.
Proof.
  induction l as [| x l IH]; intros s c u.
  - exists []. split; reflexivity.
  - cbn [ingestOrdersLoop reconcileAll].
    rewrite run_bind, run_call. cbn [perform].
    rewrite run_bind.
    destruct (run_resolveCustomer w t x s) as [tr1 [H1 Hn1]]. rewrite H1.
    unfold orderStep, upsert.
    change (Order.shopifyId (orderData x (customerIdOf t x (customers s))))
      with (ShopifyOrder.id x).
    destruct (findUnique Order.shopifyId t (ShopifyOrder.id x) (orders s))
      as [e |] eqn:Hf.
    + rewrite run_bind, run_call. cbn [perform].
      destruct (updateRow_found _ _ _ _ (orderData x (customerIdOf t x (customers s))) Hf)
        as [r [Hu Hid]].
      rewrite Hu, Hid. rewrite run_bind.
      match goal with
      | |- context [run w (replaceItems t ?oid ?lis) ?s1] =>
          destruct (run_replaceItems w t oid lis s1) as [tr2 [H2 Hn2]]; rewrite H2
      end.
      cbn [bump setOrders setOrderItems products orderItems nextId tenants customers orders].
      destruct (replaceItemsIn t (products s) (id e) (ShopifyOrder.line_items x)
                               (orderItems s) (nextId s)) as [items next] eqn:Hrep.
      cbn [fst snd].
      match goal with
      | |- context [run w (ingestOrdersLoop t l c (S u)) ?s1] =>
          destruct (IH s1 c (S u)) as [tr3 [H3 Hn3]]; rewrite H3
      end.
      eexists. split; [reflexivity |].
      apply noHttp_app; [reflexivity |].
      apply noHttp_app; [assumption |].
      apply noHttp_app; [reflexivity |].
      apply noHttp_app; assumption.
    + rewrite run_bind, run_call. cbn [perform].
      rewrite createRow_fresh by exact Hf.
      rewrite run_bind.
      match goal with
      | |- context [run w (replaceItems t ?oid ?lis) ?s1] =>
          destruct (run_replaceItems w t oid lis s1) as [tr2 [H2 Hn2]]; rewrite H2
      end.
      cbn [bump setOrders setOrderItems products orderItems nextId tenants customers orders id].
      destruct (replaceItemsIn t (products s) (nextId s) (ShopifyOrder.line_items x)
                               (orderItems s) (S (nextId s))) as [items next] eqn:Hrep.
      cbn [fst snd].
      match goal with
      | |- context [run w (ingestOrdersLoop t l (S c) u) ?s1] =>
          destruct (IH s1 (S c) u) as [tr3 [H3 Hn3]]; rewrite H3
      end.
      eexists. split; [reflexivity |].
      apply noHttp_app; [reflexivity |].
      apply noHttp_app; [assumption |].
      apply noHttp_app; [reflexivity |].
      apply noHttp_app; assumption.
Qed.

(* ===================================================================== *)
(** * Reconciliation of one entity type *)
(* ===================================================================== *)

(** The three loops have the same shape.  [step] reconciles one remote
    record with the table [tab]; [att] is what hangs on a row (the items of
    an order; nothing for customers and products). *)
Section Reconcile.
Variables X D A : Type.
Variable key : D -> string.
Variable tab : Store -> list (Row D).
Variable t : TenantId.
Variable kx : X -> string.
Variable dataOf : X -> Store -> D.
Variable step : X -> Store -> Store * bool.
Variable att : Id -> Store -> A.
Variable newAtt : X -> Id -> Store -> A -> A.

Local Abbreviation keys := (map (rowKey key)).

Hypothesis step_spec :
  forall x s,
    wfStore s ->
    exists s' cr rid,
      step x s = (s', cr)
      /\ wfStore s'
      /\ nextId s <= nextId s'
      /\ keys (tab s') = keys (tab s) ++ (if cr then [(t, kx x)] else [])
      /\ (cr = true <-> findUnique key t (kx x) (tab s) = None)
      /\ findUnique key t (kx x) (tab s') = Some (mkRow rid t (dataOf x s))
      /\ (forall e, findUnique key t (kx x) (tab s) = Some e -> rid = id e)
      /\ (cr = true -> rid = nextId s)
      /\ rid < nextId s'
      /\ (forall sid', sid' <> kx x ->
            findUnique key t sid' (tab s') = findUnique key t sid' (tab s))
      /\ (forall sid' r, sid' <> kx x ->
            findUnique key t sid' (tab s) = Some r -> id r <> rid)
      /\ (forall y, dataOf y s' = dataOf y s)
      /\ att rid s' = newAtt x rid s (att rid s)
      /\ (forall rid', rid' <> rid -> att rid' s' = att rid' s)
      /\ (forall y rid' a, newAtt y rid' s' a = newAtt y rid' s a).

Local Abbreviation final l s c u := (fst (reconcileAll step l s c u)).

Lemma reconcile_step x l s c u s' cr :
  step x s = (s', cr) ->
  reconcileAll step (x :: l) s c u =
  reconcileAll step l s' (if cr then S c else c) (if cr then u else S u).
Proof. intro H. cbn [reconcileAll]. rewrite H. destruct cr; reflexivity. Qed.

Lemma reconcile_wf l :
  forall s c u, wfStore s ->
    wfStore (final l s c u) /\ nextId s <= nextId (final l s c u).
Proof.
  induction l as [| x l IH]; intros s c u Hwf; [split; [assumption | apply le_n] |].
  destruct (step_spec x Hwf) as (s' & cr & rid & Hstep & Hwf' & Hle & _).
  rewrite (reconcile_step _ _ _ Hstep).
  destruct (IH s' (if cr then S c else c) (if cr then u else S u) Hwf') as [H1 H2].
  split; [assumption | lia].
Qed.

Lemma reconcile_keys l :
  forall s c u, wfStore s ->
    forall k, In k (keys (tab s)) -> In k (keys (tab (final l s c u))).
Proof.
  induction l as [| x l IH]; intros s c u Hwf k Hk; [assumption |].
  destruct (step_spec x Hwf) as (s' & cr & rid & Hstep & Hwf' & _ & Hkeys & _).
  rewrite (reconcile_step _ _ _ Hstep).
  assert (Hk' : In k (keys (tab s'))) by (rewrite Hkeys; apply in_or_app; left; assumption).
  apply IH; assumption.
Qed.

Lemma reconcile_present l :
  forall s c u, wfStore s ->
    forall x, In x l -> In (t, kx x) (keys (tab (final l s c u))).
Proof.
  induction l as [| y l IH]; intros s c u Hwf x Hx; [contradiction |].
  destruct (step_spec y Hwf)
    as (s' & cr & rid & Hstep & Hwf' & _ & Hkeys & _ & Hfind & _).
  rewrite (reconcile_step _ _ _ Hstep).
  destruct Hx as [-> | Hx].
  - assert (Hk : In (t, kx x) (keys (tab s'))).
    { apply findUnique_some in Hfind as [Hin Hk].
      rewrite <- Hk. apply (in_map (rowKey key)); assumption. }
    apply reconcile_keys; assumption.
  - apply IH; assumption.
Qed.

(** Reconciling records whose keys are all there creates nothing. *)
Lemma reconcile_again l :
  forall s c u, wfStore s ->
    (forall x, In x l -> In (t, kx x) (keys (tab s))) ->
    snd (reconcileAll step l s c u) = mkCounts c (u + List.length l)
    /\ keys (tab (final l s c u)) = keys (tab s).
Proof.
  induction l as [| x l IH]; intros s c u Hwf Hall.
  - cbn. rewrite Nat.add_0_r. split; reflexivity.
  - destruct (step_spec x Hwf)
      as (s' & cr & rid & Hstep & Hwf' & _ & Hkeys & Hcr & _).
    rewrite (reconcile_step _ _ _ Hstep).
    destruct cr.
    + exfalso.
      assert (Hnone : findUnique key t (kx x) (tab s) = None) by (apply Hcr; reflexivity).
      apply findUnique_none in Hnone. apply Hnone. apply Hall. left; reflexivity.
    + rewrite app_nil_r in Hkeys.
      destruct (IH s' c (S u) Hwf') as [H1 H2].
      { intros y Hy. rewrite Hkeys. apply Hall. right; assumption. }
      split; [rewrite H1; cbn; f_equal; lia | congruence].
Qed.

(** Records with other keys leave a row and what hangs on it alone. *)
Lemma reconcile_frame l :
  forall s c u, wfStore s ->
    forall sid r,
      (forall x, In x l -> kx x <> sid) ->
      findUnique key t sid (tab s) = Some r ->
      findUnique key t sid (tab (final l s c u)) = Some r
      /\ att (id r) (final l s c u) = att (id r) s.
Proof.
  induction l as [| x l IH]; intros s c u Hwf sid r Hne Hr; [split; [assumption | reflexivity] |].
  destruct (step_spec x Hwf)
    as (s' & cr & rid & Hstep & Hwf' & _ & _ & _ & _ & _ & _ & _
        & Hframe & Hids & _ & _ & Hatt & _).
  rewrite (reconcile_step _ _ _ Hstep).
  assert (Hsid : sid <> kx x) by (intro; apply (Hne x); [left; reflexivity | congruence]).
  assert (Hr' : findUnique key t sid (tab s') = Some r) by (rewrite Hframe; assumption).
  assert (Hatt' : att (id r) s' = att (id r) s) by (apply Hatt; eapply Hids; eassumption).
  destruct (IH s' (if cr then S c else c) (if cr then u else S u) Hwf' sid r) as [H1 H2];
    [intros; apply Hne; right; assumption | assumption |].
  split; [assumption | congruence].
Qed.

(** When every remote record has its own key, the row of a record ends
    with the fields mapped from it, under the primary key it had before
    (a fresh one when there was none). *)
Lemma reconcile_last l :
  forall s c u, wfStore s ->
    NoDup (map kx l) ->
    forall x, In x l ->
      exists rid,
        findUnique key t (kx x) (tab (final l s c u)) = Some (mkRow rid t (dataOf x s))
        /\ (forall e, findUnique key t (kx x) (tab s) = Some e -> rid = id e)
        /\ (findUnique key t (kx x) (tab s) = None -> nextId s <= rid)
        /\ att rid (final l s c u) = newAtt x rid s (att rid s).
Proof.
  induction l as [| y l IH]; intros s c u Hwf Hnd x Hx; [contradiction |].
  cbn [map] in Hnd. inversion Hnd as [| k ks Hnotin Hnd']; subst.
  destruct (step_spec y Hwf)
    as (s' & cr & rid & Hstep & Hwf' & Hle & _ & Hcr & Hfind & Hsame & Hnew & Hlt
        & Hframe & Hids & Hdata & Hatt & Hattf & Hnewatt).
  rewrite (reconcile_step _ _ _ Hstep).
  destruct Hx as [-> | Hx].
  - (* the record itself: the rest does not touch its row *)
    exists rid.
    destruct (reconcile_frame l (if cr then S c else c) (if cr then u else S u)
                              Hwf' (sid := kx x) (r := mkRow rid t (dataOf x s)))
      as [H1 H2].
    { intros z Hz Heq. apply Hnotin. rewrite <- Heq. apply in_map; assumption. }
    { assumption. }
    split; [assumption |].
    split; [assumption |].
    split.
    + intro Hnone. rewrite Hnew; [apply le_n |]. apply Hcr; assumption.
    + cbn [id] in H2. rewrite H2. assumption.
  - (* a later record *)
    assert (Hne : kx x <> kx y).
    { intro Heq. apply Hnotin. rewrite <- Heq. apply in_map; assumption. }
    destruct (IH s' (if cr then S c else c) (if cr then u else S u) Hwf' Hnd' x Hx)
      as (rx & Hrx & Hsame' & Hfresh' & Hattx).
    exists rx.
    rewrite (Hframe _ Hne) in Hsame', Hfresh'.
    assert (Hrid : rx <> rid).
    { destruct (findUnique key t (kx x) (tab s)) as [e |] eqn:He.
      - rewrite (Hsame' e eq_refl). eapply Hids; eassumption.
      - specialize (Hfresh' eq_refl). lia. }
    split; [rewrite <- Hdata; assumption |].
    split; [assumption |].
    split; [intro Hnone; specialize (Hfresh' Hnone); lia |].
    rewrite Hattx, Hnewatt, (Hattf _ Hrid). reflexivity.
Qed.
End Reconcile.

(* ===================================================================== *)
(** * The three reconciliations *)
(* ===================================================================== *)

Lemma bump_le cr n : n <= bump cr n.
Proof. destruct cr; cbn; lia. Qed.

Lemma Forall_lt_mono {A : Type} (f : A -> nat) (l : list A) n m :
  Forall (fun a => f a < n) l -> n <= m -> Forall (fun a => f a < m) l.
Proof. intros H Hle. eapply Forall_impl; [| exact H]. cbn; intros; lia. Qed.

(** ** Items *)

Lemma itemsOf_app oid a b : itemsOf oid (a ++ b) = itemsOf oid a ++ itemsOf oid b.
Proof. unfold itemsOf. apply filter_app. Qed.

Lemma itemsOf_itemsNotOf_same oid items : itemsOf oid (itemsNotOf oid items) = [].
Proof.
  unfold itemsOf, itemsNotOf.
  induction items as [| r items IH]; [reflexivity |].
  cbn. destruct (Nat.eqb (OrderItem.orderId (item r)) oid) eqn:E; cbn; [assumption |].
  rewrite E. assumption.
Qed.

Lemma itemsOf_itemsNotOf_other oid oid' items :
  oid' <> oid -> itemsOf oid' (itemsNotOf oid items) = itemsOf oid' items.
Proof.
  intro Hne. unfold itemsOf, itemsNotOf.
  induction items as [| r items IH]; [reflexivity |].
  cbn. destruct (Nat.eqb (OrderItem.orderId (item r)) oid) eqn:E; cbn.
  - apply Nat.eqb_eq in E.
    destruct (Nat.eqb (OrderItem.orderId (item r)) oid') eqn:E'; [| assumption].
    apply Nat.eqb_eq in E'. congruence.
  - rewrite IH. reflexivity.
Qed.

Lemma map_item_number n ds : map item (number n ds) = ds.
Proof.
  revert n. induction ds as [| d ds IH]; intro n; [reflexivity |].
  cbn. rewrite IH. reflexivity.
Qed.

Lemma itemsOf_number_mapped t prods oid oid' lis n :
  itemsOf oid' (number n (mappedItems t prods oid lis))
  = if Nat.eqb oid oid' then number n (mappedItems t prods oid lis) else [].
Proof.
  revert n. induction lis as [| li lis IH]; intro n.
  - destruct (Nat.eqb oid oid'); reflexivity.
  - cbn. fold (mappedItems t prods oid lis).
    fold (itemsOf oid' (number (S n) (mappedItems t prods oid lis))).
    rewrite IH. destruct (Nat.eqb oid oid'); reflexivity.
Qed.

Lemma Forall_number_mapped t prods oid lis n m :
  oid < m ->
  Forall (fun r => OrderItem.orderId (item r) < m) (number n (mappedItems t prods oid lis)).
Proof.
  intro Hlt. revert n. induction lis as [| li lis IH]; intro n; [constructor |].
  cbn. constructor; [cbn; assumption | apply IH].
Qed.

Lemma itemsNotOf_incl oid items r : In r (itemsNotOf oid items) -> In r items.
Proof. unfold itemsNotOf. intro H. apply filter_In in H as [H _]. assumption. Qed.

(** What replacing the items of the order row [oid] does. *)
Lemma replaceItemsIn_spec t prods oid lis items next :
  Forall (fun r => OrderItem.orderId (item r) < next) items ->
  oid < next ->
  exists items' next',
    replaceItemsIn t prods oid lis items next = (items', next')
    /\ next <= next'
    /\ Forall (fun r => OrderItem.orderId (item r) < next') items'
    /\ map item (itemsOf oid items')
       = match lis with
         | [] => map item (itemsOf oid items)
         | _ :: _ => mappedItems t prods oid lis
         end
    /\ (forall oid', oid' <> oid -> itemsOf oid' items' = itemsOf oid' items).
Proof.
  intros Hitems Hoid.
  destruct lis as [| li lis].
  - exists items, next. repeat split; auto.
  - eexists _, _. split; [reflexivity |].
    split; [lia |].
    split.
    { apply Forall_app; split.
      - apply Forall_forall. intros r Hr. apply itemsNotOf_incl in Hr.
        rewrite Forall_forall in Hitems. apply Hitems in Hr. lia.
      - apply Forall_number_mapped. lia. }
    split.
    { rewrite itemsOf_app, itemsOf_itemsNotOf_same, itemsOf_number_mapped.
      rewrite Nat.eqb_refl. cbn [app]. apply map_item_number. }
    intros oid' Hne.
    rewrite itemsOf_app, itemsOf_itemsNotOf_other, itemsOf_number_mapped by assumption.
    destruct (Nat.eqb oid oid') eqn:E; [| apply app_nil_r].
    apply Nat.eqb_eq in E. congruence.
Qed.

(** ** The hypothesis of [Reconcile], for each step *)

Lemma customerStep_spec t x s :
  wfStore s ->
  exists s' cr rid,
    customerStep t x s = (s', cr)
    /\ wfStore s'
    /\ nextId s <= nextId s'
    /\ map (rowKey Customer.shopifyId) (customers s')
       = map (rowKey Customer.shopifyId) (customers s)
           ++ (if cr then [(t, ShopifyCustomer.id x)] else [])
    /\ (cr = true <->
        findUnique Customer.shopifyId t (ShopifyCustomer.id x) (customers s) = None)
    /\ findUnique Customer.shopifyId t (ShopifyCustomer.id x) (customers s')
       = Some (mkRow rid t (customerData x))
    /\ (forall e, findUnique Customer.shopifyId t (ShopifyCustomer.id x) (customers s) = Some e
                  -> rid = id e)
    /\ (cr = true -> rid = nextId s)
    /\ rid < nextId s'
    /\ (forall sid', sid' <> ShopifyCustomer.id x ->
          findUnique Customer.shopifyId t sid' (customers s')
          = findUnique Customer.shopifyId t sid' (customers s))
    /\ (forall sid' r, sid' <> ShopifyCustomer.id x ->
          findUnique Customer.shopifyId t sid' (customers s) = Some r -> id r <> rid)
    /\ (forall y : ShopifyCustomer.t, customerData y = customerData y)
    /\ tt = tt
    /\ (forall rid' : Id, rid' <> rid -> tt = tt)
    /\ (forall (y : ShopifyCustomer.t) (rid' : Id) (a : unit), a = a).
Proof.
  intros (Hc & Hp & Ho & Hi).
  destruct (upsert_spec t (customerData x) Hc)
    as (rid & cr & tbl' & Hup & Hwf' & Hkeys & Hfind & Hcr & Hnew & Hsame & Hframe & Hids & Hlt).
  exists (setCustomers s tbl' (bump cr (nextId s))), cr, rid.
  pose proof (bump_le cr (nextId s)) as Hle.
  split; [unfold customerStep; rewrite Hup; reflexivity |].
  split.
  { unfold wfStore; cbn.
    split; [exact Hwf' |].
    split; [eapply wfTable_mono; eassumption |].
    split; [eapply wfTable_mono; eassumption |].
    eapply Forall_lt_mono; eassumption. }
  split; [exact Hle |].
  split; [exact Hkeys |].
  split; [exact Hcr |].
  split; [exact Hfind |].
  split; [exact Hsame |].
  split; [exact Hnew |].
  split; [exact Hlt |].
  split.
  { intros sid' Hne. apply Hframe. cbn. congruence. }
  split.
  { intros sid' r Hne Hr. apply findUnique_some in Hr as [Hin Hk].
    apply Hids; [assumption |]. rewrite Hk. cbn. congruence. }
  repeat split.
Qed.

Lemma productStep_spec t x s :
  wfStore s ->
  exists s' cr rid,
    productStep t x s = (s', cr)
    /\ wfStore s'
    /\ nextId s <= nextId s'
    /\ map (rowKey Product.shopifyId) (products s')
       = map (rowKey Product.shopifyId) (products s)
           ++ (if cr then [(t, ShopifyProduct.id x)] else [])
    /\ (cr = true <->
        findUnique Product.shopifyId t (ShopifyProduct.id x) (products s) = None)
    /\ findUnique Product.shopifyId t (ShopifyProduct.id x) (products s')
       = Some (mkRow rid t (productData x))
    /\ (forall e, findUnique Product.shopifyId t (ShopifyProduct.id x) (products s) = Some e
                  -> rid = id e)
    /\ (cr = true -> rid = nextId s)
    /\ rid < nextId s'
    /\ (forall sid', sid' <> ShopifyProduct.id x ->
          findUnique Product.shopifyId t sid' (products s')
          = findUnique Product.shopifyId t sid' (products s))
    /\ (forall sid' r, sid' <> ShopifyProduct.id x ->
          findUnique Product.shopifyId t sid' (products s) = Some r -> id r <> rid)
    /\ (forall y : ShopifyProduct.t, productData y = productData y)
    /\ tt = tt
    /\ (forall rid' : Id, rid' <> rid -> tt = tt)
    /\ (forall (y : ShopifyProduct.t) (rid' : Id) (a : unit), a = a).
Proof.
  intros (Hc & Hp & Ho & Hi).
  destruct (upsert_spec t (productData x) Hp)
    as (rid & cr & tbl' & Hup & Hwf' & Hkeys & Hfind & Hcr & Hnew & Hsame & Hframe & Hids & Hlt).
  exists (setProducts s tbl' (bump cr (nextId s))), cr, rid.
  pose proof (bump_le cr (nextId s)) as Hle.
  split; [unfold productStep; rewrite Hup; reflexivity |].
  split.
  { unfold wfStore; cbn.
    split; [eapply wfTable_mono; eassumption |].
    split; [exact Hwf' |].
    split; [eapply wfTable_mono; eassumption |].
    eapply Forall_lt_mono; eassumption. }
  split; [exact Hle |].
  split; [exact Hkeys |].
  split; [exact Hcr |].
  split; [exact Hfind |].
  split; [exact Hsame |].
  split; [exact Hnew |].
  split; [exact Hlt |].
  split.
  { intros sid' Hne. apply Hframe. cbn. congruence. }
  split.
  { intros sid' r Hne Hr. apply findUnique_some in Hr as [Hin Hk].
    apply Hids; [assumption |]. rewrite Hk. cbn. congruence. }
  repeat split.
Qed.

Lemma orderStep_spec t x s :
  wfStore s ->
  exists s' cr rid,
    orderStep t x s = (s', cr)
    /\ wfStore s'
    /\ nextId s <= nextId s'
    /\ map (rowKey Order.shopifyId) (orders s')
       = map (rowKey Order.shopifyId) (orders s)
           ++ (if cr then [(t, ShopifyOrder.id x)] else [])
    /\ (cr = true <->
        findUnique Order.shopifyId t (ShopifyOrder.id x) (orders s) = None)
    /\ findUnique Order.shopifyId t (ShopifyOrder.id x) (orders s')
       = Some (mkRow rid t (orderData x (customerIdOf t x (customers s))))
    /\ (forall e, findUnique Order.shopifyId t (ShopifyOrder.id x) (orders s) = Some e
                  -> rid = id e)
    /\ (cr = true -> rid = nextId s)
    /\ rid < nextId s'
    /\ (forall sid', sid' <> ShopifyOrder.id x ->
          findUnique Order.shopifyId t sid' (orders s')
          = findUnique Order.shopifyId t sid' (orders s))
    /\ (forall sid' r, sid' <> ShopifyOrder.id x ->
          findUnique Order.shopifyId t sid' (orders s) = Some r -> id r <> rid)
    /\ (forall y, orderData y (customerIdOf t y (customers s'))
                  = orderData y (customerIdOf t y (customers s)))
    /\ storedItems rid s' = itemsAfter t x rid s (storedItems rid s)
    /\ (forall rid', rid' <> rid -> storedItems rid' s' = storedItems rid' s)
    /\ (forall y rid' a, itemsAfter t y rid' s' a = itemsAfter t y rid' s a).
Proof.
  intros (Hc & Hp & Ho & Hi).
  destruct (upsert_spec t (orderData x (customerIdOf t x (customers s))) Ho)
    as (rid & cr & tbl' & Hup & Hwf' & Hkeys & Hfind & Hcr & Hnew & Hsame & Hframe & Hids & Hlt).
  pose proof (bump_le cr (nextId s)) as Hle.
  destruct (replaceItemsIn_spec t (products s) (ShopifyOrder.line_items x)
              (Forall_lt_mono _ Hi Hle) Hlt)
    as (items' & next' & Hrep & Hle' & Hi' & Hmine & Hothers).
  exists (mkStore (tenants s) (customers s) (products s) tbl' items' next'), cr, rid.
  split; [unfold orderStep; rewrite Hup, Hrep; reflexivity |].
  split.
  { unfold wfStore; cbn.
    split; [eapply wfTable_mono; [eassumption | lia] |].
    split; [eapply wfTable_mono; [eassumption | lia] |].
    split; [eapply wfTable_mono; [eassumption | lia] |].
    assumption. }
  split; [cbn; lia |].
  split; [exact Hkeys |].
  split; [exact Hcr |].
  split; [exact Hfind |].
  split; [exact Hsame |].
  split; [exact Hnew |].
  split; [cbn; lia |].
  split.
  { intros sid' Hne. apply Hframe. cbn. congruence. }
  split.
  { intros sid' r Hne Hr. apply findUnique_some in Hr as [Hin Hk].
    apply Hids; [assumption |]. rewrite Hk. cbn. congruence. }
  split; [reflexivity |].
  split.
  { unfold storedItems, itemsAfter; cbn [orderItems products]. rewrite Hmine.
    destruct (ShopifyOrder.line_items x); reflexivity. }
  split.
  { intros rid' Hne. unfold storedItems; cbn [orderItems]. rewrite Hothers by assumption. reflexivity. }
  reflexivity.
Qed.

(* ===================================================================== *)
(** * One ingestion, from the fetch to the last write *)
(* ===================================================================== *)

Lemma run_ingestCustomers w fuel this l s :
  CustomersAre w this fuel l ->
  exists tr,
    run w (ingestCustomers fuel this) s =
    (Returned (snd (reconcileAll (customerStep (serviceTenantId this)) l s 0 0)),
     fst (reconcileAll (customerStep (serviceTenantId this)) l s 0 0), tr).
Proof.
  intros (rs & Hpages & Hfuel & ->).
  unfold ingestCustomers, getCustomers. rewrite run_bind.
  rewrite (paginate_pages ResponseData.customers Hpages [] s Hfuel). cbn [app].
  destruct (run_ingestCustomersLoop w (serviceTenantId this)
              (List.concat (map (pageOf ResponseData.customers) rs)) s 0 0) as [tr [Hrun _]].
  rewrite Hrun. eexists; reflexivity.
Qed.

Lemma run_ingestProducts w fuel this l s :
  ProductsAre w this fuel l ->
  exists tr,
    run w (ingestProducts fuel this) s =
    (Returned (snd (reconcileAll (productStep (serviceTenantId this)) l s 0 0)),
     fst (reconcileAll (productStep (serviceTenantId this)) l s 0 0), tr).
Proof.
  intros (rs & Hpages & Hfuel & ->).
  unfold ingestProducts, getProducts. rewrite run_bind.
  rewrite (paginate_pages ResponseData.products Hpages [] s Hfuel). cbn [app].
  destruct (run_ingestProductsLoop w (serviceTenantId this)
              (List.concat (map (pageOf ResponseData.products) rs)) s 0 0) as [tr [Hrun _]].
  rewrite Hrun. eexists; reflexivity.
Qed.

Lemma run_ingestOrders w fuel this l s :
  OrdersAre w this fuel l ->
  exists tr,
    run w (ingestOrders fuel this) s =
    (Returned (snd (reconcileAll (orderStep (serviceTenantId this)) l s 0 0)),
     fst (reconcileAll (orderStep (serviceTenantId this)) l s 0 0), tr).
Proof.
  intros (rs & Hpages & Hfuel & ->).
  unfold ingestOrders, getOrders. rewrite run_bind.
  rewrite (paginate_pages ResponseData.orders Hpages [] s Hfuel). cbn [app].
  destruct (run_ingestOrdersLoop w (serviceTenantId this)
              (List.concat (map (pageOf ResponseData.orders) rs)) s 0 0) as [tr [Hrun _]].
  rewrite Hrun. eexists; reflexivity.
Qed.

Lemma wfStore_empty : wfStore emptyStore.
Proof. repeat split; constructor. Qed.

Lemma keys_length {D : Type} (key : D -> string) (a b : list (Row D)) :
  map (rowKey key) a = map (rowKey key) b -> List.length a = List.length b.
Proof. intro H. rewrite <- (length_map (rowKey key) a), H. apply length_map. Qed.

(** ** The facts of [Reconcile], for each entity type *)

Section PerEntity.
Variable t : TenantId.

Lemma customers_wf l s c u :
  wfStore s -> wfStore (fst (reconcileAll (customerStep t) l s c u)).
Proof.
  intro Hwf.
  apply (reconcile_wf Customer.shopifyId customers ShopifyCustomer.id (fun (x : ShopifyCustomer.t) (_ : Store) => customerData x)
           (customerStep t) (fun (_ : Id) (_ : Store) => tt) (fun _ (_ : Id) (_ : Store) (a : unit) => a) (customerStep_spec t) l c u Hwf).
Qed.

Lemma customers_present l s c u x :
  wfStore s -> In x l ->
  In (t, ShopifyCustomer.id x)
     (map (rowKey Customer.shopifyId) (customers (fst (reconcileAll (customerStep t) l s c u)))).
Proof.
  intros Hwf Hx.
  apply (reconcile_present Customer.shopifyId customers ShopifyCustomer.id (fun (x : ShopifyCustomer.t) (_ : Store) => customerData x)
           (customerStep t) (fun (_ : Id) (_ : Store) => tt) (fun _ (_ : Id) (_ : Store) (a : unit) => a) (customerStep_spec t) l c u Hwf x Hx).
Qed.

Lemma customers_again l s c u :
  wfStore s ->
  (forall x, In x l ->
     In (t, ShopifyCustomer.id x) (map (rowKey Customer.shopifyId) (customers s))) ->
  snd (reconcileAll (customerStep t) l s c u) = mkCounts c (u + List.length l)
  /\ map (rowKey Customer.shopifyId) (customers (fst (reconcileAll (customerStep t) l s c u)))
     = map (rowKey Customer.shopifyId) (customers s).
Proof.
  intros Hwf Hall.
  apply (reconcile_again Customer.shopifyId customers ShopifyCustomer.id (fun (x : ShopifyCustomer.t) (_ : Store) => customerData x)
           (customerStep t) (fun (_ : Id) (_ : Store) => tt) (fun _ (_ : Id) (_ : Store) (a : unit) => a) (customerStep_spec t) l c u Hwf Hall).
Qed.

Lemma customers_last l s c u x :
  wfStore s -> NoDup (map ShopifyCustomer.id l) -> In x l ->
  exists rid,
    findUnique Customer.shopifyId t (ShopifyCustomer.id x)
               (customers (fst (reconcileAll (customerStep t) l s c u)))
    = Some (mkRow rid t (customerData x))
    /\ (forall e, findUnique Customer.shopifyId t (ShopifyCustomer.id x) (customers s) = Some e
                  -> rid = id e).
Proof.
  intros Hwf Hnd Hx.
  destruct (reconcile_last Customer.shopifyId customers ShopifyCustomer.id (fun (x : ShopifyCustomer.t) (_ : Store) => customerData x)
              (customerStep t) (fun (_ : Id) (_ : Store) => tt) (fun _ (_ : Id) (_ : Store) (a : unit) => a) (customerStep_spec t) l c u Hwf Hnd x Hx)
    as (rid & H1 & H2 & _).
  exists rid. split; assumption.
Qed.

Lemma products_wf l s c u :
  wfStore s -> wfStore (fst (reconcileAll (productStep t) l s c u)).
Proof.
  intro Hwf.
  apply (reconcile_wf Product.shopifyId products ShopifyProduct.id (fun (x : ShopifyProduct.t) (_ : Store) => productData x)
           (productStep t) (fun (_ : Id) (_ : Store) => tt) (fun _ (_ : Id) (_ : Store) (a : unit) => a) (productStep_spec t) l c u Hwf).
Qed.

Lemma products_present l s c u x :
  wfStore s -> In x l ->
  In (t, ShopifyProduct.id x)
     (map (rowKey Product.shopifyId) (products (fst (reconcileAll (productStep t) l s c u)))).
Proof.
  intros Hwf Hx.
  apply (reconcile_present Product.shopifyId products ShopifyProduct.id (fun (x : ShopifyProduct.t) (_ : Store) => productData x)
           (productStep t) (fun (_ : Id) (_ : Store) => tt) (fun _ (_ : Id) (_ : Store) (a : unit) => a) (productStep_spec t) l c u Hwf x Hx).
Qed.

Lemma products_again l s c u :
  wfStore s ->
  (forall x, In x l ->
     In (t, ShopifyProduct.id x) (map (rowKey Product.shopifyId) (products s))) ->
  snd (reconcileAll (productStep t) l s c u) = mkCounts c (u + List.length l)
  /\ map (rowKey Product.shopifyId) (products (fst (reconcileAll (productStep t) l s c u)))
     = map (rowKey Product.shopifyId) (products s).
Proof.
  intros Hwf Hall.
  apply (reconcile_again Product.shopifyId products ShopifyProduct.id (fun (x : ShopifyProduct.t) (_ : Store) => productData x)
           (productStep t) (fun (_ : Id) (_ : Store) => tt) (fun _ (_ : Id) (_ : Store) (a : unit) => a) (productStep_spec t) l c u Hwf Hall).
Qed.

Lemma orders_wf l s c u :
  wfStore s -> wfStore (fst (reconcileAll (orderStep t) l s c u)).
Proof.
  intro Hwf.
  apply (reconcile_wf Order.shopifyId orders ShopifyOrder.id (fun (x : ShopifyOrder.t) (s0 : Store) =>
              orderData x (customerIdOf t x (customers s0)))
           (orderStep t) storedItems (itemsAfter t) (orderStep_spec t) l c u Hwf).
Qed.

Lemma orders_present l s c u x :
  wfStore s -> In x l ->
  In (t, ShopifyOrder.id x)
     (map (rowKey Order.shopifyId) (orders (fst (reconcileAll (orderStep t) l s c u)))).
Proof.
  intros Hwf Hx.
  apply (reconcile_present Order.shopifyId orders ShopifyOrder.id (fun (x : ShopifyOrder.t) (s0 : Store) =>
              orderData x (customerIdOf t x (customers s0)))
           (orderStep t) storedItems (itemsAfter t) (orderStep_spec t) l c u Hwf x Hx).
Qed.

Lemma orders_again l s c u :
  wfStore s ->
  (forall x, In x l ->
     In (t, ShopifyOrder.id x) (map (rowKey Order.shopifyId) (orders s))) ->
  snd (reconcileAll (orderStep t) l s c u) = mkCounts c (u + List.length l)
  /\ map (rowKey Order.shopifyId) (orders (fst (reconcileAll (orderStep t) l s c u)))
     = map (rowKey Order.shopifyId) (orders s).
Proof.
  intros Hwf Hall.
  apply (reconcile_again Order.shopifyId orders ShopifyOrder.id (fun (x : ShopifyOrder.t) (s0 : Store) =>
              orderData x (customerIdOf t x (customers s0)))
           (orderStep t) storedItems (itemsAfter t) (orderStep_spec t) l c u Hwf Hall).
Qed.

(** The row of an order after a run over orders with distinct ids, and the
    items stored for it. *)
Lemma orders_last l s c u x :
  wfStore s -> NoDup (map ShopifyOrder.id l) -> In x l ->
  exists rid,
    findUnique Order.shopifyId t (ShopifyOrder.id x)
               (orders (fst (reconcileAll (orderStep t) l s c u)))
    = Some (mkRow rid t (orderData x (customerIdOf t x (customers s))))
    /\ (forall e, findUnique Order.shopifyId t (ShopifyOrder.id x) (orders s) = Some e
                  -> rid = id e)
    /\ storedItems rid (fst (reconcileAll (orderStep t) l s c u))
       = itemsAfter t x rid s (storedItems rid s).
Proof.
  intros Hwf Hnd Hx.
  destruct (reconcile_last Order.shopifyId orders ShopifyOrder.id (fun (x : ShopifyOrder.t) (s0 : Store) =>
              orderData x (customerIdOf t x (customers s0)))
              (orderStep t) storedItems (itemsAfter t) (orderStep_spec t) l c u Hwf Hnd x Hx)
    as (rid & H1 & H2 & _ & H4).
  exists rid. repeat split; assumption.
Qed.

(** A reconciliation writes to its own table only. *)
Lemma customers_only l :
  forall s c u,
    products (fst (reconcileAll (customerStep t) l s c u)) = products s
    /\ orders (fst (reconcileAll (customerStep t) l s c u)) = orders s
    /\ orderItems (fst (reconcileAll (customerStep t) l s c u)) = orderItems s.
Proof.
  induction l as [| x l IH]; intros s c u; [repeat split |].
  cbn [reconcileAll].
  assert (Hs : products (fst (customerStep t x s)) = products s
               /\ orders (fst (customerStep t x s)) = orders s
               /\ orderItems (fst (customerStep t x s)) = orderItems s).
  { unfold customerStep.
    destruct (upsert Customer.shopifyId t (customerData x) (customers s) (nextId s))
      as [[tbl rid] cr]. repeat split. }
  destruct (customerStep t x s) as [s1 cr]. cbn [fst] in Hs.
  destruct Hs as (Hp & Ho & Hi).
  destruct cr; [destruct (IH s1 (S c) u) as (A1 & A2 & A3)
               | destruct (IH s1 c (S u)) as (A1 & A2 & A3)];
    repeat split; congruence.
Qed.

Lemma products_only l :
  forall s c u,
    customers (fst (reconcileAll (productStep t) l s c u)) = customers s
    /\ orders (fst (reconcileAll (productStep t) l s c u)) = orders s
    /\ orderItems (fst (reconcileAll (productStep t) l s c u)) = orderItems s.
Proof.
  induction l as [| x l IH]; intros s c u; [repeat split |].
  cbn [reconcileAll].
  assert (Hs : customers (fst (productStep t x s)) = customers s
               /\ orders (fst (productStep t x s)) = orders s
               /\ orderItems (fst (productStep t x s)) = orderItems s).
  { unfold productStep.
    destruct (upsert Product.shopifyId t (productData x) (products s) (nextId s))
      as [[tbl rid] cr]. repeat split. }
  destruct (productStep t x s) as [s1 cr]. cbn [fst] in Hs.
  destruct Hs as (Hp & Ho & Hi).
  destruct cr; [destruct (IH s1 (S c) u) as (A1 & A2 & A3)
               | destruct (IH s1 c (S u)) as (A1 & A2 & A3)];
    repeat split; congruence.
Qed.

End PerEntity.

(** C3.  Invoking an ingestion twice in succession against an unchanged
    remote collection of N records gives created = 0 and updated = N on the
    second call and leaves the number of stored rows of that entity type as
    it was after the first call; this for customers, products and orders
    (in a store whose primary keys and natural keys are distinct, as the
    database keeps them). *)
Theorem ingestion_idempotent :
  forall (w : World) (fuel : nat) (this : IngestionService) (s : Store),
    wfStore s ->
    (forall l,
        CustomersAre w this fuel l ->
        let r1 := run w (ingestCustomers fuel this) s in
        let r2 := run w (ingestCustomers fuel this) (storeOf r1) in
        outcomeOf r2 = Returned (mkCounts 0 (List.length l))
        /\ List.length (customers (storeOf r2)) = List.length (customers (storeOf r1)))
    /\ (forall l,
        ProductsAre w this fuel l ->
        let r1 := run w (ingestProducts fuel this) s in
        let r2 := run w (ingestProducts fuel this) (storeOf r1) in
        outcomeOf r2 = Returned (mkCounts 0 (List.length l))
        /\ List.length (products (storeOf r2)) = List.length (products (storeOf r1)))
    /\ (forall l,
        OrdersAre w this fuel l ->
        let r1 := run w (ingestOrders fuel this) s in
        let r2 := run w (ingestOrders fuel this) (storeOf r1) in
        outcomeOf r2 = Returned (mkCounts 0 (List.length l))
        /\ List.length (orders (storeOf r2)) = List.length (orders (storeOf r1))).
Proof.
  intros w fuel this s Hwf.
  set (t := serviceTenantId this).
  split; [| split]; intros l Hl r1 r2.
  - destruct (run_ingestCustomers s Hl) as [tr1 H1].
    set (s1 := fst (reconcileAll (customerStep t) l s 0 0)).
    assert (Hs1 : storeOf r1 = s1) by (subst r1; rewrite H1; reflexivity).
    subst r2. rewrite Hs1.
    destruct (run_ingestCustomers s1 Hl) as [tr2 H2]. rewrite H2.
    unfold outcomeOf, storeOf; cbn [fst snd]. fold t. subst s1.
    destruct (customers_again t l 0 0 (customers_wf t l 0 0 Hwf)) as [Hc Hk].
    { intros x Hx. apply customers_present; assumption. }
    split; [rewrite Hc; reflexivity | apply (keys_length _ _ _ Hk)].
  - destruct (run_ingestProducts s Hl) as [tr1 H1].
    set (s1 := fst (reconcileAll (productStep t) l s 0 0)).
    assert (Hs1 : storeOf r1 = s1) by (subst r1; rewrite H1; reflexivity).
    subst r2. rewrite Hs1.
    destruct (run_ingestProducts s1 Hl) as [tr2 H2]. rewrite H2.
    unfold outcomeOf, storeOf; cbn [fst snd]. fold t. subst s1.
    destruct (products_again t l 0 0 (products_wf t l 0 0 Hwf)) as [Hc Hk].
    { intros x Hx. apply products_present; assumption. }
    split; [rewrite Hc; reflexivity | apply (keys_length _ _ _ Hk)].
  - destruct (run_ingestOrders s Hl) as [tr1 H1].
    set (s1 := fst (reconcileAll (orderStep t) l s 0 0)).
    assert (Hs1 : storeOf r1 = s1) by (subst r1; rewrite H1; reflexivity).
    subst r2. rewrite Hs1.
    destruct (run_ingestOrders s1 Hl) as [tr2 H2]. rewrite H2.
    unfold outcomeOf, storeOf; cbn [fst snd]. fold t. subst s1.
    destruct (orders_again t l 0 0 (orders_wf t l 0 0 Hwf)) as [Hc Hk].
    { intros x Hx. apply orders_present; assumption. }
    split; [rewrite Hc; reflexivity | apply (keys_length _ _ _ Hk)].
Qed.

Lemma sample_customers_are (c : ShopifyCustomer.t) (o : ShopifyOrder.t) :
  CustomersAre (Sample.worldWith c o) Sample.service 4 [c; Sample.bob].
Proof.
  exists [Sample.customersPage1With c; Sample.customersPage2].
  split; [| split; [cbn; lia | reflexivity]].
  eapply pages_more; [reflexivity | reflexivity |].
  apply pages_last; reflexivity.
Qed.

Lemma sample_products_are (c : ShopifyCustomer.t) (o : ShopifyOrder.t) :
  ProductsAre (Sample.worldWith c o) Sample.service 4 [Sample.mug].
Proof.
  exists [Sample.productsPage].
  split; [| split; [cbn; lia | reflexivity]].
  apply pages_last; reflexivity.
Qed.

Lemma sample_orders_are (c : ShopifyCustomer.t) (o : ShopifyOrder.t) :
  OrdersAre (Sample.worldWith c o) Sample.service 4 [o].
Proof.
  exists [Sample.ordersPageWith o].
  split; [| split; [cbn; lia | reflexivity]].
  apply pages_last; reflexivity.
Qed.

(** Two customers, one product, one order: the second call of each ingestion
    creates nothing and updates them all. *)
Lemma ingestion_idempotent_witness :
  let w := Sample.world in
  let again {A : Type} (p : Proc A) := run w p (storeOf (run w p emptyStore)) in
  outcomeOf (again (ingestCustomers 4 Sample.service)) = Returned (mkCounts 0 2)
  /\ outcomeOf (again (ingestProducts 4 Sample.service)) = Returned (mkCounts 0 1)
  /\ outcomeOf (again (ingestOrders 4 Sample.service)) = Returned (mkCounts 0 1).
Proof.
  destruct (ingestion_idempotent Sample.world 4 Sample.service wfStore_empty)
    as (Hc & Hp & Ho).
  split; [| split].
  - exact (proj1 (Hc _ (sample_customers_are Sample.alice Sample.order1))).
  - exact (proj1 (Hp _ (sample_products_are Sample.alice Sample.order1))).
  - exact (proj1 (Ho _ (sample_orders_are Sample.alice Sample.order1))).
Defined.

Lemma countKey_absent {D : Type} (key : D -> string) t sid (tbl : list (Row D)) :
  ~ In (t, sid) (map (rowKey key) tbl) -> countKey key t sid tbl = 0.
Proof.
  unfold countKey. induction tbl as [| r tbl IH]; cbn; intro Hn; [reflexivity |].
  destruct (hasKey key t sid r) eqn:Hk.
  - apply hasKey_iff in Hk. exfalso. apply Hn. left; assumption.
  - apply IH. intro H. apply Hn. right; assumption.
Qed.

(** With the unique index a natural key that is there is there once. *)
Lemma countKey_one {D : Type} (key : D -> string) t sid (tbl : list (Row D)) :
  NoDup (map (rowKey key) tbl) -> In (t, sid) (map (rowKey key) tbl) ->
  countKey key t sid tbl = 1.
Proof.
  induction tbl as [| r tbl IH]; cbn; intros Hnd Hin; [contradiction |].
  inversion Hnd as [| k ks Hnotin Hnd']; subst.
  unfold countKey; cbn.
  destruct (hasKey key t sid r) eqn:Hk.
  - apply hasKey_iff in Hk. cbn. f_equal.
    apply (countKey_absent key). rewrite <- Hk. assumption.
  - destruct Hin as [Hin | Hin].
    + apply hasKey_iff in Hin. congruence.
    + apply IH; assumption.
Qed.

Lemma findUnique_in_keys {D : Type} (key : D -> string) t sid (tbl : list (Row D)) r :
  findUnique key t sid tbl = Some r -> In (t, sid) (map (rowKey key) tbl).
Proof.
  intro H. apply findUnique_some in H as [Hin Hk].
  rewrite <- Hk. apply in_map; assumption.
Qed.

(** C4.  A remote customer whose natural key is not stored yet gets exactly
    one row by one ingestion run; a later ingestion of a record with the
    same remote id and other fields (its e-mail address, say) overwrites
    that row, under the same primary key, and there is still exactly one row
    with the natural key. *)
Theorem customer_upsert_same_row :
  forall (w1 w2 : World) (fuel : nat) (this : IngestionService) (s : Store)
         (l1 l2 : list ShopifyCustomer.t) (c1 c2 : ShopifyCustomer.t),
    wfStore s ->
    findUnique Customer.shopifyId (serviceTenantId this) (ShopifyCustomer.id c1)
               (customers s) = None ->
    CustomersAre w1 this fuel l1 ->
    In c1 l1 ->
    CustomersAre w2 this fuel l2 ->
    In c2 l2 ->
    NoDup (map ShopifyCustomer.id l2) ->
    ShopifyCustomer.id c2 = ShopifyCustomer.id c1 ->
    let t := serviceTenantId this in
    let rid := ShopifyCustomer.id c1 in
    let s1 := storeOf (run w1 (ingestCustomers fuel this) s) in
    let s2 := storeOf (run w2 (ingestCustomers fuel this) s1) in
    countKey Customer.shopifyId t rid (customers s) = 0
    /\ exists row,
        findUnique Customer.shopifyId t rid (customers s1) = Some row
        /\ countKey Customer.shopifyId t rid (customers s1) = 1
        /\ findUnique Customer.shopifyId t rid (customers s2)
           = Some (mkRow (id row) t (customerData c2))
        /\ countKey Customer.shopifyId t rid (customers s2) = 1.
Proof.
  intros w1 w2 fuel this s l1 l2 c1 c2 Hwf Habs Hl1 Hc1 Hl2 Hc2 Hnd Hid t rid s1 s2.
  split.
  { apply countKey_absent. apply findUnique_none. exact Habs. }
  destruct (run_ingestCustomers s Hl1) as [tr1 H1].
  assert (Hs1 : s1 = fst (reconcileAll (customerStep t) l1 s 0 0))
    by (subst s1; rewrite H1; reflexivity).
  destruct (run_ingestCustomers s1 Hl2) as [tr2 H2].
  assert (Hs2 : s2 = fst (reconcileAll (customerStep t) l2 s1 0 0))
    by (subst s2; rewrite H2; reflexivity).
  assert (Hwf1 : wfStore s1) by (rewrite Hs1; apply customers_wf; assumption).
  assert (Hwf2 : wfStore s2) by (rewrite Hs2; apply customers_wf; assumption).
  assert (Hin1 : In (t, rid) (map (rowKey Customer.shopifyId) (customers s1))).
  { rewrite Hs1. apply customers_present; assumption. }
  destruct (findUnique_present _ _ _ _ Hin1) as [row Hrow].
  destruct (@customers_last t l2 s1 0 0 c2 Hwf1 Hnd Hc2) as (rid2 & Hfind2 & Hsame).
  rewrite <- Hs2, Hid in Hfind2. rewrite Hid in Hsame. fold rid in Hfind2, Hsame.
  rewrite (Hsame row Hrow) in Hfind2.
  exists row.
  split; [exact Hrow |].
  split; [apply countKey_one; [apply Hwf1 | exact Hin1] |].
  split; [exact Hfind2 |].
  apply countKey_one; [apply Hwf2 |].
  eapply findUnique_in_keys; eassumption.
Qed.

(** Alice is ingested into an empty store, changes her e-mail address, and
    is ingested again: one row, under the primary key 0, with the new
    address. *)
Lemma customer_upsert_same_row_witness :
  let s1 := storeOf (run Sample.world (ingestCustomers 4 Sample.service) emptyStore) in
  let s2 := storeOf (run Sample.worldMoved (ingestCustomers 4 Sample.service) s1) in
  countKey Customer.shopifyId "tenant-1" "C1" (customers emptyStore) = 0
  /\ exists row,
      findUnique Customer.shopifyId "tenant-1" "C1" (customers s1) = Some row
      /\ countKey Customer.shopifyId "tenant-1" "C1" (customers s1) = 1
      /\ findUnique Customer.shopifyId "tenant-1" "C1" (customers s2)
         = Some (mkRow (id row) "tenant-1" (customerData Sample.aliceMoved))
      /\ countKey Customer.shopifyId "tenant-1" "C1" (customers s2) = 1.
Proof.
  apply (@customer_upsert_same_row
           Sample.world Sample.worldMoved 4 Sample.service emptyStore
           [Sample.alice; Sample.bob] [Sample.aliceMoved; Sample.bob]
           Sample.alice Sample.aliceMoved).
  - exact wfStore_empty.
  - reflexivity.
  - exact (sample_customers_are Sample.alice Sample.order1).
  - left; reflexivity.
  - exact (sample_customers_are Sample.aliceMoved Sample.order1).
  - left; reflexivity.
  - repeat constructor; cbn; intuition discriminate.
  - reflexivity.
Defined.

(* ===================================================================== *)
(** * Orders: item-set replacement and reference resolution *)
(* ===================================================================== *)

(** C2, as the code has it.  For an order with at least one remote line
    item, reconciled by a run of [ingestOrders] over orders with distinct
    remote ids, the stored items of its row are afterwards exactly the
    mapped remote line items, in the remote order: what was stored for the
    row before is gone.  For an order delivered without line items the
    stored items of its row are left as they were. *)
Theorem order_items_replaced_when_delivered :
  forall (w : World) (fuel : nat) (this : IngestionService) (s : Store)
         (l : list ShopifyOrder.t) (o : ShopifyOrder.t),
    wfStore s ->
    OrdersAre w this fuel l ->
    NoDup (map ShopifyOrder.id l) ->
    In o l ->
    let t := serviceTenantId this in
    let s' := storeOf (run w (ingestOrders fuel this) s) in
    exists row,
      findUnique Order.shopifyId t (ShopifyOrder.id o) (orders s') = Some row
      /\ (ShopifyOrder.line_items o <> [] ->
          storedItems (id row) s'
          = mappedItems t (products s) (id row) (ShopifyOrder.line_items o))
      /\ (ShopifyOrder.line_items o = [] ->
          storedItems (id row) s' = storedItems (id row) s).
Proof.
  intros w fuel this s l o Hwf Hl Hnd Ho t s'.
  destruct (run_ingestOrders s Hl) as [tr H].
  assert (Hs' : s' = fst (reconcileAll (orderStep t) l s 0 0))
    by (subst s'; rewrite H; reflexivity).
  destruct (@orders_last t l s 0 0 o Hwf Hnd Ho) as (rid & Hfind & _ & Hitems).
  rewrite <- Hs' in Hfind, Hitems.
  eexists. split; [exact Hfind |]. cbn [id].
  unfold itemsAfter in Hitems.
  split; intro Hli.
  - destruct (ShopifyOrder.line_items o); [contradiction | exact Hitems].
  - rewrite Hli in Hitems. exact Hitems.
Qed.

Lemma later_store_wf : wfStore Later.store.
Proof.
  unfold Later.store.
  destruct (@run_ingestOrders Sample.world 4 Sample.service [Sample.order1] emptyStore
              (sample_orders_are Sample.alice Sample.order1)) as [tr H].
  rewrite H. unfold storeOf. cbn [fst snd]. apply orders_wf. exact wfStore_empty.
Qed.



Lemma later_orders_are :
  OrdersAre Later.world Sample.service 4 [Later.order1; Later.order2].
Proof.
  exists [Later.ordersPage].
  split; [| split; [cbn; lia | reflexivity]].
  apply pages_last; reflexivity.
Qed.

Lemma later_orders_distinct : NoDup (map ShopifyOrder.id [Later.order1; Later.order2]).
Proof. repeat constructor; cbn; intuition discriminate. Qed.

(** The row 0 of the order O1 is stored with the items Mug and Cap; the
    remote now delivers O1 with the line Mug alone, together with a new
    order.  After the run the row has the one mapped item: Cap is gone. *)
Lemma order_items_replaced_when_delivered_witness :
  let s' := storeOf (run Later.world (ingestOrders 4 Sample.service) Later.store) in
  findUnique Order.shopifyId "tenant-1" "O1" (orders Later.store)
  = Some (mkRow 0 "tenant-1" (orderData Sample.order1 None))
  /\ map OrderItem.title (storedItems 0 Later.store) = ["Mug"; "Cap"]
  /\ exists row,
       findUnique Order.shopifyId "tenant-1" "O1" (orders s') = Some row
       /\ id row = 0
       /\ storedItems (id row) s'
          = mappedItems "tenant-1" (products Later.store) (id row) [Sample.mugLine]
       /\ map OrderItem.title (storedItems (id row) s') = ["Mug"].
Proof.
  intro s'.
  split; [vm_compute; reflexivity |].
  split; [vm_compute; reflexivity |].
  destruct (@order_items_replaced_when_delivered
              Later.world 4 Sample.service Later.store [Later.order1; Later.order2]
              Later.order1 later_store_wf later_orders_are later_orders_distinct
              (or_introl eq_refl)) as (row & Hfind & Hfull & _).
  fold s' in Hfind, Hfull.
  assert (Hrow : id row = 0).
  { assert (H0 : option_map (@id _)
                   (findUnique Order.shopifyId "tenant-1" "O1" (orders s')) = Some 0)
      by (vm_compute; reflexivity).
    change (ShopifyOrder.id Later.order1) with "O1" in Hfind.
    change (serviceTenantId Sample.service) with "tenant-1" in Hfind.
    rewrite Hfind in H0. injection H0 as H0. exact H0. }
  exists row. split; [exact Hfind |]. split; [exact Hrow |].
  assert (Hitems : storedItems (id row) s'
                   = mappedItems "tenant-1" (products Later.store) (id row) [Sample.mugLine])
    by (apply Hfull; discriminate).
  split; [exact Hitems |].
  rewrite Hitems. reflexivity.
Defined.

(** C2, as the claim states it, fails when the remote line-item set is
    empty: O1 is ingested with two lines, the remote drops both, O1 is
    ingested again, and the two items are still stored for its row. *)
Lemma stale_items_survive_empty_line_items :
  let s1 := storeOf (run Sample.world (ingestOrders 4 Sample.service) emptyStore) in
  let s2 := storeOf (run Sample.worldEmptied (ingestOrders 4 Sample.service) s1) in
  findUnique Order.shopifyId "tenant-1" "O1" (orders s2)
    = Some (mkRow 0 "tenant-1" (orderData Sample.order1Emptied None))
  /\ ShopifyOrder.line_items Sample.order1Emptied = []
  /\ List.length (storedItems 0 s2) = 2
  /\ storedItems 0 s2
     <> mappedItems "tenant-1" (products s2) 0 (ShopifyOrder.line_items Sample.order1Emptied).
Proof.
  cbv zeta. repeat split; try (vm_compute; reflexivity).
  vm_compute. discriminate.
Qed.




(* ===================================================================== *)
(** * The mapper and numbers that do not parse *)
(* ===================================================================== *)

Lemma numOr_zero_not_NaN (x : JS.number) : JS.isNaN (JS.numOr x JS.zero) = false.
Proof.
  unfold JS.numOr, JS.truthyNum.
  destruct x as [| neg | neg m e]; [reflexivity | reflexivity |].
  destruct (m =? 0)%N; reflexivity.
Qed.

Lemma numOr_zero_of_NaN (x : JS.number) : x = JS.NaN -> JS.numOr x JS.zero = JS.zero.
Proof. intros ->; reflexivity. Qed.

(** The totals that the mapper guards with [|| 0]: a customer's total
    spent, an order's total price and a line item's price are never NaN,
    and are zero when the remote string does not parse. *)
Lemma guarded_totals_default_to_zero :
  (forall c,
      JS.isNaN (Customer.totalSpent (customerData c)) = false
      /\ (JS.parseFloat (ShopifyCustomer.total_spent c) = JS.NaN ->
          Customer.totalSpent (customerData c) = JS.zero))
  /\ (forall o cid,
      JS.isNaN (Order.totalPrice (orderData o cid)) = false
      /\ (JS.parseFloat (ShopifyOrder.total_price o) = JS.NaN ->
          Order.totalPrice (orderData o cid) = JS.zero))
  /\ (forall oid pid li,
      JS.isNaN (OrderItem.price (orderItemData oid pid li)) = false
      /\ (JS.parseFloat (ShopifyLineItem.price li) = JS.NaN ->
          OrderItem.price (orderItemData oid pid li) = JS.zero)).
Proof.
  repeat split; cbn; try apply numOr_zero_not_NaN; apply numOr_zero_of_NaN.
Qed.

(** The price of a product is not guarded: it is whatever [parseFloat]
    gives for the price of the first variant. *)
Lemma product_price_is_parseFloat p v rest :
  ShopifyProduct.variants p = v :: rest ->
  Product.price (productData p) = Some (JS.parseFloat (ShopifyVariant.price v)).
Proof. intro H. unfold productData. rewrite H. reflexivity. Qed.

(** C5, at the failing input.  A product whose first variant has the price
    "abc" is mapped to a price that is NaN, not zero, and this NaN is what
    [ingestProducts] hands to [prisma.product.create] and what is stored. *)
Theorem product_price_unparsable_is_NaN :
  Product.price (productData OddPrice.oddMug) = Some JS.NaN
  /\ Product.price (productData OddPrice.oddMug) <> Some JS.zero
  /\ (let r := run OddPrice.oddWorld (ingestProducts 4 Sample.service) emptyStore in
      In (ProductCreate "tenant-1" (productData OddPrice.oddMug)) (traceOf r)
      /\ map (fun row => Product.price (data row)) (products (storeOf r)) = [Some JS.NaN]).
Proof.
  split; [reflexivity |].
  split; [discriminate |].
  cbv zeta. split.
  - vm_compute. right; right; left; reflexivity.
  - vm_compute. reflexivity.
Qed.

(* ===================================================================== *)
(** * Single-record lookups and the order webhook, continued *)
(* ===================================================================== *)

Lemma run_handleOrderWebhook w fuel tenantId shop tok rid s :
  run w (handleOrderWebhook fuel tenantId shop tok (mkPayload (Some rid))) s =
  match lookupAnswer w (mkShopifyService shop tok) "orders" rid ResponseData.order with
  | None => (Returned tt, s, [oneRequest (mkShopifyService shop tok) "orders" rid])
  | Some _ =>
      let '(o, s1, tr) := run w (ingestOrders fuel (newIngestionService tenantId shop tok)) s in
      (match o with Unfinished => Unfinished | _ => Returned tt end, s1,
       oneRequest (mkShopifyService shop tok) "orders" rid :: tr)
  end.
Proof.
  unfold handleOrderWebhook. cbn [payloadId].
  rewrite run_tryCatch. cbn [bind].
  change (shopifyService (newIngestionService tenantId shop tok))
    with (mkShopifyService shop tok).
  rewrite run_bind, getOrder_path, run_getOne.
  destruct (lookupAnswer w (mkShopifyService shop tok) "orders" rid ResponseData.order)
    as [o |]; [| reflexivity].
  rewrite run_bind.
  destruct (run w (ingestOrders fuel (newIngestionService tenantId shop tok)) s)
    as [[[cnt | e |] s1] tr]; cbn; rewrite ?app_nil_r; reflexivity.
Qed.

Lemma run_handleOrderWebhook_no_id w fuel tenantId shop tok s :
  run w (handleOrderWebhook fuel tenantId shop tok (mkPayload None)) s = (Returned tt, s, []).
Proof. reflexivity. Qed.

(** C10.  [getCustomer], [getProduct] and [getOrder] always return: the
    record the remote answers with, and [null] both when the request is
    rejected and when the answer lacks the record, so that the two cannot be
    told apart; the collection fetches throw a rejected request on.  When
    the lookup of the order gives [null], the order webhook handler awaits
    nothing more and leaves the store as it is. *)
Theorem single_lookups_never_throw :
  forall (w : World) (this : ShopifyService) (rid : string) (s : Store),
    run w (getCustomer this rid) s
      = (Returned (lookupAnswer w this "customers" rid ResponseData.customer), s,
         [oneRequest this "customers" rid])
    /\ run w (getProduct this rid) s
      = (Returned (lookupAnswer w this "products" rid ResponseData.product), s,
         [oneRequest this "products" rid])
    /\ run w (getOrder this rid) s
      = (Returned (lookupAnswer w this "orders" rid ResponseData.order), s,
         [oneRequest this "orders" rid])
    /\ (forall w' e r,
          http w (shopDomain this) (accessToken this) (onePath "orders" rid) noParams = inl e ->
          http w' (shopDomain this) (accessToken this) (onePath "orders" rid) noParams = inr r ->
          ResponseData.order (rdata r) = None ->
          run w (getOrder this rid) s = run w' (getOrder this rid) s)
    /\ (forall fuel limit status e,
          answer w this "/customers.json" limit None None = inl e ->
          answer w this "/products.json" limit None None = inl e ->
          answer w this "/orders.json" limit (Some status) None = inl e ->
          outcomeOf (run w (getCustomers (S fuel) this limit) s) = Thrown e
          /\ outcomeOf (run w (getProducts (S fuel) this limit) s) = Thrown e
          /\ outcomeOf (run w (getOrders (S fuel) this limit status) s) = Thrown e)
    /\ (forall fuel tenantId,
          lookupAnswer w this "orders" rid ResponseData.order = None ->
          run w (handleOrderWebhook fuel tenantId (shopDomain this) (accessToken this)
                                    (mkPayload (Some rid))) s
          = (Returned tt, s, [oneRequest this "orders" rid])).
Proof.
  intros w this rid s.
  split; [rewrite getCustomer_path; apply run_getOne |].
  split; [rewrite getProduct_path; apply run_getOne |].
  split; [rewrite getOrder_path; apply run_getOne |].
  split.
  { intros w' e r He Hr Hnone.
    rewrite getOrder_path, !run_getOne. unfold lookupAnswer.
    rewrite He, Hr, Hnone. reflexivity. }
  split.
  { intros fuel limit status e Hc Hp Ho.
    unfold getCustomers, getProducts, getOrders.
    rewrite !run_paginate_step, Hc, Hp, Ho. repeat split. }
  intros fuel tenantId Hnone.
  rewrite run_handleOrderWebhook.
  destruct this as [shop tok]; cbn [shopDomain accessToken] in *.
  rewrite Hnone. reflexivity.
Qed.

(** With a revoked credential the lookup of O1 gives [null], as does the
    lookup of an order the remote does not have; the handler then does
    nothing, while the fetch of the order collection throws. *)
Lemma single_lookups_never_throw_witness :
  run Sample.world (getOrder Sample.revokedClient "O1") emptyStore
    = (Returned None, emptyStore, [oneRequest Sample.revokedClient "orders" "O1"])
  /\ run Sample.world (getOrder Sample.client "O9") emptyStore
    = (Returned None, emptyStore, [oneRequest Sample.client "orders" "O9"])
  /\ outcomeOf (run Sample.world (getOrders 1 Sample.revokedClient 250 "any") emptyStore)
    = Thrown "Request failed with status code 401"
  /\ run Sample.world
         (handleOrderWebhook 4 "tenant-1" Sample.shop Sample.token (mkPayload (Some "O9")))
         emptyStore
    = (Returned tt, emptyStore, [oneRequest Sample.client "orders" "O9"]).
Proof.
  destruct (single_lookups_never_throw Sample.world Sample.revokedClient "O1" emptyStore)
    as (_ & _ & Hrev & _ & Hcoll & _).
  destruct (single_lookups_never_throw Sample.world Sample.client "O9" emptyStore)
    as (_ & _ & Hmiss & _ & _ & Hhook).
  split; [exact Hrev |].
  split; [exact Hmiss |].
  split; [exact (proj2 (proj2 (Hcoll 0 250%Z "any" _ eq_refl eq_refl eq_refl))) |].
  exact (Hhook 4 "tenant-1" eq_refl).
Defined.

(* ===================================================================== *)
(** * Event intake *)
(* ===================================================================== *)

Lemma hmac_rfc_example :
  Crypto.hmacSha256Base64 "key" "The quick brown fox jumps over the lazy dog"
  = "97yD9DBThCSxMpjmqm+xQ+9NWaFJRhdZl0edvC0aPNg=".
Proof. vm_compute. reflexivity. Qed.

Lemma verify_iff body signature secret :
  verifyShopifyWebhook body signature secret = true
  <-> Crypto.hmacSha256Base64 secret body = signature.
Proof. unfold verifyShopifyWebhook. apply String.eqb_eq. Qed.

(** One run of [ingestOrders] starts fetching the order collection once. *)
Lemma resyncs_ingestOrders w fuel this s :
  resyncs "/orders.json" (traceOf (run w (ingestOrders (S fuel) this) s)) = 1.
Proof.
  unfold ingestOrders. rewrite run_bind.
  pose proof (paginate_resyncs w (shopifyService this) "/orders.json" 250 (Some "any")
                ResponseData.orders (S fuel) None [] s) as Hp.
  unfold getOrders.
  destruct (run w (paginate (S fuel) (shopifyService this) "/orders.json" 250 (Some "any")
                            ResponseData.orders None []) s) as [[[l | e |] s1] tr1];
    unfold traceOf in *; cbn [snd] in *; try exact Hp.
  destruct (run_ingestOrdersLoop w (serviceTenantId this) l s1 0 0) as [tr2 [H2 Hno]].
  rewrite H2. cbn [snd]. rewrite resyncs_app, Hp.
  rewrite (resyncs_no_http _ _ Hno). reflexivity.
Qed.

Lemma oneRequest_not_first this resource rid :
  resource = "orders" ->
  isFirstPage "/orders.json" (oneRequest this resource rid) = false.
Proof. intros ->. reflexivity. Qed.
(* ===================================================================== *)
(** * [ingestAll] on the event loop *)
(* ===================================================================== *)

Lemma events_abandon c p o el : events (abandon c p o el) = events el.
Proof. reflexivity. Qed.

Lemma events_record el s ev : events (record el s ev) = events el ++ ev.
Proof. reflexivity. Qed.

(** What is awaited only adds to the history. *)
Lemma drain_events w c p o el :
  exists rest, events (snd (drain w c p o el)) = events el ++ rest.
Proof.
  unfold drain.
  destruct (runTask w c (store el)) as [[c1 s1] e1].
  destruct (resolution c1 p o).
  { exists e1. reflexivity. }
  destruct (runTask w p s1) as [[p1 s2] e2].
  destruct (resolution c1 p1 o).
  { exists (e1 ++ e2). cbn. rewrite app_assoc. reflexivity. }
  destruct (runTask w o s2) as [[o1 s3] e3].
  exists (e1 ++ e2 ++ e3).
  destruct (resolution c1 p1 o1); cbn; rewrite !app_assoc; reflexivity.
Qed.

Lemma awaitAll_events w sched :
  forall c p o el,
    exists rest, events (snd (fst (awaitAll w sched c p o el))) = events el ++ rest.
Proof.
  induction sched as [| i sched IH]; intros c p o el; cbn [awaitAll].
  - destruct (resolution c p o).
    + exists []. cbn. rewrite app_nil_r. reflexivity.
    + cbn [fst snd]. apply drain_events.
  - destruct (resolution c p o).
    { exists []. cbn. rewrite app_nil_r. reflexivity. }
    destruct (i mod (3 + List.length (strays el))) as [| [| [| j]]].
    + destruct (stepTask w c (store el)) as [[c1 s1] ev].
      destruct (IH c1 p o (record el s1 ev)) as [rest Hrest].
      exists (ev ++ rest). rewrite Hrest, events_record, app_assoc. reflexivity.
    + destruct (stepTask w p (store el)) as [[p1 s1] ev].
      destruct (IH c p1 o (record el s1 ev)) as [rest Hrest].
      exists (ev ++ rest). rewrite Hrest, events_record, app_assoc. reflexivity.
    + destruct (stepTask w o (store el)) as [[o1 s1] ev].
      destruct (IH c p o1 (record el s1 ev)) as [rest Hrest].
      exists (ev ++ rest). rewrite Hrest, events_record, app_assoc. reflexivity.
    + destruct (stepStray w j (strays el) (store el)) as [[ts s1] ev].
      destruct (IH c p o (mkEventLoop s1 ts (events el ++ ev))) as [rest Hrest].
      exists (ev ++ rest). rewrite Hrest. cbn. rewrite app_assoc. reflexivity.
Qed.

(** A task that has returned has left its mark in the history. *)
Lemma stepTask_marks w t s el :
  (forall r, code t = Ret r -> In (Settled (label t) true) (events el)) ->
  forall r, code (fst (fst (stepTask w t s))) = Ret r ->
            In (Settled (label t) true) (events el ++ snd (stepTask w t s)).
Proof.
  intros Hinv r. unfold stepTask.
  destruct (code t) as [a | e | | op k] eqn:Hc; cbn [fst snd].
  - rewrite Hc. intro H. apply in_or_app. left. eapply Hinv. reflexivity.
  - rewrite Hc. discriminate.
  - rewrite Hc. discriminate.
  - destruct (perform w op s) as [x s1]. cbn [fst snd code label].
    intro H. apply in_or_app. right. right.
    unfold settleEvent. cbn [code label]. rewrite H. left. reflexivity.
Qed.

Lemma stepTask_label w t s : label (fst (fst (stepTask w t s))) = label t.
Proof.
  unfold stepTask. destruct (code t) as [a | e | | op k]; try reflexivity.
  destruct (perform w op s); reflexivity.
Qed.

Lemma runTask_marks w t s el :
  (forall r, code t = Ret r -> In (Settled (label t) true) (events el)) ->
  forall r, code (fst (fst (runTask w t s))) = Ret r ->
            In (Settled (label t) true) (events el ++ snd (runTask w t s)).
Proof.
  intros Hinv r. unfold runTask.
  destruct (pending t) eqn:Hp.
  - destruct (run w (code t) s) as [[[a | e |] s1] tr]; cbn [fst snd code]; try discriminate.
    intros _. apply in_or_app. right. apply in_or_app. right. left. reflexivity.
  - cbn [fst snd]. intro H. rewrite app_nil_r. eapply Hinv. exact H.
Qed.

Lemma runTask_label w t s : label (fst (fst (runTask w t s))) = label t.
Proof.
  unfold runTask. destruct (pending t); [| reflexivity].
  destruct (run w (code t) s) as [[oc s1] tr]. reflexivity.
Qed.

Lemma resolution_returned c p o result :
  resolution c p o = Some (Returned result) ->
  exists rc rp ro, code c = Ret rc /\ code p = Ret rp /\ code o = Ret ro.
Proof.
  unfold resolution.
  destruct (code c), (code p), (code o); intro H; inversion H; subst;
    do 3 eexists; repeat split; reflexivity.
Qed.

(** When the awaited array is fulfilled, each of the three tasks has
    returned, and the history says so. *)
Lemma drain_returned w c p o el result :
  fst (drain w c p o el) = Returned result ->
  (forall r, code c = Ret r -> In (Settled (label c) true) (events el)) ->
  (forall r, code p = Ret r -> In (Settled (label p) true) (events el)) ->
  (forall r, code o = Ret r -> In (Settled (label o) true) (events el)) ->
  In (Settled (label c) true) (events (snd (drain w c p o el)))
  /\ In (Settled (label p) true) (events (snd (drain w c p o el)))
  /\ In (Settled (label o) true) (events (snd (drain w c p o el))).
Proof.
  unfold drain. intros Hres Hc Hp Ho.
  pose proof (runTask_marks w c (store el) el Hc) as Mc.
  pose proof (runTask_label w c (store el)) as Lc.
  destruct (runTask w c (store el)) as [[c1 s1] e1]. cbn [fst snd] in *.
  set (el1 := record el s1 e1).
  assert (Hp1 : forall r, code p = Ret r -> In (Settled (label p) true) (events el1))
    by (intros r Hr; apply in_or_app; left; eauto).
  assert (Ho1 : forall r, code o = Ret r -> In (Settled (label o) true) (events el1))
    by (intros r Hr; apply in_or_app; left; eauto).
  destruct (resolution c1 p o) as [r |] eqn:R1.
  { cbn [fst snd] in *. subst r.
    destruct (resolution_returned _ _ _ R1) as (rc & rp & ro & H1 & H2 & H3).
    rewrite events_abandon.
    split; [eapply Mc; eassumption |]. split; eauto. }
  pose proof (runTask_marks w p s1 el1 Hp1) as Mp.
  pose proof (runTask_label w p s1) as Lp.
  destruct (runTask w p s1) as [[p1 s2] e2]. cbn [fst snd] in *.
  set (el2 := record el1 s2 e2).
  assert (Hc2 : forall r, code c1 = Ret r -> In (Settled (label c) true) (events el2))
    by (intros r Hr; apply in_or_app; left; eapply Mc; eassumption).
  assert (Ho2 : forall r, code o = Ret r -> In (Settled (label o) true) (events el2))
    by (intros r Hr; apply in_or_app; left; eauto).
  destruct (resolution c1 p1 o) as [r |] eqn:R2.
  { cbn [fst snd] in *. subst r.
    destruct (resolution_returned _ _ _ R2) as (rc & rp & ro & H1 & H2 & H3).
    rewrite events_abandon.
    split; [eauto |]. split; [eapply Mp; eassumption | eauto]. }
  pose proof (runTask_marks w o s2 el2 Ho2) as Mo.
  pose proof (runTask_label w o s2) as Lo.
  destruct (runTask w o s2) as [[o1 s3] e3]. cbn [fst snd] in *.
  destruct (resolution c1 p1 o1) as [r |] eqn:R3; cbn [fst snd] in *; [| discriminate].
  subst r.
  destruct (resolution_returned _ _ _ R3) as (rc & rp & ro & H1 & H2 & H3).
  rewrite events_abandon.
  split; [apply in_or_app; left; eauto |].
  split; [apply in_or_app; left; eapply Mp; eassumption |].
  eapply Mo; eassumption.
Qed.

Lemma awaitAll_returned w sched :
  forall c p o el result,
    fst (fst (awaitAll w sched c p o el)) = Returned result ->
    (forall r, code c = Ret r -> In (Settled (label c) true) (events el)) ->
    (forall r, code p = Ret r -> In (Settled (label p) true) (events el)) ->
    (forall r, code o = Ret r -> In (Settled (label o) true) (events el)) ->
    In (Settled (label c) true) (events (snd (fst (awaitAll w sched c p o el))))
    /\ In (Settled (label p) true) (events (snd (fst (awaitAll w sched c p o el))))
    /\ In (Settled (label o) true) (events (snd (fst (awaitAll w sched c p o el)))).
Proof.
  induction sched as [| i sched IH]; intros c p o el result; cbn [awaitAll].
  - destruct (resolution c p o) as [r |] eqn:R; cbn [fst snd].
    + intros -> Hc Hp Ho.
      destruct (resolution_returned _ _ _ R) as (rc & rp & ro & H1 & H2 & H3).
      rewrite events_abandon. repeat split; eauto.
    + apply drain_returned.
  - destruct (resolution c p o) as [r |] eqn:R.
    { cbn [fst snd]. intros -> Hc Hp Ho.
      destruct (resolution_returned _ _ _ R) as (rc & rp & ro & H1 & H2 & H3).
      rewrite events_abandon. repeat split; eauto. }
    destruct (i mod (3 + List.length (strays el))) as [| [| [| j]]].
    + pose proof (stepTask_marks w c (store el) el) as M.
      pose proof (stepTask_label w c (store el)) as L.
      destruct (stepTask w c (store el)) as [[c1 s1] ev]. cbn [fst snd] in *.
      intros Hres Hc Hp Ho. rewrite <- L.
      apply (IH c1 p o (record el s1 ev) result Hres).
      * rewrite L, events_record. intros r Hr. eapply M; eassumption.
      * rewrite events_record. intros r Hr. apply in_or_app. left. eauto.
      * rewrite events_record. intros r Hr. apply in_or_app. left. eauto.
    + pose proof (stepTask_marks w p (store el) el) as M.
      pose proof (stepTask_label w p (store el)) as L.
      destruct (stepTask w p (store el)) as [[p1 s1] ev]. cbn [fst snd] in *.
      intros Hres Hc Hp Ho. rewrite <- L.
      apply (IH c p1 o (record el s1 ev) result Hres).
      * rewrite events_record. intros r Hr. apply in_or_app. left. eauto.
      * rewrite L, events_record. intros r Hr. eapply M; eassumption.
      * rewrite events_record. intros r Hr. apply in_or_app. left. eauto.
    + pose proof (stepTask_marks w o (store el) el) as M.
      pose proof (stepTask_label w o (store el)) as L.
      destruct (stepTask w o (store el)) as [[o1 s1] ev]. cbn [fst snd] in *.
      intros Hres Hc Hp Ho. rewrite <- L.
      apply (IH c p o1 (record el s1 ev) result Hres).
      * rewrite events_record. intros r Hr. apply in_or_app. left. eauto.
      * rewrite events_record. intros r Hr. apply in_or_app. left. eauto.
      * rewrite L, events_record. intros r Hr. eapply M; eassumption.
    + destruct (stepStray w j (strays el) (store el)) as [[ts s1] ev].
      intros Hres Hc Hp Ho.
      apply (IH c p o (mkEventLoop s1 ts (events el ++ ev)) result Hres);
        cbn [events]; intros r Hr; apply in_or_app; left; eauto.
Qed.

(** An ingestion does not return before its first [await]. *)
Lemma ingestion_not_returned_yet fuel this :
  (forall r, ingestCustomers fuel this <> Ret r)
  /\ (forall r, ingestProducts fuel this <> Ret r)
  /\ (forall r, ingestOrders fuel this <> Ret r).
Proof.
  unfold ingestCustomers, ingestProducts, ingestOrders,
    getCustomers, getProducts, getOrders.
  destruct fuel; repeat split; intros r H; discriminate H.
Qed.

(** While the three are pending, the awaited array is neither fulfilled
    nor rejected. *)
Lemma resolution_pending c p o :
  pending c = true -> pending p = true -> pending o = true -> resolution c p o = None.
Proof.
  unfold pending, resolution.
  destruct (code c), (code p), (code o); intros; try discriminate; reflexivity.
Qed.

Lemma ingestion_pending fuel this l e :
  pending (mkTask l match e with
                    | Customers => ingestCustomers fuel this
                    | Products => ingestProducts fuel this
                    | Orders => ingestOrders fuel this
                    end) = true.
Proof.
  unfold ingestCustomers, ingestProducts, ingestOrders,
    getCustomers, getProducts, getOrders.
  destruct e, fuel; reflexivity.
Qed.

Lemma soloHistory_await {A : Type} w l op (k : Error + Resp op -> Proc A) s :
  soloHistory w l (Await op k) s
  = Awaited l op
      :: soloHistory w l (k (fst (perform w op s))) (snd (perform w op s)).
Proof.
  unfold soloHistory, traceOf, outcomeOf. cbn [run].
  destruct (perform w op s) as [r s1]. cbn [fst snd].
  destruct (run w (k r) s1) as [[oc s2] tr]. reflexivity.
Qed.

(** One step of a pending task adds to the history what the task, run
    alone, does first; when the step settles the task, all that it does. *)
Lemma stepTask_solo w l (p : Proc Counts) s :
  pending (mkTask l p) = true ->
  let t1 := fst (fst (stepTask w (mkTask l p) s)) in
  let s1 := snd (fst (stepTask w (mkTask l p) s)) in
  label t1 = l
  /\ (p = Spin \/ exists rest, soloHistory w l p s = snd (stepTask w (mkTask l p) s) ++ rest
                               /\ (pending t1 = true -> rest = soloHistory w l (code t1) s1)
                               /\ (pending t1 = false -> rest = [])
                               /\ List.length (traceOf (run w p s))
                                  = S (List.length (traceOf (run w (code t1) s1)))).
Proof.
  intro Hp. destruct p as [a | e | | op k]; try discriminate Hp.
  - split; [reflexivity | left; reflexivity].
  - cbv zeta. unfold stepTask. cbn [code label].
    pose proof (@soloHistory_await Counts w l op k s) as Hs.
    unfold traceOf at 1. cbn [run].
    destruct (perform w op s) as [r s1]. cbn [fst snd code label] in *.
    split; [reflexivity |]. right.
    destruct (k r) as [a | e | | op1 k1] eqn:Hk.
    + exists []. rewrite Hs. unfold soloHistory, settleEvent. cbn.
      repeat split; try reflexivity; discriminate.
    + exists []. rewrite Hs. unfold soloHistory, settleEvent. cbn.
      repeat split; try reflexivity; discriminate.
    + exists []. rewrite Hs. unfold soloHistory, settleEvent. cbn.
      repeat split; try reflexivity; discriminate.
    + exists (soloHistory w l (Await op1 k1) s1). rewrite Hs.
      unfold settleEvent. cbn [code app].
      split; [reflexivity |]. split; [reflexivity |]. split; [discriminate |].
      destruct (run w (Await op1 k1) s1) as [[oc s2] tr]. reflexivity.
Qed.

Lemma small_mod i k : i < 3 -> i mod (3 + k) = i.
Proof. intro H. apply Nat.mod_small. lia. Qed.

Section Alone.
Variable w : World.

(** When the schedule names one of three pending tasks [n] times in a row,
  and the task awaits no more than [n] operations, the history goes on
  with what this task does when it runs alone. *)
Lemma awaitAll_alone_first l more p o :
pending p = true -> pending o = true ->
forall n body el,
  pending (mkTask l body) = true ->
  List.length (traceOf (run w body (store el))) <= n ->
  exists rest,
    events (snd (fst (awaitAll w (repeat 0 n ++ more) (mkTask l body) p o el)))
    = events el ++ soloHistory w l body (store el) ++ rest.
Proof.
intros Hp Ho. induction n as [| n IH]; intros body el Hc Hn.
- destruct body as [a | e | | op k]; try discriminate Hc.
  + destruct (awaitAll_events w (repeat 0 0 ++ more) (mkTask l Spin) p o el) as [rest Hr].
    exists rest. rewrite Hr. reflexivity.
  + exfalso. unfold traceOf in Hn. cbn [run] in Hn.
    destruct (perform w op (store el)) as [r s1].
    destruct (run w (k r) s1) as [[oc s2] tr]. cbn in Hn. lia.
- cbn [repeat app awaitAll].
  rewrite (@resolution_pending _ _ _ Hc Hp Ho), (@small_mod 0 _ ltac:(lia)).
  destruct (@stepTask_solo w l body (store el) Hc) as (Hl & Hstep).
  destruct (stepTask w (mkTask l body) (store el)) as [[c1 s1] ev] eqn:Est.
  cbn [fst snd] in *.
  destruct Hstep as [-> | (tail & Hsolo & Hpend & Hdone & Hlen)].
  { cbn in Est. injection Est as <- <- <-.
    destruct (awaitAll_events w (repeat 0 n ++ more) (mkTask l Spin) p o
                (record el (store el) [])) as [rest Hr].
    exists rest. rewrite Hr. cbn. rewrite app_nil_r. reflexivity. }
  destruct c1 as [l1 body1]. cbn [label code] in *. subst l1.
  destruct (pending (mkTask l body1)) eqn:Hc1.
  + destruct (IH body1 (record el s1 ev) Hc1) as [rest Hr]; [cbn [record store]; lia |].
    exists rest. rewrite Hr, Hsolo, (Hpend eq_refl). cbn [record events store].
    rewrite <- !app_assoc. reflexivity.
  + destruct (awaitAll_events w (repeat 0 n ++ more) (mkTask l body1) p o
                (record el s1 ev)) as [rest Hr].
    exists rest. rewrite Hr, Hsolo, (Hdone eq_refl). cbn [record events].
    rewrite app_nil_r, <- app_assoc. reflexivity.
Qed.

Lemma awaitAll_alone_second l more c o :
pending c = true -> pending o = true ->
forall n body el,
  pending (mkTask l body) = true ->
  List.length (traceOf (run w body (store el))) <= n ->
  exists rest,
    events (snd (fst (awaitAll w (repeat 1 n ++ more) c (mkTask l body) o el)))
    = events el ++ soloHistory w l body (store el) ++ rest.
Proof.
intros Hc Ho. induction n as [| n IH]; intros body el Hp Hn.
- destruct body as [a | e | | op k]; try discriminate Hp.
  + destruct (awaitAll_events w (repeat 1 0 ++ more) c (mkTask l Spin) o el) as [rest Hr].
    exists rest. rewrite Hr. reflexivity.
  + exfalso. unfold traceOf in Hn. cbn [run] in Hn.
    destruct (perform w op (store el)) as [r s1].
    destruct (run w (k r) s1) as [[oc s2] tr]. cbn in Hn. lia.
- cbn [repeat app awaitAll].
  rewrite (@resolution_pending _ _ _ Hc Hp Ho), (@small_mod 1 _ ltac:(lia)).
  destruct (@stepTask_solo w l body (store el) Hp) as (Hl & Hstep).
  destruct (stepTask w (mkTask l body) (store el)) as [[p1 s1] ev] eqn:Est.
  cbn [fst snd] in *.
  destruct Hstep as [-> | (tail & Hsolo & Hpend & Hdone & Hlen)].
  { cbn in Est. injection Est as <- <- <-.
    destruct (awaitAll_events w (repeat 1 n ++ more) c (mkTask l Spin) o
                (record el (store el) [])) as [rest Hr].
    exists rest. rewrite Hr. cbn. rewrite app_nil_r. reflexivity. }
  destruct p1 as [l1 body1]. cbn [label code] in *. subst l1.
  destruct (pending (mkTask l body1)) eqn:Hp1.
  + destruct (IH body1 (record el s1 ev) Hp1) as [rest Hr]; [cbn [record store]; lia |].
    exists rest. rewrite Hr, Hsolo, (Hpend eq_refl). cbn [record events store].
    rewrite <- !app_assoc. reflexivity.
  + destruct (awaitAll_events w (repeat 1 n ++ more) c (mkTask l body1) o
                (record el s1 ev)) as [rest Hr].
    exists rest. rewrite Hr, Hsolo, (Hdone eq_refl). cbn [record events].
    rewrite app_nil_r, <- app_assoc. reflexivity.
Qed.

Lemma awaitAll_alone_third l more c p :
pending c = true -> pending p = true ->
forall n body el,
  pending (mkTask l body) = true ->
  List.length (traceOf (run w body (store el))) <= n ->
  exists rest,
    events (snd (fst (awaitAll w (repeat 2 n ++ more) c p (mkTask l body) el)))
    = events el ++ soloHistory w l body (store el) ++ rest.
Proof.
intros Hc Hp. induction n as [| n IH]; intros body el Ho Hn.
- destruct body as [a | e | | op k]; try discriminate Ho.
  + destruct (awaitAll_events w (repeat 2 0 ++ more) c p (mkTask l Spin) el) as [rest Hr].
    exists rest. rewrite Hr. reflexivity.
  + exfalso. unfold traceOf in Hn. cbn [run] in Hn.
    destruct (perform w op (store el)) as [r s1].
    destruct (run w (k r) s1) as [[oc s2] tr]. cbn in Hn. lia.
- cbn [repeat app awaitAll].
  rewrite (@resolution_pending _ _ _ Hc Hp Ho), (@small_mod 2 _ ltac:(lia)).
  destruct (@stepTask_solo w l body (store el) Ho) as (Hl & Hstep).
  destruct (stepTask w (mkTask l body) (store el)) as [[o1 s1] ev] eqn:Est.
  cbn [fst snd] in *.
  destruct Hstep as [-> | (tail & Hsolo & Hpend & Hdone & Hlen)].
  { cbn in Est. injection Est as <- <- <-.
    destruct (awaitAll_events w (repeat 2 n ++ more) c p (mkTask l Spin)
                (record el (store el) [])) as [rest Hr].
    exists rest. rewrite Hr. cbn. rewrite app_nil_r. reflexivity. }
  destruct o1 as [l1 body1]. cbn [label code] in *. subst l1.
  destruct (pending (mkTask l body1)) eqn:Ho1.
  + destruct (IH body1 (record el s1 ev) Ho1) as [rest Hr]; [cbn [record store]; lia |].
    exists rest. rewrite Hr, Hsolo, (Hpend eq_refl). cbn [record events store].
    rewrite <- !app_assoc. reflexivity.
  + destruct (awaitAll_events w (repeat 2 n ++ more) c p (mkTask l body1)
                (record el s1 ev)) as [rest Hr].
    exists rest. rewrite Hr, Hsolo, (Hdone eq_refl). cbn [record events].
    rewrite app_nil_r, <- app_assoc. reflexivity.
Qed.
End Alone.

(** C1, as the code has it.  Whatever the order in which the awaited
    operations complete, [ingestAll] starts the customer, the product and
    the order ingestion of the tenant one right after the other, before
    anything else happens.  The three then run concurrently, none waiting
    for another: whichever of them has its awaited operations completed
    first goes through all it does when it runs alone, from its first
    request to the point where it settles, before either of the other two
    has had a single operation completed; so the order ingestion can run
    from start to end before the customer ingestion has read its first
    page.  When [ingestAll] returns its three counters, each of the three
    has returned. *)
Theorem ingestAll_starts_all_three_at_once :
  forall (fuel : nat) (this : IngestionService) (w : World) (sched : list nat)
         (el : EventLoop),
    let t := serviceTenantId this in
    let r := ingestAll fuel this w sched el in
    let alone (i : nat) (e : Entity) (p : Proc Counts) :=
      forall n more,
        List.length (traceOf (run w p (store el))) <= n ->
        exists rest,
          events (snd (fst (ingestAll fuel this w (repeat i n ++ more) el)))
          = events el ++ startsOf t ++ soloHistory w (mkLabel t e) p (store el) ++ rest in
    (exists rest, events (snd (fst r)) = events el ++ startsOf t ++ rest)
    /\ alone 0 Customers (ingestCustomers fuel this)
    /\ alone 1 Products (ingestProducts fuel this)
    /\ alone 2 Orders (ingestOrders fuel this)
    /\ (forall result,
          fst (fst r) = Returned result ->
          In (Settled (mkLabel t Customers) true) (events (snd (fst r)))
          /\ In (Settled (mkLabel t Products) true) (events (snd (fst r)))
          /\ In (Settled (mkLabel t Orders) true) (events (snd (fst r)))).
Proof.
  intros fuel this w sched el t r alone.
  pose proof (ingestion_pending fuel this (mkLabel t Customers) Customers) as Pc.
  pose proof (ingestion_pending fuel this (mkLabel t Products) Products) as Pp.
  pose proof (ingestion_pending fuel this (mkLabel t Orders) Orders) as Po.
  split.
  { unfold r, ingestAll.
    match goal with
    | |- context [awaitAll w sched ?c ?p ?o ?e] =>
        destruct (awaitAll_events w sched c p o e) as [rest Hrest]
    end.
    exists rest. rewrite Hrest, events_record, <- app_assoc. reflexivity. }
  split; [| split; [| split]].
  - intros n more Hn. unfold ingestAll. cbn [label].
    match goal with
    | |- context [awaitAll w ?sc (mkTask ?l ?c) ?p ?o ?e] =>
        destruct (@awaitAll_alone_first w l more p o Pp Po n c e Pc Hn) as [rest Hrest]
    end.
    exists rest. rewrite Hrest, events_record, <- app_assoc. reflexivity.
  - intros n more Hn. unfold ingestAll. cbn [label].
    match goal with
    | |- context [awaitAll w ?sc ?c (mkTask ?l ?p) ?o ?e] =>
        destruct (@awaitAll_alone_second w l more c o Pc Po n p e Pp Hn) as [rest Hrest]
    end.
    exists rest. rewrite Hrest, events_record, <- app_assoc. reflexivity.
  - intros n more Hn. unfold ingestAll. cbn [label].
    match goal with
    | |- context [awaitAll w ?sc ?c ?p (mkTask ?l ?o) ?e] =>
        destruct (@awaitAll_alone_third w l more c p Pc Pp n o e Po Hn) as [rest Hrest]
    end.
    exists rest. rewrite Hrest, events_record, <- app_assoc. reflexivity.
  - intros result Hres. subst r. unfold ingestAll in *.
    destruct (ingestion_not_returned_yet fuel this) as (Nc & Np & No).
    apply (awaitAll_returned _ _ _ _ _ _ Hres); cbn [code];
      intros r0 Hr0; exfalso; [eapply Nc | eapply Np | eapply No]; eassumption.
Qed.

(** The sample tenant, with the operations of the order ingestion completed
    first: it awaits its eight operations and returns, as it does alone
    from the empty store, before the customer and the product ingestion have
    had their first request answered. *)
Lemma ingestAll_starts_all_three_at_once_witness :
  let alone := run Sample.world (ingestOrders 4 Sample.service) emptyStore in
  let all := ingestAll 4 Sample.service Sample.world [2; 2; 2; 2; 2; 2; 2; 2]
                       (freshLoop emptyStore) in
  List.length (traceOf alone) = 8
  /\ outcomeOf alone = Returned (mkCounts 1 0)
  /\ exists rest,
       events (snd (fst all))
       = startsOf "tenant-1"
           ++ (map (Awaited (mkLabel "tenant-1" Orders)) (traceOf alone)
                 ++ [Settled (mkLabel "tenant-1" Orders) true])
           ++ rest.
Proof.
  intros alone all.
  assert (Hlen : List.length (traceOf alone) = 8) by (vm_compute; reflexivity).
  assert (Hout : outcomeOf alone = Returned (mkCounts 1 0)) by (vm_compute; reflexivity).
  split; [exact Hlen |]. split; [exact Hout |].
  destruct (ingestAll_starts_all_three_at_once 4 Sample.service Sample.world []
              (freshLoop emptyStore)) as (_ & _ & _ & Horders & _).
  destruct (Horders 8 [] (Nat.eq_le_incl _ _ Hlen)) as [rest Hrest].
  exists rest.
  assert (E : soloHistory Sample.world (mkLabel "tenant-1" Orders)
                          (ingestOrders 4 Sample.service) emptyStore
              = map (Awaited (mkLabel "tenant-1" Orders)) (traceOf alone)
                  ++ [Settled (mkLabel "tenant-1" Orders) true]).
  { unfold soloHistory. fold alone. rewrite Hout. reflexivity. }
  rewrite <- E. exact Hrest.
Defined.

(** C1, as the claim states it, fails.  The remote has the customer C1 and
    the order O1 that refers to her; the operations of the order ingestion
    complete first.  The order ingestion is started before the customer
    ingestion has settled, it looks the customer up before she is stored,
    and O1 ends without a customer although the same [ingestAll] ingests
    her. *)
Lemma orders_start_before_customers_finish :
  let sched := [2; 2; 2; 2; 2; 2; 2; 2] in
  let run1 := ingestAll 4 Sample.service Sample.world sched (freshLoop emptyStore) in
  let evs := events (snd (fst run1)) in
  let s := store (snd (fst run1)) in
  ordersHeldBack "tenant-1" evs false false = false
  /\ (exists pre post,
         evs = pre ++ Started (mkLabel "tenant-1" Orders) :: post
         /\ existsb (isSettled "tenant-1" Customers) pre = false
         /\ existsb (isSettled "tenant-1" Customers) post = true)
  /\ (exists counts, fst (fst run1) = Returned counts)
  /\ map (fun r => Customer.shopifyId (data r)) (customers s) = ["C1"; "C2"]
  /\ map (fun r => Order.customerId (data r)) (orders s) = [None].
Proof.
  cbv zeta.
  split; [vm_compute; reflexivity |].
  split.
  { eexists [_; _], _. split; [vm_compute; reflexivity |].
    split; vm_compute; reflexivity. }
  split; [eexists; vm_compute; reflexivity |].
  split; vm_compute; reflexivity.
Qed.

(* ===================================================================== *)
(** * The scheduled cycle *)
(* ===================================================================== *)

Lemma spinFree_bind {A B : Type} w (m : Proc A) (f : A -> Proc B) :
  spinFree w m -> (forall a, spinFree w (f a)) -> spinFree w (bind m f).
Proof.
  induction m as [a | e | | op k IH]; cbn; intros Hm Hf; auto.
Qed.

Lemma spinFree_call w op : spinFree w (call op).
Proof. cbn. intro s. destruct (fst (perform w op s)); exact I. Qed.

Lemma spinFree_paginate {X : Type} w this path limit status
    (key : ResponseData.t -> option (list X)) fuel :
  forall cursor all,
    (exists rs, Pages w this path limit status cursor rs /\ List.length rs <= fuel)
    \/ (exists rs e, Broken w this path limit status cursor rs e /\ List.length rs < fuel) ->
    spinFree w (paginate fuel this path limit status key cursor all).
Proof.
  induction fuel as [| fuel IH]; intros cursor all Hb.
  - exfalso. destruct Hb as [(rs & Hp & Hl) | (rs & e & Hp & Hl)]; [| lia].
    destruct Hp; cbn in Hl; lia.
  - cbn [paginate]. unfold clientGet, call. cbn [bind spinFree perform fst].
    intros _. fold (answer w this path limit status cursor).
    destruct Hb as [(rs & Hp & Hl) | (rs & e & Hp & Hl)].
    + destruct Hp as [cursor r Hr Hn | cursor r next rs Hr Hn Hrest];
        rewrite Hr; cbn [bind]; rewrite Hn; [exact I |].
      apply IH. left. exists rs. split; [assumption | cbn in Hl; lia].
    + destruct Hp as [cursor e Hr | cursor r next rs e Hr Hn Hrest];
        rewrite Hr; cbn [bind]; [exact I |].
      rewrite Hn. apply IH. right. exists rs, e. split; [assumption | cbn in Hl; lia].
Qed.

Lemma spinFree_ingestCustomersLoop w t l :
  forall c u, spinFree w (ingestCustomersLoop t l c u).
Proof.
  induction l as [| x l IH]; intros c u; [exact I |].
  cbn [ingestCustomersLoop].
  apply spinFree_bind; [apply spinFree_call |].
  intros [e |]; (apply spinFree_bind; [apply spinFree_call | intro; apply IH]).
Qed.

Lemma spinFree_ingestProductsLoop w t l :
  forall c u, spinFree w (ingestProductsLoop t l c u).
Proof.
  induction l as [| x l IH]; intros c u; [exact I |].
  cbn [ingestProductsLoop].
  apply spinFree_bind; [apply spinFree_call |].
  intros [e |]; (apply spinFree_bind; [apply spinFree_call | intro; apply IH]).
Qed.

Lemma spinFree_ingestLineItems w t oid lis : spinFree w (ingestLineItems t oid lis).
Proof.
  induction lis as [| li lis IH]; [exact I |].
  cbn [ingestLineItems].
  apply spinFree_bind.
  - unfold resolveProduct.
    destruct (JS.orNull (ShopifyLineItem.product_id li)); [| exact I].
    apply spinFree_bind; [apply spinFree_call | intro; exact I].
  - intro pid. apply spinFree_bind; [apply spinFree_call | intro; apply IH].
Qed.

Lemma spinFree_replaceItems w t oid lis : spinFree w (replaceItems t oid lis).
Proof.
  destruct lis as [| li lis]; [exact I |].
  unfold replaceItems.
  apply spinFree_bind; [apply spinFree_call | intro; apply spinFree_ingestLineItems].
Qed.

Lemma spinFree_ingestOrdersLoop w t l :
  forall c u, spinFree w (ingestOrdersLoop t l c u).
Proof.
  induction l as [| x l IH]; intros c u; [exact I |].
  cbn [ingestOrdersLoop].
  apply spinFree_bind; [apply spinFree_call |].
  intro existing.
  apply spinFree_bind.
  { unfold resolveCustomer.
    destruct (ShopifyOrder.customer x) as [cref |]; [| exact I].
    destruct (JS.truthy (ShopifyCustomerRef.id cref)); [| exact I].
    apply spinFree_bind; [apply spinFree_call | intro; exact I]. }
  intro cid.
  destruct existing as [e |];
    (apply spinFree_bind; [apply spinFree_call |]; intro order;
     apply spinFree_bind; [apply spinFree_replaceItems | intro; apply IH]).
Qed.

(** With a page budget that is enough, the three ingestions of a tenant come
    to an end. *)
Lemma spinFree_ingestions w fuel tenant :
  TenantBounded w fuel tenant ->
  let this := newIngestionService (Tenant.id tenant) (Tenant.shopDomain tenant)
                                  (Tenant.accessToken tenant) in
  spinFree w (ingestCustomers fuel this)
  /\ spinFree w (ingestProducts fuel this)
  /\ spinFree w (ingestOrders fuel this).
Proof.
  intros (Hc & Hp & Ho) this.
  unfold ingestCustomers, ingestProducts, ingestOrders,
    getCustomers, getProducts, getOrders.
  repeat split; (apply spinFree_bind; [apply spinFree_paginate; assumption |]); intro l.
  - apply spinFree_ingestCustomersLoop.
  - apply spinFree_ingestProductsLoop.
  - apply spinFree_ingestOrdersLoop.
Qed.

Lemma run_spinFree {A : Type} w (p : Proc A) :
  spinFree w p -> forall s, outcomeOf (run w p s) <> Unfinished.
Proof.
  induction p as [a | e | | op k IH]; cbn; intros Hp s; try discriminate; [contradiction |].
  specialize (Hp s).
  destruct (perform w op s) as [r s1]. cbn [fst] in Hp.
  specialize (IH r Hp s1).
  destruct (run w (k r) s1) as [[o s2] tr]. exact IH.
Qed.

Lemma stepTask_spinFree w t s :
  spinFree w (code t) -> spinFree w (code (fst (fst (stepTask w t s)))).
Proof.
  unfold stepTask. destruct (code t) as [a | e | | op k] eqn:Hc; cbn;
    try (rewrite Hc; cbn; auto; fail).
  intro Hk. specialize (Hk s). destruct (perform w op s) as [r s1]. exact Hk.
Qed.

(** A task that has been run to its end has returned or thrown. *)
Lemma runTask_settled w t s :
  spinFree w (code t) -> pending (fst (fst (runTask w t s))) = false.
Proof.
  intro Hsf. unfold runTask.
  destruct (pending t) eqn:Hp; [| exact Hp].
  pose proof (run_spinFree w (code t) Hsf s) as Hne.
  destruct (run w (code t) s) as [[[r | e |] s1] tr]; cbn in *; congruence.
Qed.

Lemma resolution_settled c p o :
  pending c = false -> pending p = false -> pending o = false ->
  exists r, resolution c p o = Some r /\ r <> Unfinished.
Proof.
  unfold pending, resolution.
  destruct (code c), (code p), (code o); intros; try discriminate;
    eexists; (split; [reflexivity | discriminate]).
Qed.

Lemma resolution_not_unfinished c p o r :
  resolution c p o = Some r -> r <> Unfinished.
Proof.
  unfold resolution.
  destruct (code c), (code p), (code o); intro H; inversion H; discriminate.
Qed.

Lemma drain_finishes w c p o el :
  spinFree w (code c) -> spinFree w (code p) -> spinFree w (code o) ->
  fst (drain w c p o el) <> Unfinished.
Proof.
  intros Hc Hp Ho. unfold drain.
  pose proof (runTask_settled w c (store el) Hc) as Hc1.
  destruct (runTask w c (store el)) as [[c1 s1] e1]. cbn [fst] in Hc1.
  destruct (resolution c1 p o) as [r |] eqn:R1;
    [cbn; eapply resolution_not_unfinished; eassumption |].
  pose proof (runTask_settled w p s1 Hp) as Hp1.
  destruct (runTask w p s1) as [[p1 s2] e2]. cbn [fst] in Hp1.
  destruct (resolution c1 p1 o) as [r |] eqn:R2;
    [cbn; eapply resolution_not_unfinished; eassumption |].
  pose proof (runTask_settled w o s2 Ho) as Ho1.
  destruct (runTask w o s2) as [[o1 s3] e3]. cbn [fst] in Ho1.
  destruct (resolution_settled c1 p1 o1 Hc1 Hp1 Ho1) as (r & -> & Hr).
  exact Hr.
Qed.

Lemma awaitAll_finishes w sched :
  forall c p o el,
    spinFree w (code c) -> spinFree w (code p) -> spinFree w (code o) ->
    fst (fst (awaitAll w sched c p o el)) <> Unfinished.
Proof.
  induction sched as [| i sched IH]; intros c p o el Hc Hp Ho; cbn [awaitAll].
  - destruct (resolution c p o) as [r |] eqn:R;
      [cbn; eapply resolution_not_unfinished; eassumption |].
    cbn [fst]. apply drain_finishes; assumption.
  - destruct (resolution c p o) as [r |] eqn:R;
      [cbn; eapply resolution_not_unfinished; eassumption |].
    destruct (i mod (3 + List.length (strays el))) as [| [| [| j]]].
    + pose proof (stepTask_spinFree w c (store el) Hc) as Hc1.
      destruct (stepTask w c (store el)) as [[c1 s1] ev]. apply IH; assumption.
    + pose proof (stepTask_spinFree w p (store el) Hp) as Hp1.
      destruct (stepTask w p (store el)) as [[p1 s1] ev]. apply IH; assumption.
    + pose proof (stepTask_spinFree w o (store el) Ho) as Ho1.
      destruct (stepTask w o (store el)) as [[o1 s1] ev]. apply IH; assumption.
    + destruct (stepStray w j (strays el) (store el)) as [[ts s1] ev].
      apply IH; assumption.
Qed.

Lemma ingestAll_finishes w fuel tenant sched el :
  TenantBounded w fuel tenant ->
  fst (fst (ingestAll fuel
              (newIngestionService (Tenant.id tenant) (Tenant.shopDomain tenant)
                                   (Tenant.accessToken tenant)) w sched el))
  <> Unfinished.
Proof.
  intro Hb. destruct (spinFree_ingestions Hb) as (Hc & Hp & Ho).
  unfold ingestAll. apply awaitAll_finishes; assumption.
Qed.

(** ** What the history tells of a cycle *)

Lemma filter_isStart_awaited l tr : filter isStart (map (Awaited l) tr) = [].
Proof. induction tr as [| op tr IH]; [reflexivity | exact IH]. Qed.

Lemma filter_isStart_settle t : filter isStart (settleEvent t) = [].
Proof. unfold settleEvent. destruct (code t); reflexivity. Qed.

Lemma filter_isStart_stepTask w t s : filter isStart (snd (stepTask w t s)) = [].
Proof.
  unfold stepTask. destruct (code t) as [a | e | | op k]; try reflexivity.
  destruct (perform w op s) as [r s1]. cbn [snd filter isStart].
  apply filter_isStart_settle.
Qed.

Lemma filter_isStart_stepStray w :
  forall ts j s, filter isStart (snd (stepStray w j ts s)) = [].
Proof.
  induction ts as [| t ts IH]; intros j s; [destruct j; reflexivity |].
  destruct j as [| j]; cbn [stepStray].
  - pose proof (filter_isStart_stepTask w t s) as H.
    destruct (stepTask w t s) as [[t1 s1] ev]. exact H.
  - specialize (IH j s). destruct (stepStray w j ts s) as [[rest1 s1] ev]. exact IH.
Qed.

Lemma filter_isStart_runTask w t s : filter isStart (snd (runTask w t s)) = [].
Proof.
  unfold runTask. destruct (pending t); [| reflexivity].
  destruct (run w (code t) s) as [[oc s1] tr]. cbn [snd].
  rewrite filter_app, filter_isStart_awaited, filter_isStart_settle. reflexivity.
Qed.

(** Awaiting starts nothing. *)
Lemma drain_starts w c p o el :
  filter isStart (events (snd (drain w c p o el))) = filter isStart (events el).
Proof.
  unfold drain.
  pose proof (filter_isStart_runTask w c (store el)) as H1.
  destruct (runTask w c (store el)) as [[c1 s1] e1]. cbn [snd] in H1.
  destruct (resolution c1 p o).
  { cbn [snd]. rewrite events_abandon, events_record, filter_app, H1. apply app_nil_r. }
  pose proof (filter_isStart_runTask w p s1) as H2.
  destruct (runTask w p s1) as [[p1 s2] e2]. cbn [snd] in H2.
  destruct (resolution c1 p1 o).
  { cbn [snd]. rewrite events_abandon, !events_record, !filter_app, H1, H2.
    rewrite !app_nil_r. reflexivity. }
  pose proof (filter_isStart_runTask w o s2) as H3.
  destruct (runTask w o s2) as [[o1 s3] e3]. cbn [snd] in H3.
  destruct (resolution c1 p1 o1); cbn [snd];
    rewrite events_abandon, !events_record, !filter_app, H1, H2, H3, !app_nil_r;
    reflexivity.
Qed.

Lemma awaitAll_starts w sched :
  forall c p o el,
    filter isStart (events (snd (fst (awaitAll w sched c p o el))))
    = filter isStart (events el).
Proof.
  induction sched as [| i sched IH]; intros c p o el; cbn [awaitAll].
  - destruct (resolution c p o); [reflexivity | apply drain_starts].
  - destruct (resolution c p o); [reflexivity |].
    destruct (i mod (3 + List.length (strays el))) as [| [| [| j]]].
    + pose proof (filter_isStart_stepTask w c (store el)) as H.
      destruct (stepTask w c (store el)) as [[c1 s1] ev]. cbn [snd] in H.
      rewrite IH, events_record, filter_app, H. apply app_nil_r.
    + pose proof (filter_isStart_stepTask w p (store el)) as H.
      destruct (stepTask w p (store el)) as [[p1 s1] ev]. cbn [snd] in H.
      rewrite IH, events_record, filter_app, H. apply app_nil_r.
    + pose proof (filter_isStart_stepTask w o (store el)) as H.
      destruct (stepTask w o (store el)) as [[o1 s1] ev]. cbn [snd] in H.
      rewrite IH, events_record, filter_app, H. apply app_nil_r.
    + pose proof (filter_isStart_stepStray w (strays el) j (store el)) as H.
      destruct (stepStray w j (strays el) (store el)) as [[ts s1] ev]. cbn [snd] in H.
      rewrite IH. cbn [events]. rewrite filter_app, H. apply app_nil_r.
Qed.

(** One [ingestAll] starts the three ingestions of its tenant, once each. *)
Lemma ingestAll_starts fuel this w sched el :
  filter isStart (events (snd (fst (ingestAll fuel this w sched el))))
  = filter isStart (events el) ++ startsOf (serviceTenantId this).
Proof.
  unfold ingestAll. rewrite awaitAll_starts, events_record, filter_app. reflexivity.
Qed.

Lemma ingestAll_events fuel this w sched el :
  exists rest, events (snd (fst (ingestAll fuel this w sched el))) = events el ++ rest.
Proof.
  unfold ingestAll.
  match goal with
  | |- context [awaitAll w sched ?c ?p ?o ?e] =>
      destruct (awaitAll_events w sched c p o e) as [rest Hrest]
  end.
  rewrite Hrest, events_record, <- app_assoc. eauto.
Qed.

Lemma syncTenants_events fuel w ts :
  forall sched el,
    exists rest,
      events (snd (fst (fst (syncTenants fuel w ts sched el)))) = events el ++ rest.
Proof.
  induction ts as [| tenant ts IH]; intros sched el; cbn [syncTenants].
  - exists []. cbn. rewrite app_nil_r. reflexivity.
  - match goal with
    | |- context [ingestAll fuel ?this w sched el] =>
        destruct (ingestAll_events fuel this w sched el) as [r1 H1];
        destruct (ingestAll fuel this w sched el) as [[oc el1] sched1]
    end.
    cbn [fst snd] in H1.
    destruct (IH sched1 el1) as [r2 H2].
    destruct oc as [result | e |].
    + destruct (syncTenants fuel w ts sched1 el1) as [[[log el2] sched2] fin].
      cbn [fst snd] in *. exists (r1 ++ r2). rewrite H2, H1, app_assoc. reflexivity.
    + destruct (syncTenants fuel w ts sched1 el1) as [[[log el2] sched2] fin].
      cbn [fst snd] in *. exists (r1 ++ r2). rewrite H2, H1, app_assoc. reflexivity.
    + cbn [fst snd]. exists r1. exact H1.
Qed.

(** A task that has thrown has left its mark in the history. *)
Lemma stepTask_thrown w t s el :
  (forall e, code t = Throw e -> In (Settled (label t) false) (events el)) ->
  forall e, code (fst (fst (stepTask w t s))) = Throw e ->
            In (Settled (label t) false) (events el ++ snd (stepTask w t s)).
Proof.
  intros Hinv e. unfold stepTask.
  destruct (code t) as [a | e0 | | op k] eqn:Hc; cbn [fst snd].
  - rewrite Hc. discriminate.
  - rewrite Hc. intro H. apply in_or_app. left. eapply Hinv. reflexivity.
  - rewrite Hc. discriminate.
  - destruct (perform w op s) as [x s1]. cbn [fst snd code label].
    intro H. apply in_or_app. right. right.
    unfold settleEvent. cbn [code label]. rewrite H. left. reflexivity.
Qed.

Lemma runTask_thrown w t s el :
  (forall e, code t = Throw e -> In (Settled (label t) false) (events el)) ->
  forall e, code (fst (fst (runTask w t s))) = Throw e ->
            In (Settled (label t) false) (events el ++ snd (runTask w t s)).
Proof.
  intros Hinv e. unfold runTask.
  destruct (pending t) eqn:Hp.
  - destruct (run w (code t) s) as [[[a | e0 |] s1] tr]; cbn [fst snd code]; try discriminate.
    intros _. apply in_or_app. right. apply in_or_app. right. left. reflexivity.
  - cbn [fst snd]. intro H. rewrite app_nil_r. eapply Hinv. exact H.
Qed.

Lemma resolution_thrown c p o e :
  resolution c p o = Some (Thrown e) ->
  code c = Throw e \/ code p = Throw e \/ code o = Throw e.
Proof.
  unfold resolution.
  destruct (code c), (code p), (code o); intro H; inversion H; subst; auto.
Qed.

(** [threw l evs]: the task labelled [l] has thrown, says the history. *)
Local Abbreviation threw l evs := (In (Settled l false) evs).

Lemma drain_thrown w c p o el e :
  fst (drain w c p o el) = Thrown e ->
  (forall e, code c = Throw e -> threw (label c) (events el)) ->
  (forall e, code p = Throw e -> threw (label p) (events el)) ->
  (forall e, code o = Throw e -> threw (label o) (events el)) ->
  let evs := events (snd (drain w c p o el)) in
  threw (label c) evs \/ threw (label p) evs \/ threw (label o) evs.
Proof.
  unfold drain. intros Hres Hc Hp Ho.
  pose proof (runTask_thrown w c (store el) el Hc) as Mc.
  destruct (runTask w c (store el)) as [[c1 s1] e1]. cbn [fst snd] in *.
  set (el1 := record el s1 e1).
  assert (Hp1 : forall e, code p = Throw e -> threw (label p) (events el1))
    by (intros r Hr; apply in_or_app; left; eauto).
  assert (Ho1 : forall e, code o = Throw e -> threw (label o) (events el1))
    by (intros r Hr; apply in_or_app; left; eauto).
  destruct (resolution c1 p o) as [r |] eqn:R1.
  { cbn [fst snd] in *. subst r. rewrite events_abandon.
    destruct (resolution_thrown _ _ _ R1) as [H | [H | H]]; eauto. }
  pose proof (runTask_thrown w p s1 el1 Hp1) as Mp.
  destruct (runTask w p s1) as [[p1 s2] e2]. cbn [fst snd] in *.
  set (el2 := record el1 s2 e2).
  assert (Hc2 : forall e, code c1 = Throw e -> threw (label c) (events el2))
    by (intros r Hr; apply in_or_app; left; eapply Mc; eassumption).
  assert (Ho2 : forall e, code o = Throw e -> threw (label o) (events el2))
    by (intros r Hr; apply in_or_app; left; eauto).
  destruct (resolution c1 p1 o) as [r |] eqn:R2.
  { cbn [fst snd] in *. subst r. rewrite events_abandon.
    destruct (resolution_thrown _ _ _ R2) as [H | [H | H]]; eauto. }
  pose proof (runTask_thrown w o s2 el2 Ho2) as Mo.
  destruct (runTask w o s2) as [[o1 s3] e3]. cbn [fst snd] in *.
  destruct (resolution c1 p1 o1) as [r |] eqn:R3; cbn [fst snd] in *; [| discriminate].
  subst r. rewrite events_abandon.
  destruct (resolution_thrown _ _ _ R3) as [H | [H | H]].
  - left. apply in_or_app. left. eauto.
  - right. left. apply in_or_app. left. eauto.
  - right. right. eauto.
Qed.

Lemma awaitAll_thrown w sched :
  forall c p o el e,
    fst (fst (awaitAll w sched c p o el)) = Thrown e ->
    (forall e, code c = Throw e -> threw (label c) (events el)) ->
    (forall e, code p = Throw e -> threw (label p) (events el)) ->
    (forall e, code o = Throw e -> threw (label o) (events el)) ->
    let evs := events (snd (fst (awaitAll w sched c p o el))) in
    threw (label c) evs \/ threw (label p) evs \/ threw (label o) evs.
Proof.
  induction sched as [| i sched IH]; intros c p o el e; cbn [awaitAll].
  - destruct (resolution c p o) as [r |] eqn:R; cbn [fst snd].
    + intros -> Hc Hp Ho. rewrite events_abandon.
      destruct (resolution_thrown _ _ _ R) as [H | [H | H]]; eauto.
    + apply drain_thrown.
  - destruct (resolution c p o) as [r |] eqn:R.
    { cbn [fst snd]. intros -> Hc Hp Ho. rewrite events_abandon.
      destruct (resolution_thrown _ _ _ R) as [H | [H | H]]; eauto. }
    destruct (i mod (3 + List.length (strays el))) as [| [| [| j]]].
    + pose proof (stepTask_thrown w c (store el) el) as M.
      pose proof (stepTask_label w c (store el)) as L.
      destruct (stepTask w c (store el)) as [[c1 s1] ev]. cbn [fst snd] in *.
      intros Hres Hc Hp Ho. rewrite <- L.
      apply (IH c1 p o (record el s1 ev) e Hres).
      * rewrite L, events_record. intros r Hr. eapply M; eassumption.
      * rewrite events_record. intros r Hr. apply in_or_app. left. eauto.
      * rewrite events_record. intros r Hr. apply in_or_app. left. eauto.
    + pose proof (stepTask_thrown w p (store el) el) as M.
      pose proof (stepTask_label w p (store el)) as L.
      destruct (stepTask w p (store el)) as [[p1 s1] ev]. cbn [fst snd] in *.
      intros Hres Hc Hp Ho. rewrite <- L.
      apply (IH c p1 o (record el s1 ev) e Hres).
      * rewrite events_record. intros r Hr. apply in_or_app. left. eauto.
      * rewrite L, events_record. intros r Hr. eapply M; eassumption.
      * rewrite events_record. intros r Hr. apply in_or_app. left. eauto.
    + pose proof (stepTask_thrown w o (store el) el) as M.
      pose proof (stepTask_label w o (store el)) as L.
      destruct (stepTask w o (store el)) as [[o1 s1] ev]. cbn [fst snd] in *.
      intros Hres Hc Hp Ho. rewrite <- L.
      apply (IH c p o1 (record el s1 ev) e Hres).
      * rewrite events_record. intros r Hr. apply in_or_app. left. eauto.
      * rewrite events_record. intros r Hr. apply in_or_app. left. eauto.
      * rewrite L, events_record. intros r Hr. eapply M; eassumption.
    + destruct (stepStray w j (strays el) (store el)) as [[ts s1] ev].
      intros Hres Hc Hp Ho.
      apply (IH c p o (mkEventLoop s1 ts (events el ++ ev)) e Hres);
        cbn [events]; intros r Hr; apply in_or_app; left; eauto.
Qed.

(** The outcome of one [ingestAll], read in the history it leaves. *)
Lemma ingestAll_outcome fuel this w sched el :
  let r := ingestAll fuel this w sched el in
  let t := serviceTenantId this in
  (forall result, fst (fst r) = Returned result ->
                  forall e, In (Settled (mkLabel t e) true) (events (snd (fst r))))
  /\ (forall e, fst (fst r) = Thrown e ->
                exists entity, In (Settled (mkLabel t entity) false) (events (snd (fst r)))).
Proof.
  intros r t. subst r. unfold ingestAll. split.
  - intros result Hres e.
    destruct (ingestion_not_returned_yet fuel this) as (Nc & Np & No).
    match type of Hres with
    | fst (fst (awaitAll w sched ?c ?p ?o ?l)) = _ =>
        destruct (@awaitAll_returned w sched c p o l result Hres) as (H1 & H2 & H3)
    end; try (cbn [code]; intros r0 Hr0; exfalso;
              first [eapply Nc; eassumption | eapply Np; eassumption
                    | eapply No; eassumption]).
    destruct e; assumption.
  - intros e Hres.
    pose proof (ingestion_pending fuel this (mkLabel t Customers) Customers) as Pc.
    pose proof (ingestion_pending fuel this (mkLabel t Products) Products) as Pp.
    pose proof (ingestion_pending fuel this (mkLabel t Orders) Orders) as Po.
    match type of Hres with
    | fst (fst (awaitAll w sched ?c ?p ?o ?l)) = _ =>
        destruct (@awaitAll_thrown w sched c p o l e Hres) as [H | [H | H]]
    end; try (intros e0 He0; unfold pending in *; cbn [code] in *;
              first [rewrite He0 in Pc | rewrite He0 in Pp | rewrite He0 in Po];
              discriminate).
    + exists Customers. exact H.
    + exists Products. exact H.
    + exists Orders. exact H.
Qed.

Lemma Reported_more evs more ts log :
  Reported evs ts log -> Reported (evs ++ more) ts log.
Proof.
  induction 1 as [| tenant ts result log Hall Hrest IH | tenant ts e log Hone Hrest IH].
  - constructor.
  - constructor; [| exact IH]. intro e. apply in_or_app. left. apply Hall.
  - constructor; [| exact IH]. destruct Hone as [entity H]. exists entity.
    apply in_or_app. left. exact H.
Qed.

Lemma syncTenants_reports w fuel ts :
  (forall tenant, In tenant ts -> TenantBounded w fuel tenant) ->
  forall sched el,
    let r := syncTenants fuel w ts sched el in
    let evs := events (snd (fst (fst r))) in
    snd r = true
    /\ Reported evs ts (fst (fst (fst r)))
    /\ filter isStart evs
       = filter isStart (events el) ++ flat_map (fun t => startsOf (Tenant.id t)) ts.
Proof.
  induction ts as [| tenant ts IH]; intros Hb sched el.
  - cbv zeta. cbn [syncTenants fst snd flat_map]. rewrite app_nil_r.
    split; [reflexivity |]. split; [constructor | reflexivity].
  - cbv zeta. cbn [syncTenants flat_map].
    set (this := newIngestionService (Tenant.id tenant) (Tenant.shopDomain tenant)
                                     (Tenant.accessToken tenant)).
    pose proof (ingestAll_finishes sched el (Hb tenant (or_introl eq_refl))) as Hfin.
    fold this in Hfin.
    destruct (ingestAll_outcome fuel this w sched el) as [Hret Hthr].
    pose proof (ingestAll_starts fuel this w sched el) as Hst.
    destruct (ingestAll fuel this w sched el) as [[oc el1] sched1].
    cbn [fst snd] in Hfin, Hret, Hthr, Hst.
    assert (Hb' : forall t', In t' ts -> TenantBounded w fuel t')
      by (intros; apply Hb; right; assumption).
    destruct (IH Hb' sched1 el1) as (Hf & Hrep & Hstarts).
    destruct (syncTenants_events fuel w ts sched1 el1) as [more Hmore].
    destruct oc as [result | e |]; [| | contradiction];
      destruct (syncTenants fuel w ts sched1 el1) as [[[log el2] sched2] fin];
      cbn [fst snd] in *.
    + split; [assumption |]. split.
      * constructor; [| exact Hrep].
        intro e. rewrite Hmore. apply in_or_app. left. exact (Hret result eq_refl e).
      * rewrite Hstarts, Hst. rewrite <- app_assoc. reflexivity.
    + split; [assumption |]. split.
      * constructor; [| exact Hrep].
        destruct (Hthr e eq_refl) as [entity H]. exists entity.
        rewrite Hmore. apply in_or_app. left. exact H.
      * rewrite Hstarts, Hst. rewrite <- app_assoc. reflexivity.
Qed.

(** C8.  In a scheduled cycle every tenant is processed, in the order the
    store lists them, whether or not the ingestion of earlier tenants
    failed.  The history of the event loop has the three ingestions of
    every tenant started, once each and tenant after tenant; the console
    carries for each tenant the announcement of its sync and then its
    result, which is what became of its ingestions: completed when the three
    have returned, failed when one of them has thrown; and the cycle comes
    to its end (the page budget of the model being enough for every
    tenant). *)
Theorem scheduled_cycle_reports_every_tenant :
  forall (fuel : nat) (w : World) (sched : list nat) (el : EventLoop),
    (forall tenant, In tenant (tenants (store el)) -> TenantBounded w fuel tenant) ->
    let r := scheduledSync fuel w sched el in
    let evs := events (snd (fst (fst r))) in
    exists body,
      fst (fst (fst r)) = body ++ [LogCycleCompleted]
      /\ Reported evs (tenants (store el)) body
      /\ filter isStart evs
         = filter isStart (events el)
             ++ flat_map (fun t => startsOf (Tenant.id t)) (tenants (store el))
      /\ snd r = true.
Proof.
  intros fuel w sched el Hb r evs. subst evs r.
  unfold scheduledSync. cbn [perform].
  destruct (@syncTenants_reports w fuel (tenants (store el)) Hb sched
              (record el (store el) [])) as (Hfin & Hrep & Hst).
  destruct (syncTenants fuel w (tenants (store el)) sched (record el (store el) []))
    as [[[log el1] sched1] fin].
  cbn [fst snd] in *. subst fin.
  exists log. split; [reflexivity |]. split; [exact Hrep |].
  split; [| reflexivity].
  rewrite Hst. cbn [record events]. rewrite app_nil_r. reflexivity.
Qed.

Lemma sample_revoked_bounded : TenantBounded Sample.world 4 Cycle.revoked.
Proof.
  repeat split; right; exists [], "Request failed with status code 401";
    (split; [apply broken_here; reflexivity | cbn; lia]).
Qed.

Lemma sample_tenant_bounded : TenantBounded Sample.world 4 Hook.tenant.
Proof.
  split; [| split]; left.
  - exists [Sample.customersPage1; Sample.customersPage2]. split; [| cbn; lia].
    eapply pages_more; [reflexivity | reflexivity |]. apply pages_last; reflexivity.
  - exists [Sample.productsPage]. split; [| cbn; lia]. apply pages_last; reflexivity.
  - exists [Sample.ordersPage]. split; [| cbn; lia]. apply pages_last; reflexivity.
Qed.

(** The first tenant's credential is revoked: its sync fails, and the second
    tenant is synced all the same, also while the two ingestions that the
    failed [ingestAll] left behind go on in the event loop. *)
Lemma scheduled_cycle_reports_every_tenant_witness :
  let r := scheduledSync 4 Sample.world [1; 2; 0; 4; 1; 3; 2; 0; 1; 2; 0]
                         (freshLoop Cycle.store) in
  let evs := events (snd (fst (fst r))) in
  fst (fst (fst r))
  = [LogSyncing "gone.myshopify.com";
     LogFailed "gone.myshopify.com" "Request failed with status code 401";
     LogSyncing "acme.myshopify.com";
     LogCompleted "acme.myshopify.com"
       (IngestAll.mk (mkCounts 2 0) (mkCounts 1 0) (mkCounts 1 0));
     LogCycleCompleted]
  /\ filter isStart evs = startsOf "tenant-0" ++ startsOf "tenant-1"
  /\ (exists entity, In (Settled (mkLabel "tenant-0" entity) false) evs)
  /\ (forall e, In (Settled (mkLabel "tenant-1" e) true) evs)
  /\ map (@tenantId _) (customers (store (snd (fst (fst r))))) = ["tenant-1"; "tenant-1"].
Proof.
  intros r evs.
  assert (Hlog : fst (fst (fst r))
                 = [LogSyncing "gone.myshopify.com";
                    LogFailed "gone.myshopify.com" "Request failed with status code 401";
                    LogSyncing "acme.myshopify.com";
                    LogCompleted "acme.myshopify.com"
                      (IngestAll.mk (mkCounts 2 0) (mkCounts 1 0) (mkCounts 1 0))]
                   ++ [LogCycleCompleted]) by (vm_compute; reflexivity).
  split; [exact Hlog |].
  destruct (@scheduled_cycle_reports_every_tenant
              4 Sample.world [1; 2; 0; 4; 1; 3; 2; 0; 1; 2; 0] (freshLoop Cycle.store))
    as (body & Hbody & Hrep & Hstarts & _).
  { intros tenant [<- | [<- | []]].
    - exact sample_revoked_bounded.
    - exact sample_tenant_bounded. }
  fold r in Hbody, Hrep, Hstarts. fold evs in Hrep, Hstarts.
  split; [exact Hstarts |].
  rewrite Hlog in Hbody. apply app_inj_tail in Hbody. destruct Hbody as [<- _].
  inversion Hrep as [| ? ? ? ? ? ? | tenant0 ts0 e0 log0 Hthrew Hrest]; subst.
  inversion Hrest as [| tenant1 ts1 result log1 Hall Hnil | ? ? ? ? ? ?]; subst.
  split; [exact Hthrew |]. split; [exact Hall |].
  vm_compute. reflexivity.
Defined.

(** The outcome of [ingestAll] depends on the order in which the awaited
    operations complete: when the customer ingestion runs first the order O1
    gets its customer, when the order ingestion runs first it does not. *)
Example ingestAll_depends_on_the_schedule :
  let stored sched :=
    map (fun r => Order.customerId (data r))
        (orders (store (snd (fst (ingestAll 4 Sample.service Sample.world sched
                                            (freshLoop emptyStore)))))) in
  stored [0; 0; 0; 0; 0; 0; 0; 0] = [Some 0]
  /\ stored [2; 2; 2; 2; 2; 2; 2; 2] = [None].
Proof. split; vm_compute; reflexivity. Qed.

(* ===================================================================== *)
(** * An ingestion as a whole: fetch, then write *)
(* ===================================================================== *)

(** An ingestion is its fetch followed by its loop, and the fetch leaves the
    store alone. *)
Lemma run_fetch_then_loop {X : Type} (w : World) (fetch : Proc (list X))
    (loop : list X -> Proc Counts) (s : Store) :
  storeOf (run w fetch s) = s ->
  run w (l <- fetch ;; loop l) s =
  match outcomeOf (run w fetch s) with
  | Returned l =>
      let '(o, s1, tr) := run w (loop l) s in (o, s1, traceOf (run w fetch s) ++ tr)
  | Thrown e => (Thrown e, s, traceOf (run w fetch s))
  | Unfinished => (Unfinished, s, traceOf (run w fetch s))
  end.
Proof.
  intro Hs. rewrite run_bind.
  destruct (run w fetch s) as [[o s1] tr].
  unfold storeOf, outcomeOf, traceOf in *; cbn [fst snd] in *. subst s1.
  destruct o; reflexivity.
Qed.

Lemma fetchThenWrite_ingestion {X : Type} (w : World) (fetch : Proc (list X))
    (loop : list X -> Proc Counts) (s : Store) :
  storeOf (run w fetch s) = s ->
  forallb isHttp (traceOf (run w fetch s)) = true ->
  (forall l, exists tr c s1, run w (loop l) s = (Returned c, s1, tr) /\ noHttp tr = true) ->
  FetchThenWrite w s (l <- fetch ;; loop l).
Proof.
  intros Hs Hhttp Hloop. unfold FetchThenWrite. cbv zeta.
  rewrite run_fetch_then_loop by exact Hs.
  destruct (run w fetch s) as [[o s1] tr].
  unfold storeOf, outcomeOf, traceOf in *; cbn [fst snd] in *.
  destruct o as [l | e |].
  - destruct (Hloop l) as (tr2 & c & s2 & Hrun & Hno). rewrite Hrun. cbn [fst snd].
    exists tr, tr2. repeat split; assumption.
  - exists tr, []. cbn [fst snd]. rewrite app_nil_r. repeat split; assumption.
  - exists tr, []. cbn [fst snd]. rewrite app_nil_r. repeat split; assumption.
Qed.

(** X1.  Each of the three ingestions fetches its whole collection before it
    touches the store: in the history of a run every request to the remote
    comes before the first store operation.  So when an ingestion does not
    return (a page request was rejected), no store operation has been
    awaited and the store is exactly as it was: a failed ingestion never
    leaves a part of the collection written. *)
Theorem ingestion_fetches_everything_before_it_writes :
  forall (w : World) (fuel : nat) (this : IngestionService) (s : Store),
    FetchThenWrite w s (ingestCustomers fuel this)
    /\ FetchThenWrite w s (ingestProducts fuel this)
    /\ FetchThenWrite w s (ingestOrders fuel this).
Proof.
  intros w fuel this s.
  unfold ingestCustomers, ingestProducts, ingestOrders, getCustomers, getProducts, getOrders.
  split; [| split]; apply fetchThenWrite_ingestion;
    try apply paginate_store; try apply paginate_all_http; intro l.
  - destruct (run_ingestCustomersLoop w (serviceTenantId this) l s 0 0) as [tr [H Hno]].
    eauto 6.
  - destruct (run_ingestProductsLoop w (serviceTenantId this) l s 0 0) as [tr [H Hno]].
    eauto 6.
  - destruct (run_ingestOrdersLoop w (serviceTenantId this) l s 0 0) as [tr [H Hno]].
    eauto 6.
Qed.

(* ===================================================================== *)
(** * Counters, other tenants, and rows the remote no longer has *)
(* ===================================================================== *)

Lemma reconcile_preserves {X T : Type} (step : X -> Store -> Store * bool)
    (f : Store -> T) :
  (forall x s, f (fst (step x s)) = f s) ->
  forall l s c u, f (fst (reconcileAll step l s c u)) = f s.
Proof.
  intros Hstep l. induction l as [| x l IH]; intros s c u; [reflexivity |].
  cbn [reconcileAll]. specialize (Hstep x s).
  destruct (step x s) as [s1 cr]. cbn [fst] in Hstep.
  destruct cr; rewrite IH; assumption.
Qed.

(** Every record fetched is counted once, as created or as updated, and the
    table grows by one row for each record counted as created. *)
Lemma reconcile_tally {X : Type} (step : X -> Store -> Store * bool)
    (size : Store -> nat) :
  (forall x s, size (fst (step x s)) = size s + (if snd (step x s) then 1 else 0)) ->
  forall l s c u,
    created (snd (reconcileAll step l s c u)) + updated (snd (reconcileAll step l s c u))
    = c + u + List.length l
    /\ size (fst (reconcileAll step l s c u)) + c
       = size s + created (snd (reconcileAll step l s c u)).
Proof.
  intros Hstep l. induction l as [| x l IH]; intros s c u.
  - cbn. lia.
  - cbn [reconcileAll List.length]. specialize (Hstep x s).
    destruct (step x s) as [s1 cr]. cbn [fst snd] in Hstep.
    destruct cr.
    + destruct (IH s1 (S c) u) as [H1 H2]. lia.
    + destruct (IH s1 c (S u)) as [H1 H2]. lia.
Qed.

Lemma upsert_length {D : Type} (key : D -> string) t d (tbl : list (Row D)) next :
  List.length (fst (fst (upsert key t d tbl next)))
  = List.length tbl + (if snd (upsert key t d tbl next) then 1 else 0).
Proof.
  unfold upsert. destruct (findUnique key t (key d) tbl) as [e |]; cbn [fst snd].
  - unfold setData. rewrite length_map. lia.
  - rewrite length_app. reflexivity.
Qed.

Lemma customerStep_length t x s :
  List.length (customers (fst (customerStep t x s)))
  = List.length (customers s) + (if snd (customerStep t x s) then 1 else 0).
Proof.
  unfold customerStep.
  pose proof (upsert_length Customer.shopifyId t (customerData x) (customers s) (nextId s)) as H.
  destruct (upsert Customer.shopifyId t (customerData x) (customers s) (nextId s))
    as [[tbl rid] cr]. exact H.
Qed.

Lemma productStep_length t x s :
  List.length (products (fst (productStep t x s)))
  = List.length (products s) + (if snd (productStep t x s) then 1 else 0).
Proof.
  unfold productStep.
  pose proof (upsert_length Product.shopifyId t (productData x) (products s) (nextId s)) as H.
  destruct (upsert Product.shopifyId t (productData x) (products s) (nextId s))
    as [[tbl rid] cr]. exact H.
Qed.

Lemma orderStep_length t x s :
  List.length (orders (fst (orderStep t x s)))
  = List.length (orders s) + (if snd (orderStep t x s) then 1 else 0).
Proof.
  unfold orderStep.
  pose proof (upsert_length Order.shopifyId t
                (orderData x (customerIdOf t x (customers s))) (orders s) (nextId s)) as H.
  destruct (upsert Order.shopifyId t (orderData x (customerIdOf t x (customers s)))
                   (orders s) (nextId s)) as [[tbl rid] cr].
  destruct (replaceItemsIn t (products s) rid (ShopifyOrder.line_items x) (orderItems s)
                           (bump cr (nextId s))) as [items next].
  exact H.
Qed.

(** X2.  When the remote collection is fetched in full, an ingestion
    returns counters that account for every record fetched, once: created
    plus updated is the number of records in the collection (duplicates
    included), and the table of that entity type has grown by exactly
    [created] rows; this whatever the store held before. *)
Theorem ingestion_counters_account_for_every_record :
  forall (w : World) (fuel : nat) (this : IngestionService) (s : Store),
    (forall l,
        CustomersAre w this fuel l ->
        exists cnt,
          outcomeOf (run w (ingestCustomers fuel this) s) = Returned cnt
          /\ Tally cnt (List.length l) (List.length (customers s))
               (List.length (customers (storeOf (run w (ingestCustomers fuel this) s)))))
    /\ (forall l,
        ProductsAre w this fuel l ->
        exists cnt,
          outcomeOf (run w (ingestProducts fuel this) s) = Returned cnt
          /\ Tally cnt (List.length l) (List.length (products s))
               (List.length (products (storeOf (run w (ingestProducts fuel this) s)))))
    /\ (forall l,
        OrdersAre w this fuel l ->
        exists cnt,
          outcomeOf (run w (ingestOrders fuel this) s) = Returned cnt
          /\ Tally cnt (List.length l) (List.length (orders s))
               (List.length (orders (storeOf (run w (ingestOrders fuel this) s))))).
Proof.
  intros w fuel this s. unfold Tally.
  split; [| split]; intros l Hl.
  - destruct (run_ingestCustomers s Hl) as [tr H]. rewrite H.
    unfold outcomeOf, storeOf; cbn [fst snd].
    eexists; split; [reflexivity |].
    destruct (reconcile_tally (customerStep (serviceTenantId this))
                (fun s => List.length (customers s))
                (customerStep_length (serviceTenantId this)) l s 0 0) as [H1 H2].
    cbn beta in H2. lia.
  - destruct (run_ingestProducts s Hl) as [tr H]. rewrite H.
    unfold outcomeOf, storeOf; cbn [fst snd].
    eexists; split; [reflexivity |].
    destruct (reconcile_tally (productStep (serviceTenantId this))
                (fun s => List.length (products s))
                (productStep_length (serviceTenantId this)) l s 0 0) as [H1 H2].
    cbn beta in H2. lia.
  - destruct (run_ingestOrders s Hl) as [tr H]. rewrite H.
    unfold outcomeOf, storeOf; cbn [fst snd].
    eexists; split; [reflexivity |].
    destruct (reconcile_tally (orderStep (serviceTenantId this))
                (fun s => List.length (orders s))
                (orderStep_length (serviceTenantId this)) l s 0 0) as [H1 H2].
    cbn beta in H2. lia.
Qed.

(** ** The rows of the other tenants *)

Lemma ofOthers_app {D : Type} t (a b : list (Row D)) :
  ofOthers t (a ++ b) = ofOthers t a ++ ofOthers t b.
Proof. unfold ofOthers. apply filter_app. Qed.

Lemma ofOthers_own {D : Type} t (i : Id) (d : D) (rest : list (Row D)) :
  ofOthers t (mkRow i t d :: rest) = ofOthers t rest.
Proof. unfold ofOthers. cbn. rewrite String.eqb_refl. reflexivity. Qed.

Lemma ofOthers_in {D : Type} t (tbl : list (Row D)) r :
  In r (ofOthers t tbl) <-> In r tbl /\ tenantId r <> t.
Proof.
  unfold ofOthers. rewrite filter_In, negb_true_iff.
  split; intros [H1 H2]; (split; [assumption |]).
  - intro Heq. apply String.eqb_neq in H2. contradiction.
  - apply String.eqb_neq. assumption.
Qed.

(** Reconciling a record of the tenant [t] leaves the rows of the others as
    they are, in a table with distinct primary keys. *)
Lemma upsert_others {D : Type} (key : D -> string) t d (tbl : list (Row D)) next :
  NoDup (map (@id D) tbl) ->
  ofOthers t (fst (fst (upsert key t d tbl next))) = ofOthers t tbl.
Proof.
  intro Hnd. unfold upsert.
  destruct (findUnique key t (key d) tbl) as [e |] eqn:Hf; cbn [fst].
  - apply findUnique_some in Hf as [Hin Hk].
    assert (Ht : tenantId e = t) by (unfold rowKey in Hk; congruence).
    destruct (setData_split tbl e d Hnd Hin) as (pre & post & Htbl & Hset).
    rewrite Hset, Htbl, !ofOthers_app. f_equal.
    destruct e as [i t' d']. cbn in Ht. subst t'. cbn [id tenantId].
    rewrite !ofOthers_own. reflexivity.
  - rewrite ofOthers_app, ofOthers_own. cbn. apply app_nil_r.
Qed.

Section Isolation.
Variables X D A : Type.
Variable tab : Store -> list (Row D).
Variable t : TenantId.
Variable step : X -> Store -> Store * bool.
Variable att : Id -> Store -> A.

Hypothesis step_others :
  forall x s,
    wfStore s ->
    wfStore (fst (step x s))
    /\ ofOthers t (tab (fst (step x s))) = ofOthers t (tab s)
    /\ (forall r, In r (ofOthers t (tab s)) ->
          att (id r) (fst (step x s)) = att (id r) s).

Lemma reconcile_others l :
  forall s c u,
    wfStore s ->
    ofOthers t (tab (fst (reconcileAll step l s c u))) = ofOthers t (tab s)
    /\ (forall r, In r (ofOthers t (tab s)) ->
          att (id r) (fst (reconcileAll step l s c u)) = att (id r) s).
Proof.
  induction l as [| x l IH]; intros s c u Hwf; [split; reflexivity |].
  cbn [reconcileAll].
  destruct (step_others x Hwf) as (Hwf1 & Ho1 & Ha1).
  destruct (step x s) as [s1 cr]. cbn [fst] in *.
  assert (Hgoal : forall c' u',
             ofOthers t (tab (fst (reconcileAll step l s1 c' u'))) = ofOthers t (tab s)
             /\ (forall r, In r (ofOthers t (tab s)) ->
                   att (id r) (fst (reconcileAll step l s1 c' u')) = att (id r) s)).
  { intros c' u'. destruct (IH s1 c' u' Hwf1) as [H1 H2].
    split; [congruence |].
    intros r Hr. rewrite H2 by (rewrite Ho1; assumption). apply Ha1; assumption. }
  destruct cr; apply Hgoal.
Qed.
End Isolation.

Lemma step_wf_fst {X : Type} (step : X -> Store -> Store * bool) x s (P : Store -> Prop) :
  (exists s' cr, step x s = (s', cr) /\ P s') -> P (fst (step x s)).
Proof. intros (s' & cr & -> & H). exact H. Qed.

Lemma customerStep_others t x s :
  wfStore s ->
  wfStore (fst (customerStep t x s))
  /\ ofOthers t (customers (fst (customerStep t x s))) = ofOthers t (customers s)
  /\ (forall r : Row Customer.t, In r (ofOthers t (customers s)) -> tt = tt).
Proof.
  intro Hwf.
  split; [| split; [| reflexivity]].
  - destruct (customerStep_spec t x Hwf) as (s' & cr & rid & Hstep & Hwf' & _).
    rewrite Hstep. exact Hwf'.
  - destruct Hwf as ((Hids & _) & _).
    pose proof (@upsert_others _ Customer.shopifyId t (customerData x) (customers s) (nextId s) Hids) as H.
    unfold customerStep.
    destruct (upsert Customer.shopifyId t (customerData x) (customers s) (nextId s))
      as [[tbl rid] cr]. exact H.
Qed.

Lemma productStep_others t x s :
  wfStore s ->
  wfStore (fst (productStep t x s))
  /\ ofOthers t (products (fst (productStep t x s))) = ofOthers t (products s)
  /\ (forall r : Row Product.t, In r (ofOthers t (products s)) -> tt = tt).
Proof.
  intro Hwf.
  split; [| split; [| reflexivity]].
  - destruct (productStep_spec t x Hwf) as (s' & cr & rid & Hstep & Hwf' & _).
    rewrite Hstep. exact Hwf'.
  - destruct Hwf as (_ & (Hids & _) & _).
    pose proof (@upsert_others _ Product.shopifyId t (productData x) (products s) (nextId s) Hids) as H.
    unfold productStep.
    destruct (upsert Product.shopifyId t (productData x) (products s) (nextId s))
      as [[tbl rid] cr]. exact H.
Qed.

Lemma orderStep_others t x s :
  wfStore s ->
  wfStore (fst (orderStep t x s))
  /\ ofOthers t (orders (fst (orderStep t x s))) = ofOthers t (orders s)
  /\ (forall r, In r (ofOthers t (orders s)) ->
        storedItems (id r) (fst (orderStep t x s)) = storedItems (id r) s).
Proof.
  intro Hwf.
  assert (Hoth : ofOthers t (orders (fst (orderStep t x s))) = ofOthers t (orders s)).
  { destruct Hwf as (_ & _ & (Hids & _) & _).
    pose proof (@upsert_others _ Order.shopifyId t
                  (orderData x (customerIdOf t x (customers s))) (orders s) (nextId s) Hids) as H.
    unfold orderStep.
    destruct (upsert Order.shopifyId t (orderData x (customerIdOf t x (customers s)))
                     (orders s) (nextId s)) as [[tbl rid] cr].
    destruct (replaceItemsIn t (products s) rid (ShopifyOrder.line_items x) (orderItems s)
                             (bump cr (nextId s))) as [items next].
    exact H. }
  destruct (orderStep_spec t x Hwf)
    as (s' & cr & rid & Hstep & Hwf' & _ & _ & _ & Hfind & _ & _ & _ & _ & _ & _ & _ & Hatt & _).
  rewrite Hstep in *. cbn [fst] in *.
  split; [exact Hwf' |]. split; [exact Hoth |].
  intros r Hr. apply Hatt.
  (* the row reconciled belongs to [t], so it is not [r] *)
  intro Heq.
  assert (Hr' : In r (ofOthers t (orders s'))) by (rewrite Hoth; assumption).
  apply ofOthers_in in Hr' as [Hin Hne].
  apply findUnique_some in Hfind as [Hin' _].
  destruct Hwf' as (_ & _ & (Hids' & _) & _).
  pose proof (NoDup_map_eq (@id Order.t) (orders s') r _ Hids' Hin Hin' Heq) as Hsame.
  apply Hne. rewrite Hsame. reflexivity.
Qed.

Lemma customerStep_rest t x s :
  (fun s => (tenants s, products s, orders s, orderItems s)) (fst (customerStep t x s))
  = (tenants s, products s, orders s, orderItems s).
Proof.
  unfold customerStep.
  destruct (upsert Customer.shopifyId t (customerData x) (customers s) (nextId s))
    as [[tbl rid] cr]. reflexivity.
Qed.

Lemma productStep_rest t x s :
  (fun s => (tenants s, customers s, orders s, orderItems s)) (fst (productStep t x s))
  = (tenants s, customers s, orders s, orderItems s).
Proof.
  unfold productStep.
  destruct (upsert Product.shopifyId t (productData x) (products s) (nextId s))
    as [[tbl rid] cr]. reflexivity.
Qed.

Lemma orderStep_rest t x s :
  (fun s => (tenants s, customers s, products s)) (fst (orderStep t x s))
  = (tenants s, customers s, products s).
Proof.
  unfold orderStep.
  destruct (upsert Order.shopifyId t (orderData x (customerIdOf t x (customers s)))
                   (orders s) (nextId s)) as [[tbl rid] cr].
  destruct (replaceItemsIn t (products s) rid (ShopifyOrder.line_items x) (orderItems s)
                           (bump cr (nextId s))) as [items next].
  reflexivity.
Qed.

(** Whatever the remote answers, the store after an ingestion is the store
    before it, reconciled with some list of records (none when the fetch did
    not return). *)
Lemma ingestion_store {X : Type} (w : World) (fetch : Proc (list X))
    (loop : list X -> Proc Counts) (step : X -> Store -> Store * bool) (s : Store) :
  storeOf (run w fetch s) = s ->
  (forall l, exists tr,
      run w (loop l) s
      = (Returned (snd (reconcileAll step l s 0 0)), fst (reconcileAll step l s 0 0), tr)
      /\ noHttp tr = true) ->
  exists l, storeOf (run w (l <- fetch ;; loop l) s) = fst (reconcileAll step l s 0 0).
Proof.
  intros Hs Hloop. rewrite run_fetch_then_loop by exact Hs.
  destruct (outcomeOf (run w fetch s)) as [l | e |].
  - exists l. destruct (Hloop l) as [tr [Hrun _]]. rewrite Hrun. reflexivity.
  - exists []. reflexivity.
  - exists []. reflexivity.
Qed.

(** X3.  An ingestion for one tenant leaves the data of every other tenant
    as it was, whatever the remote answers: in a store with distinct
    primary keys, the rows of the other tenants in the table it reconciles
    are the same rows, in the same order, the other tables (the tenants
    among them) are untouched, and the order ingestion leaves the items of
    the orders of the other tenants as they were. *)
Theorem ingestion_leaves_other_tenants_alone :
  forall (w : World) (fuel : nat) (this : IngestionService) (s : Store),
    wfStore s ->
    let t := serviceTenantId this in
    (let s' := storeOf (run w (ingestCustomers fuel this) s) in
     ofOthers t (customers s') = ofOthers t (customers s)
     /\ tenants s' = tenants s /\ products s' = products s
     /\ orders s' = orders s /\ orderItems s' = orderItems s)
    /\ (let s' := storeOf (run w (ingestProducts fuel this) s) in
        ofOthers t (products s') = ofOthers t (products s)
        /\ tenants s' = tenants s /\ customers s' = customers s
        /\ orders s' = orders s /\ orderItems s' = orderItems s)
    /\ (let s' := storeOf (run w (ingestOrders fuel this) s) in
        ofOthers t (orders s') = ofOthers t (orders s)
        /\ tenants s' = tenants s /\ customers s' = customers s
        /\ products s' = products s
        /\ (forall r, In r (orders s) -> tenantId r <> t ->
              storedItems (id r) s' = storedItems (id r) s)).
Proof.
  intros w fuel this s Hwf t. cbv zeta.
  split; [| split].
  - destruct (@ingestion_store _ w (getCustomers fuel (shopifyService this) 250)
                (fun l => ingestCustomersLoop t l 0 0) (customerStep t) s
                (paginate_store _ _ _ _ _ _ _ _ _ s)
                (fun l => run_ingestCustomersLoop w t l s 0 0)) as [l Hl].
    unfold ingestCustomers. fold t. rewrite Hl.
    destruct (@reconcile_others _ _ _ customers t (customerStep t)
                (fun (_ : Id) (_ : Store) => tt) (customerStep_others t) l s 0 0 Hwf) as [H1 _].
    pose proof (reconcile_preserves (customerStep t) _ (customerStep_rest t) l s 0 0) as H2.
    cbn beta in H2. inversion H2. repeat split; assumption.
  - destruct (@ingestion_store _ w (getProducts fuel (shopifyService this) 250)
                (fun l => ingestProductsLoop t l 0 0) (productStep t) s
                (paginate_store _ _ _ _ _ _ _ _ _ s)
                (fun l => run_ingestProductsLoop w t l s 0 0)) as [l Hl].
    unfold ingestProducts. fold t. rewrite Hl.
    destruct (@reconcile_others _ _ _ products t (productStep t)
                (fun (_ : Id) (_ : Store) => tt) (productStep_others t) l s 0 0 Hwf) as [H1 _].
    pose proof (reconcile_preserves (productStep t) _ (productStep_rest t) l s 0 0) as H2.
    cbn beta in H2. inversion H2. repeat split; assumption.
  - destruct (@ingestion_store _ w (getOrders fuel (shopifyService this) 250 "any")
                (fun l => ingestOrdersLoop t l 0 0) (orderStep t) s
                (paginate_store _ _ _ _ _ _ _ _ _ s)
                (fun l => run_ingestOrdersLoop w t l s 0 0)) as [l Hl].
    unfold ingestOrders. fold t. rewrite Hl.
    destruct (@reconcile_others _ _ _ orders t (orderStep t) storedItems
                (orderStep_others t) l s 0 0 Hwf) as [H1 H3].
    pose proof (reconcile_preserves (orderStep t) _ (orderStep_rest t) l s 0 0) as H2.
    cbn beta in H2. inversion H2.
    repeat split; try assumption.
    intros r Hr Hne. apply H3. apply ofOthers_in. split; assumption.
Qed.

Lemma shared_store_wf : wfStore Shared.store.
Proof.
  unfold wfStore, wfTable, Shared.store; cbn.
  repeat split; repeat constructor; cbn; try lia; intuition discriminate.
Qed.

(** With Alice's remote id taken by a customer of another tenant, and O1 by
    an order of that tenant, the ingestions of the first tenant leave that
    customer, and the item of that order, as they are. *)
Lemma ingestion_leaves_other_tenants_alone_witness :
  ofOthers "tenant-1"
    (customers (storeOf (run Sample.world (ingestCustomers 4 Sample.service) Shared.store)))
  = [Shared.theirCustomer]
  /\ storedItems 1 (storeOf (run Sample.world (ingestOrders 4 Sample.service) Shared.store))
     = [Shared.theirItem].
Proof.
  destruct (ingestion_leaves_other_tenants_alone Sample.world 4 Sample.service shared_store_wf)
    as ((Hc & _) & _ & (_ & _ & _ & _ & Ho)).
  change (serviceTenantId Sample.service) with "tenant-1" in Hc, Ho.
  split.
  - rewrite Hc. reflexivity.
  - exact (Ho Shared.theirOrder (or_introl eq_refl) ltac:(discriminate)).
Defined.

(** Two customers are fetched into an empty store: both are counted as
    created. *)
Lemma ingestion_counters_account_for_every_record_witness :
  exists cnt,
    outcomeOf (run Sample.world (ingestCustomers 4 Sample.service) emptyStore) = Returned cnt
    /\ Tally cnt 2 0
         (List.length
            (customers (storeOf (run Sample.world (ingestCustomers 4 Sample.service) emptyStore)))).
Proof.
  exact (proj1 (ingestion_counters_account_for_every_record Sample.world 4 Sample.service
                  emptyStore)
               [Sample.alice; Sample.bob] (sample_customers_are Sample.alice Sample.order1)).
Defined.

(** ** Rows are never removed *)

Lemma Extends_refl {T : Type} (a : list T) : Extends a a.
Proof. exists []. symmetry; apply app_nil_r. Qed.

Lemma Extends_trans {T : Type} (a b c : list T) : Extends a b -> Extends b c -> Extends a c.
Proof. intros [n1 ->] [n2 ->]. exists (n1 ++ n2). symmetry; apply app_assoc. Qed.

Lemma upsert_extends {D : Type} (key : D -> string) t d (tbl : list (Row D)) next :
  NoDup (map (@id D) tbl) ->
  Extends (identities key tbl) (identities key (fst (fst (upsert key t d tbl next)))).
Proof.
  intro Hnd. unfold upsert, identities.
  destruct (findUnique key t (key d) tbl) as [e |] eqn:Hf; cbn [fst].
  - apply findUnique_some in Hf as [Hin Hk].
    destruct (setData_split tbl e d Hnd Hin) as (pre & post & Htbl & Hset).
    rewrite Hset. rewrite Htbl at 1. rewrite !map_app. cbn [map id].
    unfold rowKey in *. cbn [tenantId data] in *.
    replace (key d) with (key (data e)) by congruence.
    apply Extends_refl.
  - rewrite map_app. eexists; reflexivity.
Qed.

Lemma reconcile_extends {X T : Type} (step : X -> Store -> Store * bool)
    (f : Store -> list T) :
  (forall x s, wfStore s -> wfStore (fst (step x s)) /\ Extends (f s) (f (fst (step x s)))) ->
  forall l s c u, wfStore s -> Extends (f s) (f (fst (reconcileAll step l s c u))).
Proof.
  intros Hstep l. induction l as [| x l IH]; intros s c u Hwf; [apply Extends_refl |].
  cbn [reconcileAll]. destruct (Hstep x s Hwf) as [Hwf1 He].
  destruct (step x s) as [s1 cr]. cbn [fst] in *.
  destruct cr; (eapply Extends_trans; [exact He | apply IH; assumption]).
Qed.

Lemma customerStep_extends t x s :
  wfStore s ->
  wfStore (fst (customerStep t x s))
  /\ Extends (identities Customer.shopifyId (customers s))
             (identities Customer.shopifyId (customers (fst (customerStep t x s)))).
Proof.
  intro Hwf. split; [apply (customerStep_others t x Hwf) |].
  destruct Hwf as ((Hids & _) & _).
  pose proof (@upsert_extends _ Customer.shopifyId t (customerData x) (customers s) (nextId s)
                Hids) as H.
  unfold customerStep.
  destruct (upsert Customer.shopifyId t (customerData x) (customers s) (nextId s))
    as [[tbl rid] cr]. exact H.
Qed.

Lemma productStep_extends t x s :
  wfStore s ->
  wfStore (fst (productStep t x s))
  /\ Extends (identities Product.shopifyId (products s))
             (identities Product.shopifyId (products (fst (productStep t x s)))).
Proof.
  intro Hwf. split; [apply (productStep_others t x Hwf) |].
  destruct Hwf as (_ & (Hids & _) & _).
  pose proof (@upsert_extends _ Product.shopifyId t (productData x) (products s) (nextId s)
                Hids) as H.
  unfold productStep.
  destruct (upsert Product.shopifyId t (productData x) (products s) (nextId s))
    as [[tbl rid] cr]. exact H.
Qed.

Lemma orderStep_extends t x s :
  wfStore s ->
  wfStore (fst (orderStep t x s))
  /\ Extends (identities Order.shopifyId (orders s))
             (identities Order.shopifyId (orders (fst (orderStep t x s)))).
Proof.
  intro Hwf. split; [apply (orderStep_others t x Hwf) |].
  destruct Hwf as (_ & _ & (Hids & _) & _).
  pose proof (@upsert_extends _ Order.shopifyId t
                (orderData x (customerIdOf t x (customers s))) (orders s) (nextId s) Hids) as H.
  unfold orderStep.
  destruct (upsert Order.shopifyId t (orderData x (customerIdOf t x (customers s)))
                   (orders s) (nextId s)) as [[tbl rid] cr].
  destruct (replaceItemsIn t (products s) rid (ShopifyOrder.line_items x) (orderItems s)
                           (bump cr (nextId s))) as [items next].
  exact H.
Qed.

Section Vanished.
Variable t : TenantId.

Lemma customers_frame l s c u sid r :
  wfStore s ->
  ~ In sid (map ShopifyCustomer.id l) ->
  findUnique Customer.shopifyId t sid (customers s) = Some r ->
  findUnique Customer.shopifyId t sid
             (customers (fst (reconcileAll (customerStep t) l s c u))) = Some r.
Proof.
  intros Hwf Hn Hr.
  apply (@reconcile_frame _ _ _ Customer.shopifyId customers t ShopifyCustomer.id
           (fun (x : ShopifyCustomer.t) (_ : Store) => customerData x)
           (customerStep t) (fun (_ : Id) (_ : Store) => tt)
           (fun _ (_ : Id) (_ : Store) (a : unit) => a) (customerStep_spec t) l s c u Hwf sid r);
    [| assumption].
  intros x Hx Heq. apply Hn. rewrite <- Heq. apply in_map; assumption.
Qed.

Lemma products_frame l s c u sid r :
  wfStore s ->
  ~ In sid (map ShopifyProduct.id l) ->
  findUnique Product.shopifyId t sid (products s) = Some r ->
  findUnique Product.shopifyId t sid
             (products (fst (reconcileAll (productStep t) l s c u))) = Some r.
Proof.
  intros Hwf Hn Hr.
  apply (@reconcile_frame _ _ _ Product.shopifyId products t ShopifyProduct.id
           (fun (x : ShopifyProduct.t) (_ : Store) => productData x)
           (productStep t) (fun (_ : Id) (_ : Store) => tt)
           (fun _ (_ : Id) (_ : Store) (a : unit) => a) (productStep_spec t) l s c u Hwf sid r);
    [| assumption].
  intros x Hx Heq. apply Hn. rewrite <- Heq. apply in_map; assumption.
Qed.

Lemma orders_frame l s c u sid r :
  wfStore s ->
  ~ In sid (map ShopifyOrder.id l) ->
  findUnique Order.shopifyId t sid (orders s) = Some r ->
  findUnique Order.shopifyId t sid
             (orders (fst (reconcileAll (orderStep t) l s c u))) = Some r
  /\ storedItems (id r) (fst (reconcileAll (orderStep t) l s c u)) = storedItems (id r) s.
Proof.
  intros Hwf Hn Hr.
  apply (@reconcile_frame _ _ _ Order.shopifyId orders t ShopifyOrder.id
           (fun (x : ShopifyOrder.t) (s0 : Store) =>
              orderData x (customerIdOf t x (customers s0)))
           (orderStep t) storedItems (itemsAfter t) (orderStep_spec t) l s c u Hwf sid r);
    [| assumption].
  intros x Hx Heq. apply Hn. rewrite <- Heq. apply in_map; assumption.
Qed.
End Vanished.

(** X4.  An ingestion never removes a row and never gives a row another
    primary or natural key: whatever the remote answers, the rows of the
    table before the run are the first rows of the table after it, under
    the same keys.  In particular a record that has vanished from the remote
    collection is not removed from the store: when the collection is
    fetched in full and does not hold the remote id of a stored row of the
    tenant, that row is found unchanged after the run, and an order keeps
    its items. *)
Theorem ingestion_never_removes_rows :
  forall (w : World) (fuel : nat) (this : IngestionService) (s : Store),
    wfStore s ->
    let t := serviceTenantId this in
    (let s' := storeOf (run w (ingestCustomers fuel this) s) in
     Extends (identities Customer.shopifyId (customers s))
             (identities Customer.shopifyId (customers s'))
     /\ forall l sid r,
          CustomersAre w this fuel l ->
          ~ In sid (map ShopifyCustomer.id l) ->
          findUnique Customer.shopifyId t sid (customers s) = Some r ->
          findUnique Customer.shopifyId t sid (customers s') = Some r)
    /\ (let s' := storeOf (run w (ingestProducts fuel this) s) in
        Extends (identities Product.shopifyId (products s))
                (identities Product.shopifyId (products s'))
        /\ forall l sid r,
             ProductsAre w this fuel l ->
             ~ In sid (map ShopifyProduct.id l) ->
             findUnique Product.shopifyId t sid (products s) = Some r ->
             findUnique Product.shopifyId t sid (products s') = Some r)
    /\ (let s' := storeOf (run w (ingestOrders fuel this) s) in
        Extends (identities Order.shopifyId (orders s))
                (identities Order.shopifyId (orders s'))
        /\ forall l sid r,
             OrdersAre w this fuel l ->
             ~ In sid (map ShopifyOrder.id l) ->
             findUnique Order.shopifyId t sid (orders s) = Some r ->
             findUnique Order.shopifyId t sid (orders s') = Some r
             /\ storedItems (id r) s' = storedItems (id r) s).
Proof.
  intros w fuel this s Hwf t. cbv zeta.
  split; [| split]; split.
  - destruct (@ingestion_store _ w (getCustomers fuel (shopifyService this) 250)
                (fun l => ingestCustomersLoop t l 0 0) (customerStep t) s
                (paginate_store _ _ _ _ _ _ _ _ _ s)
                (fun l => run_ingestCustomersLoop w t l s 0 0)) as [l Hl].
    unfold ingestCustomers. fold t. rewrite Hl.
    apply (reconcile_extends (customerStep t)
             (fun s => identities Customer.shopifyId (customers s))
             (customerStep_extends t) l 0 0 Hwf).
  - intros l sid r Hl Hn Hr.
    destruct (run_ingestCustomers s Hl) as [tr H]. rewrite H.
    apply customers_frame; assumption.
  - destruct (@ingestion_store _ w (getProducts fuel (shopifyService this) 250)
                (fun l => ingestProductsLoop t l 0 0) (productStep t) s
                (paginate_store _ _ _ _ _ _ _ _ _ s)
                (fun l => run_ingestProductsLoop w t l s 0 0)) as [l Hl].
    unfold ingestProducts. fold t. rewrite Hl.
    apply (reconcile_extends (productStep t)
             (fun s => identities Product.shopifyId (products s))
             (productStep_extends t) l 0 0 Hwf).
  - intros l sid r Hl Hn Hr.
    destruct (run_ingestProducts s Hl) as [tr H]. rewrite H.
    apply products_frame; assumption.
  - destruct (@ingestion_store _ w (getOrders fuel (shopifyService this) 250 "any")
                (fun l => ingestOrdersLoop t l 0 0) (orderStep t) s
                (paginate_store _ _ _ _ _ _ _ _ _ s)
                (fun l => run_ingestOrdersLoop w t l s 0 0)) as [l Hl].
    unfold ingestOrders. fold t. rewrite Hl.
    apply (reconcile_extends (orderStep t)
             (fun s => identities Order.shopifyId (orders s))
             (orderStep_extends t) l 0 0 Hwf).
  - intros l sid r Hl Hn Hr.
    destruct (run_ingestOrders s Hl) as [tr H]. rewrite H.
    apply orders_frame; assumption.
Qed.

(** The customer C9 is not among the customers of the remote; the row
    stays. *)
Lemma ingestion_never_removes_rows_witness :
  findUnique Customer.shopifyId "tenant-1" "C9"
    (customers (storeOf (run Sample.world (ingestCustomers 4 Sample.service) Stale.store)))
  = Some Stale.gone.
Proof.
  assert (Hwf : wfStore Stale.store).
  { unfold wfStore, wfTable, Stale.store; cbn.
    repeat split; repeat constructor; cbn; try lia; intuition discriminate. }
  destruct (ingestion_never_removes_rows Sample.world 4 Sample.service Hwf) as ((_ & H) & _).
  apply (H [Sample.alice; Sample.bob] "C9" Stale.gone
           (sample_customers_are Sample.alice Sample.order1)).
  - cbn. intuition discriminate.
  - reflexivity.
Defined.

(* ===================================================================== *)
(** * The pagination link, in general *)
(* ===================================================================== *)

Lemma string_app_assoc (a b c : string) : ((a ++ b) ++ c = a ++ (b ++ c))%string.
Proof. induction a as [| x a IH]; cbn; [reflexivity | rewrite IH; reflexivity]. Qed.

Lemma string_app_nil_r (a : string) : (a ++ "" = a)%string.
Proof. induction a as [| x a IH]; cbn; [reflexivity | rewrite IH; reflexivity]. Qed.

Lemma hasChar_app c (a b : string) :
  hasChar c (a ++ b) = hasChar c a || hasChar c b.
Proof.
  induction a as [| x a IH]; cbn; [reflexivity |].
  rewrite IH. apply orb_assoc.
Qed.

Lemma prefix_app (p s : string) :
  String.prefix p s = true -> exists r, s = (p ++ r)%string.
Proof.
  revert s. induction p as [| x p IH]; intros s H.
  - exists s. reflexivity.
  - destruct s as [| y s]; cbn in H; [discriminate |].
    destruct (ascii_dec x y) as [-> | Hne]; [| discriminate].
    destruct (IH s H) as [r ->]. exists r. reflexivity.
Qed.

Lemma prefix_of_app (p r : string) : String.prefix p (p ++ r) = true.
Proof.
  induction p as [| x p IH]; cbn; [destruct r; reflexivity |].
  destruct (ascii_dec x x); [assumption | contradiction].
Qed.

Lemma splitAt_some stop s a b :
  Link.splitAt stop s = Some (a, b) ->
  s = (a ++ String stop b)%string /\ hasChar stop a = false.
Proof.
  revert a b. induction s as [| c s IH]; intros a b H; cbn in H; [discriminate |].
  destruct (Ascii.eqb c stop) eqn:E.
  - apply Ascii.eqb_eq in E. subst c. inversion H; subst. split; reflexivity.
  - destruct (Link.splitAt stop s) as [[a' b'] |]; [| discriminate].
    inversion H; subst. destruct (IH a' b eq_refl) as [-> Hno].
    split; [reflexivity |]. cbn. rewrite E, Hno. reflexivity.
Qed.

Lemma splitAt_app stop a b :
  hasChar stop a = false -> Link.splitAt stop (a ++ String stop b) = Some (a, b).
Proof.
  induction a as [| c a IH]; cbn; intro H.
  - rewrite Ascii.eqb_refl. reflexivity.
  - apply orb_false_iff in H as [H1 H2]. rewrite H1, IH by assumption. reflexivity.
Qed.

Lemma takeUntil_spec stop s :
  hasChar stop (Link.takeUntil stop s) = false
  /\ exists rest,
       s = (Link.takeUntil stop s ++ rest)%string
       /\ (rest = "" \/ exists r, rest = String stop r).
Proof.
  induction s as [| c s IH]; cbn.
  - split; [reflexivity |]. exists "". split; [reflexivity | left; reflexivity].
  - destruct (Ascii.eqb c stop) eqn:E.
    + apply Ascii.eqb_eq in E. subst c.
      split; [reflexivity |]. exists (String stop s).
      split; [reflexivity | right; eexists; reflexivity].
    + destruct IH as [Hno (rest & Hs & Hrest)].
      split; [cbn; rewrite E, Hno; reflexivity |].
      exists rest. split; [cbn; rewrite <- Hs; reflexivity | assumption].
Qed.

Lemma takeUntil_whole stop s :
  hasChar stop s = false -> Link.takeUntil stop s = s.
Proof.
  induction s as [| c s IH]; cbn; intro H; [reflexivity |].
  apply orb_false_iff in H as [H1 H2]. rewrite H1, IH by assumption. reflexivity.
Qed.

Lemma takeUntil_app stop a r :
  hasChar stop a = false -> Link.takeUntil stop (a ++ String stop r) = a.
Proof.
  induction a as [| c a IH]; cbn; intro H.
  - rewrite Ascii.eqb_refl. reflexivity.
  - apply orb_false_iff in H as [H1 H2]. rewrite H1, IH by assumption. reflexivity.
Qed.

Lemma truthy_iff (s : string) : JS.truthy s = true <-> s <> "".
Proof. destruct s; cbn; split; intro H; congruence. Qed.

(** What [captureHere] reads. *)
Lemma captureHere_some seg c :
  Link.captureHere seg = Some c ->
  c <> "" /\ hasChar "&" c = false
  /\ exists after,
       seg = ("page_info=" ++ c ++ after)%string
       /\ (after = "" \/ exists r, after = ("&" ++ r)%string).
Proof.
  unfold Link.captureHere. intro H.
  destruct (String.prefix "page_info=" seg) eqn:Hp; [| discriminate].
  apply prefix_app in Hp as [r ->].
  change (Link.drop 10 ("page_info=" ++ r)) with r in H.
  destruct (JS.truthy (Link.takeUntil "&" r)) eqn:Ht; [| discriminate].
  injection H as <-.
  destruct (takeUntil_spec "&" r) as [Hno (rest & Hr & Hrest)].
  split; [apply truthy_iff; assumption |].
  split; [assumption |].
  exists rest. split; [rewrite <- Hr; reflexivity | exact Hrest].
Qed.

Lemma lastPageInfo_some seg c :
  Link.lastPageInfo seg = Some c ->
  c <> "" /\ hasChar "&" c = false
  /\ exists before after,
       seg = (before ++ "page_info=" ++ c ++ after)%string
       /\ (after = "" \/ exists r, after = ("&" ++ r)%string).
Proof.
  induction seg as [| x seg IH]; cbn [Link.lastPageInfo]; intro H; [discriminate |].
  destruct (Link.lastPageInfo seg) as [c' |] eqn:Hl.
  - injection H as ->.
    destruct (IH eq_refl) as (H1 & H2 & before & after & -> & Ha).
    repeat split; try assumption.
    exists (String x before), after. split; [reflexivity | assumption].
  - apply captureHere_some in H as (H1 & H2 & after & Hs & Ha).
    repeat split; try assumption.
    exists "", after. split; assumption.
Qed.

Lemma nextMatch_some h c :
  Link.nextMatch h = Some c -> isCursor c /\ NextLink h c.
Proof.
  induction h as [| x h IH]; cbn [Link.nextMatch]; intro H; [discriminate |].
  assert (Hrec : Link.nextMatch h = Some c -> isCursor c /\ NextLink (String x h) c).
  { intro Hh. destruct (IH Hh) as [Hc (pre & before & after & post & -> & Hrest)].
    split; [assumption |].
    exists (String x pre), before, after, post. split; [reflexivity | assumption]. }
  destruct (Ascii.eqb x "<") eqn:E; [| auto].
  apply Ascii.eqb_eq in E. subst x.
  unfold Link.matchAfterOpen in H.
  destruct (Link.splitAt ">" h) as [[seg rest] |] eqn:Hs; [| auto].
  destruct (String.prefix Link.relNext rest) eqn:Hp.
  2: { auto. }
  destruct (Link.lastPageInfo seg) as [c' |] eqn:Hl; [| auto].
  injection H as ->.
  apply splitAt_some in Hs as [-> Hseg].
  apply prefix_app in Hp as [post ->].
  apply lastPageInfo_some in Hl as (H1 & H2 & before & after & -> & Ha).
  rewrite !hasChar_app in Hseg.
  apply orb_false_iff in Hseg as [Hb Hseg].
  apply orb_false_iff in Hseg as [_ Hseg].
  apply orb_false_iff in Hseg as [Hc Haf].
  split; [repeat split; assumption |].
  exists "", before, after, post.
  split; [| repeat split; assumption].
  rewrite !string_app_assoc. cbn [append]. reflexivity.
Qed.

Lemma lastPageInfo_found before c after :
  c <> "" -> hasChar "&" c = false ->
  Link.lastPageInfo (before ++ "page_info=" ++ c ++ after) <> None.
Proof.
  intros Hc Hamp.
  induction before as [| x before IH].
  - change ("" ++ "page_info=" ++ c ++ after)%string
      with (String "p" ("age_info=" ++ c ++ after))%string.
    cbn [Link.lastPageInfo].
    destruct (Link.lastPageInfo _); [discriminate |].
    unfold Link.captureHere.
    change (String "p" ("age_info=" ++ c ++ after))%string
      with ("page_info=" ++ (c ++ after))%string.
    rewrite prefix_of_app.
    change (Link.drop 10 ("page_info=" ++ (c ++ after))) with (c ++ after)%string.
    destruct c as [| y c]; [congruence |].
    cbn in Hamp. apply orb_false_iff in Hamp as [Hy _].
    cbn. rewrite Hy. discriminate.
  - change (String x before ++ "page_info=" ++ c ++ after)%string
      with (String x (before ++ "page_info=" ++ c ++ after)).
    cbn [Link.lastPageInfo].
    destruct (Link.lastPageInfo (before ++ "page_info=" ++ c ++ after)); [discriminate |].
    contradiction.
Qed.

Lemma nextMatch_found pre before c after post :
  isCursor c ->
  hasChar ">" before = false -> hasChar ">" after = false ->
  Link.nextMatch
    (pre ++ "<" ++ before ++ "page_info=" ++ c ++ after ++ ">" ++ Link.relNext ++ post)
  <> None.
Proof.
  intros (Hc & Hamp & Hgt) Hb Ha.
  induction pre as [| x pre IH].
  - assert (E : ("" ++ "<" ++ before ++ "page_info=" ++ c ++ after ++ ">"
                   ++ Link.relNext ++ post)%string
                = String "<" ((before ++ "page_info=" ++ c ++ after)
                                ++ String ">" (Link.relNext ++ post))%string)
      by (rewrite !string_app_assoc; reflexivity).
    rewrite E. cbn [Link.nextMatch]. rewrite Ascii.eqb_refl.
    unfold Link.matchAfterOpen.
    rewrite splitAt_app.
    2: { rewrite !hasChar_app, Hb, Hgt, Ha. reflexivity. }
    rewrite prefix_of_app.
    pose proof (lastPageInfo_found before after Hc Hamp) as Hl.
    destruct (Link.lastPageInfo (before ++ "page_info=" ++ c ++ after)); [discriminate |].
    contradiction.
  - cbn [append Link.nextMatch].
    destruct (Ascii.eqb x "<"); [| exact IH].
    destruct (Link.matchAfterOpen _); [discriminate | exact IH].
Qed.

(** X5.  The hand-written matcher for the pagination pattern
    [<[^>]*page_info=([^&>]+)[^>]*>; rel="next"] finds what the pattern
    describes.  A cursor it returns is never empty, holds no [&] and no [>],
    and stands right after [page_info=] in a link of the header that is
    marked next, where it runs up to the next [&] or to the end of the
    address.  And a link marked next that has such a cursor is never
    missed: the matcher then returns a cursor. *)
Theorem next_cursor_comes_from_a_next_link :
  forall h : string,
    (forall c, Link.nextMatch h = Some c -> isCursor c /\ NextLink h c)
    /\ (forall pre before c after post,
          h = (pre ++ "<" ++ before ++ "page_info=" ++ c ++ after ++ ">"
                 ++ Link.relNext ++ post)%string ->
          isCursor c ->
          hasChar ">" before = false -> hasChar ">" after = false ->
          Link.nextMatch h <> None).
Proof.
  intro h. split.
  - intros c. apply nextMatch_some.
  - intros pre before c after post -> Hc Hb Ha. apply nextMatch_found; assumption.
Qed.

Lemma next_cursor_comes_from_a_next_link_witness :
  isCursor "eyJsYXN0X2lkIjoxfQ"
  /\ NextLink (Sample.nextLink "eyJsYXN0X2lkIjoxfQ") "eyJsYXN0X2lkIjoxfQ".
Proof.
  exact (proj1 (next_cursor_comes_from_a_next_link (Sample.nextLink "eyJsYXN0X2lkIjoxfQ"))
               "eyJsYXN0X2lkIjoxfQ" eq_refl).
Defined.

(** ** A header built from a cursor *)

Lemma lastPageInfo_later a b c :
  Link.lastPageInfo b = Some c -> Link.lastPageInfo (a ++ b) = Some c.
Proof.
  intro H. induction a as [| x a IH]; [exact H |].
  change (String x a ++ b)%string with (String x (a ++ b)).
  cbn [Link.lastPageInfo]. rewrite IH. reflexivity.
Qed.

(** A prefix of [c ++ rest] lies within [c] or reaches into [rest]. *)
Lemma prefix_split p c rest :
  String.prefix p (c ++ rest) = true ->
  (exists r, c = (p ++ r)%string)
  \/ (exists p2, p = (c ++ p2)%string /\ String.prefix p2 rest = true).
Proof.
  revert p. induction c as [| y c IH]; intros p H.
  - right. exists p. split; [reflexivity | exact H].
  - destruct p as [| x p].
    + left. exists (String y c). reflexivity.
    + change (String y c ++ rest)%string with (String y (c ++ rest)) in H.
      cbn [String.prefix] in H.
      destruct (ascii_dec x y) as [-> | Hne]; [| discriminate].
      destruct (IH p H) as [[r ->] | [p2 [-> Hp2]]].
      * left. exists r. reflexivity.
      * right. exists p2. split; [reflexivity | exact Hp2].
Qed.

Lemma captureHere_blocked c rest :
  hasChar "=" c = false ->
  (rest = "" \/ exists r, rest = ("&" ++ r)%string) ->
  Link.captureHere (c ++ rest) = None.
Proof.
  intros Hc Hrest. unfold Link.captureHere.
  destruct (String.prefix "page_info=" (c ++ rest)) eqn:Hp; [| reflexivity].
  exfalso.
  apply prefix_split in Hp as [[r ->] | [p2 [Hp Hp2]]].
  - rewrite hasChar_app in Hc. discriminate.
  - destruct p2 as [| x p2].
    + rewrite string_app_nil_r in Hp. subst c. discriminate.
    + destruct Hrest as [-> | [r ->]]; [discriminate |].
      cbn in Hp2. destruct (ascii_dec x "&") as [-> | Hne]; [| discriminate].
      assert (Hamp : hasChar "&" "page_info=" = true).
      { rewrite Hp, hasChar_app. cbn. apply orb_true_r. }
      discriminate.
Qed.

Lemma lastPageInfo_blocked c rest :
  hasChar "=" c = false ->
  (rest = "" \/ exists r, rest = ("&" ++ r)%string /\ Link.lastPageInfo r = None) ->
  Link.lastPageInfo (c ++ rest) = None.
Proof.
  intros Hc Hrest.
  induction c as [| y c IH].
  - destruct Hrest as [-> | [r [-> Hr]]]; [reflexivity |].
    cbn [append Link.lastPageInfo]. rewrite Hr. reflexivity.
  - cbn in Hc. apply orb_false_iff in Hc as [Hy Hc].
    change (String y c ++ rest)%string with (String y (c ++ rest)).
    cbn [Link.lastPageInfo]. rewrite (IH Hc).
    change (String y (c ++ rest)) with (String y c ++ rest)%string.
    apply captureHere_blocked.
    + cbn. rewrite Hy, Hc. reflexivity.
    + destruct Hrest as [-> | [r [-> _]]]; [left; reflexivity | right; eauto].
Qed.

Lemma lastPageInfo_step x s :
  Link.lastPageInfo (String x s)
  = match Link.lastPageInfo s with
    | Some cap => Some cap
    | None => Link.captureHere (String x s)
    end.
Proof. reflexivity. Qed.

Lemma captureHere_mismatch x s :
  x <> "p"%char -> Link.captureHere (String x s) = None.
Proof.
  intro Hx. unfold Link.captureHere. cbn [String.prefix].
  destruct (ascii_dec "p" x) as [E | _]; [congruence | reflexivity].
Qed.

(** The cursor of an address that ends with [page_info=c], or goes on with
    other parameters none of which is a cursor. *)
Lemma lastPageInfo_cursor base c rest :
  c <> "" -> hasChar "&" c = false -> hasChar "=" c = false ->
  (rest = "" \/ exists r, rest = ("&" ++ r)%string /\ Link.lastPageInfo r = None) ->
  Link.lastPageInfo (base ++ "page_info=" ++ c ++ rest) = Some c.
Proof.
  intros Hne Hamp Heq Hrest.
  apply lastPageInfo_later.
  pose proof (lastPageInfo_blocked c Heq Hrest) as Hnone.
  change ("page_info=" ++ c ++ rest)%string
    with (String "p" (String "a" (String "g" (String "e" (String "_" (String "i"
           (String "n" (String "f" (String "o" (String "=" (c ++ rest))))))))))).
  rewrite !lastPageInfo_step, Hnone.
  rewrite !captureHere_mismatch by discriminate.
  change (String "p" (String "a" (String "g" (String "e" (String "_" (String "i"
           (String "n" (String "f" (String "o" (String "=" (c ++ rest)))))))))))
    with ("page_info=" ++ (c ++ rest))%string.
  unfold Link.captureHere. rewrite prefix_of_app.
  change (Link.drop 10 ("page_info=" ++ (c ++ rest))) with (c ++ rest)%string.
  assert (Ht : Link.takeUntil "&" (c ++ rest) = c).
  { destruct Hrest as [-> | [r [-> _]]].
    - rewrite string_app_nil_r. apply takeUntil_whole; assumption.
    - apply takeUntil_app; assumption. }
  rewrite Ht. destruct c; [congruence | reflexivity].
Qed.

Lemma nextMatch_skip a b :
  hasChar "<" a = false -> Link.nextMatch (a ++ b) = Link.nextMatch b.
Proof.
  induction a as [| x a IH]; cbn [hasChar]; intro H; [reflexivity |].
  apply orb_false_iff in H as [Hx Ha].
  change (String x a ++ b)%string with (String x (a ++ b)).
  cbn [Link.nextMatch]. rewrite Hx. apply IH; assumption.
Qed.

Lemma nextMatch_none s : hasChar "<" s = false -> Link.nextMatch s = None.
Proof.
  intro H. rewrite <- (string_app_nil_r s). rewrite nextMatch_skip by assumption. reflexivity.
Qed.

Lemma prefix_refl p : String.prefix p p = true.
Proof. rewrite <- (string_app_nil_r p) at 2. apply prefix_of_app. Qed.

(** A link marked next, alone or at the head of what follows it. *)
Lemma nextMatch_next_link u tail :
  hasChar ">" u = false ->
  Link.nextMatch (linkTo u "next" ++ tail)
  = match Link.lastPageInfo u with
    | Some cap => Some cap
    | None => Link.nextMatch (u ++ ">" ++ Link.relNext ++ tail)
    end.
Proof.
  intro Hu. unfold linkTo.
  assert (E : (("<" ++ u ++ ">; rel=" ++ Link.dquote ++ "next" ++ Link.dquote) ++ tail)%string
              = String "<" (u ++ String ">" (Link.relNext ++ tail))).
  { unfold Link.relNext. rewrite !string_app_assoc. reflexivity. }
  rewrite E. cbn [Link.nextMatch]. rewrite Ascii.eqb_refl.
  unfold Link.matchAfterOpen. rewrite splitAt_app by assumption.
  rewrite prefix_of_app. reflexivity.
Qed.

(** A link marked previous is passed over. *)
Lemma nextMatch_previous_link u tail :
  isAddress u ->
  Link.nextMatch (linkTo u "previous" ++ tail) = Link.nextMatch tail.
Proof.
  intros [Hlt Hgt]. unfold linkTo.
  assert (E : (("<" ++ u ++ ">; rel=" ++ Link.dquote ++ "previous" ++ Link.dquote) ++ tail)%string
              = String "<" (u ++ String ">"
                              ("; rel=" ++ Link.dquote ++ "previous" ++ Link.dquote ++ tail))).
  { rewrite !string_app_assoc. reflexivity. }
  rewrite E. cbn [Link.nextMatch]. rewrite Ascii.eqb_refl.
  unfold Link.matchAfterOpen. rewrite splitAt_app by assumption.
  assert (Hp : String.prefix Link.relNext
                 ("; rel=" ++ Link.dquote ++ "previous" ++ Link.dquote ++ tail) = false)
    by reflexivity.
  rewrite Hp.
  rewrite nextMatch_skip by assumption.
  change (String ">" ("; rel=" ++ Link.dquote ++ "previous" ++ Link.dquote ++ tail))
    with ((">; rel=" ++ Link.dquote ++ "previous" ++ Link.dquote) ++ tail)%string.
  apply nextMatch_skip. reflexivity.
Qed.

(** X6.  A cursor that the remote puts into a link header comes back out of
    it unchanged.  For a page address that carries [page_info=c], alone or
    followed by other parameters, the cursor read from the header is [c]
    when the header is the link marked next, and also when a link marked
    previous stands before it; the cursor of the previous link is never
    taken, and a header that has only a previous link gives no cursor, which
    ends the fetch. *)
Theorem cursor_round_trip_through_link_header :
  forall prevUrl base c rest : string,
    isAddress prevUrl ->
    isAddress (pageAddress base c rest) ->
    isCursor c -> hasChar "=" c = false ->
    otherParams rest ->
    Link.nextMatch (linkTo (pageAddress base c rest) "next") = Some c
    /\ Link.nextMatch (linkTo prevUrl "previous" ++ ", "
                         ++ linkTo (pageAddress base c rest) "next") = Some c
    /\ Link.nextMatch (linkTo prevUrl "previous") = None.
Proof.
  intros prevUrl base c rest Hprev [_ Hgt] (Hne & Hamp & _) Heq Hrest.
  assert (Hnext : forall tail,
             Link.nextMatch (linkTo (pageAddress base c rest) "next" ++ tail) = Some c).
  { intro tail. rewrite nextMatch_next_link by assumption.
    unfold pageAddress. rewrite lastPageInfo_cursor by assumption. reflexivity. }
  split; [| split].
  - rewrite <- (string_app_nil_r (linkTo _ "next")). apply Hnext.
  - rewrite nextMatch_previous_link by assumption.
    change (", " ++ linkTo (pageAddress base c rest) "next")%string
      with (String "," (String " " (linkTo (pageAddress base c rest) "next"))).
    cbn [Link.nextMatch]. 
    rewrite <- (string_app_nil_r (linkTo _ "next")). apply Hnext.
  - rewrite <- (string_app_nil_r (linkTo _ "previous")).
    rewrite nextMatch_previous_link by assumption. reflexivity.
Qed.

Lemma cursor_round_trip_through_link_header_witness :
  let prev := "https://acme.myshopify.com/admin/api/2024-01/customers.json?page_info=b3&limit=250" in
  let next := pageAddress "https://acme.myshopify.com/admin/api/2024-01/customers.json?"
                          "eyJsYXN0X2lkIjoxfQ" "&limit=250" in
  Link.nextMatch (linkTo next "next") = Some "eyJsYXN0X2lkIjoxfQ"
  /\ Link.nextMatch (linkTo prev "previous" ++ ", " ++ linkTo next "next")
     = Some "eyJsYXN0X2lkIjoxfQ"
  /\ Link.nextMatch (linkTo prev "previous") = None.
Proof.
  apply cursor_round_trip_through_link_header.
  - split; reflexivity.
  - split; reflexivity.
  - split; [discriminate | split; reflexivity].
  - reflexivity.
  - right. exists "limit=250". split; reflexivity.
Defined.

(* ===================================================================== *)
(** * The webhook route *)
(* ===================================================================== *)

Lemma run_handleCustomerWebhook w fuel tenantId shop tok data s :
  run w (handleCustomerWebhook fuel tenantId shop tok data) s =
  let r := run w (ingestCustomers fuel (newIngestionService tenantId shop tok)) s in
  (match outcomeOf r with Unfinished => Unfinished | _ => Returned tt end,
   storeOf r, traceOf r).
Proof.
  unfold handleCustomerWebhook. rewrite run_tryCatch, run_bind. cbv zeta.
  destruct (run w (ingestCustomers fuel (newIngestionService tenantId shop tok)) s)
    as [[[c | e |] s1] tr]; cbn; rewrite ?app_nil_r; reflexivity.
Qed.

Lemma run_handleProductWebhook w fuel tenantId shop tok data s :
  run w (handleProductWebhook fuel tenantId shop tok data) s =
  let r := run w (ingestProducts fuel (newIngestionService tenantId shop tok)) s in
  (match outcomeOf r with Unfinished => Unfinished | _ => Returned tt end,
   storeOf r, traceOf r).
Proof.
  unfold handleProductWebhook. rewrite run_tryCatch, run_bind. cbv zeta.
  destruct (run w (ingestProducts fuel (newIngestionService tenantId shop tok)) s)
    as [[[c | e |] s1] tr]; cbn; rewrite ?app_nil_r; reflexivity.
Qed.

(** The order handler never throws either. *)
Lemma handleOrderWebhook_never_throws w fuel tenantId shop tok data s e :
  outcomeOf (run w (handleOrderWebhook fuel tenantId shop tok data) s) <> Thrown e.
Proof.
  destruct data as [[rid |]].
  - rewrite run_handleOrderWebhook.
    destruct (lookupAnswer w (mkShopifyService shop tok) "orders" rid ResponseData.order);
      [| discriminate].
    destruct (run w (ingestOrders fuel (newIngestionService tenantId shop tok)) s)
      as [[[c | e' |] s1] tr]; discriminate.
  - rewrite run_handleOrderWebhook_no_id. discriminate.
Qed.


Lemma oneOf_in topic l : oneOf topic l = true <-> In topic l.
Proof.
  unfold oneOf. rewrite existsb_exists. split.
  - intros (x & Hx & He). apply String.eqb_eq in He. subst; assumption.
  - intro H. exists topic. split; [assumption | apply String.eqb_refl].
Qed.

Lemma oneOf_not_in topic l : ~ In topic l -> oneOf topic l = false.
Proof.
  intro H. destruct (oneOf topic l) eqn:E; [| reflexivity].
  apply oneOf_in in E. contradiction.
Qed.

Section Intake.
Variable rt : Runtime.
Variable fuel : nat.
Variable w : World.

(** What the [switch] of the route awaits. *)
Local Abbreviation switch tenant topic data :=
  (let handle (h : nat -> string -> string -> string -> Payload -> Proc unit) :=
     h fuel (Tenant.id tenant) (Tenant.shopDomain tenant) (Tenant.accessToken tenant) data in
   if oneOf topic ["orders/create"; "orders/updated"]
   then handle handleOrderWebhook
   else if oneOf topic ["customers/create"; "customers/update"]
   then handle handleCustomerWebhook
   else if oneOf topic ["products/create"; "products/update"]
   then handle handleProductWebhook
   else if oneOf topic ["orders/paid"]
   then handle handleOrderWebhook
   else Ret tt).

(** The handlers catch what they throw. *)
Lemma switch_never_throws tenant topic data s e :
  outcomeOf (run w (switch tenant topic data) s) <> Thrown e.
Proof.
  cbv zeta.
  set (tid := Tenant.id tenant). set (sd := Tenant.shopDomain tenant).
  set (tok := Tenant.accessToken tenant).
  assert (Hc : outcomeOf (run w (handleCustomerWebhook fuel tid sd tok data) s) <> Thrown e).
  { rewrite run_handleCustomerWebhook. cbv zeta.
    destruct (outcomeOf (run w (ingestCustomers fuel _) s)); discriminate. }
  assert (Hp : outcomeOf (run w (handleProductWebhook fuel tid sd tok data) s) <> Thrown e).
  { rewrite run_handleProductWebhook. cbv zeta.
    destruct (outcomeOf (run w (ingestProducts fuel _) s)); discriminate. }
  destruct (oneOf topic ["orders/create"; "orders/updated"]);
    [apply handleOrderWebhook_never_throws |].
  destruct (oneOf topic ["customers/create"; "customers/update"]); [exact Hc |].
  destruct (oneOf topic ["products/create"; "products/update"]); [exact Hp |].
  destruct (oneOf topic ["orders/paid"]); [apply handleOrderWebhook_never_throws |].
  discriminate.
Qed.

(** The route, case by case. *)
Lemma route_run req s :
  run w (shopifyWebhook rt fuel req) s =
  match JS.orNull (hmacHeader req), JS.orNull (shopDomainHeader req),
        JS.orNull (topicHeader req) with
  | Some signature, Some shop, Some topic =>
      match tenantOf s shop with
      | None => (Returned 404, s, [TenantFindUnique shop])
      | Some tenant =>
          match bodyToString rt (body req) with
          | inl _ => (Returned 500, s, [TenantFindUnique shop])
          | inr text =>
              if String.eqb (Crypto.hmacSha256Base64 (Tenant.accessToken tenant) text)
                            signature
              then
                match JSON_parse rt text with
                | inl _ => (Returned 500, s, [TenantFindUnique shop])
                | inr data =>
                    let r := run w (switch tenant topic data) s in
                    (match outcomeOf r with
                     | Returned _ | Thrown _ => Returned 200
                     | Unfinished => Unfinished
                     end, storeOf r, TenantFindUnique shop :: traceOf r)
                end
              else (Returned 401, s, [TenantFindUnique shop])
          end
      end
  | _, _, _ => (Returned 400, s, [])
  end.
Proof.
  unfold shopifyWebhook. rewrite run_tryCatch.
  destruct (JS.orNull (hmacHeader req)) as [sg |]; [| reflexivity].
  destruct (JS.orNull (shopDomainHeader req)) as [sh |]; [| reflexivity].
  destruct (JS.orNull (topicHeader req)) as [tp |]; [| reflexivity].
  rewrite run_bind, run_call. cbn [perform]. fold (tenantOf s sh).
  destruct (tenantOf s sh) as [tenant |]; [| reflexivity].
  destruct (bodyToString rt (body req)) as [e | text]; [reflexivity |].
  cbv zeta. unfold verifyShopifyWebhook.
  destruct (String.eqb (Crypto.hmacSha256Base64 (Tenant.accessToken tenant) text) sg);
    [| reflexivity].
  cbn [negb].
  destruct (JSON_parse rt text) as [e | data]; [reflexivity |].
  rewrite run_bind.
  pose proof (@switch_never_throws tenant tp data s) as Hnt. cbv zeta in Hnt.
  destruct (run w _ s) as [[[u | e |] s1] tr]; cbn; rewrite ?app_nil_r; try reflexivity.
  exfalso. apply (Hnt e). reflexivity.
Qed.

(** What the route does with a request it lets in. *)
Lemma route_let_in req s shop topic tenant text data :
  LetIn rt s req shop topic tenant text data ->
  run w (shopifyWebhook rt fuel req) s =
  let r := run w (switch tenant topic data) s in
  (match outcomeOf r with
   | Returned _ | Thrown _ => Returned 200
   | Unfinished => Unfinished
   end, storeOf r, TenantFindUnique shop :: traceOf r).
Proof.
  intros ((H1 & H2 & H3) & Ht & Hb & Hp).
  rewrite route_run, H1, H2, H3, Ht, Hb, String.eqb_refl, Hp. reflexivity.
Qed.
End Intake.

(** C7, at the failing input.  A notification that the order O1 has
    changed comes from a known shop with the signature that Shopify computes
    for it: the base64 HMAC-SHA256 of the bytes of its body under the stored
    credential of the tenant.  In the application it reaches the route with
    its body parsed already, because [server.ts] mounts [express.json()]
    before the routers; the route verifies the signature against
    [req.body.toString()], which is then "[object Object]" and not the body.
    The notification is answered 401, the store is as it was, and the
    orders are not re-synced.  The route mounted on its own, where
    [req.body] holds the bytes, lets the same notification in: 200, and one
    re-sync of the orders. *)
Theorem signed_notification_is_refused_by_the_application :
  let app := run Sample.world (shopifyWebhook Notice.runtime 4 Notice.inApplication)
                 Hook.store in
  let alone := run Sample.world (shopifyWebhook Notice.runtime 4 Notice.onItsOwn)
                   Hook.store in
  hmacHeader Notice.inApplication
  = Some (Crypto.hmacSha256Base64 (Tenant.accessToken Hook.tenant) Hook.bodyO1)
  /\ topicHeader Notice.inApplication = Some "orders/updated"
  /\ tenantOf Hook.store Sample.shop = Some Hook.tenant
  /\ bodyToString Notice.runtime (body Notice.inApplication) = inr "[object Object]"
  /\ app = (Returned 401, Hook.store, [TenantFindUnique Sample.shop])
  /\ resyncs "/orders.json" (traceOf app) = 0
  /\ outcomeOf alone = Returned 200
  /\ resyncs "/orders.json" (traceOf alone) = 1.
Proof.
  cbv zeta.
  split; [reflexivity |]. split; [reflexivity |]. split; [reflexivity |].
  split; [reflexivity |].
  assert (Happ : run Sample.world (shopifyWebhook Notice.runtime 4 Notice.inApplication)
                     Hook.store
                 = (Returned 401, Hook.store, [TenantFindUnique Sample.shop]))
    by (vm_compute; reflexivity).
  split; [exact Happ |]. rewrite Happ.
  split; [reflexivity |].
  split; vm_compute; reflexivity.
Qed.

(** Also on its own the route does not re-sync for every signed
    "orders/updated" notification: the remote has no order O9, the
    notification is answered 200, and no re-sync takes place. *)
Lemma signed_order_update_without_resync :
  let req := Notice.orderUpdatedO9 (Buffer Hook.bodyO9) in
  let r := run Sample.world (shopifyWebhook Notice.runtime 4 req) Hook.store in
  outcomeOf r = Returned 200 /\ storeOf r = Hook.store
  /\ resyncs "/orders.json" (traceOf r) = 0.
Proof.
  cbv zeta.
  split; [vm_compute; reflexivity |]. split; [vm_compute; reflexivity |].
  vm_compute; reflexivity.
Qed.

Local Ltac listed := cbn [In]; repeat (first [left; reflexivity | right]).
Local Ltac refused n :=
  exists n; split; [reflexivity | split; [listed | split; reflexivity]].

Lemma headers_or_not req :
  (forall signature shop topic, ~ Headers req signature shop topic)
  \/ exists signature shop topic, Headers req signature shop topic.
Proof.
  unfold Headers.
  destruct (JS.orNull (hmacHeader req)) as [sg |].
  2: { left. intros ? ? ? (Hx & _). discriminate. }
  destruct (JS.orNull (shopDomainHeader req)) as [sh |].
  2: { left. intros ? ? ? (_ & Hx & _). discriminate. }
  destruct (JS.orNull (topicHeader req)) as [tp |].
  2: { left. intros ? ? ? (_ & _ & Hx). discriminate. }
  right. exists sg, sh, tp. repeat split.
Qed.

(** X7.  The webhook route never throws and replies with 200, 400, 401, 404
    or 500.  A reply other than 200 leaves no trace: the store is as it was
    and the remote has not been contacted.  The reply is 400 exactly when
    one of the three headers is missing or empty, and then nothing has been
    awaited at all, not even the lookup of the tenant.  It is 500 only for
    the request of a known shop whose [req.body.toString()] throws, or gives
    a text that carries a correct signature and does not parse.  And a
    request whose body has been parsed to a JSON object before it reaches
    the route, as [express.json()] does in the application, is never let in:
    what is verified is the text "[object Object]", which is no JSON, so the
    reply is 400, 401, 404 or 500 whatever the signature is. *)
Theorem webhook_refusals_leave_no_trace :
  forall (rt : Runtime) (fuel : nat) (w : World) (s : Store) (req : WebhookRequest),
    let r := run w (shopifyWebhook rt fuel req) s in
    (outcomeOf r = Unfinished
     \/ exists status, outcomeOf r = Returned status /\ In status [200; 400; 401; 404; 500])
    /\ (forall status,
          outcomeOf r = Returned status -> status <> 200 ->
          storeOf r = s /\ noHttp (traceOf r) = true)
    /\ (outcomeOf r = Returned 400 <->
        forall signature shop topic, ~ Headers req signature shop topic)
    /\ ((forall signature shop topic, ~ Headers req signature shop topic) ->
        traceOf r = [])
    /\ (outcomeOf r = Returned 500 ->
        exists shop tenant,
          JS.orNull (shopDomainHeader req) = Some shop
          /\ tenantOf s shop = Some tenant
          /\ ((exists e, bodyToString rt (body req) = inl e)
              \/ exists text e,
                   bodyToString rt (body req) = inr text
                   /\ JS.orNull (hmacHeader req)
                      = Some (Crypto.hmacSha256Base64 (Tenant.accessToken tenant) text)
                   /\ JSON_parse rt text = inl e))
    /\ (forall fields,
          body req = Parsed (JObj fields) ->
          (exists e, JSON_parse rt "[object Object]" = inl e) ->
          exists status,
            outcomeOf r = Returned status /\ In status [400; 401; 404; 500]
            /\ storeOf r = s /\ noHttp (traceOf r) = true).
Proof.
  intros rt fuel w s req r. subst r. rewrite route_run.
  destruct (headers_or_not req) as [Hmiss | (sg & sh & tp & Hh)].
  - (* a header is missing *)
    match goal with
    | |- context [match JS.orNull (hmacHeader req) with _ => _ end] =>
        match goal with
        | |- context C [match JS.orNull (hmacHeader req) with
                        | Some a => @?f a
                        | None => ?g
                        end] =>
            assert (Hrun : match JS.orNull (hmacHeader req) with
                           | Some a => f a
                           | None => g
                           end = (Returned 400, s, []))
        end
    end.
    { destruct (JS.orNull (hmacHeader req)) as [a |] eqn:H1; [| reflexivity].
      destruct (JS.orNull (shopDomainHeader req)) as [b |] eqn:H2; [| reflexivity].
      destruct (JS.orNull (topicHeader req)) as [c |] eqn:H3; [| reflexivity].
      exfalso. apply (Hmiss a b c). repeat split; assumption. }
    cbv beta in Hrun. rewrite Hrun.
    unfold outcomeOf, storeOf, traceOf; cbn [fst snd].
    split; [right; exists 400; split; [reflexivity | listed] |].
    split; [intros; split; reflexivity |].
    split; [split; [intros _; assumption | reflexivity] |].
    split; [reflexivity |].
    split; [discriminate |].
    intros fields _ _. refused 400.
  - (* the headers are there *)
    assert (Hno : ~ (forall signature shop topic, ~ Headers req signature shop topic))
      by (intro H; eapply H; exact Hh).
    destruct Hh as (H1 & H2 & H3). rewrite H1, H2, H3.
    destruct (tenantOf s sh) as [tenant |] eqn:Ht.
    2: { unfold outcomeOf, storeOf, traceOf; cbn [fst snd].
         split; [right; exists 404; split; [reflexivity | listed] |].
         split; [intros; split; reflexivity |].
         split; [split; [discriminate | intro; contradiction] |].
         split; [intro; contradiction |].
         split; [discriminate |].
         intros fields _ _. refused 404. }
    destruct (bodyToString rt (body req)) as [e | text] eqn:Hb.
    { unfold outcomeOf, storeOf, traceOf; cbn [fst snd].
      split; [right; exists 500; split; [reflexivity | listed] |].
      split; [intros; split; reflexivity |].
      split; [split; [discriminate | intro; contradiction] |].
      split; [intro; contradiction |].
      split; [intros _; exists sh, tenant; eauto |].
      intros fields _ _. refused 500. }
    destruct (String.eqb (Crypto.hmacSha256Base64 (Tenant.accessToken tenant) text) sg)
      eqn:Hsig.
    2: { unfold outcomeOf, storeOf, traceOf; cbn [fst snd].
         split; [right; exists 401; split; [reflexivity | listed] |].
         split; [intros; split; reflexivity |].
         split; [split; [discriminate | intro; contradiction] |].
         split; [intro; contradiction |].
         split; [discriminate |].
         intros fields _ _. refused 401. }
    apply String.eqb_eq in Hsig.
    destruct (JSON_parse rt text) as [e | data] eqn:Hp.
    { unfold outcomeOf, storeOf, traceOf; cbn [fst snd].
      split; [right; exists 500; split; [reflexivity | listed] |].
      split; [intros; split; reflexivity |].
      split; [split; [discriminate | intro; contradiction] |].
      split; [intro; contradiction |].
      split.
      { intros _. exists sh, tenant. split; [reflexivity |]. split; [exact Ht |].
        right. exists text, e. subst sg. auto. }
      intros fields _ _. refused 500. }
    (* the request is let in *)
    cbv zeta.
    assert (Hobj : forall fields,
               body req = Parsed (JObj fields) ->
               (exists e, JSON_parse rt "[object Object]" = inl e) -> False).
    { intros fields Hf [e He]. rewrite Hf in Hb. cbn [bodyToString] in Hb.
      destruct (Js.get "toString" fields); [discriminate |].
      injection Hb as <-. congruence. }
    destruct (outcomeOf (run w _ s)) as [u | e |];
      unfold outcomeOf at 1 2 3 4 5, storeOf at 1 3, traceOf at 1 2 4; cbn [fst snd].
    + split; [right; exists 200; split; [reflexivity | listed] |].
      split; [intros status Hs Hne; congruence |].
      split; [split; [discriminate | intro; contradiction] |].
      split; [intro; contradiction |].
      split; [discriminate |].
      intros fields Hf He. exfalso. eapply Hobj; eassumption.
    + split; [right; exists 200; split; [reflexivity | listed] |].
      split; [intros status Hs Hne; congruence |].
      split; [split; [discriminate | intro; contradiction] |].
      split; [intro; contradiction |].
      split; [discriminate |].
      intros fields Hf He. exfalso. eapply Hobj; eassumption.
    + split; [left; reflexivity |].
      split; [discriminate |].
      split; [split; [discriminate | intro; contradiction] |].
      split; [intro; contradiction |].
      split; [discriminate |].
      intros fields Hf He. exfalso. eapply Hobj; eassumption.
Qed.

(** A request without the topic header is answered 400 and nothing is
    awaited.  In the application the notification for the order O1 is not
    let in, though its signature is the one of its body, and the store is as
    it was. *)
Lemma webhook_refusals_leave_no_trace_witness :
  run Sample.world (shopifyWebhook Notice.runtime 4 Notice.noTopic) Hook.store
  = (Returned 400, Hook.store, [])
  /\ (let r := run Sample.world (shopifyWebhook Notice.runtime 4 Notice.inApplication)
                   Hook.store in
      exists status,
        outcomeOf r = Returned status /\ In status [400; 401; 404; 500]
        /\ storeOf r = Hook.store /\ noHttp (traceOf r) = true).
Proof.
  split.
  - destruct (webhook_refusals_leave_no_trace Notice.runtime 4 Sample.world Hook.store
                Notice.noTopic) as (_ & Hquiet & H400 & Htr & _).
    assert (Hmiss : forall signature shop topic, ~ Headers Notice.noTopic signature shop topic)
      by (intros ? ? ? (_ & _ & H); discriminate).
    apply H400 in Hmiss as Ho. specialize (Htr Hmiss).
    destruct (Hquiet 400 Ho ltac:(discriminate)) as [Hs _].
    destruct (run Sample.world (shopifyWebhook Notice.runtime 4 Notice.noTopic) Hook.store)
      as [[o s1] tr].
    unfold outcomeOf, storeOf, traceOf in *; cbn [fst snd] in *. congruence.
  - destruct (webhook_refusals_leave_no_trace Notice.runtime 4 Sample.world Hook.store
                Notice.inApplication) as (_ & _ & _ & _ & _ & Happ).
    apply (Happ [("id", JStr "O1")] eq_refl).
    exists "Unexpected token in JSON". reflexivity.
Defined.

(** X8.  What a notification that has been let in triggers depends on its
    topic alone.  A customer topic runs the whole customer ingestion of the
    tenant and a product topic the whole product ingestion, whatever the
    body says; the reply is 200 also when that ingestion throws, so a
    failure to reach the remote is not reported to the sender.  The topics
    orders/create and orders/paid are handled as orders/updated is.  Any
    other topic is answered 200 after the lookup of the tenant and nothing
    else. *)
Theorem webhook_topic_decides_what_is_synced :
  forall (rt : Runtime) (fuel : nat) (w : World) (s : Store) (req : WebhookRequest)
         (shop topic : string) (tenant : Tenant.t) (text : string) (data : Payload),
    LetIn rt s req shop topic tenant text data ->
    let r := run w (shopifyWebhook rt fuel req) s in
    let service :=
      newIngestionService (Tenant.id tenant) (Tenant.shopDomain tenant)
                          (Tenant.accessToken tenant) in
    (In topic customerTopics ->
     r = acknowledged shop (run w (ingestCustomers fuel service) s))
    /\ (In topic productTopics ->
        r = acknowledged shop (run w (ingestProducts fuel service) s))
    /\ (In topic orderTopics ->
        r = run w (shopifyWebhook rt fuel (withTopic req "orders/updated")) s)
    /\ (~ In topic (customerTopics ++ productTopics ++ orderTopics) ->
        r = (Returned 200, s, [TenantFindUnique shop])).
Proof.
  intros rt fuel w s req shop topic tenant text data Hin r service.
  assert (Hr : r = _) by (subst r; apply (route_let_in fuel w Hin)).
  cbv zeta in Hr.
  split; [| split; [| split]].
  - intro Ht. rewrite Hr.
    assert (E1 : oneOf topic ["orders/create"; "orders/updated"] = false).
    { apply oneOf_not_in. cbn in *. intuition (subst; discriminate). }
    assert (E2 : oneOf topic ["customers/create"; "customers/update"] = true)
      by (apply oneOf_in; assumption).
    rewrite E1, E2, run_handleCustomerWebhook. cbv zeta. fold service.
    unfold acknowledged, outcomeOf, storeOf, traceOf. cbn [fst snd].
    destruct (fst (fst (run w (ingestCustomers fuel service) s))); reflexivity.
  - intro Ht. rewrite Hr.
    assert (E1 : oneOf topic ["orders/create"; "orders/updated"] = false).
    { apply oneOf_not_in. cbn in *. intuition (subst; discriminate). }
    assert (E2 : oneOf topic ["customers/create"; "customers/update"] = false).
    { apply oneOf_not_in. cbn in *. intuition (subst; discriminate). }
    assert (E3 : oneOf topic ["products/create"; "products/update"] = true)
      by (apply oneOf_in; assumption).
    rewrite E1, E2, E3, run_handleProductWebhook. cbv zeta. fold service.
    unfold acknowledged, outcomeOf, storeOf, traceOf. cbn [fst snd].
    destruct (fst (fst (run w (ingestProducts fuel service) s))); reflexivity.
  - intro Ht.
    assert (Hin' : LetIn rt s (withTopic req "orders/updated") shop "orders/updated"
                         tenant text data).
    { destruct Hin as ((H1 & H2 & H3) & Hten & Hb & Hp).
      split; [| split; [assumption | split; assumption]]. repeat split; assumption. }
    rewrite (route_let_in fuel w Hin'). rewrite Hr.
    cbn in Ht. destruct Ht as [<- | [<- | [<- | []]]]; reflexivity.
  - intro Ht. rewrite Hr.
    assert (E1 : oneOf topic ["orders/create"; "orders/updated"] = false).
    { apply oneOf_not_in. intro H. apply Ht. cbn in *. intuition. }
    assert (E2 : oneOf topic ["customers/create"; "customers/update"] = false).
    { apply oneOf_not_in. intro H. apply Ht. cbn in *. intuition. }
    assert (E3 : oneOf topic ["products/create"; "products/update"] = false).
    { apply oneOf_not_in. intro H. apply Ht. cbn in *. intuition. }
    assert (E4 : oneOf topic ["orders/paid"] = false).
    { apply oneOf_not_in. intro H. apply Ht. cbn in *. intuition. }
    rewrite E1, E2, E3, E4. reflexivity.
Qed.

Lemma sample_gone_let_in :
  LetIn Gone.runtime Cycle.store Gone.notification "gone.myshopify.com" "customers/create"
        Cycle.revoked Gone.text (mkPayload (Some "C7")).
Proof.
  split; [| split; [reflexivity | split; reflexivity]].
  unfold Headers, Gone.notification. cbn [hmacHeader shopDomainHeader topicHeader].
  split; [vm_compute; reflexivity | split; reflexivity].
Qed.

(** A request that the application lets in: a JSON array that holds one
    string, signed over that string, for the shop whose credential has been
    revoked and with a customer topic.  The customer ingestion throws at
    its first request, and the reply is 200. *)
Lemma webhook_topic_decides_what_is_synced_witness :
  let service := newIngestionService "tenant-0" "gone.myshopify.com" "shpat_old" in
  bodyToString Gone.runtime (body Gone.notification) = inr Gone.text
  /\ outcomeOf (run Sample.world (ingestCustomers 4 service) Cycle.store)
     = Thrown "Request failed with status code 401"
  /\ run Sample.world (shopifyWebhook Gone.runtime 4 Gone.notification) Cycle.store
     = acknowledged "gone.myshopify.com" (run Sample.world (ingestCustomers 4 service) Cycle.store)
  /\ outcomeOf (acknowledged "gone.myshopify.com"
                  (run Sample.world (ingestCustomers 4 service) Cycle.store))
     = Returned 200.
Proof.
  intro service.
  split; [reflexivity |].
  split; [reflexivity |].
  split; [| reflexivity].
  exact (proj1 (webhook_topic_decides_what_is_synced 4 Sample.world sample_gone_let_in)
               (or_introl eq_refl)).
Defined.

(* ===================================================================== *)
(** * [server.ts]: the origin check *)
(* ===================================================================== *)

Lemma allowedOrigins_fixed env :
  In "http://localhost:3000" (allowedOrigins env)
  /\ In "https://xenofde-frontend-production.up.railway.app" (allowedOrigins env).
Proof.
  unfold allowedOrigins. cbn [flat_map].
  split; apply in_or_app; right; cbn; auto.
Qed.

Lemma allowedOrigins_in env o :
  In o (allowedOrigins env)
  <-> JS.orNull (Env.FRONTEND_URL env) = Some o
      \/ o = "http://localhost:3000"
      \/ o = "https://xenofde-frontend-production.up.railway.app".
Proof.
  unfold allowedOrigins. cbn [flat_map]. rewrite in_app_iff. cbn.
  destruct (JS.orNull (Env.FRONTEND_URL env)) as [f |]; cbn;
    intuition (try congruence; try discriminate; auto).
Qed.

(** X9.  The origin check of the server never refuses a request that
    carries no origin, and in production it refuses nobody: with NODE_ENV
    set to production every origin is allowed, listed or not.  Outside
    production an origin is allowed exactly when it is the configured
    front end, http://localhost:3000 or the deployed front end, and any
    other origin is refused with the error "Not allowed by CORS".  The list
    of allowed origins is never empty, so the test for an empty list never
    decides anything. *)
Theorem origin_check_is_open_in_production :
  forall (env : Env.t) (origin : option string),
    (JS.orNull origin = None -> corsOrigin env origin = inr true)
    /\ (Env.NODE_ENV env = Some "production" -> corsOrigin env origin = inr true)
    /\ allowedOrigins env <> []
    /\ (Env.NODE_ENV env <> Some "production" ->
        forall o,
          JS.orNull origin = Some o ->
          (In o (allowedOrigins env) -> corsOrigin env origin = inr true)
          /\ (~ In o (allowedOrigins env) ->
              corsOrigin env origin = inl "Not allowed by CORS")).
Proof.
  intros env origin.
  pose proof (allowedOrigins_fixed env) as [Hlocal _].
  assert (Hne : allowedOrigins env <> []) by (intro H; rewrite H in Hlocal; contradiction).
  assert (Hlen : Nat.eqb (List.length (allowedOrigins env)) 0 = false).
  { destruct (allowedOrigins env); [congruence | reflexivity]. }
  unfold corsOrigin. rewrite Hlen. cbn [orb].
  split; [intros ->; reflexivity |].
  split.
  { intros ->. destruct (JS.orNull origin) as [o |]; [| reflexivity].
    destruct (existsb (String.eqb o) (allowedOrigins env)); reflexivity. }
  split; [exact Hne |].
  intros Hmode o ->. split.
  - intro Hin.
    assert (He : existsb (String.eqb o) (allowedOrigins env) = true).
    { apply existsb_exists. exists o. split; [assumption | apply String.eqb_refl]. }
    rewrite He. reflexivity.
  - intro Hn.
    assert (He : existsb (String.eqb o) (allowedOrigins env) = false).
    { destruct (existsb (String.eqb o) (allowedOrigins env)) eqn:E; [| reflexivity].
      apply existsb_exists in E as (x & Hx & Hxo). apply String.eqb_eq in Hxo.
      subst x. contradiction. }
    rewrite He.
    destruct (Env.NODE_ENV env) as [mode |]; [| reflexivity].
    destruct (String.eqb mode "production") eqn:Em; [| reflexivity].
    apply String.eqb_eq in Em. subst mode. contradiction.
Qed.

(** An origin that is on no list: let in when NODE_ENV is production,
    refused in development. *)
Lemma origin_check_is_open_in_production_witness :
  corsOrigin (Env.mk None (Some "production") None) (Some "https://elsewhere.example")
  = inr true
  /\ corsOrigin (Env.mk None (Some "development") None) (Some "https://elsewhere.example")
     = inl "Not allowed by CORS".
Proof.
  split.
  - exact (proj1 (proj2 (origin_check_is_open_in_production
                           (Env.mk None (Some "production") None)
                           (Some "https://elsewhere.example"))) eq_refl).
  - destruct (origin_check_is_open_in_production
                (Env.mk None (Some "development") None)
                (Some "https://elsewhere.example")) as (_ & _ & _ & Hdev).
    assert (Hmode : Env.NODE_ENV (Env.mk None (Some "development") None)
                    <> Some "production") by discriminate.
    destruct (Hdev Hmode "https://elsewhere.example" eq_refl) as [_ Hrefused].
    apply Hrefused.
    unfold allowedOrigins. cbn [flat_map Env.FRONTEND_URL JS.orNull app In].
    intros [H | [H | []]]; discriminate.
Defined.

(* ===================================================================== *)
(** * [auth.middleware.ts] *)
(* ===================================================================== *)

Lemma split_nonempty sep s : Js.split sep s <> [].
Proof.
  destruct s as [| c r]; cbn; [discriminate |].
  destruct (Ascii.eqb c sep); [discriminate |].
  destruct (Js.split sep r); discriminate.
Qed.

Lemma split_word sep a :
  hasChar sep a = false -> Js.split sep a = [a].
Proof.
  induction a as [| c a IH]; cbn; intro H; [reflexivity |].
  apply orb_false_iff in H as [Hc Ha]. rewrite Hc, (IH Ha). reflexivity.
Qed.

Lemma split_app sep a b :
  hasChar sep a = false -> Js.split sep (a ++ String sep b) = a :: Js.split sep b.
Proof.
  induction a as [| c a IH]; cbn; intro H.
  - rewrite Ascii.eqb_refl. reflexivity.
  - apply orb_false_iff in H as [Hc Ha]. rewrite Hc, (IH Ha). reflexivity.
Qed.

(** The first word of [s] and what comes after the separator. *)
Lemma split_cons sep s first rest :
  Js.split sep s = first :: rest ->
  hasChar sep first = false
  /\ (rest = [] /\ s = first
      \/ exists tail, s = (first ++ String sep tail)%string /\ Js.split sep tail = rest).
Proof.
  revert first rest. induction s as [| c s IH]; intros first rest H; cbn in H.
  - injection H as <- <-. split; [reflexivity | left; split; reflexivity].
  - destruct (Ascii.eqb c sep) eqn:Ec.
    + injection H as <- <-. apply Ascii.eqb_eq in Ec. subst c.
      split; [reflexivity |]. right. exists s. split; reflexivity.
    + destruct (Js.split sep s) as [| f r] eqn:Hs; [exfalso; eapply split_nonempty; eassumption |].
      injection H as <- <-.
      destruct (IH f r eq_refl) as [Hf [[-> ->] | (tail & -> & Ht)]].
      * split; [cbn; rewrite Ec, Hf; reflexivity |]. left; split; reflexivity.
      * split; [cbn; rewrite Ec, Hf; reflexivity |].
        right. exists tail. split; [reflexivity | assumption].
Qed.

Lemma bearerToken_second_word h token :
  bearerToken (Some h) = Some token <-> token <> "" /\ SecondWord h token.
Proof.
  unfold bearerToken, SecondWord. split.
  - intro H.
    unfold JS.orNull at 1 in H.
    destruct (JS.truthy h); [| discriminate].
    destruct (Js.split " " h) as [| first rest] eqn:Hs; [discriminate |].
    cbn [nth_error] in H.
    destruct rest as [| word rest]; [discriminate |].
    cbn [nth_error] in H. unfold JS.orNull in H.
    destruct (JS.truthy word) eqn:Hw; [| discriminate]. injection H as ->.
    apply split_cons in Hs as [Hf [[Hr _] | (tail & -> & Ht)]]; [discriminate |].
    apply split_cons in Ht as [Hword [[-> ->] | (tail2 & -> & _)]].
    + split; [apply truthy_iff; assumption |].
      exists first, "". rewrite string_app_nil_r.
      split; [reflexivity |]. split; [assumption |]. split; [assumption |].
      left; reflexivity.
    + split; [apply truthy_iff; assumption |].
      exists first, (String " " tail2).
      split; [reflexivity |].
      split; [assumption |]. split; [assumption |].
      right. exists tail2. reflexivity.
  - intros [Hne (first & rest & -> & Hf & Hw & Hrest)].
    assert (Hh : JS.truthy (first ++ " " ++ token ++ rest) = true).
    { destruct first; reflexivity. }
    unfold JS.orNull at 1. rewrite Hh.
    change (first ++ " " ++ token ++ rest)%string
      with (first ++ String " " (token ++ rest))%string.
    rewrite split_app by assumption.
    assert (Ht : exists more, Js.split " " (token ++ rest) = token :: more).
    { destruct Hrest as [-> | [r ->]].
      - rewrite string_app_nil_r, split_word by assumption. eauto.
      - change (token ++ " " ++ r)%string with (token ++ String " " r)%string.
        rewrite split_app by assumption. eauto. }
    destruct Ht as [more ->]. cbn [nth_error].
    unfold JS.orNull. apply truthy_iff in Hne. rewrite Hne. reflexivity.
Qed.

(** X10.  [authenticateToken] takes as the token the second of the words
    of the Authorization header that single blanks separate, whatever the
    first word is: the scheme is never compared with Bearer, and what comes
    after the second word is ignored.  A header that is missing or empty,
    has one word only, or has two blanks after the scheme (so that the
    second word is empty) is answered 401 without the token library being
    asked; a token that does not verify is answered 403; otherwise the next
    handler gets the user and the tenant named in the payload of the
    token. *)
Theorem token_is_second_word_of_header :
  forall (lib : Library) (env : Env.t) (req : Request.t),
    (forall h token,
        bearerToken (Some h) = Some token <-> token <> "" /\ SecondWord h token)
    /\ (bearerToken (Request.authorization req) = None ->
        authenticateToken lib env req = inl (errorReply 401 "Access token required"))
    /\ (forall token,
          bearerToken (Request.authorization req) = Some token ->
          authenticateToken lib env req
          = match jwtVerify lib token (checkingSecret env) with
            | inl _ => inl (errorReply 403 "Invalid or expired token")
            | inr decoded =>
                inr (AuthRequest.mk req (Jwt.userId decoded) (Jwt.tenantId decoded))
            end).
Proof.
  intros lib env req.
  split; [intros h token; apply bearerToken_second_word |].
  unfold authenticateToken.
  split; [intros ->; reflexivity | intros token ->; reflexivity].
Qed.

(** A header with another scheme and something after the token: the token
    is taken all the same.  With two blanks after Bearer the second word is
    empty, and the reply is 401. *)
Lemma token_is_second_word_of_header_witness :
  bearerToken (Some "Basic eyJhbGciOiJIUzI1NiJ9.e30.abc and more")
  = Some "eyJhbGciOiJIUzI1NiJ9.e30.abc"
  /\ authenticateToken Standin.library Standin.bare
                       (Request.mk (Some "Bearer  eyJhbGciOiJIUzI1NiJ9.e30.abc") [])
     = inl (errorReply 401 "Access token required").
Proof.
  split.
  - apply (proj1 (token_is_second_word_of_header Standin.library Standin.bare
                    (Request.mk None []))).
    split; [discriminate |].
    exists "Basic", " and more".
    split; [reflexivity |]. split; [reflexivity |]. split; [reflexivity |].
    right. exists "and more". reflexivity.
  - apply (proj1 (proj2 (token_is_second_word_of_header Standin.library Standin.bare
                           (Request.mk (Some "Bearer  eyJhbGciOiJIUzI1NiJ9.e30.abc") [])))).
    reflexivity.
Defined.

(* ===================================================================== *)
(** * Facts about [Handler] and [serve] *)
(* ===================================================================== *)

Lemma serve_andThen {A B : Type} (aw : ApiWorld) (m : Handler A) (f : A -> Handler B) :
  forall db,
    serve aw (andThen m f) db =
    match serve aw m db with
    | (Returned a, db1, tr1) =>
        let '(o, db2, tr2) := serve aw (f a) db1 in (o, db2, tr1 ++ tr2)
    | (Thrown e, db1, tr1) => (Thrown e, db1, tr1)
    | (Unfinished, db1, tr1) => (Unfinished, db1, tr1)
    end.
Proof.
  induction m as [a | e | | op k IH]; intro db; simpl.
  - destruct (serve aw (f a) db) as [[o db2] tr2]; reflexivity.
  - reflexivity.
  - reflexivity.
  - destruct (performApi aw op db) as [r db1].
    rewrite IH.
    destruct (serve aw (k r) db1) as [[[a | e |] db2] tr1]; try reflexivity.
    destruct (serve aw (f a) db2) as [[o db3] tr2]; reflexivity.
Qed.

Lemma serve_catch {A : Type} (aw : ApiWorld) (m : Handler A) (h : Error -> Handler A) :
  forall db,
    serve aw (catch m h) db =
    match serve aw m db with
    | (Thrown e, db1, tr1) =>
        let '(o, db2, tr2) := serve aw (h e) db1 in (o, db2, tr1 ++ tr2)
    | r => r
    end.
Proof.
  induction m as [a | e | | op k IH]; intro db; simpl.
  - reflexivity.
  - destruct (serve aw (h e) db) as [[o db2] tr2]; reflexivity.
  - reflexivity.
  - destruct (performApi aw op db) as [r db1].
    rewrite IH.
    destruct (serve aw (k r) db1) as [[[a | e |] db2] tr1]; try reflexivity.
    destruct (serve aw (h e) db2) as [[o db3] tr2]; reflexivity.
Qed.

Lemma serve_await (aw : ApiWorld) (op : ApiOp) (db : Database) :
  serve aw (await op) db =
  match performApi aw op db with
  | (inl e, db1) => (Thrown e, db1, [op])
  | (inr v, db1) => (Returned v, db1, [op])
  end.
Proof.
  unfold await; simpl.
  destruct (performApi aw op db) as [[e | v] db1]; reflexivity.
Qed.

Lemma setCore_core db : setCore db (core db) = db.
Proof. destruct db; reflexivity. Qed.

(** A method of the services, awaited by a route: it runs on the core of the
    store, and its history is that of the method. *)
Lemma serve_lift {A : Type} (aw : ApiWorld) (p : Proc A) :
  forall db,
    serve aw (lift p) db =
    (outcomeOf (run (remote aw) p (core db)),
     setCore db (storeOf (run (remote aw) p (core db))),
     map Core (traceOf (run (remote aw) p (core db)))).
Proof.
  induction p as [a | e | | op k IH]; intro db; cbn [lift serve run].
  - unfold outcomeOf, storeOf, traceOf; cbn. rewrite setCore_core. reflexivity.
  - unfold outcomeOf, storeOf, traceOf; cbn. rewrite setCore_core. reflexivity.
  - unfold outcomeOf, storeOf, traceOf; cbn. rewrite setCore_core. reflexivity.
  - cbn [performApi].
    destruct (perform (remote aw) op (core db)) as [r s1].
    rewrite IH. cbn [setCore core users eventRows serial].
    destruct (run (remote aw) (k r) s1) as [[o s2] tr].
    unfold outcomeOf, storeOf, traceOf; cbn. reflexivity.
Qed.

(* ===================================================================== *)
(** * [ingestion.routes.ts] *)
(* ===================================================================== *)

Section RouterFacts.
Variable aw : ApiWorld.
Variable env : Env.t.

Local Abbreviation lib := (library aw).

Lemma behindAuth_unauthenticated handler req db :
  Unauthenticated lib env req ->
  exists r,
    serve aw (behindAuth lib env handler req) db = (Returned r, db, [])
    /\ (statusCode r = 401 \/ statusCode r = 403).
Proof.
  unfold Unauthenticated, behindAuth, authenticateToken, checkingSecret.
  destruct (bearerToken (Request.authorization req)) as [token |].
  - destruct (jwtVerify lib token _) as [e | decoded].
    + intros _. eexists; split; [reflexivity | right; reflexivity].
    + intro Hno. unfold requireTenant. cbn [AuthRequest.tenantId]. rewrite Hno.
      eexists; split; [reflexivity | right; reflexivity].
  - intros _. eexists; split; [reflexivity | left; reflexivity].
Qed.

Lemma behindAuth_authenticated handler req db decoded tenantId :
  AuthenticatedAs lib env req decoded tenantId ->
  serve aw (behindAuth lib env handler req) db
  = serve aw (handler (AuthRequest.mk req (Jwt.userId decoded) (Jwt.tenantId decoded))) db.
Proof.
  intros (token & Ht & Hv & Hid).
  unfold behindAuth, authenticateToken. rewrite Ht.
  fold (checkingSecret env). rewrite Hv.
  unfold requireTenant. cbn [AuthRequest.tenantId]. rewrite Hid. reflexivity.
Qed.

(** Either the one or the other. *)
Lemma authenticated_or_not req :
  Unauthenticated lib env req
  \/ exists decoded tenantId, AuthenticatedAs lib env req decoded tenantId.
Proof.
  unfold Unauthenticated, AuthenticatedAs.
  destruct (bearerToken (Request.authorization req)) as [token |]; [| left; exact I].
  destruct (jwtVerify lib token (checkingSecret env)) as [e | decoded] eqn:Hv;
    [left; exact I |].
  destruct (JS.orNull (Jwt.tenantId decoded)) as [tid |] eqn:Hid; [| left; reflexivity].
  right. exists decoded, tid, token. repeat split; assumption.
Qed.

(** What a sync route does for a request that names the tenant [tid]. *)
Lemma serve_syncHandler ingest completed failed req db tid :
  JS.orNull (AuthRequest.tenantId req) = Some tid ->
  serve aw (syncHandler ingest completed failed req) db =
  match tenantById db tid with
  | None => (Returned (errorReply 404 "Tenant not found"), db, [TenantFindById tid])
  | Some tenant =>
      let r := run (remote aw)
                   (ingest (newIngestionService (Tenant.id tenant) (Tenant.shopDomain tenant)
                                                (Tenant.accessToken tenant)))
                   (core db) in
      (match outcomeOf r with
       | Returned result =>
           Returned (reply 200 (JObj [("message", JStr completed);
                                      ("result", countsJson result)]))
       | Thrown e => Returned (failureReply failed e)
       | Unfinished => Unfinished
       end,
       setCore db (storeOf r),
       TenantFindById tid :: map Core (traceOf r))
  end.
Proof.
  intro Hid. unfold syncHandler. rewrite Hid.
  rewrite serve_catch, serve_andThen, serve_await. cbn [performApi].
  destruct (tenantById db tid) as [tenant |]; [| reflexivity].
  rewrite serve_andThen, serve_lift. cbv zeta.
  destruct (outcomeOf (run (remote aw) _ (core db))) as [c | e |]; cbn;
    rewrite ?app_nil_r; reflexivity.
Qed.
End RouterFacts.

(** X11.  The routes of the ingestion router stand behind the two
    middlewares, and nothing of a route runs before they have let the
    request through.  A request whose token is missing, does not verify, or
    names no tenant is answered 401 or 403 with nothing awaited: the store
    is not read or written and the remote is not contacted.  A request that
    gets through reaches the handler with the user and the tenant named in
    the payload of its token, and with nothing taken from anywhere else. *)
Theorem nothing_runs_before_authentication :
  forall (aw : ApiWorld) (env : Env.t) (handler : AuthRequest.t -> Handler Reply)
         (req : Request.t) (db : Database),
    (Unauthenticated (library aw) env req ->
     exists r,
       serve aw (behindAuth (library aw) env handler req) db = (Returned r, db, [])
       /\ (statusCode r = 401 \/ statusCode r = 403))
    /\ (forall decoded tenantId,
          AuthenticatedAs (library aw) env req decoded tenantId ->
          serve aw (behindAuth (library aw) env handler req) db
          = serve aw (handler (AuthRequest.mk req (Jwt.userId decoded) (Jwt.tenantId decoded)))
                  db)
    /\ (Unauthenticated (library aw) env req
        \/ exists decoded tenantId, AuthenticatedAs (library aw) env req decoded tenantId).
Proof.
  intros aw env handler req db.
  split; [apply behindAuth_unauthenticated |].
  split; [intros decoded tenantId; apply behindAuth_authenticated |].
  apply authenticated_or_not.
Qed.

(** ** The sync routes *)

(** An ingestion that does not return has left the store alone. *)
Lemma ingestion_not_returned_store {X : Type} (w : World) (fetch : Proc (list X))
    (loop : list X -> Proc Counts) (s : Store) :
  storeOf (run w fetch s) = s ->
  (forall l, exists tr c s1, run w (loop l) s = (Returned c, s1, tr) /\ noHttp tr = true) ->
  (forall c, outcomeOf (run w (l <- fetch ;; loop l) s) <> Returned c) ->
  storeOf (run w (l <- fetch ;; loop l) s) = s.
Proof.
  intros Hs Hloop. rewrite run_fetch_then_loop by exact Hs.
  destruct (outcomeOf (run w fetch s)) as [l | e |]; try reflexivity.
  destruct (Hloop l) as (tr & c & s1 & Hrun & _). rewrite Hrun.
  unfold outcomeOf; cbn [fst]. intro H. exfalso. apply (H c). reflexivity.
Qed.

Lemma ingestCustomers_not_returned w fuel this s :
  (forall c, outcomeOf (run w (ingestCustomers fuel this) s) <> Returned c) ->
  storeOf (run w (ingestCustomers fuel this) s) = s.
Proof.
  unfold ingestCustomers, getCustomers.
  apply ingestion_not_returned_store; [apply paginate_store |].
  intro l. destruct (run_ingestCustomersLoop w (serviceTenantId this) l s 0 0) as [tr [H Hn]].
  eauto 6.
Qed.

Lemma ingestProducts_not_returned w fuel this s :
  (forall c, outcomeOf (run w (ingestProducts fuel this) s) <> Returned c) ->
  storeOf (run w (ingestProducts fuel this) s) = s.
Proof.
  unfold ingestProducts, getProducts.
  apply ingestion_not_returned_store; [apply paginate_store |].
  intro l. destruct (run_ingestProductsLoop w (serviceTenantId this) l s 0 0) as [tr [H Hn]].
  eauto 6.
Qed.

Lemma ingestOrders_not_returned w fuel this s :
  (forall c, outcomeOf (run w (ingestOrders fuel this) s) <> Returned c) ->
  storeOf (run w (ingestOrders fuel this) s) = s.
Proof.
  unfold ingestOrders, getOrders.
  apply ingestion_not_returned_store; [apply paginate_store |].
  intro l. destruct (run_ingestOrdersLoop w (serviceTenantId this) l s 0 0) as [tr [H Hn]].
  eauto 6.
Qed.

Lemma existsb_isRemote_map_core tr :
  existsb isRemote (map Core tr) = existsb isHttp tr.
Proof.
  induction tr as [| op tr IH]; [reflexivity |].
  cbn. rewrite IH. destruct op; reflexivity.
Qed.

Section SyncRoute.
Variable aw : ApiWorld.
Variable ingest : IngestionService -> Proc Counts.
Variables completed failed : string.

Hypothesis ingest_not_returned :
  forall this s,
    (forall c, outcomeOf (run (remote aw) (ingest this) s) <> Returned c) ->
    storeOf (run (remote aw) (ingest this) s) = s.

Lemma syncHandler_replies req db tid :
  JS.orNull (AuthRequest.tenantId req) = Some tid ->
  SyncReplies aw ingest db tid (serve aw (syncHandler ingest completed failed req) db).
Proof.
  intros Hid. unfold SyncReplies.
  rewrite (serve_syncHandler aw ingest completed failed req db Hid).
  destruct (tenantById db tid) as [tenant |].
  - cbv zeta.
    set (this := newIngestionService (Tenant.id tenant) (Tenant.shopDomain tenant)
                                     (Tenant.accessToken tenant)).
    pose proof (ingest_not_returned this (core db)) as Hnr.
    destruct (run (remote aw) (ingest this) (core db)) as [[o s1] tr] eqn:Hrun.
    unfold replyOf, dbOf, awaitedBy, outcomeOf, storeOf, traceOf in *; cbn [fst snd] in *.
    destruct o as [c | e |].
    + split; [right; eexists; split; [reflexivity | left; reflexivity] |].
      split; [intros rp H; injection H as <-; cbn; congruence |].
      split; [intros rp H; injection H as <-; cbn; discriminate |].
      split; [| split; reflexivity].
      intros rp H _. injection H as <-.
      exists tenant, c. fold this. rewrite Hrun.
      split; [reflexivity |]. split; [split; reflexivity | reflexivity].
    + assert (Hs : s1 = core db) by (apply Hnr; discriminate). subst s1.
      rewrite setCore_core.
      split; [right; eexists; split; [reflexivity | right; right; reflexivity] |].
      split; [intros; reflexivity |].
      split; [intros rp H; injection H as <-; cbn; discriminate |].
      split; [| split; reflexivity].
      intros rp H; injection H as <-; cbn; discriminate.
    + split; [left; reflexivity |].
      split; [discriminate |]. split; [discriminate |]. split; [discriminate |].
      split; reflexivity.
  - unfold replyOf, dbOf, awaitedBy; cbn [fst snd].
    split; [right; eexists; split; [reflexivity | right; left; reflexivity] |].
    split; [intros; reflexivity |].
    split; [intros; split; reflexivity |].
    split; [| split; reflexivity].
    intros rp H; injection H as <-; cbn; discriminate.
Qed.
End SyncRoute.

(** X12.  A sync route that does not answer 200 has changed nothing.  For
    a request that names a tenant, each of /sync/customers, /sync/products
    and /sync/orders answers 200, 404 or 500 and never throws; with any
    answer but 200 the database is as it was; 404 is the answer when no
    tenant has the id of the token, and then only that lookup has been
    awaited; with 200 the ingestion of that tenant has returned, the store
    is the one it left, and the reply carries its counters.  The users and
    the events are never touched. *)
Theorem sync_route_changes_nothing_unless_200 :
  forall (aw : ApiWorld) (fuel : nat) (req : AuthRequest.t) (db : Database) (tid : string),
    JS.orNull (AuthRequest.tenantId req) = Some tid ->
    SyncReplies aw (ingestCustomers fuel) db tid (serve aw (syncCustomers fuel req) db)
    /\ SyncReplies aw (ingestProducts fuel) db tid (serve aw (syncProducts fuel req) db)
    /\ SyncReplies aw (ingestOrders fuel) db tid (serve aw (syncOrders fuel req) db).
Proof.
  intros aw fuel req db tid Hid.
  split; [| split]; (apply syncHandler_replies; [| assumption]); intros this s.
  - apply ingestCustomers_not_returned.
  - apply ingestProducts_not_returned.
  - apply ingestOrders_not_returned.
Qed.

(** Without an Authorization header the customer sync is answered 401 and
    nothing is awaited. *)
Lemma nothing_runs_before_authentication_witness :
  exists r,
    serve Standin.app
          (behindAuth Standin.library Standin.bare (syncCustomers 4) (Request.mk None []))
          Standin.db
    = (Returned r, Standin.db, [])
    /\ (statusCode r = 401 \/ statusCode r = 403).
Proof.
  exact (proj1 (nothing_runs_before_authentication Standin.app Standin.bare (syncCustomers 4)
                  (Request.mk None []) Standin.db) I).
Defined.

Lemma sync_route_changes_nothing_unless_200_witness :
  SyncReplies Standin.app (ingestCustomers 4) Standin.db "tenant-1"
              (serve Standin.app (syncCustomers 4 (Standin.asTenant1 [])) Standin.db).
Proof.
  exact (proj1 (sync_route_changes_nothing_unless_200 Standin.app 4 (Standin.asTenant1 [])
                  Standin.db eq_refl)).
Defined.

(** ** The event route *)

Lemma optionalString_textOf v :
  optionalString (if Js.truthy v then v else None)
  = match (if Js.truthy v then v else None) with
    | None => Some None
    | Some (JStr s) => Some (textOf v)
    | Some _ => None
    end.
Proof.
  destruct v as [[| b | n | s | l | f] |]; cbn; try reflexivity.
  - destruct b; reflexivity.
  - destruct (JS.truthyNum n); reflexivity.
  - destruct s; reflexivity.
Qed.

Lemma textOf_falsy v : Js.truthy v = false -> textOf v = None.
Proof.
  destruct v as [[| b | n | s | l | f] |]; cbn; try reflexivity; try discriminate.
  destruct s; [reflexivity | discriminate].
Qed.

Section EventRoute.
Variable aw : ApiWorld.

Local Abbreviation lib := (library aw).

(** What [/events] does for a request that names the tenant [tid]. *)
Lemma serve_postEvent req db tid :
  JS.orNull (AuthRequest.tenantId req) = Some tid ->
  let body := Request.body (AuthRequest.request req) in
  serve aw (postEvent lib req) db =
  if Js.truthy (Js.get "eventType" body) then
    let d := EventInput.mk tid
               (match Js.get "eventType" body with Some v => v | None => JNull end)
               (if Js.truthy (Js.get "customerId" body)
                then Js.get "customerId" body else None)
               (if Js.truthy (Js.get "orderId" body) then Js.get "orderId" body else None)
               (if Js.truthy (Js.get "metadata" body)
                then option_map (JSON_stringify lib) (Js.get "metadata" body)
                else None) in
    match createEvent d db with
    | inl e => (Returned (failureReply "Failed to record event" e), db, [EventCreate d])
    | inr (_, db1) =>
        (Returned (reply 200 (JObj [("message", JStr "Event recorded successfully")])),
         db1, [EventCreate d])
    end
  else (Returned (errorReply 400 "Event type is required"), db, []).
Proof.
  intros Hid body. unfold postEvent. rewrite Hid. fold body.
  rewrite serve_catch.
  destruct (Js.get "eventType" body) as [eventType |] eqn:Het; [| reflexivity].
  destruct (Js.truthy (Some eventType)) eqn:Ht; [| reflexivity].
  unfold recordEvent. rewrite !serve_andThen, serve_await. cbn [performApi].
  cbn [serviceTenantId newIngestionService].
  assert (Hm : match (if Js.truthy (Js.get "metadata" body)
                      then Js.get "metadata" body else None) with
               | Some m => Some (JSON_stringify lib m)
               | None => None
               end
               = (if Js.truthy (Js.get "metadata" body)
                  then option_map (JSON_stringify lib) (Js.get "metadata" body)
                  else None)).
  { destruct (Js.truthy (Js.get "metadata" body)); [| reflexivity].
    destruct (Js.get "metadata" body); reflexivity. }
  rewrite Hm.
  destruct (createEvent _ db) as [e | [row db1]]; reflexivity.
Qed.

Lemma createEvent_some d db row db1 :
  createEvent d db = inr (row, db1) ->
  exists eventType customerId orderId,
    EventInput.eventType d = JStr eventType
    /\ optionalString (EventInput.customerId d) = Some customerId
    /\ optionalString (EventInput.orderId d) = Some orderId
    /\ tenantById db (EventInput.tenantId d) <> None
    /\ row = EventRecord.mk (newId (serial db)) (EventInput.tenantId d) eventType
                            customerId orderId (EventInput.metadata d)
    /\ db1 = mkDatabase (core db) (users db) (eventRows db ++ [row]) (S (serial db)).
Proof.
  unfold createEvent. intro H.
  destruct (EventInput.eventType d) as [| b | n | s | l | f]; try discriminate.
  destruct (optionalString (EventInput.customerId d)) as [c |]; [| discriminate].
  destruct (optionalString (EventInput.orderId d)) as [o |]; [| discriminate].
  destruct (tenantById db (EventInput.tenantId d)) as [t |] eqn:Ht; [| discriminate].
  injection H as <- <-.
  exists s, c, o. repeat split; congruence.
Qed.
End EventRoute.

Lemma optionalString_orNull v x :
  optionalString (if Js.truthy v then v else None) = Some x -> x = textOf v.
Proof.
  destruct v as [[| b | n | s | l | f] |]; cbn; try congruence.
  - destruct b; cbn; congruence.
  - destruct (JS.truthyNum n); cbn; congruence.
  - destruct s; cbn; congruence.
Qed.

Lemma optionalString_storable v :
  storable v -> optionalString (if Js.truthy v then v else None) <> None.
Proof.
  intros [Hf | [s ->]].
  - rewrite Hf. discriminate.
  - cbn. destruct s; discriminate.
Qed.

(** X13.  The event route stores one row or nothing, and never throws.  For
    a request that names a tenant it answers 400 when the body has no event
    type, or one that is falsy, and then nothing at all is awaited.  With
    any answer but 200 the database is as it was.  With 200 exactly one row
    has been added to the events and nothing else has changed: the row
    belongs to the tenant of the token, has the event type of the body, a
    string that is not empty, and carries the customer id and the order id
    of the body as they came, without either being looked up among the
    customers or the orders.  The answer is 200 whenever the event type is
    a string that is not empty, the two ids are strings or falsy, and the
    tenant of the token exists; when that tenant does not exist the answer
    is 500. *)
Theorem event_route_stores_one_row_or_nothing :
  forall (aw : ApiWorld) (req : AuthRequest.t) (db : Database) (tid : string),
    JS.orNull (AuthRequest.tenantId req) = Some tid ->
    let body := Request.body (AuthRequest.request req) in
    let r := serve aw (postEvent (library aw) req) db in
    (exists rp, replyOf r = Returned rp
                /\ (statusCode rp = 200 \/ statusCode rp = 400 \/ statusCode rp = 500))
    /\ (Js.truthy (Js.get "eventType" body) = false ->
        r = (Returned (errorReply 400 "Event type is required"), db, []))
    /\ (forall rp, replyOf r = Returned rp -> statusCode rp <> 200 -> dbOf r = db)
    /\ (forall rp, replyOf r = Returned rp -> statusCode rp = 200 ->
          exists eventType,
            Js.get "eventType" body = Some (JStr eventType)
            /\ eventType <> ""
            /\ tenantById db tid <> None
            /\ dbOf r = mkDatabase (core db) (users db)
                          (eventRows db ++ [eventRowOf (library aw) db tid eventType body])
                          (S (serial db)))
    /\ (forall eventType,
          Js.get "eventType" body = Some (JStr eventType) -> eventType <> "" ->
          storable (Js.get "customerId" body) -> storable (Js.get "orderId" body) ->
          exists rp, replyOf r = Returned rp
                     /\ statusCode rp = match tenantById db tid with Some _ => 200 | None => 500 end).
Proof.
  intros aw req db tid Hid body r. subst r.
  rewrite (serve_postEvent aw req db Hid). fold body. cbv zeta.
  destruct (Js.truthy (Js.get "eventType" body)) eqn:Ht.
  - (* the event type is truthy *)
    match goal with
    | |- context [createEvent ?d db] => set (input := d)
    end.
    destruct (createEvent input db) as [e | [row db1]] eqn:Hc;
      unfold replyOf, dbOf; cbn [fst snd].
    + split; [eexists; split; [reflexivity | right; right; reflexivity] |].
      split; [discriminate |].
      split; [intros; reflexivity |].
      split; [intros rp H; injection H as <-; cbn; discriminate |].
      intros eventType Het Hne Hcust Hord.
      eexists; split; [reflexivity |]. cbn [statusCode failureReply].
      unfold createEvent in Hc. subst input. cbn [EventInput.eventType EventInput.customerId
        EventInput.orderId EventInput.tenantId] in Hc. rewrite Het in Hc.
      pose proof (optionalString_storable Hcust) as H1.
      pose proof (optionalString_storable Hord) as H2.
      destruct (optionalString _) as [c |]; [| contradiction].
      destruct (optionalString _) as [o |]; [| contradiction].
      destruct (tenantById db tid); [discriminate | reflexivity].
    + apply createEvent_some in Hc
        as (eventType & customerId & orderId & Het & Hcu & Hor & Hten & Hrow & Hdb).
      subst input. cbn [EventInput.eventType EventInput.customerId EventInput.orderId
                        EventInput.tenantId EventInput.metadata] in *.
      apply optionalString_orNull in Hcu. apply optionalString_orNull in Hor.
      assert (Hget : Js.get "eventType" body = Some (JStr eventType)).
      { destruct (Js.get "eventType" body) as [v |]; [congruence | discriminate]. }
      assert (Hne : eventType <> "").
      { rewrite Hget in Ht. cbn in Ht. apply truthy_iff. assumption. }
      split; [eexists; split; [reflexivity | left; reflexivity] |].
      split; [discriminate |].
      split; [intros rp H; injection H as <-; cbn; congruence |].
      split.
      * intros rp _ _. exists eventType.
        split; [assumption |]. split; [assumption |]. split; [assumption |].
        rewrite Hdb, Hrow, Hcu, Hor. reflexivity.
      * intros eventType' _ _ _ _.
        eexists; split; [reflexivity |]. cbn [statusCode].
        destruct (tenantById db tid); [reflexivity | contradiction].
  - (* there is no event type *)
    unfold replyOf, dbOf; cbn [fst snd].
    split; [eexists; split; [reflexivity | right; left; reflexivity] |].
    split; [reflexivity |].
    split; [intros; reflexivity |].
    split; [intros rp H; injection H as <-; cbn; discriminate |].
    intros eventType Het Hne. rewrite Het in Ht. cbn in Ht.
    apply truthy_iff in Hne. congruence.
Qed.

(** An event with a customer id that no customer has: it is stored, for
    the tenant of the token. *)
Lemma event_route_stores_one_row_or_nothing_witness :
  let body := [("eventType", JStr "cart_abandoned"); ("customerId", JStr "no-such-customer")] in
  let r := serve Standin.app (postEvent (library Standin.app) (Standin.asTenant1 body))
                 Standin.db in
  exists rp,
    replyOf r = Returned rp /\ statusCode rp = 200
    /\ eventRows (dbOf r)
       = [EventRecord.mk "id-0" "tenant-1" "cart_abandoned" (Some "no-such-customer") None None].
Proof.
  intros body r.
  destruct (event_route_stores_one_row_or_nothing Standin.app (Standin.asTenant1 body)
              Standin.db eq_refl) as (_ & _ & _ & Hrow & Hok).
  destruct (Hok "cart_abandoned" eq_refl ltac:(discriminate)
                (or_intror (ex_intro _ "no-such-customer" eq_refl))
                (or_introl eq_refl)) as (rp & Hrp & Hst).
  exists rp. split; [exact Hrp |]. split; [exact Hst |].
  destruct (Hrow rp Hrp Hst) as (eventType & Het & _ & _ & Hdb).
  fold r in Hdb. rewrite Hdb.
  injection Het as <-. reflexivity.
Defined.

(* ===================================================================== *)
(** * [tenant.routes.ts] *)
(* ===================================================================== *)

Lemma find_snoc {A : Type} (f : A -> bool) (l : list A) (a : A) :
  find f l = None -> f a = true -> find f (l ++ [a]) = Some a.
Proof.
  induction l as [| x l IH]; cbn; intros Hn Ha; [rewrite Ha; reflexivity |].
  destruct (f x); [discriminate | apply IH; assumption].
Qed.

Lemma find_app_some {A : Type} (f : A -> bool) (l : list A) (a : A) x :
  find f l = Some x -> find f (l ++ [a]) = Some x.
Proof.
  induction l as [| y l IH]; cbn; [discriminate |].
  destruct (f y); [auto | apply IH].
Qed.

Lemma find_app_present {A : Type} (f : A -> bool) (l : list A) (a : A) :
  f a = true -> find f (l ++ [a]) <> None.
Proof.
  intro Ha. induction l as [| y l IH]; cbn; [rewrite Ha; discriminate |].
  destruct (f y); [discriminate | exact IH].
Qed.

Section Calls.
Variable aw : ApiWorld.

Local Abbreviation lib := (library aw).

Lemma serve_tenantFindUnique v db :
  serve aw (tenantFindUnique v) db =
  match asString v with
  | Some shopDomain =>
      (Returned (tenantByDomain db shopDomain), db, [Core (TenantFindUnique shopDomain)])
  | None => (Thrown invalidArgument, db, [])
  end.
Proof.
  unfold tenantFindUnique, stringArgument. destruct (asString v) as [s |]; [| reflexivity].
  cbn [andThen].
  pose proof (serve_await aw (Core (TenantFindUnique s)) db) as H.
  cbn [performApi perform] in H. rewrite setCore_core in H. exact H.
Qed.

Lemma serve_userFindUnique v includeTenant db :
  serve aw (userFindUnique v includeTenant) db =
  match asString v with
  | Some email =>
      (Returned (option_map
                   (fun u => (u, match User.tenantId u with
                                 | Some i => if includeTenant then tenantById db i else None
                                 | None => None
                                 end))
                   (userByEmail db email)), db, [UserFindUnique email includeTenant])
  | None => (Thrown invalidArgument, db, [])
  end.
Proof.
  unfold userFindUnique, stringArgument. destruct (asString v) as [s |]; reflexivity.
Qed.

Lemma serve_bcrypt_hash v rounds db :
  serve aw (bcrypt_hash v rounds) db =
  match asString v with
  | Some password =>
      (Returned (bcryptHash lib password rounds), db, [BcryptHash password rounds])
  | None => (Thrown illegalArguments, db, [])
  end.
Proof.
  unfold bcrypt_hash, stringArgument. destruct (asString v) as [s |]; reflexivity.
Qed.

Lemma serve_bcrypt_compare v hash db :
  serve aw (bcrypt_compare v hash) db =
  match asString v with
  | Some password =>
      (Returned (bcryptCompare lib password hash), db, [BcryptCompare password hash])
  | None => (Thrown illegalArguments, db, [])
  end.
Proof.
  unfold bcrypt_compare, stringArgument. destruct (asString v) as [s |]; reflexivity.
Qed.

Lemma serve_tenantCreate shopDomain accessToken name email db :
  serve aw (tenantCreate shopDomain accessToken name email) db =
  match asString shopDomain, asString accessToken, asString name, asString email with
  | Some d, Some a, Some n, Some e =>
      match tenantByDomain db d with
      | Some _ => (Thrown shopDomainTaken, db, [TenantCreate d a n e])
      | None =>
          let t := Tenant.mk (newId (serial db)) d a n e in
          (Returned t,
           mkDatabase (addTenant (core db) t) (users db) (eventRows db) (S (serial db)),
           [TenantCreate d a n e])
      end
  | _, _, _, _ => (Thrown invalidArgument, db, [])
  end.
Proof.
  unfold tenantCreate, stringArgument.
  destruct (asString shopDomain) as [d |]; [| reflexivity].
  destruct (asString accessToken) as [a |]; [| reflexivity].
  destruct (asString name) as [n |]; [| reflexivity].
  destruct (asString email) as [e |]; [| reflexivity].
  cbn [andThen]. unfold await. cbn [serve performApi].
  destruct (tenantByDomain db d); reflexivity.
Qed.

Lemma serve_userCreate email password name tenantId db :
  serve aw (userCreate email password name tenantId) db =
  match asString email, asString name with
  | Some e, Some n =>
      match userByEmail db e, tenantById db tenantId with
      | Some _, _ => (Thrown emailTaken, db, [UserCreate e password n tenantId])
      | None, None => (Thrown foreignKeyFailed, db, [UserCreate e password n tenantId])
      | None, Some _ =>
          let u := User.mk (newId (serial db)) e password (Some n) (Some tenantId) in
          (Returned u,
           mkDatabase (core db) (users db ++ [u]) (eventRows db) (S (serial db)),
           [UserCreate e password n tenantId])
      end
  | _, _ => (Thrown invalidArgument, db, [])
  end.
Proof.
  unfold userCreate, stringArgument.
  destruct (asString email) as [e |]; [| reflexivity].
  destruct (asString name) as [n |]; [| reflexivity].
  cbn [andThen]. unfold await. cbn [serve performApi].
  destruct (userByEmail db e); [reflexivity |]. destruct (tenantById db tenantId); reflexivity.
Qed.
End Calls.

Lemma fieldText_asString name body s :
  asString (Js.get name body) = Some s -> fieldText name body = s.
Proof. unfold fieldText. intros ->. reflexivity. Qed.

Lemma asString_some v s : asString v = Some s <-> v = Some (JStr s).
Proof.
  split; [| intros ->; reflexivity].
  destruct v as [[| b | n | t | items | fields] |]; cbn; intro H; try discriminate.
  injection H as <-. reflexivity.
Qed.

Lemma asString_none v : asString v = None <-> forall s, v <> Some (JStr s).
Proof.
  split.
  - intros H s ->. discriminate.
  - destruct v as [[| b | n | t | items | fields] |]; cbn; intro H; try reflexivity.
    destruct (H t). reflexivity.
Qed.

(** The five fields of a registration are strings when each of them is. *)
Lemma allText_fields body :
  AllText body <->
  exists d a n e p,
    asString (Js.get "shopDomain" body) = Some d
    /\ asString (Js.get "accessToken" body) = Some a
    /\ asString (Js.get "name" body) = Some n
    /\ asString (Js.get "email" body) = Some e
    /\ asString (Js.get "password" body) = Some p.
Proof.
  unfold AllText. split.
  - intro H.
    destruct (H "shopDomain") as [d Hd]; [cbn; tauto |].
    destruct (H "accessToken") as [a Ha]; [cbn; tauto |].
    destruct (H "name") as [n Hn]; [cbn; tauto |].
    destruct (H "email") as [e He]; [cbn; tauto |].
    destruct (H "password") as [p Hp]; [cbn; tauto |].
    exists d, a, n, e, p. rewrite Hd, Ha, Hn, He, Hp. repeat split.
  - intros (d & a & n & e & p & Hd & Ha & Hn & He & Hp) field Hin.
    apply asString_some in Hd, Ha, Hn, He, Hp.
    cbn in Hin. destruct Hin as [<- | [<- | [<- | [<- | [<- | []]]]]]; eauto.
Qed.

Section Tenants.
Variable aw : ApiWorld.
Variable env : Env.t.
Variable chain : Chain.t.

Local Abbreviation lib := (library aw).

(** What [/register] does, case by case. *)
Lemma serve_register body db :
  serve aw (register lib env chain body) db =
  match registerErrors chain body with
  | (_ :: _) as errors => (Returned (validationReply errors), db, [])
  | [] =>
      let failed e := Returned (failureReply "Failed to register tenant" e) in
      match asString (Js.get "shopDomain" body) with
      | None => (failed invalidArgument, db, [])
      | Some shopDomain =>
          match tenantByDomain db shopDomain with
          | Some _ =>
              (Returned (errorReply 400 "Tenant with this shop domain already exists"), db,
               [Core (TenantFindUnique shopDomain)])
          | None =>
              match asString (Js.get "email" body) with
              | None => (failed invalidArgument, db, [Core (TenantFindUnique shopDomain)])
              | Some email =>
                  match userByEmail db email with
                  | Some _ =>
                      (Returned (errorReply 400 "User with this email already exists"), db,
                       [Core (TenantFindUnique shopDomain); UserFindUnique email false])
                  | None =>
                      match asString (Js.get "password" body) with
                      | None =>
                          (failed illegalArguments, db,
                           [Core (TenantFindUnique shopDomain); UserFindUnique email false])
                      | Some password =>
                          match asString (Js.get "accessToken" body),
                                asString (Js.get "name" body) with
                          | Some accessToken, Some name =>
                              (Returned
                                 (reply 201
                                    (JObj [("message", JStr "Tenant registered successfully");
                                           ("tenant", tenantJson (newTenant db body));
                                           ("user", userJson (newUser lib db body));
                                           ("token",
                                            JStr (tokenFor lib env (newUser lib db body)))])),
                               registered lib db body,
                               [Core (TenantFindUnique shopDomain);
                                UserFindUnique email false;
                                BcryptHash password 10;
                                TenantCreate shopDomain accessToken name email;
                                UserCreate email (bcryptHash lib password 10) name
                                           (newId (serial db))])
                          | _, _ =>
                              (failed invalidArgument, db,
                               [Core (TenantFindUnique shopDomain);
                                UserFindUnique email false; BcryptHash password 10])
                          end
                      end
                  end
              end
          end
      end
  end.
Proof.
  unfold register. rewrite serve_catch.
  destruct (registerErrors chain body) as [| m errors]; [| reflexivity].
  cbv zeta.
  rewrite serve_andThen, serve_tenantFindUnique.
  destruct (asString (Js.get "shopDomain" body)) as [shopDomain |] eqn:Ed; [| reflexivity].
  destruct (tenantByDomain db shopDomain) as [t |] eqn:Hd; [reflexivity |].
  rewrite serve_andThen, serve_userFindUnique.
  destruct (asString (Js.get "email" body)) as [email |] eqn:Ee; [| reflexivity].
  destruct (userByEmail db email) as [u |] eqn:Hu; [reflexivity |].
  cbn [option_map].
  rewrite serve_andThen, serve_bcrypt_hash.
  destruct (asString (Js.get "password" body)) as [password |] eqn:Ep; [| reflexivity].
  rewrite serve_andThen, serve_tenantCreate. rewrite Ed, Ee.
  destruct (asString (Js.get "accessToken" body)) as [accessToken |] eqn:Ea; [| reflexivity].
  destruct (asString (Js.get "name" body)) as [name |] eqn:En; [| reflexivity].
  rewrite Hd. cbv beta iota zeta.
  rewrite serve_andThen, serve_userCreate. rewrite Ee, En.
  cbn [Tenant.id].
  (* the user is created: its e-mail is free and its tenant is there *)
  set (tenant := Tenant.mk (newId (serial db)) shopDomain accessToken name email).
  assert (Hu' : userByEmail
                  (mkDatabase (addTenant (core db) tenant) (users db)
                              (eventRows db) (S (serial db))) email = None) by exact Hu.
  rewrite Hu'.
  assert (Ht' : tenantById
                  (mkDatabase (addTenant (core db) tenant) (users db)
                              (eventRows db) (S (serial db)))
                  (newId (serial db)) <> None).
  { unfold tenantById, addTenant. cbn [core tenants].
    apply find_app_present. apply String.eqb_refl. }
  destruct (tenantById _ (newId (serial db))) as [t |]; [| contradiction].
  assert (E : newTenant db body = tenant).
  { unfold newTenant. rewrite (fieldText_asString _ _ Ed), (fieldText_asString _ _ Ea),
      (fieldText_asString _ _ En), (fieldText_asString _ _ Ee). reflexivity. }
  assert (Eu : newUser lib db body
               = User.mk (newId (S (serial db))) email (bcryptHash lib password 10)
                         (Some name) (Some (newId (serial db)))).
  { unfold newUser. rewrite (fieldText_asString _ _ Ee), (fieldText_asString _ _ Ep),
      (fieldText_asString _ _ En). reflexivity. }
  unfold registered. rewrite E, Eu. reflexivity.
Qed.

(** What [/login] does, case by case. *)
Lemma serve_login body db :
  serve aw (login lib env chain body) db =
  match loginErrors chain body with
  | (_ :: _) as errors => (Returned (validationReply errors), db, [])
  | [] =>
      let failed e := Returned (failureReply "Failed to login" e) in
      match asString (Js.get "email" body) with
      | None => (failed invalidArgument, db, [])
      | Some email =>
          match userByEmail db email with
          | None =>
              (Returned (errorReply 401 "Invalid email or password"), db,
               [UserFindUnique email true])
          | Some user =>
              match asString (Js.get "password" body) with
              | None => (failed illegalArguments, db, [UserFindUnique email true])
              | Some password =>
                  if bcryptCompare lib password (User.password user)
                  then
                    (Returned
                       (reply 200
                          (JObj [("message", JStr "Login successful");
                                 ("user", userJson user);
                                 ("tenant", match User.tenantId user with
                                            | Some i => match tenantById db i with
                                                        | Some t => tenantJson t
                                                        | None => JNull
                                                        end
                                            | None => JNull
                                            end);
                                 ("token", JStr (tokenFor lib env user))])),
                     db,
                     [UserFindUnique email true;
                      BcryptCompare password (User.password user)])
                  else
                    (Returned (errorReply 401 "Invalid email or password"), db,
                     [UserFindUnique email true;
                      BcryptCompare password (User.password user)])
              end
          end
      end
  end.
Proof.
  unfold login. rewrite serve_catch.
  destruct (loginErrors chain body) as [| m errors]; [| reflexivity].
  cbv zeta.
  rewrite serve_andThen, serve_userFindUnique.
  destruct (asString (Js.get "email" body)) as [email |]; [| reflexivity].
  destruct (userByEmail db email) as [user |]; [| reflexivity].
  cbn [option_map].
  rewrite serve_andThen, serve_bcrypt_compare.
  destruct (asString (Js.get "password" body)) as [password |]; [| reflexivity].
  destruct (bcryptCompare lib password (User.password user)); [| reflexivity].
  cbn [negb]. unfold tokenFor, signingSecret.
  destruct (User.tenantId user) as [i |]; [| reflexivity].
  destruct (tenantById db i); reflexivity.
Qed.
End Tenants.

Local Ltac someField H :=
  apply allText_fields in H;
  destruct H as (? & ? & ? & ? & ? & ? & ? & ? & ? & ?); congruence.

(** X14.  A registration adds a tenant and its user, or nothing.  The body
    of the request is any JSON object, and the checks are those of the
    validation library, whatever they make of its fields.  The route
    answers 201, 400 or 500 and never throws.  It answers 201 exactly when
    the body passes the checks, its five fields are strings and neither the
    shop domain nor the e-mail address is taken; the database then has one
    tenant and one user more, the user belongs to that tenant and is stored
    with the hash of the password that the hashing library gives, and the
    token of the reply is signed for this user and this tenant.  With any
    other answer the database is as it was.  A body that fails the checks
    is answered 400 with the messages of the checks, and nothing has been
    awaited.  500 is the answer only to a body that passes the checks with
    a field that is not a string. *)
Theorem registration_adds_tenant_and_user_or_nothing :
  forall (aw : ApiWorld) (env : Env.t) (chain : Chain.t) (body : list (string * Json))
         (db : Database),
    let lib := library aw in
    let r := serve aw (register lib env chain body) db in
    exists rp,
      replyOf r = Returned rp
      /\ In (statusCode rp) [201; 400; 500]
      /\ (statusCode rp = 201 <-> Registrable chain db body)
      /\ (statusCode rp = 201 ->
          dbOf r = registered lib db body
          /\ Js.member "token" (json rp) = Some (JStr (tokenFor lib env (newUser lib db body)))
          /\ User.tenantId (newUser lib db body) = Some (Tenant.id (newTenant db body)))
      /\ (statusCode rp <> 201 -> dbOf r = db)
      /\ (registerErrors chain body <> [] ->
          rp = validationReply (registerErrors chain body) /\ awaitedBy r = [])
      /\ (statusCode rp = 500 -> registerErrors chain body = [] /\ ~ AllText body).
Proof.
  intros aw env chain body db lib r. subst r. rewrite serve_register. fold lib.
  unfold Registrable.
  destruct (registerErrors chain body) as [| m errors].
  2:{ eexists. unfold replyOf, dbOf, awaitedBy; cbn [fst snd statusCode validationReply].
      split; [reflexivity |]. split; [cbn; tauto |].
      split; [split; [discriminate | intros (H & _); discriminate] |].
      split; [discriminate |]. split; [reflexivity |].
      split; [intros _; split; reflexivity | discriminate]. }
  cbv zeta.
  destruct (asString (Js.get "shopDomain" body)) as [shopDomain |] eqn:Ed.
  2:{ eexists. unfold replyOf, dbOf, awaitedBy; cbn [fst snd statusCode failureReply].
      split; [reflexivity |]. split; [cbn; tauto |].
      split; [split; [discriminate | intros (_ & H & _); someField H] |].
      split; [discriminate |]. split; [reflexivity |].
      split; [congruence |]. intros _. split; [reflexivity | intro H; someField H]. }
  pose proof (fieldText_asString _ _ Ed) as Fd.
  destruct (tenantByDomain db shopDomain) as [t |] eqn:Hd.
  { eexists. unfold replyOf, dbOf, awaitedBy; cbn [fst snd statusCode errorReply].
    split; [reflexivity |]. split; [cbn; tauto |].
    split; [split; [discriminate | intros (_ & _ & H & _); congruence] |].
    split; [discriminate |]. split; [reflexivity |].
    split; [congruence | discriminate]. }
  destruct (asString (Js.get "email" body)) as [email |] eqn:Ee.
  2:{ eexists. unfold replyOf, dbOf, awaitedBy; cbn [fst snd statusCode failureReply].
      split; [reflexivity |]. split; [cbn; tauto |].
      split; [split; [discriminate | intros (_ & H & _); someField H] |].
      split; [discriminate |]. split; [reflexivity |].
      split; [congruence |]. intros _. split; [reflexivity | intro H; someField H]. }
  pose proof (fieldText_asString _ _ Ee) as Fe.
  destruct (userByEmail db email) as [u |] eqn:Hu.
  { eexists. unfold replyOf, dbOf, awaitedBy; cbn [fst snd statusCode errorReply].
    split; [reflexivity |]. split; [cbn; tauto |].
    split; [split; [discriminate | intros (_ & _ & _ & H); congruence] |].
    split; [discriminate |]. split; [reflexivity |].
    split; [congruence | discriminate]. }
  destruct (asString (Js.get "password" body)) as [password |] eqn:Ep.
  2:{ eexists. unfold replyOf, dbOf, awaitedBy; cbn [fst snd statusCode failureReply].
      split; [reflexivity |]. split; [cbn; tauto |].
      split; [split; [discriminate | intros (_ & H & _); someField H] |].
      split; [discriminate |]. split; [reflexivity |].
      split; [congruence |]. intros _. split; [reflexivity | intro H; someField H]. }
  destruct (asString (Js.get "accessToken" body)) as [accessToken |] eqn:Ea.
  2:{ eexists. unfold replyOf, dbOf, awaitedBy; cbn [fst snd statusCode failureReply].
      split; [reflexivity |]. split; [cbn; tauto |].
      split; [split; [discriminate | intros (_ & H & _); someField H] |].
      split; [discriminate |]. split; [reflexivity |].
      split; [congruence |]. intros _. split; [reflexivity | intro H; someField H]. }
  destruct (asString (Js.get "name" body)) as [name |] eqn:En.
  2:{ eexists. unfold replyOf, dbOf, awaitedBy; cbn [fst snd statusCode failureReply].
      split; [reflexivity |]. split; [cbn; tauto |].
      split; [split; [discriminate | intros (_ & H & _); someField H] |].
      split; [discriminate |]. split; [reflexivity |].
      split; [congruence |]. intros _. split; [reflexivity | intro H; someField H]. }
  eexists. unfold replyOf, dbOf, awaitedBy; cbn [fst snd statusCode].
  split; [reflexivity |]. split; [cbn; tauto |].
  split.
  { split; [intros _ | reflexivity].
    split; [reflexivity |]. split; [| rewrite Fd, Fe; split; assumption].
    apply allText_fields. exists shopDomain, accessToken, name, email, password. tauto. }
  split; [intros _; repeat split |].
  split; [intro H; destruct H; reflexivity |].
  split; [congruence | discriminate].
Qed.

Lemma acme_registrable : Registrable Standin.chain Acme.empty Acme.registration.
Proof.
  split; [reflexivity |]. split; [| split; reflexivity].
  intros field Hin. cbn in Hin.
  destruct Hin as [<- | [<- | [<- | [<- | [<- | []]]]]]; eexists; reflexivity.
Qed.

(** The shop registers in an empty database: one tenant, one user, whose
    password is stored hashed. *)
Lemma registration_adds_tenant_and_user_or_nothing_witness :
  let r := serve Standin.app (register (library Standin.app) Standin.bare Standin.chain
                                Acme.registration) Acme.empty in
  tenants (core (dbOf r))
  = [Tenant.mk "id-0" "acme.myshopify.com" "shpat_9f2c" "Acme" "owner@acme.example"]
  /\ users (dbOf r)
     = [User.mk "id-1" "owner@acme.example" "$2a$s3cret!" (Some "Acme") (Some "id-0")].
Proof.
  intro r.
  destruct (registration_adds_tenant_and_user_or_nothing Standin.app Standin.bare
              Standin.chain Acme.registration Acme.empty) as (rp & _ & _ & Hiff & H201 & _).
  destruct (H201 (proj2 Hiff acme_registrable)) as (Hdb & _).
  fold r in Hdb. rewrite Hdb. split; reflexivity.
Defined.

(** A password of five characters, two of which take two bytes each, does
    not pass the check of its length: nothing is stored. *)
Example registration_with_short_password :
  let r := serve Standin.app
             (register (library Standin.app) Standin.bare Standin.chain
                (Acme.withPassword (JStr Acme.accented))) Acme.empty in
  String.length Acme.accented = 7
  /\ Standin.characters Acme.accented = 5
  /\ r = (Returned (validationReply ["Password must be at least 6 characters"]),
          Acme.empty, []).
Proof. split; [| split]; reflexivity. Qed.

(** A password that is an object passes the checks, which read it as a text
    of fifteen characters, and is refused by the hashing library: the
    answer is 500, and nothing is stored. *)
Example registration_with_password_object :
  let r := serve Standin.app
             (register (library Standin.app) Standin.bare Standin.chain
                (Acme.withPassword (JObj []))) Acme.empty in
  registerErrors Standin.chain (Acme.withPassword (JObj [])) = []
  /\ r = (Returned (failureReply "Failed to register tenant" illegalArguments),
          Acme.empty,
          [Core (TenantFindUnique "acme.myshopify.com");
           UserFindUnique "owner@acme.example" false]).
Proof. split; reflexivity. Qed.

(** X15.  A login changes nothing and does not tell whether an e-mail
    address is registered.  The body of the request is any JSON object.
    The route answers 200, 400, 401 or 500, never throws and leaves the
    database as it was.  When the body passes the checks and its e-mail
    address is a string, an address that no user has and a password that
    the hashing library does not accept for the user are answered with one
    and the same reply, 401 "Invalid email or password".  The answer is 200
    exactly when the body passes the checks, a user has the address, the
    password is a string and the library accepts it for the stored hash;
    the token of the reply is then signed for that user.  It is 500 exactly
    when the body passes the checks and either the address is not a string,
    or a user has it and the password is not a string. *)
Theorem login_does_not_tell_unknown_address_from_wrong_password :
  forall (aw : ApiWorld) (env : Env.t) (chain : Chain.t) (body : list (string * Json))
         (db : Database),
    let lib := library aw in
    let r := serve aw (login lib env chain body) db in
    let email := asString (Js.get "email" body) in
    let password := asString (Js.get "password" body) in
    dbOf r = db
    /\ exists rp,
         replyOf r = Returned rp
         /\ In (statusCode rp) [200; 400; 401; 500]
         /\ (forall address,
               loginErrors chain body = [] -> email = Some address ->
               (userByEmail db address = None
                \/ exists user word,
                     userByEmail db address = Some user
                     /\ password = Some word
                     /\ bcryptCompare lib word (User.password user) = false) ->
               rp = errorReply 401 "Invalid email or password")
         /\ (statusCode rp = 200 <->
             loginErrors chain body = []
             /\ exists address user word,
                  email = Some address
                  /\ userByEmail db address = Some user
                  /\ password = Some word
                  /\ bcryptCompare lib word (User.password user) = true)
         /\ (forall address user,
               statusCode rp = 200 -> email = Some address ->
               userByEmail db address = Some user ->
               Js.member "token" (json rp) = Some (JStr (tokenFor lib env user)))
         /\ (statusCode rp = 500 <->
             loginErrors chain body = []
             /\ (email = None
                 \/ exists address user,
                      email = Some address /\ userByEmail db address = Some user
                      /\ password = None))
         /\ (loginErrors chain body <> [] ->
             rp = validationReply (loginErrors chain body) /\ awaitedBy r = []).
Proof.
  intros aw env chain body db lib r email password. subst r. rewrite serve_login. fold lib.
  destruct (loginErrors chain body) as [| m errors].
  2:{ split; [reflexivity |]. eexists.
      unfold replyOf, awaitedBy; cbn [fst snd statusCode validationReply].
      split; [reflexivity |]. split; [cbn; tauto |].
      split; [discriminate |].
      split; [split; [discriminate | intros (H & _); discriminate] |].
      split; [discriminate |].
      split; [split; [discriminate | intros (H & _); discriminate] |].
      intros _. split; reflexivity. }
  cbv zeta. fold email password.
  destruct email as [address |] eqn:Ee.
  2:{ split; [reflexivity |]. eexists.
      unfold replyOf, awaitedBy; cbn [fst snd statusCode failureReply].
      split; [reflexivity |]. split; [cbn; tauto |].
      split; [discriminate |].
      split; [split; [discriminate | intros (_ & a & u & w & H & _); discriminate] |].
      split; [discriminate |].
      split; [split; [intros _; split; [reflexivity | left; reflexivity] | reflexivity] |].
      congruence. }
  destruct (userByEmail db address) as [user |] eqn:Hu.
  2:{ split; [reflexivity |]. eexists.
      unfold replyOf, awaitedBy; cbn [fst snd statusCode errorReply].
      split; [reflexivity |]. split; [cbn; tauto |].
      split; [reflexivity |].
      split.
      { split; [discriminate |]. intros (_ & a & u & w & Ha & Hf & _).
        injection Ha as <-. congruence. }
      split; [discriminate |].
      split; [| congruence].
      split; [discriminate |]. intros (_ & [H | (a & u & Ha & Hf & _)]); [discriminate |].
      injection Ha as <-. congruence. }
  destruct password as [word |] eqn:Ep.
  2:{ split; [reflexivity |]. eexists.
      unfold replyOf, awaitedBy; cbn [fst snd statusCode failureReply].
      split; [reflexivity |]. split; [cbn; tauto |].
      split.
      { intros a _ Ha [H | (u & w & _ & Hw & _)]; [| discriminate].
        injection Ha as <-. congruence. }
      split; [split; [discriminate | intros (_ & a & u & w & _ & _ & H & _); discriminate] |].
      split; [discriminate |].
      split; [| congruence].
      split; [intros _; split; [reflexivity | right; eauto] | reflexivity]. }
  destruct (bcryptCompare lib word (User.password user)) eqn:Hc.
  - split; [reflexivity |]. eexists.
    unfold replyOf, awaitedBy; cbn [fst snd statusCode].
    split; [reflexivity |]. split; [cbn; tauto |].
    split.
    { intros a _ Ha [H | (u & w & Hf & Hw & Hn)]; injection Ha as <-; [congruence |].
      injection Hw as <-. congruence. }
    split; [split; [intros _; split; [reflexivity | eauto 8] | reflexivity] |].
    split.
    { intros a u _ Ha Hf. injection Ha as <-. rewrite Hu in Hf. injection Hf as <-.
      reflexivity. }
    split; [| congruence].
    split; [discriminate |].
    intros (_ & [H | (a & u & _ & _ & H)]); discriminate.
  - split; [reflexivity |]. eexists.
    unfold replyOf, awaitedBy; cbn [fst snd statusCode errorReply].
    split; [reflexivity |]. split; [cbn; tauto |].
    split; [reflexivity |].
    split.
    { split; [discriminate |]. intros (_ & a & u & w & Ha & Hf & Hw & Hn).
      injection Ha as <-. injection Hw as <-. rewrite Hu in Hf. injection Hf as <-.
      congruence. }
    split; [discriminate |].
    split; [| congruence].
    split; [discriminate |].
    intros (_ & [H | (a & u & _ & _ & H)]); discriminate.
Qed.

(** The owner of [Acme] is registered; a login with a password that is an
    object passes the checks and is refused by the hashing library: the
    answer is 500.  With the address of nobody the same login is answered
    401. *)
Example login_with_password_object :
  let db1 := registered Standin.library Acme.empty Acme.registration in
  let entry address := [("email", JStr address); ("password", JObj [])] in
  serve Standin.app (login (library Standin.app) Standin.bare Standin.chain
                       (entry "owner@acme.example")) db1
  = (Returned (failureReply "Failed to login" illegalArguments), db1,
     [UserFindUnique "owner@acme.example" true])
  /\ serve Standin.app (login (library Standin.app) Standin.bare Standin.chain
                          (entry "nobody@acme.example")) db1
     = (Returned (errorReply 401 "Invalid email or password"), db1,
        [UserFindUnique "nobody@acme.example" true]).
Proof. split; reflexivity. Qed.

Lemma registered_userByEmail lib db body :
  userByEmail db (fieldText "email" body) = None ->
  userByEmail (registered lib db body) (fieldText "email" body)
  = Some (newUser lib db body).
Proof.
  unfold userByEmail, registered. cbn [users]. intro H.
  apply find_snoc; [exact H | apply String.eqb_refl].
Qed.

Lemma registered_tenantByDomain lib db body :
  tenantByDomain (registered lib db body) (fieldText "shopDomain" body) <> None.
Proof.
  unfold tenantByDomain, registered, addTenant. cbn [core tenants].
  apply find_app_present. apply String.eqb_refl.
Qed.

(** X16.  After a registration the same e-mail address and password log
    in, provided the login passes its own checks and the hashing library
    accepts a password for its own hash.  The login is answered 200, with
    the user that the registration stored and a token signed for that user
    and the new tenant, and it changes nothing.  A second registration with
    the same body is answered 400 and changes nothing either. *)
Theorem registration_then_login :
  forall (aw : ApiWorld) (env : Env.t) (chain : Chain.t)
         (body entryBody : list (string * Json)) (db : Database),
    let lib := library aw in
    let password := fieldText "password" body in
    Registrable chain db body ->
    Js.get "email" entryBody = Js.get "email" body ->
    Js.get "password" entryBody = Js.get "password" body ->
    loginErrors chain entryBody = [] ->
    bcryptCompare lib password (bcryptHash lib password 10) = true ->
    let db1 := dbOf (serve aw (register lib env chain body) db) in
    let again := serve aw (register lib env chain body) db1 in
    let entry := serve aw (login lib env chain entryBody) db1 in
    db1 = registered lib db body
    /\ dbOf entry = db1
    /\ (exists rp,
          replyOf entry = Returned rp
          /\ statusCode rp = 200
          /\ Js.member "user" (json rp) = Some (userJson (newUser lib db body))
          /\ Js.member "token" (json rp)
             = Some (JStr (jwtSign lib (Jwt.mk (Some (User.id (newUser lib db body)))
                                               (Some (Tenant.id (newTenant db body)))
                                               (Some (fieldText "email" body)))
                                   (signingSecret env))))
    /\ dbOf again = db1
    /\ replyOf again
       = Returned (errorReply 400 "Tenant with this shop domain already exists").
Proof.
  intros aw env chain body entryBody db lib password (Hv & Ha & Hd & Hu) He Hw Hl Hc
         db1 again entry.
  apply allText_fields in Ha.
  destruct Ha as (d & a & n & e & p & Ed & Ea & En & Ee & Ep).
  pose proof (fieldText_asString _ _ Ed) as Fd.
  pose proof (fieldText_asString _ _ Ee) as Fe.
  pose proof (fieldText_asString _ _ Ep) as Fp.
  assert (E1 : db1 = registered lib db body).
  { subst db1. rewrite serve_register. fold lib. rewrite Hv. cbv zeta.
    rewrite Ed, Ee, Ep, Ea, En. rewrite <- Fd, Hd. rewrite <- Fe, Hu. reflexivity. }
  assert (Hf : userByEmail (registered lib db body) e = Some (newUser lib db body)).
  { rewrite <- Fe. apply registered_userByEmail. exact Hu. }
  assert (Hp : bcryptCompare lib p (User.password (newUser lib db body)) = true).
  { unfold newUser. cbn [User.password]. fold password. unfold password in *.
    rewrite Fp in *. exact Hc. }
  assert (E2 : entry
               = (Returned
                    (reply 200
                       (JObj [("message", JStr "Login successful");
                              ("user", userJson (newUser lib db body));
                              ("tenant",
                               match tenantById (registered lib db body) (newId (serial db)) with
                               | Some t => tenantJson t
                               | None => JNull
                               end);
                              ("token", JStr (tokenFor lib env (newUser lib db body)))])),
                  registered lib db body,
                  [UserFindUnique e true;
                   BcryptCompare p (User.password (newUser lib db body))])).
  { subst entry. rewrite E1, serve_login. fold lib.
    rewrite Hl. cbv zeta. rewrite He, Hw, Ee, Ep, Hf, Hp. reflexivity. }
  assert (E3 : again
               = (Returned (errorReply 400 "Tenant with this shop domain already exists"),
                  registered lib db body,
                  [Core (TenantFindUnique d)])).
  { subst again. rewrite E1, serve_register. fold lib. rewrite Hv. cbv zeta.
    rewrite Ed.
    pose proof (registered_tenantByDomain lib db body) as Ht. rewrite Fd in Ht.
    destruct (tenantByDomain (registered lib db body) d) as [t |]; [| contradiction].
    reflexivity. }
  rewrite E2, E3, E1. unfold replyOf, dbOf. cbn [fst snd].
  split; [reflexivity |]. split; [reflexivity |].
  split; [| split; reflexivity].
  eexists. split; [reflexivity |]. split; [reflexivity |]. split; reflexivity.
Qed.

Lemma registration_then_login_witness :
  let db1 := dbOf (serve Standin.app (register (library Standin.app) Standin.bare
                                        Standin.chain Acme.registration) Acme.empty) in
  exists rp,
    replyOf (serve Standin.app (login (library Standin.app) Standin.bare Standin.chain
                                  Acme.entry) db1) = Returned rp
    /\ statusCode rp = 200
    /\ Js.member "token" (json rp) = Some (JStr "secret-key:id-1:id-0:owner@acme.example").
Proof.
  intro db1.
  destruct (@registration_then_login Standin.app Standin.bare Standin.chain
              Acme.registration Acme.entry Acme.empty
              acme_registrable eq_refl eq_refl eq_refl eq_refl)
    as (_ & _ & (rp & Hr & Hs & _ & Ht) & _).
  exists rp. split; [exact Hr |]. split; [exact Hs |]. rewrite Ht. reflexivity.
Defined.

(** The header [Bearer <token>] gives the token back. *)
Lemma bearerToken_bearer token :
  token <> EmptyString -> hasChar " " token = false ->
  bearerToken (Some ("Bearer " ++ token)%string) = Some token.
Proof.
  intros Hne Hb. unfold bearerToken.
  change (JS.orNull (Some ("Bearer " ++ token)%string))
    with (Some ("Bearer " ++ token)%string).
  change ("Bearer " ++ token)%string with ("Bearer" ++ String " " token)%string.
  cbv beta iota. rewrite split_app by reflexivity. rewrite split_word by exact Hb. cbn [nth_error].
  destruct token; [contradiction | reflexivity].
Qed.

Lemma secrets_differ_by_default env :
  JS.orNull (Env.JWT_SECRET env) = None -> checkingSecret env <> signingSecret env.
Proof.
  unfold checkingSecret, signingSecret, JS.strOr. intros ->. discriminate.
Qed.

Lemma secrets_agree_when_set env :
  JS.orNull (Env.JWT_SECRET env) <> None -> checkingSecret env = signingSecret env.
Proof.
  unfold checkingSecret, signingSecret, JS.strOr.
  destruct (JS.orNull (Env.JWT_SECRET env)); [reflexivity | contradiction].
Qed.

(** X17.  Tokens are signed and checked with different default secrets.
    Take the token that [/register] or [/login] issues for a user, sent
    back as [Bearer <token>], and a JWT library that verifies the token
    under the secret it was signed with and under no other.  When
    JWT_SECRET is unset or empty, the token is signed with "secret-key"
    and checked against "your-secret-key-change-in-production": the
    middleware answers 403 "Invalid or expired token", and so does every
    route behind it, [/me] included.  When JWT_SECRET is set, the request
    gets through with the user and the tenant of the token. *)
Theorem issued_token_is_refused_without_jwt_secret :
  forall (lib : Library) (env : Env.t) (user : User.t) (body : list (string * Json)),
    let token := tokenFor lib env user in
    let req := Request.mk (Some ("Bearer " ++ token)%string) body in
    let through := AuthRequest.mk req (Some (User.id user)) (User.tenantId user) in
    token <> EmptyString ->
    hasChar " " token = false ->
    jwtVerify lib token (signingSecret env)
    = inr (Jwt.mk (Some (User.id user)) (User.tenantId user) (Some (User.email user))) ->
    (forall other, other <> signingSecret env -> exists e, jwtVerify lib token other = inl e) ->
    (JS.orNull (Env.JWT_SECRET env) = None ->
     authenticateToken lib env req = inl (errorReply 403 "Invalid or expired token")
     /\ getMe lib env req = Done (errorReply 403 "Invalid or expired token")
     /\ forall handler,
          behindAuth lib env handler req = Done (errorReply 403 "Invalid or expired token"))
    /\ (JS.orNull (Env.JWT_SECRET env) <> None ->
        authenticateToken lib env req = inr through
        /\ getMe lib env req = me through
        /\ forall handler,
             JS.orNull (User.tenantId user) <> None ->
             behindAuth lib env handler req = handler through).
Proof.
  intros lib env user body token req through Hne Hb Hown Hother.
  pose proof (bearerToken_bearer Hne Hb) as Ht.
  split; intro Hs.
  - destruct (Hother (checkingSecret env) (secrets_differ_by_default env Hs)) as (e & He).
    assert (Ha : authenticateToken lib env req
                 = inl (errorReply 403 "Invalid or expired token")).
    { unfold authenticateToken. subst req. cbn [Request.authorization]. rewrite Ht.
      cbv zeta. fold (checkingSecret env). rewrite He. reflexivity. }
    split; [exact Ha |]. split.
    + unfold getMe. rewrite Ha. reflexivity.
    + intro handler. unfold behindAuth. rewrite Ha. reflexivity.
  - assert (Ha : authenticateToken lib env req = inr through).
    { unfold authenticateToken. subst req. cbn [Request.authorization]. rewrite Ht.
      cbv zeta. fold (checkingSecret env). rewrite (secrets_agree_when_set env Hs), Hown.
      reflexivity. }
    split; [exact Ha |]. split.
    + unfold getMe. rewrite Ha. reflexivity.
    + intros handler Htid. unfold behindAuth. rewrite Ha. unfold requireTenant.
      subst through. cbn [AuthRequest.tenantId].
      destruct (JS.orNull (User.tenantId user)); [reflexivity | contradiction].
Qed.

Lemma standin_verify_other (k other : string) :
  hasChar ":" k = false -> other <> k ->
  forall u t e,
    hasChar ":" u = false -> hasChar ":" t = false -> hasChar ":" e = false ->
    exists err,
      Standin.verify (k ++ String ":" (u ++ String ":" (t ++ String ":" e)))%string other
      = inl err.
Proof.
  intros Hk Hne u t e Hu Ht He. unfold Standin.verify.
  rewrite !split_app by assumption. rewrite split_word by assumption.
  destruct (String.eqb k other) eqn:E; [| eexists; reflexivity].
  apply String.eqb_eq in E. congruence.
Qed.

(** The token of the user of [Acme], issued and sent back with no
    JWT_SECRET in the environment, is answered 403. *)
Lemma issued_token_is_refused_without_jwt_secret_witness :
  let user := User.mk "id-1" "owner@acme.example" "$2a$s3cret!" (Some "Acme") (Some "id-0") in
  tokenFor Standin.library Standin.bare user = "secret-key:id-1:id-0:owner@acme.example"
  /\ getMe Standin.library Standin.bare
           (Request.mk (Some "Bearer secret-key:id-1:id-0:owner@acme.example") [])
     = Done (errorReply 403 "Invalid or expired token").
Proof.
  intro user. split; [reflexivity |].
  assert (Hother : forall other,
             other <> signingSecret Standin.bare ->
             exists e, jwtVerify Standin.library (tokenFor Standin.library Standin.bare user)
                                 other = inl e).
  { intros other Hne.
    apply (@standin_verify_other "secret-key" other eq_refl Hne
             "id-1" "id-0" "owner@acme.example" eq_refl eq_refl eq_refl). }
  destruct (@issued_token_is_refused_without_jwt_secret Standin.library Standin.bare user []
              ltac:(discriminate) eq_refl eq_refl Hother) as (Hunset & _).
  destruct (Hunset eq_refl) as (_ & Hme & _).
  exact Hme.
Defined.
